(** * CommitStateDB: the transactional EVM state overlay of x/evm/types/statedb.go

    A shallow embedding of [CommitStateDB] and of the operations around it,
    followed by the properties of the overlay.

    Representation choices.
    - [ethcmn.Address] (20 bytes) and [ethcmn.Hash] (32 bytes) are the
      integers their big-endian bytes denote; the zero value is [0].
    - [*big.Int] is [Z]; [uint64], [uint] and [int] are [Z] with the
      wrap-around of the machine type written out ([wrap64], [wrapInt]).
    - [sdk.Dec] is the integer it stores internally, i.e. the decimal amount
      times [10^Precision]; [sdk.NewDecFromBigIntWithPrec b sdk.Precision]
      is therefore [b] itself.
    - The SDK context, the account keeper, the bank keeper, the KV store and
      the parameter space are gathered in one record, [World], carried by
      the overlay in the place of [ctx].
    - A [*stateObject] that is reachable from the live slice is the index of
      its slot in [stateObjects]; writes through the pointer are writes to
      that slot.  A pointer that has left the slice (the previous object kept
      by a journal entry) is the value of the object. *)

From Stdlib Require Import ZArith String List.
From Stdlib.Strings Require Import Byte.
From stdpp Require Import gmap strings list fin_maps sorting.

Local Open Scope Z_scope.

#[local] Set Warnings "-clear-no-such-hyp".

(** ** Machine integers *)

Definition wrap64 (z : Z) : Z := z mod 2 ^ 64.

Definition wrapInt (z : Z) : Z := (z + 2 ^ 63) mod 2 ^ 64 - 2 ^ 63.

Abbreviation Address := Z.
Abbreviation Hash := Z.

Definition zeroHash : Z := 0.

(** ** External collaborators *)

(** [sdk.Coins]: the amount held per denomination.  [AmountOf] of a
    denomination that is not held is zero, and [Add] never keeps a zero
    coin. *)
Record Coin := mkCoin { Denom : string; Amount : Z }.

Definition AmountOf (coins : gmap string Z) (denom : string) : Z :=
  default 0 (coins !! denom).

Definition CoinsAdd (coins : gmap string Z) (c : Coin) : gmap string Z :=
  let sum := AmountOf coins (Denom c) + Amount c in
  if decide (sum = 0) then delete (Denom c) coins
  else <[Denom c := sum]> coins.

(** [ethermint.EthAccount]. *)
Record Account := mkAccount {
  acc_address : Address;
  acc_coins : gmap string Z;
  acc_sequence : Z;
  acc_codeHash : Hash
}.

Record Params := mkParams {
  EvmDenom : string;
  EnableCreate : bool;
  EnableCall : bool
}.

Record World := mkWorld {
  accounts : gmap Z Account;            (* AccountKeeper *)
  codeStore : gmap Z (list byte);       (* KV store, code prefix *)
  storageStore : gmap (Z * Z) Z;        (* KV store, storage prefix *)
  heightHashStore : gmap Z Z;           (* KV store, height-hash prefix *)
  paramStore : Params;                  (* ParamSpace *)
  blacklist : gset Z                    (* BankKeeper *)
}.

(** [AccountKeeper.GetAccount]: the account stored under an address is the
    account of that address. *)
Definition GetAccount (w : World) (a : Address) : option Account :=
  (λ acc, mkAccount a (acc_coins acc) (acc_sequence acc) (acc_codeHash acc))
    <$> accounts w !! a.

Definition SetAccount (acc : Account) (w : World) : World :=
  mkWorld (<[acc_address acc := acc]> (accounts w)) (codeStore w) (storageStore w)
          (heightHashStore w) (paramStore w) (blacklist w).

Definition RemoveAccount (acc : Account) (w : World) : World :=
  mkWorld (delete (acc_address acc) (accounts w)) (codeStore w) (storageStore w)
          (heightHashStore w) (paramStore w) (blacklist w).

Definition BlacklistedAddr (w : World) (a : Address) : bool :=
  bool_decide (a ∈ blacklist w).

Definition set_codeStore (c : gmap Z (list byte)) (w : World) : World :=
  mkWorld (accounts w) c (storageStore w) (heightHashStore w) (paramStore w) (blacklist w).

Definition set_storageStore (st : gmap (Z * Z) Z) (w : World) : World :=
  mkWorld (accounts w) (codeStore w) st (heightHashStore w) (paramStore w) (blacklist w).

Definition set_heightHashStore (h : gmap Z Z) (w : World) : World :=
  mkWorld (accounts w) (codeStore w) (storageStore w) h (paramStore w) (blacklist w).

Definition set_paramStore (p : Params) (w : World) : World :=
  mkWorld (accounts w) (codeStore w) (storageStore w) (heightHashStore w) p (blacklist w).

(** [ethtypes.Log]. *)
Record Log := mkLog {
  log_Address : Address;
  Topics : list Hash;
  Data : list byte;
  BlockNumber : Z;
  TxHash : Hash;
  TxIndex_ : Z;
  BlockHash_ : Hash;
  Index : Z;
  Removed : bool
}.

(** Errors returned or memoised by the overlay. *)
Inductive error :=
| ErrNoAccount (addr : Address)       (* "no account found for address: %s" *)
| ErrInvalidBalance (c : Coin)        (* "invalid balance %s" *)
| ErrBlacklisted (addr : Address).    (* "address <%s> in blacklist is not allowed" *)

(** Outcome of an operation that may panic: the overlay is a mutable object,
    so a panic leaves it as it was at the panicking statement. *)
Inductive Res (S A : Type) :=
| Done (a : A) (s : S)
| Panic (msg : string) (s : S).
Arguments Done {S A} a s.
Arguments Panic {S A} msg s.

Definition res_state {S A} (r : Res S A) : S :=
  match r with Done _ s => s | Panic _ s => s end.

Definition panicked {S A} (r : Res S A) : bool :=
  match r with Done _ _ => false | Panic _ _ => true end.

Section Overlay.

(** [ethcrypto.Keccak256Hash]: any function from byte strings to hashes. *)
Variable Keccak256Hash : list byte → Hash.

(** [sdk.ValidateDenom], as a decision on denominations. *)
Variable ValidateDenom : string → bool.

Definition emptyCodeHash : Hash := Keccak256Hash [].

(** [Coin.IsValid]: a valid denomination and an amount that is not negative. *)
Definition IsValid (c : Coin) : bool := ValidateDenom (Denom c) && bool_decide (0 ≤ Amount c).

(** [AccountKeeper.NewAccountWithAddress]: an account with no coins, sequence
    zero and the code hash of the empty code. *)
Definition NewAccountWithAddress (a : Address) : Account :=
  mkAccount a ∅ 0 emptyCodeHash.

(** ** State objects *)

Record stateObject := mkStateObject {
  so_address : Address;
  so_account : Account;
  so_code : option (list byte);
  dirtyCode : bool;
  originStorage : gmap Z Z;
  dirtyStorage : list (Z * Z);
  suicided : bool;
  deleted : bool
}.

(** Modelled from the spec: [newStateObject] of state_object.go, which is not
    among the sources ("construct a fresh StateObject"): no code cached, no
    storage cached or written, not suicided, not deleted. *)
Definition newStateObject (acc : Account) : stateObject :=
  mkStateObject (acc_address acc) acc None false ∅ [] false false.

Definition set_so_account (acc : Account) (so : stateObject) : stateObject :=
  mkStateObject (so_address so) acc (so_code so) (dirtyCode so)
                (originStorage so) (dirtyStorage so) (suicided so) (deleted so).

Definition set_dirtyCode (b : bool) (so : stateObject) : stateObject :=
  mkStateObject (so_address so) (so_account so) (so_code so) b
                (originStorage so) (dirtyStorage so) (suicided so) (deleted so).

Definition set_originStorage (o : gmap Z Z) (so : stateObject) : stateObject :=
  mkStateObject (so_address so) (so_account so) (so_code so) (dirtyCode so)
                o (dirtyStorage so) (suicided so) (deleted so).

Definition set_dirtyStorage (d : list (Z * Z)) (so : stateObject) : stateObject :=
  mkStateObject (so_address so) (so_account so) (so_code so) (dirtyCode so)
                (originStorage so) d (suicided so) (deleted so).

Definition set_suicided (b : bool) (so : stateObject) : stateObject :=
  mkStateObject (so_address so) (so_account so) (so_code so) (dirtyCode so)
                (originStorage so) (dirtyStorage so) b (deleted so).

Definition set_deleted (b : bool) (so : stateObject) : stateObject :=
  mkStateObject (so_address so) (so_account so) (so_code so) (dirtyCode so)
                (originStorage so) (dirtyStorage so) (suicided so) b.

(** Modelled from the spec: the methods of [stateObject] (state_object.go is
    not among the sources).  The balance of an object is the amount of the
    EVM denomination among the coins of its account ("Reading a balance
    reconstructs B as amount * 10^P"); the denomination is passed by the
    overlay. *)
Definition Balance (denom : string) (so : stateObject) : Z :=
  AmountOf (acc_coins (so_account so)) denom.

Definition Nonce (so : stateObject) : Z := acc_sequence (so_account so).

Definition CodeHash (so : stateObject) : Hash := acc_codeHash (so_account so).

Definition setBalance (denom : string) (amount : Z) (so : stateObject) : stateObject :=
  let acc := so_account so in
  set_so_account
    (mkAccount (acc_address acc) (<[denom := amount]> (acc_coins acc))
               (acc_sequence acc) (acc_codeHash acc)) so.

Definition setNonce (nonce : Z) (so : stateObject) : stateObject :=
  let acc := so_account so in
  set_so_account
    (mkAccount (acc_address acc) (acc_coins acc) nonce (acc_codeHash acc)) so.

(** "Restore code and hash": the three fields a code change touches. *)
Definition restoreCode (code : option (list byte)) (hash : Hash) (dirty : bool)
    (so : stateObject) : stateObject :=
  let acc := so_account so in
  mkStateObject (so_address so)
    (mkAccount (acc_address acc) (acc_coins acc) (acc_sequence acc) hash)
    code dirty (originStorage so) (dirtyStorage so) (suicided so) (deleted so).

(** "set dirty_code = true; empty code sets hash to Keccak-256 of empty". *)
Definition setCode (hash : Hash) (code : list byte) (so : stateObject) : stateObject :=
  restoreCode (Some code) (match code with [] => emptyCodeHash | _ => hash end) true so.

(** "returns cached code, else loads from external store keyed by code_hash,
    else empty". *)
Definition Code (w : World) (so : stateObject) : list byte :=
  match so_code so with
  | Some c => c
  | None => default [] (codeStore w !! CodeHash so)
  end.

Definition markSuicided (so : stateObject) : stateObject := set_suicided true so.

(** "true iff nonce == 0 AND balance == 0 AND code is empty", where the
    code is empty when [code_hash] is the "Keccak-256 of empty byte string
    when no code". *)
Definition empty (denom : string) (so : stateObject) : bool :=
  bool_decide (Nonce so = 0) && bool_decide (Balance denom so = 0)
  && bool_decide (CodeHash so = emptyCodeHash).

(** The dirty storage is the ordered sequence of written entries; the
    position of a key is the position of its first entry. *)
Fixpoint storage_lookup (k : Hash) (st : list (Z * Z)) : option Z :=
  match st with
  | [] => None
  | (k', v) :: t => if decide (k' = k) then Some v else storage_lookup k t
  end.

Fixpoint storage_set (k v : Hash) (st : list (Z * Z)) : list (Z * Z) :=
  match st with
  | [] => [(k, v)]
  | (k', v') :: t =>
      if decide (k' = k) then (k, v) :: t else (k', v') :: storage_set k v t
  end.

Fixpoint storage_remove (k : Hash) (st : list (Z * Z)) : list (Z * Z) :=
  match st with
  | [] => []
  | (k', v') :: t =>
      if decide (k' = k) then t else (k', v') :: storage_remove k t
  end.

(** "GetCommittedState: returns the committed value; ignores dirty_storage";
    the value read from the store is cached in [originStorage]. *)
Definition GetCommittedState_so (w : World) (k : Hash) (so : stateObject)
    : Hash * stateObject :=
  match originStorage so !! k with
  | Some v => (v, so)
  | None =>
      let v := default zeroHash (storageStore w !! (so_address so, k)) in
      (v, set_originStorage (<[k := v]> (originStorage so)) so)
  end.

(** "Resolution order: dirty_storage, origin_storage, external store
    (populating origin_storage). Missing: all-zero hash". *)
Definition GetState_so (w : World) (k : Hash) (so : stateObject)
    : Hash * stateObject :=
  match storage_lookup k (dirtyStorage so) with
  | Some v => (v, so)
  | None => GetCommittedState_so w k so
  end.

Definition setState (k v : Hash) (so : stateObject) : stateObject :=
  set_dirtyStorage (storage_set k v (dirtyStorage so)) so.

(** "Restore dirty storage (remove entry if prev was absent)". *)
Definition restoreState (k : Hash) (prev : option Hash) (so : stateObject) : stateObject :=
  match prev with
  | Some v => setState k v so
  | None => set_dirtyStorage (storage_remove k (dirtyStorage so)) so
  end.

(** "commitCode: writes (code_hash, code) to the external store and clears
    dirty_code". *)
Definition commitCode (w : World) (so : stateObject) : World * stateObject :=
  (set_codeStore (<[CodeHash so := default [] (so_code so)]> (codeStore w)) w,
   set_dirtyCode false so).

(** "commitState: flushes dirty_storage into the external per-contract
    storage sub-store, in insertion order; zero values delete the underlying
    key. After flush, dirty_storage is cleared and origin_storage is updated
    with the new values". *)
Fixpoint flushStorage (a : Address) (st : list (Z * Z))
    (store : gmap (Z * Z) Z) (origin : gmap Z Z) : gmap (Z * Z) Z * gmap Z Z :=
  match st with
  | [] => (store, origin)
  | (k, v) :: t =>
      flushStorage a t
        (if decide (v = zeroHash) then delete (a, k) store else <[(a, k) := v]> store)
        (<[k := v]> origin)
  end.

Definition commitState (w : World) (so : stateObject) : World * stateObject :=
  let '(store, origin) :=
    flushStorage (so_address so) (dirtyStorage so) (storageStore w) (originStorage so) in
  (set_storageStore store w, set_dirtyStorage [] (set_originStorage origin so)).

(** ** Access list *)

(** Modelled from the spec: access_list.go is not among the sources.
    "addresses: Address to optional index into slot_sets; slot_sets: ordered
    sequence of sets of Hash". *)
Record accessList := mkAccessList {
  al_addresses : gmap Z (option nat);
  al_slots : list (gset Z)
}.

Definition newAccessList : accessList := mkAccessList ∅ [].

(** The slot set an address owns, if it has one. *)
Definition al_slotset (al : accessList) (a : Address) : option (gset Z) :=
  match al_addresses al !! a with
  | Some (Some i) => al_slots al !! i
  | _ => None
  end.

Definition al_ContainsAddress (a : Address) (al : accessList) : bool :=
  bool_decide (is_Some (al_addresses al !! a)).

Definition al_Contains (a : Address) (slot : Hash) (al : accessList) : bool * bool :=
  match al_addresses al !! a with
  | None => (false, false)
  | Some _ =>
      (true, match al_slotset al a with
             | Some set => bool_decide (slot ∈ set)
             | None => false
             end)
  end.

Definition al_AddAddress (a : Address) (al : accessList) : bool * accessList :=
  match al_addresses al !! a with
  | Some _ => (false, al)
  | None => (true, mkAccessList (<[a := None]> (al_addresses al)) (al_slots al))
  end.

Definition al_AddSlot (a : Address) (slot : Hash) (al : accessList)
    : (bool * bool) * accessList :=
  match al_addresses al !! a, al_slotset al a with
  | Some (Some i), Some set =>
      if decide (slot ∈ set) then ((false, false), al)
      else ((false, true),
            mkAccessList (al_addresses al) (<[i := {[slot]} ∪ set]> (al_slots al)))
  | present, _ =>
      ((bool_decide (present = None), true),
       mkAccessList (<[a := Some (length (al_slots al))]> (al_addresses al))
                    (al_slots al ++ [{[slot]}]))
  end.

(** "Remove the address (and any slots it owned)". *)
Definition al_DeleteAddress (a : Address) (al : accessList) : accessList :=
  mkAccessList (delete a (al_addresses al))
    (match al_addresses al !! a with
     | Some (Some i) => alter (λ _, ∅) i (al_slots al)
     | _ => al_slots al
     end).

(** "Remove the slot from that address's set". *)
Definition al_DeleteSlot (a : Address) (slot : Hash) (al : accessList) : accessList :=
  match al_addresses al !! a with
  | Some (Some i) =>
      mkAccessList (al_addresses al) (alter (λ set, set ∖ {[slot]}) i (al_slots al))
  | _ => al
  end.

(** ** Journal *)

(** Modelled from the spec: journal.go is not among the sources.  One
    variant per row of the table of journal entries; [codeChange] also keeps
    the previous [dirty_code], which its revert restores. *)
Inductive journalEntry :=
| createObjectChange (account : Address)
| resetObjectChange (prev : stateObject)
| suicideChange (account : Address) (prev : bool) (prevBalance : Z)
| balanceChange (account : Address) (prev : Z)
| nonceChange (account : Address) (prev : Z)
| storageChange (account : Address) (key : Hash) (prevValue : option Hash)
| codeChange (account : Address) (prevCode : option (list byte)) (prevHash : Hash)
             (prevDirty : bool)
| refundChange (prev : Z)
| addLogChange (txhash : Hash)
| addPreimageChange (hash : Hash)
| touchChange (account : Address)
| accessListAddAccountChange (address : Address)
| accessListAddSlotChange (address : Address) (slot : Hash).

(** The address an entry marks dirty ("every mutating entry adds its
    address"): the entries that change an account. *)
Definition dirtied (e : journalEntry) : option Address :=
  match e with
  | createObjectChange a => Some a
  | suicideChange a _ _ => Some a
  | balanceChange a _ => Some a
  | nonceChange a _ => Some a
  | storageChange a _ _ => Some a
  | codeChange a _ _ _ => Some a
  | touchChange a => Some a
  | _ => None
  end.

(** [journal.dirties]: one record per dirty address, with the number of
    entries that dirtied it. *)
Record dirty := mkDirty { dirty_address : Address; changes : nat }.

Record journal := mkJournal {
  entries : list journalEntry;
  dirties : list dirty
}.

Definition newJournal : journal := mkJournal [] [].

Fixpoint addDirty (a : Address) (ds : list dirty) : list dirty :=
  match ds with
  | [] => [mkDirty a 1]
  | d :: t =>
      if decide (dirty_address d = a) then mkDirty a (S (changes d)) :: t
      else d :: addDirty a t
  end.

Fixpoint subtractDirty (a : Address) (ds : list dirty) : list dirty :=
  match ds with
  | [] => []
  | d :: t =>
      if decide (dirty_address d = a) then
        match changes d with
        | S (S n) => mkDirty a (S n) :: t
        | _ => t
        end
      else d :: subtractDirty a t
  end.

Definition journal_append (e : journalEntry) (j : journal) : journal :=
  mkJournal (entries j ++ [e])
            (match dirtied e with Some a => addDirty a (dirties j) | None => dirties j end).

Definition journal_length (j : journal) : nat := length (entries j).

(** ** The overlay *)

Record stateEntry := mkStateEntry {
  se_address : Address;
  se_stateObject : stateObject
}.

Record preimageEntry := mkPreimageEntry {
  pe_hash : Hash;
  pe_preimage : list byte
}.

Record revision := mkRevision {
  rev_id : Z;
  journalIndex : nat
}.

Record CommitStateDB := mkCommitStateDB {
  ctx : World;
  stateObjects : list stateEntry;
  addressToObjectIndex : gmap Z nat;
  stateObjectsDirty : gset Z;
  refund : Z;
  thash : Hash;
  bhash : Hash;
  txIndex : Z;
  logSize : Z;
  logs : list Log;
  preimages : list preimageEntry;
  hashToPreimageIndex : gmap Z nat;
  dbErr : option error;
  journal_ : journal;
  validRevisions : list revision;
  nextRevisionID : Z;
  accessList_ : accessList;
  params : option Params
}.

Definition set_ctx (w : World) (s : CommitStateDB) : CommitStateDB :=
  mkCommitStateDB w (stateObjects s) (addressToObjectIndex s) (stateObjectsDirty s)
    (refund s) (thash s) (bhash s) (txIndex s) (logSize s) (logs s) (preimages s)
    (hashToPreimageIndex s) (dbErr s) (journal_ s) (validRevisions s)
    (nextRevisionID s) (accessList_ s) (params s).

Definition set_live (l : list stateEntry) (m : gmap Z nat) (s : CommitStateDB)
    : CommitStateDB :=
  mkCommitStateDB (ctx s) l m (stateObjectsDirty s)
    (refund s) (thash s) (bhash s) (txIndex s) (logSize s) (logs s) (preimages s)
    (hashToPreimageIndex s) (dbErr s) (journal_ s) (validRevisions s)
    (nextRevisionID s) (accessList_ s) (params s).

Definition set_stateObjects (l : list stateEntry) (s : CommitStateDB) : CommitStateDB :=
  set_live l (addressToObjectIndex s) s.

Definition set_stateObjectsDirty (d : gset Z) (s : CommitStateDB) : CommitStateDB :=
  mkCommitStateDB (ctx s) (stateObjects s) (addressToObjectIndex s) d
    (refund s) (thash s) (bhash s) (txIndex s) (logSize s) (logs s) (preimages s)
    (hashToPreimageIndex s) (dbErr s) (journal_ s) (validRevisions s)
    (nextRevisionID s) (accessList_ s) (params s).

Definition set_refund (r : Z) (s : CommitStateDB) : CommitStateDB :=
  mkCommitStateDB (ctx s) (stateObjects s) (addressToObjectIndex s) (stateObjectsDirty s)
    r (thash s) (bhash s) (txIndex s) (logSize s) (logs s) (preimages s)
    (hashToPreimageIndex s) (dbErr s) (journal_ s) (validRevisions s)
    (nextRevisionID s) (accessList_ s) (params s).

Definition set_txmeta (th bh : Hash) (txi : Z) (s : CommitStateDB) : CommitStateDB :=
  mkCommitStateDB (ctx s) (stateObjects s) (addressToObjectIndex s) (stateObjectsDirty s)
    (refund s) th bh txi (logSize s) (logs s) (preimages s)
    (hashToPreimageIndex s) (dbErr s) (journal_ s) (validRevisions s)
    (nextRevisionID s) (accessList_ s) (params s).

Definition set_logSize (n : Z) (s : CommitStateDB) : CommitStateDB :=
  mkCommitStateDB (ctx s) (stateObjects s) (addressToObjectIndex s) (stateObjectsDirty s)
    (refund s) (thash s) (bhash s) (txIndex s) n (logs s) (preimages s)
    (hashToPreimageIndex s) (dbErr s) (journal_ s) (validRevisions s)
    (nextRevisionID s) (accessList_ s) (params s).

Definition set_logs (l : list Log) (s : CommitStateDB) : CommitStateDB :=
  mkCommitStateDB (ctx s) (stateObjects s) (addressToObjectIndex s) (stateObjectsDirty s)
    (refund s) (thash s) (bhash s) (txIndex s) (logSize s) l (preimages s)
    (hashToPreimageIndex s) (dbErr s) (journal_ s) (validRevisions s)
    (nextRevisionID s) (accessList_ s) (params s).

Definition set_preimages (l : list preimageEntry) (m : gmap Z nat) (s : CommitStateDB)
    : CommitStateDB :=
  mkCommitStateDB (ctx s) (stateObjects s) (addressToObjectIndex s) (stateObjectsDirty s)
    (refund s) (thash s) (bhash s) (txIndex s) (logSize s) (logs s) l
    m (dbErr s) (journal_ s) (validRevisions s)
    (nextRevisionID s) (accessList_ s) (params s).

Definition set_dbErr (e : option error) (s : CommitStateDB) : CommitStateDB :=
  mkCommitStateDB (ctx s) (stateObjects s) (addressToObjectIndex s) (stateObjectsDirty s)
    (refund s) (thash s) (bhash s) (txIndex s) (logSize s) (logs s) (preimages s)
    (hashToPreimageIndex s) e (journal_ s) (validRevisions s)
    (nextRevisionID s) (accessList_ s) (params s).

Definition set_journal (j : journal) (s : CommitStateDB) : CommitStateDB :=
  mkCommitStateDB (ctx s) (stateObjects s) (addressToObjectIndex s) (stateObjectsDirty s)
    (refund s) (thash s) (bhash s) (txIndex s) (logSize s) (logs s) (preimages s)
    (hashToPreimageIndex s) (dbErr s) j (validRevisions s)
    (nextRevisionID s) (accessList_ s) (params s).

Definition set_revisions (l : list revision) (next : Z) (s : CommitStateDB)
    : CommitStateDB :=
  mkCommitStateDB (ctx s) (stateObjects s) (addressToObjectIndex s) (stateObjectsDirty s)
    (refund s) (thash s) (bhash s) (txIndex s) (logSize s) (logs s) (preimages s)
    (hashToPreimageIndex s) (dbErr s) (journal_ s) l
    next (accessList_ s) (params s).

Definition set_accessList (al : accessList) (s : CommitStateDB) : CommitStateDB :=
  mkCommitStateDB (ctx s) (stateObjects s) (addressToObjectIndex s) (stateObjectsDirty s)
    (refund s) (thash s) (bhash s) (txIndex s) (logSize s) (logs s) (preimages s)
    (hashToPreimageIndex s) (dbErr s) (journal_ s) (validRevisions s)
    (nextRevisionID s) al (params s).

Definition set_params (p : option Params) (s : CommitStateDB) : CommitStateDB :=
  mkCommitStateDB (ctx s) (stateObjects s) (addressToObjectIndex s) (stateObjectsDirty s)
    (refund s) (thash s) (bhash s) (txIndex s) (logSize s) (logs s) (preimages s)
    (hashToPreimageIndex s) (dbErr s) (journal_ s) (validRevisions s)
    (nextRevisionID s) (accessList_ s) p.

(** [CreateEmptyCommitStateDB] (and [newCommitStateDB]): every field not
    named in the composite literal has the zero value of its type. *)
Definition CreateEmptyCommitStateDB (w : World) : CommitStateDB :=
  mkCommitStateDB w [] ∅ ∅ 0 zeroHash zeroHash 0 0 [] [] ∅ None newJournal [] 0
                  newAccessList None.

Definition WithContext (w : World) (s : CommitStateDB) : CommitStateDB := set_ctx w s.

Definition append_journal (e : journalEntry) (s : CommitStateDB) : CommitStateDB :=
  set_journal (journal_append e (journal_ s)) s.

(** *** Parameters and errors *)

Definition GetParams (s : CommitStateDB) : Params * CommitStateDB :=
  match params s with
  | Some p => (p, s)
  | None => let p := paramStore (ctx s) in (p, set_params (Some p) s)
  end.

Definition SetParams (p : Params) (s : CommitStateDB) : CommitStateDB :=
  set_ctx (set_paramStore p (ctx s)) (set_params (Some p) s).

(** The denomination in which the state objects of the overlay read and
    write their balance, [GetParams().EvmDenom]: that of the cached
    parameters, of the stored ones if none are cached. *)
Definition evmDenom (s : CommitStateDB) : string :=
  EvmDenom (default (paramStore (ctx s)) (params s)).

Definition setError (err : error) (s : CommitStateDB) : CommitStateDB :=
  match dbErr s with
  | None => set_dbErr (Some err) s
  | Some _ => s
  end.

Definition Error (s : CommitStateDB) : option error := dbErr s.

(** *** The live objects *)

(** The slot an address is mapped to.  The index map only ever holds
    positions of the slice (see [wf_index]); a position past its end, which
    Go would refuse at run time, reads as no slot. *)
Definition slot_of (s : CommitStateDB) (addr : Address) : option stateEntry :=
  addressToObjectIndex s !! addr ≫= λ idx, stateObjects s !! idx.

(** Write through a [*stateObject] held in slot [idx]. *)
Definition modify_at (idx : nat) (f : stateObject → stateObject) (s : CommitStateDB)
    : CommitStateDB :=
  set_stateObjects
    (alter (λ e, mkStateEntry (se_address e) (f (se_stateObject e))) idx (stateObjects s)) s.

(** Write through the [*stateObject] the overlay holds for [addr]. *)
Definition modify_object (addr : Address) (f : stateObject → stateObject)
    (s : CommitStateDB) : CommitStateDB :=
  match addressToObjectIndex s !! addr with
  | Some idx => modify_at idx f s
  | None => s
  end.

Definition setStateObject (so : stateObject) (s : CommitStateDB) : CommitStateDB :=
  match addressToObjectIndex s !! so_address so with
  | Some idx =>
      set_stateObjects
        (alter (λ e, mkStateEntry (se_address e) so) idx (stateObjects s)) s
  | None =>
      set_live (stateObjects s ++ [mkStateEntry (so_address so) so])
               (<[so_address so := length (stateObjects s)]> (addressToObjectIndex s)) s
  end.

(** [getStateObject]: the result is the object held for [addr] after the
    call (a slot never holds a nil pointer: every write to a slot stores
    an object). *)
Definition getStateObject (addr : Address) (s : CommitStateDB)
    : option stateObject * CommitStateDB :=
  match slot_of s addr with
  | Some e =>
      if deleted (se_stateObject e) then (None, s) else (Some (se_stateObject e), s)
  | None =>
      match GetAccount (ctx s) addr with
      | None => (None, setError (ErrNoAccount addr) s)
      | Some acc =>
          let so := newStateObject acc in
          (Some so, setStateObject so s)
      end
  end.

Definition createObject (addr : Address) (s : CommitStateDB)
    : (stateObject * option stateObject) * CommitStateDB :=
  let '(prevObj, s1) := getStateObject addr s in
  let acc := NewAccountWithAddress addr in
  let newObj := setNonce 0 (newStateObject acc) in
  let s2 :=
    match prevObj with
    | None => append_journal (createObjectChange addr) s1
    | Some prev => append_journal (resetObjectChange prev) s1
    end in
  ((newObj, prevObj), setStateObject newObj s2).

Definition GetOrNewStateObject (addr : Address) (s : CommitStateDB)
    : stateObject * CommitStateDB :=
  let '(so, s1) := getStateObject addr s in
  match so with
  | Some so' =>
      if deleted so' then let '(r, s2) := createObject addr s1 in (fst r, s2)
      else (so', s1)
  | None => let '(r, s2) := createObject addr s1 in (fst r, s2)
  end.

(** *** Journalled methods of a live state object

    Modelled from the spec: the exported methods of [stateObject] push the
    inverse of the change on the journal of the overlay and apply it
    (state_object.go is not among the sources).  The receiver is the
    object held for [addr]. *)

Definition so_SetBalance (addr : Address) (amount : Z) (s : CommitStateDB)
    : CommitStateDB :=
  match slot_of s addr with
  | Some e =>
      let so := se_stateObject e in
      modify_object addr (setBalance (evmDenom s) amount)
        (append_journal (balanceChange (so_address so) (Balance (evmDenom s) so)) s)
  | None => s
  end.

Definition so_AddBalance (addr : Address) (amount : Z) (s : CommitStateDB)
    : CommitStateDB :=
  match slot_of s addr with
  | Some e => so_SetBalance addr (Balance (evmDenom s) (se_stateObject e) + amount) s
  | None => s
  end.

(** "subtracting more than the current balance is a fatal logic error". *)
Definition so_SubBalance (addr : Address) (amount : Z) (s : CommitStateDB)
    : Res CommitStateDB unit :=
  match slot_of s addr with
  | Some e =>
      let b := Balance (evmDenom s) (se_stateObject e) in
      if decide (b < amount) then Panic "balance below zero" s
      else Done tt (so_SetBalance addr (b - amount) s)
  | None => Done tt s
  end.

Definition so_SetNonce (addr : Address) (nonce : Z) (s : CommitStateDB)
    : CommitStateDB :=
  match slot_of s addr with
  | Some e =>
      let so := se_stateObject e in
      modify_object addr (setNonce nonce)
        (append_journal (nonceChange (so_address so) (Nonce so)) s)
  | None => s
  end.

(** "if the new value equals the current value, no-op; otherwise push
    StorageChange with the previous value and record the new entry". *)
Definition so_SetState (addr : Address) (key value : Hash) (s : CommitStateDB)
    : CommitStateDB :=
  match slot_of s addr with
  | Some e =>
      let '(cur, so) := GetState_so (ctx s) key (se_stateObject e) in
      let s1 := modify_object addr (λ _, so) s in
      if decide (cur = value) then s1
      else
        modify_object addr (setState key value)
          (append_journal
             (storageChange (so_address so) key (storage_lookup key (dirtyStorage so))) s1)
  | None => s
  end.

Definition so_SetCode (addr : Address) (hash : Hash) (code : list byte)
    (s : CommitStateDB) : CommitStateDB :=
  match slot_of s addr with
  | Some e =>
      let so := se_stateObject e in
      modify_object addr (setCode hash code)
        (append_journal
           (codeChange (so_address so) (so_code so) (CodeHash so) (dirtyCode so)) s)
  | None => s
  end.

(** *** Setters *)

Definition SetHeightHash (height : Z) (hash : Hash) (s : CommitStateDB) : CommitStateDB :=
  set_ctx (set_heightHashStore (<[height := hash]> (heightHashStore (ctx s))) (ctx s)) s.

Definition SetBalance (addr : Address) (amount : Z) (s : CommitStateDB) : CommitStateDB :=
  let '(_, s1) := GetOrNewStateObject addr s in
  so_SetBalance addr amount s1.

Definition AddBalance (addr : Address) (amount : Z) (s : CommitStateDB) : CommitStateDB :=
  let '(_, s1) := GetOrNewStateObject addr s in
  so_AddBalance addr amount s1.

Definition SubBalance (addr : Address) (amount : Z) (s : CommitStateDB)
    : Res CommitStateDB unit :=
  let '(_, s1) := GetOrNewStateObject addr s in
  so_SubBalance addr amount s1.

Definition SetNonce (addr : Address) (nonce : Z) (s : CommitStateDB) : CommitStateDB :=
  let '(_, s1) := GetOrNewStateObject addr s in
  so_SetNonce addr nonce s1.

Definition SetState (addr : Address) (key value : Hash) (s : CommitStateDB)
    : CommitStateDB :=
  let '(_, s1) := GetOrNewStateObject addr s in
  so_SetState addr key value s1.

Definition SetCode (addr : Address) (code : list byte) (s : CommitStateDB)
    : CommitStateDB :=
  let '(_, s1) := GetOrNewStateObject addr s in
  so_SetCode addr (Keccak256Hash code) code s1.

(** *** Transaction logs *)

Definition SetLogs (hash : Hash) (l : list Log) (s : CommitStateDB)
    : option error * CommitStateDB :=
  (None, set_logs l s).

Definition DeleteLogs (hash : Hash) (s : CommitStateDB) : CommitStateDB :=
  set_logs [] s.

Definition AddLog (log : Log) (s : CommitStateDB) : CommitStateDB :=
  let s1 := append_journal (addLogChange (thash s)) s in
  let log' :=
    mkLog (log_Address log) (Topics log) (Data log) (BlockNumber log)
          (thash s1) (wrap64 (txIndex s1)) (bhash s1) (logSize s1) (Removed log) in
  set_logs (logs s1 ++ [log']) (set_logSize (wrap64 (logSize s1 + 1)) s1).

Definition AddPreimage (hash : Hash) (preimage : list byte) (s : CommitStateDB)
    : CommitStateDB :=
  match hashToPreimageIndex s !! hash with
  | Some _ => s
  | None =>
      let s1 := append_journal (addPreimageChange hash) s in
      let l := preimages s1 ++ [mkPreimageEntry hash preimage] in
      set_preimages l (<[hash := (length l - 1)%nat]> (hashToPreimageIndex s1)) s1
  end.

Definition AddRefund (gas : Z) (s : CommitStateDB) : CommitStateDB :=
  let s1 := append_journal (refundChange (refund s)) s in
  set_refund (wrap64 (refund s1 + gas)) s1.

Definition SubRefund (gas : Z) (s : CommitStateDB) : Res CommitStateDB unit :=
  let s1 := append_journal (refundChange (refund s)) s in
  if decide (refund s1 < gas) then Panic "refund counter below zero" s1
  else Done tt (set_refund (wrap64 (refund s1 - gas)) s1).

Definition AddAddressToAccessList (addr : Address) (s : CommitStateDB) : CommitStateDB :=
  let '(added, al) := al_AddAddress addr (accessList_ s) in
  let s1 := set_accessList al s in
  if added then append_journal (accessListAddAccountChange addr) s1 else s1.

Definition AddSlotToAccessList (addr : Address) (slot : Hash) (s : CommitStateDB)
    : CommitStateDB :=
  let '((addrMod, slotMod), al) := al_AddSlot addr slot (accessList_ s) in
  let s1 := set_accessList al s in
  let s2 := if addrMod then append_journal (accessListAddAccountChange addr) s1 else s1 in
  if slotMod then append_journal (accessListAddSlotChange addr slot) s2 else s2.

Definition AddressInAccessList (addr : Address) (s : CommitStateDB) : bool :=
  al_ContainsAddress addr (accessList_ s).

Definition SlotInAccessList (addr : Address) (slot : Hash) (s : CommitStateDB)
    : bool * bool :=
  al_Contains addr slot (accessList_ s).

(** *** Getters *)

Definition GetHeightHash (height : Z) (s : CommitStateDB) : Hash :=
  default zeroHash (heightHashStore (ctx s) !! height).

Definition zeroBalance : Z := 0.

Definition GetBalance (addr : Address) (s : CommitStateDB) : Z * CommitStateDB :=
  let '(so, s1) := getStateObject addr s in
  match so with
  | Some so' => (Balance (evmDenom s1) so', s1)
  | None => (zeroBalance, s1)
  end.

Definition GetNonce (addr : Address) (s : CommitStateDB) : Z * CommitStateDB :=
  let '(so, s1) := getStateObject addr s in
  match so with
  | Some so' => (Nonce so', s1)
  | None => (0, s1)
  end.

Definition TxIndex (s : CommitStateDB) : Z := txIndex s.

Definition BlockHash (s : CommitStateDB) : Hash := bhash s.

Definition SetBlockHash (hash : Hash) (s : CommitStateDB) : CommitStateDB :=
  set_txmeta (thash s) hash (txIndex s) s.

Definition GetCode (addr : Address) (s : CommitStateDB) : list byte * CommitStateDB :=
  let '(so, s1) := getStateObject addr s in
  match so with
  | Some so' => (Code (ctx s1) so', s1)
  | None => ([], s1)
  end.

Definition GetCodeSize (addr : Address) (s : CommitStateDB) : nat * CommitStateDB :=
  let '(so, s1) := getStateObject addr s in
  match so with
  | None => (0%nat, s1)
  | Some so' =>
      match so_code so' with
      | Some c => (length c, s1)
      | None => (length (Code (ctx s1) so'), s1)
      end
  end.

Definition GetCodeHash (addr : Address) (s : CommitStateDB) : Hash * CommitStateDB :=
  let '(so, s1) := getStateObject addr s in
  match so with
  | None => (zeroHash, s1)
  | Some so' => (CodeHash so', s1)
  end.

Definition GetState (addr : Address) (hash : Hash) (s : CommitStateDB)
    : Hash * CommitStateDB :=
  let '(so, s1) := getStateObject addr s in
  match so with
  | Some so' =>
      let '(v, so'') := GetState_so (ctx s1) hash so' in
      (v, modify_object addr (λ _, so'') s1)
  | None => (zeroHash, s1)
  end.

Definition GetCommittedState (addr : Address) (hash : Hash) (s : CommitStateDB)
    : Hash * CommitStateDB :=
  let '(so, s1) := getStateObject addr s in
  match so with
  | Some so' =>
      let '(v, so'') := GetCommittedState_so (ctx s1) hash so' in
      (v, modify_object addr (λ _, so'') s1)
  | None => (zeroHash, s1)
  end.

Definition GetLogs (hash : Hash) (s : CommitStateDB) : list Log * option error :=
  (logs s, None).

Definition GetRefund (s : CommitStateDB) : Z := refund s.

Definition Preimages (s : CommitStateDB) : gmap Z (list byte) :=
  foldl (λ m pe, <[pe_hash pe := pe_preimage pe]> m) ∅ (preimages s).

Definition HasSuicided (addr : Address) (s : CommitStateDB) : bool * CommitStateDB :=
  let '(so, s1) := getStateObject addr s in
  match so with
  | Some so' => (suicided so', s1)
  | None => (false, s1)
  end.

(** *** Persistence *)

Definition clearJournalAndRefund (s : CommitStateDB) : CommitStateDB :=
  set_refund 0
    (set_revisions (take 0 (validRevisions s)) (nextRevisionID s)
       (set_journal newJournal s)).

(** [updateStateObject so], for the object in slot [idx]. *)
Definition updateStateObject (idx : nat) (s : CommitStateDB)
    : option error * CommitStateDB :=
  match stateObjects s !! idx with
  | None => (None, s)
  | Some e =>
      let so := se_stateObject e in
      let '(p, s1) := GetParams s in
      let newBalance := mkCoin (EvmDenom p) (Balance (EvmDenom p) so) in
      if negb (IsValid newBalance) then (Some (ErrInvalidBalance newBalance), s1)
      else if BlacklistedAddr (ctx s1) (acc_address (so_account so)) then
        (Some (ErrBlacklisted (acc_address (so_account so))), s1)
      else
        let coins := acc_coins (so_account so) in
        let balance := AmountOf coins (Denom newBalance) in
        let coins' :=
          if decide (balance = 0 ∨ balance ≠ Amount newBalance)
          then CoinsAdd coins newBalance else coins in
        let acc' :=
          mkAccount (acc_address (so_account so)) coins'
                    (acc_sequence (so_account so)) (acc_codeHash (so_account so)) in
        let s2 := modify_at idx (set_so_account acc') s1 in
        (None, set_ctx (SetAccount acc' (ctx s2)) s2)
  end.

(** [deleteStateObject so], for the object in slot [idx]. *)
Definition deleteStateObject (idx : nat) (s : CommitStateDB) : CommitStateDB :=
  match stateObjects s !! idx with
  | None => s
  | Some e =>
      let s1 := modify_at idx (set_deleted true) s in
      set_ctx (RemoveAccount (so_account (se_stateObject e)) (ctx s1)) s1
  end.

(** The body of the loop of [Commit] over the slots of [stateObjects]. *)
Definition commit_step (deleteEmptyObjects : bool) (idx : nat) (s : CommitStateDB)
    : option error * CommitStateDB :=
  match stateObjects s !! idx with
  | None => (None, s)
  | Some e =>
      let so := se_stateObject e in
      let isDirty := bool_decide (se_address e ∈ stateObjectsDirty s) in
      let '(err, s1) :=
        if suicided so
           || (isDirty && deleteEmptyObjects && empty (evmDenom s) so)
        then (None, deleteStateObject idx s)
        else if isDirty then
          let s' :=
            if bool_decide (is_Some (so_code so)) && dirtyCode so then
              let '(w, so') := commitCode (ctx s) so in
              modify_at idx (set_dirtyCode false)
                (modify_at idx (λ _, so') (set_ctx w s))
            else s in
          updateStateObject idx s'
        else (None, s) in
      match err with
      | Some _ => (err, s1)
      | None =>
          (None, set_stateObjectsDirty (stateObjectsDirty s1 ∖ {[se_address e]}) s1)
      end
  end.

Fixpoint commit_loop (deleteEmptyObjects : bool) (idxs : list nat) (s : CommitStateDB)
    : option error * CommitStateDB :=
  match idxs with
  | [] => (None, s)
  | idx :: rest =>
      match commit_step deleteEmptyObjects idx s with
      | (Some err, s1) => (Some err, s1)
      | (None, s1) => commit_loop deleteEmptyObjects rest s1
      end
  end.

Definition Commit (deleteEmptyObjects : bool) (s : CommitStateDB)
    : (Hash * option error) * CommitStateDB :=
  let s1 :=
    set_stateObjectsDirty
      (foldl (λ d x, {[dirty_address x]} ∪ d) (stateObjectsDirty s)
             (dirties (journal_ s))) s in
  let '(err, s2) :=
    commit_loop deleteEmptyObjects (seq 0 (length (stateObjects s1))) s1 in
  ((zeroHash, err), clearJournalAndRefund s2).

(** The body of the loop of [Finalise] over [journal.dirties]. *)
Definition finalise_step (deleteEmptyObjects : bool) (d : dirty) (s : CommitStateDB)
    : option error * CommitStateDB :=
  match addressToObjectIndex s !! dirty_address d with
  | None => (None, s)
  | Some idx =>
      match stateObjects s !! idx with
      | None => (None, s)
      | Some e =>
          let so := se_stateObject e in
          let '(err, s1) :=
            if suicided so || (deleteEmptyObjects && empty (evmDenom s) so)
            then (None, deleteStateObject idx s)
            else
              let '(w, so') := commitState (ctx s) so in
              updateStateObject idx (modify_at idx (λ _, so') (set_ctx w s)) in
          match err with
          | Some _ => (err, s1)
          | None =>
              (None, set_stateObjectsDirty ({[dirty_address d]} ∪ stateObjectsDirty s1) s1)
          end
      end
  end.

Fixpoint finalise_loop (deleteEmptyObjects : bool) (ds : list dirty) (s : CommitStateDB)
    : option error * CommitStateDB :=
  match ds with
  | [] => (None, s)
  | d :: rest =>
      match finalise_step deleteEmptyObjects d s with
      | (Some err, s1) => (Some err, s1)
      | (None, s1) => finalise_loop deleteEmptyObjects rest s1
      end
  end.

Definition Finalise (deleteEmptyObjects : bool) (s : CommitStateDB)
    : option error * CommitStateDB :=
  match finalise_loop deleteEmptyObjects (dirties (journal_ s)) s with
  | (Some err, s1) => (Some err, s1)
  | (None, s1) => (None, DeleteLogs (thash s1) (clearJournalAndRefund s1))
  end.

Definition IntermediateRoot (deleteEmptyObjects : bool) (s : CommitStateDB)
    : (Hash * option error) * CommitStateDB :=
  match Finalise deleteEmptyObjects s with
  | (Some err, s1) => ((zeroHash, Some err), s1)
  | (None, s1) => ((zeroHash, None), s1)
  end.

(** *** Reverting journal entries *)

(** The positions of the entries that follow a removed one move down by
    one, in the slice and in the index map. *)
Fixpoint reindex_from {A} (key : A → Z) (i : nat) (tail : list A) (m : gmap Z nat)
    : gmap Z nat :=
  match tail with
  | [] => m
  | e :: t => reindex_from key (S i) t (<[key e := i]> m)
  end.

(** Modelled from the spec: the revert of [createObjectChange] ("Remove
    object from live set and address index"). *)
Definition remove_object (addr : Address) (s : CommitStateDB) : CommitStateDB :=
  match addressToObjectIndex s !! addr with
  | None => s
  | Some idx =>
      set_live (delete idx (stateObjects s))
               (reindex_from se_address idx (drop (S idx) (stateObjects s))
                  (delete addr (addressToObjectIndex s))) s
  end.

(** Modelled from the spec: the revert of [addPreimageChange] ("Remove
    preimage entry"). *)
Definition remove_preimage (hash : Hash) (s : CommitStateDB) : CommitStateDB :=
  match hashToPreimageIndex s !! hash with
  | None => s
  | Some idx =>
      set_preimages (delete idx (preimages s))
                    (reindex_from pe_hash idx (drop (S idx) (preimages s))
                       (delete hash (hashToPreimageIndex s))) s
  end.

(** Resolve the object of a journal entry and write to it. *)
Definition restore_object (addr : Address) (f : stateObject → stateObject)
    (s : CommitStateDB) : CommitStateDB :=
  let '(so, s1) := getStateObject addr s in
  match so with
  | Some _ => modify_object addr f s1
  | None => s1
  end.

(** Modelled from the spec: the revert of each journal entry (the column
    "Revert semantics" of the table of journal entries). *)
Definition undo (e : journalEntry) (s : CommitStateDB) : CommitStateDB :=
  match e with
  | createObjectChange a => remove_object a s
  | resetObjectChange prev => setStateObject prev s
  | suicideChange a prev prevBalance =>
      restore_object a (λ so, setBalance (evmDenom s) prevBalance (set_suicided prev so)) s
  | balanceChange a prev => restore_object a (setBalance (evmDenom s) prev) s
  | nonceChange a prev => restore_object a (setNonce prev) s
  | storageChange a key prevValue => restore_object a (restoreState key prevValue) s
  | codeChange a prevCode prevHash prevDirty =>
      restore_object a (restoreCode prevCode prevHash prevDirty) s
  | refundChange prev => set_refund prev s
  | addLogChange _ => set_logSize (wrap64 (logSize s - 1)) (set_logs (removelast (logs s)) s)
  | addPreimageChange h => remove_preimage h s
  | touchChange _ => s
  | accessListAddAccountChange a => set_accessList (al_DeleteAddress a (accessList_ s)) s
  | accessListAddSlotChange a slot => set_accessList (al_DeleteSlot a slot (accessList_ s)) s
  end.

(** Undo the entries [es], given last first, dropping the dirty mark each
    of them had added. *)
Fixpoint revert_entries (es : list journalEntry) (s : CommitStateDB) : CommitStateDB :=
  match es with
  | [] => s
  | e :: t =>
      let s1 := undo e s in
      let j := journal_ s1 in
      let s2 :=
        match dirtied e with
        | Some a => set_journal (mkJournal (entries j) (subtractDirty a (dirties j))) s1
        | None => s1
        end in
      revert_entries t s2
  end.

(** Modelled from the spec: [journal.revert] ("pops entries from the end
    until the journal has snapshot_length entries, invoking each entry's undo
    against the overlay in reverse order"). *)
Definition journal_revert (snapshot : nat) (s : CommitStateDB) : CommitStateDB :=
  let s1 := revert_entries (rev (drop snapshot (entries (journal_ s)))) s in
  set_journal (mkJournal (take snapshot (entries (journal_ s1))) (dirties (journal_ s1))) s1.

(** *** Snapshotting *)

Definition Snapshot (s : CommitStateDB) : Z * CommitStateDB :=
  let id := nextRevisionID s in
  (id,
   set_revisions
     (validRevisions s ++ [mkRevision id (journal_length (journal_ s))])
     (wrapInt (id + 1)) s).

(** [sort.Search] of the Go library: the binary search for the least index
    of [0, n) at which [f] holds, [n] if there is none.  The loop
    [for i < j] halves [j - i] at every turn; [fuel] bounds its turns. *)
Fixpoint search_loop (fuel i j : nat) (f : nat → bool) : nat :=
  match fuel with
  | O => i
  | S fuel' =>
      if (i <? j)%nat then
        let h := ((i + j) / 2)%nat in
        if f h then search_loop fuel' i h f else search_loop fuel' (S h) j f
      else i
  end.

Definition sort_Search (n : nat) (f : nat → bool) : nat := search_loop n 0 n f.

Definition RevertToSnapshot (revID : Z) (s : CommitStateDB) : Res CommitStateDB unit :=
  let idx :=
    sort_Search (length (validRevisions s))
      (λ i, match validRevisions s !! i with
            | Some r => bool_decide (revID ≤ rev_id r)
            | None => false
            end) in
  match validRevisions s !! idx with
  | None => Panic "revision ID cannot be reverted" s
  | Some r =>
      if decide (rev_id r = revID) then
        let s1 := journal_revert (journalIndex r) s in
        Done tt (set_revisions (take idx (validRevisions s1)) (nextRevisionID s1) s1)
      else Panic "revision ID cannot be reverted" s
  end.

(** *** Auxiliary *)

Definition Empty (addr : Address) (s : CommitStateDB) : bool * CommitStateDB :=
  let '(so, s1) := getStateObject addr s in
  match so with
  | None => (true, s1)
  | Some so' => (empty (evmDenom s1) so', s1)
  end.

Definition Exist (addr : Address) (s : CommitStateDB) : bool * CommitStateDB :=
  let '(so, s1) := getStateObject addr s in
  (bool_decide (is_Some so), s1).

Definition Suicide (addr : Address) (s : CommitStateDB) : bool * CommitStateDB :=
  let '(so, s1) := getStateObject addr s in
  match so with
  | None => (false, s1)
  | Some so' =>
      let s2 :=
        append_journal
          (suicideChange addr (suicided so') (Balance (evmDenom s1) so')) s1 in
      let s3 := modify_object addr markSuicided s2 in
      (true, so_SetBalance addr 0 s3)
  end.

Definition Reset (_ : Hash) (s : CommitStateDB) : option error * CommitStateDB :=
  let s1 := set_live [] ∅ s in
  let s2 := set_stateObjectsDirty ∅ s1 in
  let s3 := set_txmeta zeroHash zeroHash 0 s2 in
  let s4 := set_logSize 0 s3 in
  let s5 := set_preimages [] ∅ s4 in
  let s6 := set_accessList newAccessList s5 in
  let s7 := set_params None s6 in
  (None, clearJournalAndRefund s7).

(** The body of the loop of [UpdateAccounts].  [Balance()] and
    [balance.Amount.BigInt()] are two distinct [*big.Int], so that the
    comparison [!=] of the two pointers holds. *)
Definition updateAccounts_step (idx : nat) (s : CommitStateDB) : CommitStateDB :=
  match stateObjects s !! idx with
  | None => s
  | Some e =>
      match GetAccount (ctx s) (se_address e) with
      | None => s
      | Some currAcc =>
          let '(p, s1) := GetParams s in
          let balance := mkCoin (EvmDenom p) (AmountOf (acc_coins currAcc) (EvmDenom p)) in
          if (true && IsValid balance)
             || negb (bool_decide (Nonce (se_stateObject e) = acc_sequence currAcc))
          then modify_at idx (set_so_account currAcc) s1
          else s1
      end
  end.

Definition UpdateAccounts (s : CommitStateDB) : CommitStateDB :=
  foldl (λ s' idx, updateAccounts_step idx s') s (seq 0 (length (stateObjects s))).

Definition ClearStateObjects (s : CommitStateDB) : CommitStateDB :=
  set_stateObjectsDirty ∅ (set_live [] ∅ s).

Definition Prepare (th bh : Hash) (txi : Z) (s : CommitStateDB) : CommitStateDB :=
  set_txmeta th bh txi s.

Definition CreateAccount (addr : Address) (s : CommitStateDB) : CommitStateDB :=
  let '((_, prevobj), s1) := createObject addr s in
  match prevobj with
  | Some prev =>
      let '(p, s2) := GetParams s1 in
      modify_object addr (setBalance (EvmDenom p) (Balance (EvmDenom p) prev)) s2
  | None => s1
  end.

(** The pairs a [ForEachStorage] callback is invoked on: the stored pairs of
    the account in key order, a dirty value shadowing the stored one, up to
    the first pair on which the callback asks to stop. *)
Fixpoint forEach_loop (cb : Hash → Hash → bool) (so : stateObject) (kvs : list (Z * Z))
    : list (Z * Z) :=
  match kvs with
  | [] => []
  | (k, v) :: t =>
      let v' := default v (storage_lookup k (dirtyStorage so)) in
      (k, v') :: (if cb k v' then [] else forEach_loop cb so t)
  end.

Definition key_le (x y : Z * Z) : Prop := fst x ≤ fst y.

#[local] Instance key_le_dec x y : Decision (key_le x y).
Proof. unfold key_le. apply _. Defined.

Definition stored_pairs (w : World) (a : Address) : list (Z * Z) :=
  merge_sort key_le
    (omap (λ kv, if decide (fst (fst kv) = a) then Some (snd (fst kv), snd kv) else None)
          (map_to_list (storageStore w))).

Definition ForEachStorage (addr : Address) (cb : Hash → Hash → bool) (s : CommitStateDB)
    : list (Z * Z) * CommitStateDB :=
  let '(so, s1) := getStateObject addr s in
  match so with
  | None => ([], s1)
  | Some so' => (forEach_loop cb so' (stored_pairs (ctx s1) (so_address so')), s1)
  end.

Definition SetLogSize (n : Z) (s : CommitStateDB) : CommitStateDB := set_logSize n s.

Definition GetLogSize (s : CommitStateDB) : Z := logSize s.

(** ** Invariants of the overlay *)

(** A slice and the index map of its keys describe each other: a key is
    mapped to the position of the entry that carries it, and every entry is
    mapped. *)
Definition indexed {A} (key : A → Z) (l : list A) (m : gmap Z nat) : Prop :=
  (∀ k i, m !! k = Some i → ∃ e, l !! i = Some e ∧ key e = k)
  ∧ (∀ i e, l !! i = Some e → m !! key e = Some i).

Definition wf_index (s : CommitStateDB) : Prop :=
  indexed se_address (stateObjects s) (addressToObjectIndex s).

(** The consistency of the index map with the slice: every mapped index is
    a position of the slice whose entry carries the mapped address, and no
    address occupies two entries. *)
Definition index_consistent (s : CommitStateDB) : Prop :=
  (∀ a idx, addressToObjectIndex s !! a = Some idx →
            (idx < length (stateObjects s))%nat
            ∧ ∃ e, stateObjects s !! idx = Some e ∧ se_address e = a)
  ∧ NoDup (se_address <$> stateObjects s).

(** A live object and its account carry the address of their slot. *)
Definition wf_objects (s : CommitStateDB) : Prop :=
  ∀ idx e, stateObjects s !! idx = Some e →
           so_address (se_stateObject e) = se_address e
           ∧ acc_address (so_account (se_stateObject e)) = se_address e.

(** The stack of revisions is in the order in which [Snapshot] fills it. *)
Definition revisions_sorted (l : list revision) : Prop :=
  ∀ i j ri rj, l !! i = Some ri → l !! j = Some rj → (i < j)%nat → rev_id ri < rev_id rj.

(** ** Public operations *)

Inductive op :=
| OpWithContext (w : World)
| OpSetHeightHash (height : Z) (hash : Hash)
| OpSetParams (p : Params)
| OpSetBalance (addr : Address) (amount : Z)
| OpAddBalance (addr : Address) (amount : Z)
| OpSubBalance (addr : Address) (amount : Z)
| OpSetNonce (addr : Address) (nonce : Z)
| OpSetState (addr : Address) (key value : Hash)
| OpSetCode (addr : Address) (code : list byte)
| OpSetLogs (hash : Hash) (l : list Log)
| OpDeleteLogs (hash : Hash)
| OpAddLog (log : Log)
| OpAddPreimage (hash : Hash) (preimage : list byte)
| OpAddRefund (gas : Z)
| OpSubRefund (gas : Z)
| OpAddAddressToAccessList (addr : Address)
| OpAddSlotToAccessList (addr : Address) (slot : Hash)
| OpGetParams
| OpGetBalance (addr : Address)
| OpGetNonce (addr : Address)
| OpSetBlockHash (hash : Hash)
| OpGetCode (addr : Address)
| OpGetCodeSize (addr : Address)
| OpGetCodeHash (addr : Address)
| OpGetState (addr : Address) (hash : Hash)
| OpGetCommittedState (addr : Address) (hash : Hash)
| OpHasSuicided (addr : Address)
| OpCommit (deleteEmptyObjects : bool)
| OpFinalise (deleteEmptyObjects : bool)
| OpIntermediateRoot (deleteEmptyObjects : bool)
| OpSnapshot
| OpRevertToSnapshot (revID : Z)
| OpEmpty (addr : Address)
| OpExist (addr : Address)
| OpSuicide (addr : Address)
| OpReset (hash : Hash)
| OpUpdateAccounts
| OpClearStateObjects
| OpPrepare (th bh : Hash) (txi : Z)
| OpCreateAccount (addr : Address)
| OpForEachStorage (addr : Address) (cb : Hash → Hash → bool)
| OpGetOrNewStateObject (addr : Address)
| OpSetLogSize (n : Z).

(** The overlay after a call; a call that panics leaves the overlay as it
    was at the panic. *)
Definition exec (o : op) (s : CommitStateDB) : CommitStateDB :=
  match o with
  | OpWithContext w => WithContext w s
  | OpSetHeightHash h hash => SetHeightHash h hash s
  | OpSetParams p => SetParams p s
  | OpSetBalance a amount => SetBalance a amount s
  | OpAddBalance a amount => AddBalance a amount s
  | OpSubBalance a amount => res_state (SubBalance a amount s)
  | OpSetNonce a n => SetNonce a n s
  | OpSetState a k v => SetState a k v s
  | OpSetCode a code => SetCode a code s
  | OpSetLogs h l => snd (SetLogs h l s)
  | OpDeleteLogs h => DeleteLogs h s
  | OpAddLog l => AddLog l s
  | OpAddPreimage h p => AddPreimage h p s
  | OpAddRefund g => AddRefund g s
  | OpSubRefund g => res_state (SubRefund g s)
  | OpAddAddressToAccessList a => AddAddressToAccessList a s
  | OpAddSlotToAccessList a slot => AddSlotToAccessList a slot s
  | OpGetParams => snd (GetParams s)
  | OpGetBalance a => snd (GetBalance a s)
  | OpGetNonce a => snd (GetNonce a s)
  | OpSetBlockHash h => SetBlockHash h s
  | OpGetCode a => snd (GetCode a s)
  | OpGetCodeSize a => snd (GetCodeSize a s)
  | OpGetCodeHash a => snd (GetCodeHash a s)
  | OpGetState a h => snd (GetState a h s)
  | OpGetCommittedState a h => snd (GetCommittedState a h s)
  | OpHasSuicided a => snd (HasSuicided a s)
  | OpCommit b => snd (Commit b s)
  | OpFinalise b => snd (Finalise b s)
  | OpIntermediateRoot b => snd (IntermediateRoot b s)
  | OpSnapshot => snd (Snapshot s)
  | OpRevertToSnapshot id => res_state (RevertToSnapshot id s)
  | OpEmpty a => snd (Empty a s)
  | OpExist a => snd (Exist a s)
  | OpSuicide a => snd (Suicide a s)
  | OpReset h => snd (Reset h s)
  | OpUpdateAccounts => UpdateAccounts s
  | OpClearStateObjects => ClearStateObjects s
  | OpPrepare th bh txi => Prepare th bh txi s
  | OpCreateAccount a => CreateAccount a s
  | OpForEachStorage a cb => snd (ForEachStorage a cb s)
  | OpGetOrNewStateObject a => snd (GetOrNewStateObject a s)
  | OpSetLogSize n => SetLogSize n s
  end.

Definition run (ops : list op) (s : CommitStateDB) : CommitStateDB :=
  foldl (λ s' o, exec o s') s ops.

(** The mutating operations a snapshot is reverted over. *)
Definition mutating (o : op) : bool :=
  match o with
  | OpSetBalance _ _ | OpAddBalance _ _ | OpSubBalance _ _ | OpSetNonce _ _
  | OpSetState _ _ _ | OpSetCode _ _ | OpAddLog _ | OpAddPreimage _ _
  | OpAddRefund _ | OpAddAddressToAccessList _ | OpAddSlotToAccessList _ _
  | OpCreateAccount _ => true
  | _ => false
  end.

(** * Properties *)

(** ** Logs, refund counter, reset *)

(** C4: [GetLogs] returns the current log sequence of the overlay with a
    nil error, whatever hash is asked for: two calls with two hashes return
    the same value. *)
Theorem GetLogs_ignores_hash (s : CommitStateDB) (h1 h2 : Hash) :
  GetLogs h1 s = GetLogs h2 s ∧ GetLogs h1 s = (logs s, None).
Proof. split; reflexivity. Qed.

Lemma wrap64_small z : 0 ≤ z < 2 ^ 64 → wrap64 z = z.
Proof. intros H. unfold wrap64. apply Z.mod_small. exact H. Qed.

Lemma refund_append_journal e s : refund (append_journal e s) = refund s.
Proof. reflexivity. Qed.

(** C6, as the code has it: on a 64-bit counter [r] and a 64-bit amount
    [g], [AddRefund g] sets the counter to [r + g] modulo [2^64] (to [r + g]
    when that fits in 64 bits); [SubRefund g] panics if and only if [g > r]
    and otherwise sets the counter to [r - g]. *)
Theorem refund_arithmetic (s : CommitStateDB) (g : Z) :
  0 ≤ refund s < 2 ^ 64 → 0 ≤ g < 2 ^ 64 →
  refund (AddRefund g s) = (refund s + g) mod 2 ^ 64
  ∧ (refund s + g < 2 ^ 64 → refund (AddRefund g s) = refund s + g)
  ∧ (panicked (SubRefund g s) = true ↔ g > refund s)
  ∧ (g ≤ refund s →
     ∃ s', SubRefund g s = Done tt s' ∧ refund s' = refund s - g).
Proof.
  intros Hr Hg. repeat split.
  - intros Hfit. unfold AddRefund. simpl. apply wrap64_small. lia.
  - unfold SubRefund. rewrite refund_append_journal.
    destruct (decide (refund s < g)); simpl; [lia | discriminate].
  - unfold SubRefund. rewrite refund_append_journal.
    destruct (decide (refund s < g)); simpl; [reflexivity | lia].
  - intros Hle. unfold SubRefund. rewrite refund_append_journal.
    destruct (decide (refund s < g)); [lia |].
    eexists. split; [reflexivity |]. simpl. apply wrap64_small. lia.
Qed.

(** C3, as the code has it: [Reset] empties the live objects, the address
    index, the dirty set, the metadata of the transaction, the preimages,
    the access list, the cached parameters, the journal, the stack of
    revisions and the refund counter, and leaves the external stores as
    they are; the logs are left as they are too. *)
Theorem Reset_clears_transient_state (s : CommitStateDB) (h : Hash) :
  let s' := snd (Reset h s) in
  fst (Reset h s) = None
  ∧ stateObjects s' = [] ∧ addressToObjectIndex s' = ∅ ∧ stateObjectsDirty s' = ∅
  ∧ thash s' = zeroHash ∧ bhash s' = zeroHash ∧ txIndex s' = 0 ∧ logSize s' = 0
  ∧ preimages s' = [] ∧ hashToPreimageIndex s' = ∅
  ∧ accessList_ s' = newAccessList ∧ params s' = None
  ∧ journal_ s' = newJournal ∧ validRevisions s' = [] ∧ refund s' = 0
  ∧ ctx s' = ctx s
  ∧ logs s' = logs s.
Proof. simpl. repeat split; reflexivity. Qed.

(** ** Accounts that cannot be loaded *)

Lemma dbErr_setStateObject so s : dbErr (setStateObject so s) = dbErr s.
Proof. unfold setStateObject. destruct (_ !! _); reflexivity. Qed.

Lemma dbErr_setError_keeps err e s : dbErr s = Some e → dbErr (setError err s) = Some e.
Proof. intros H. unfold setError. rewrite H. exact H. Qed.

Lemma dbErr_getStateObject_keeps b e s :
  dbErr s = Some e → dbErr (snd (getStateObject b s)) = Some e.
Proof.
  intros H. unfold getStateObject.
  destruct (slot_of s b) as [en|].
  - destruct (deleted _); exact H.
  - destruct (GetAccount _ _); simpl.
    + rewrite dbErr_setStateObject. exact H.
    + apply dbErr_setError_keeps, H.
Qed.

Lemma getStateObject_absent a s :
  addressToObjectIndex s !! a = None → GetAccount (ctx s) a = None →
  getStateObject a s = (None, setError (ErrNoAccount a) s).
Proof.
  intros Hi Hk. unfold getStateObject, slot_of. rewrite Hi. simpl. rewrite Hk. reflexivity.
Qed.

Lemma setError_frame err s :
  addressToObjectIndex (setError err s) = addressToObjectIndex s
  ∧ ctx (setError err s) = ctx s
  ∧ stateObjects (setError err s) = stateObjects s.
Proof. unfold setError. destruct (dbErr s); repeat split; reflexivity. Qed.

Lemma dbErr_setError err s :
  dbErr (setError err s) = Some (default err (dbErr s)).
Proof. unfold setError. destruct (dbErr s) eqn:E; simpl; [exact E | reflexivity]. Qed.

(** C9: for an address that is neither in the live set nor in the account
    keeper, [getStateObject] returns nil and memoises an error; the reads
    that follow return the zero values; [Error] returns the first memoised
    error, which no later error replaces. *)
Theorem absent_account_reads (s : CommitStateDB) (a : Address) (k : Hash) :
  addressToObjectIndex s !! a = None →
  GetAccount (ctx s) a = None →
  let s1 := snd (getStateObject a s) in
  fst (getStateObject a s) = None
  ∧ Error s1 = Some (default (ErrNoAccount a) (Error s))
  ∧ fst (GetBalance a s1) = 0
  ∧ fst (GetNonce a s1) = 0
  ∧ fst (GetState a k s1) = zeroHash
  ∧ fst (GetCode a s1) = []
  ∧ Error (snd (GetBalance a s1)) = Error s1
  ∧ Error (snd (GetNonce a s1)) = Error s1
  ∧ Error (snd (GetState a k s1)) = Error s1
  ∧ Error (snd (GetCode a s1)) = Error s1
  ∧ (∀ err, Error (setError err s1) = Error s1)
  ∧ (∀ b, Error (snd (getStateObject b s1)) = Error s1).
Proof.
  intros Hi Hk s1.
  assert (Hs1 : s1 = setError (ErrNoAccount a) s).
  { unfold s1. rewrite getStateObject_absent by assumption. reflexivity. }
  destruct (setError_frame (ErrNoAccount a) s) as (Hi1 & Hc1 & _).
  assert (Hg : getStateObject a s1 = (None, setError (ErrNoAccount a) s1)).
  { apply getStateObject_absent; rewrite Hs1; [rewrite Hi1 | rewrite Hc1]; assumption. }
  assert (He : Error s1 = Some (default (ErrNoAccount a) (Error s))).
  { rewrite Hs1. apply dbErr_setError. }
  assert (Hkeep : ∀ err, Error (setError err s1) = Error s1).
  { intros err. unfold Error in *. rewrite He. apply dbErr_setError_keeps, He. }
  split; [rewrite getStateObject_absent by assumption; reflexivity |].
  split; [exact He |].
  unfold GetBalance, GetNonce, GetState, GetCode. rewrite Hg. simpl.
  repeat split; try apply Hkeep.
  intros b. unfold Error in *. rewrite He. apply dbErr_getStateObject_keeps, He.
Qed.

(** ** What the operations on live objects leave alone *)

(** [live_only s s']: [s'] differs from [s] in the live objects, their
    index and the memoised error at most. *)
Definition live_only (s s' : CommitStateDB) : Prop :=
  ctx s' = ctx s ∧ stateObjectsDirty s' = stateObjectsDirty s
  ∧ refund s' = refund s ∧ thash s' = thash s ∧ bhash s' = bhash s
  ∧ txIndex s' = txIndex s ∧ logSize s' = logSize s ∧ logs s' = logs s
  ∧ preimages s' = preimages s ∧ hashToPreimageIndex s' = hashToPreimageIndex s
  ∧ journal_ s' = journal_ s ∧ validRevisions s' = validRevisions s
  ∧ nextRevisionID s' = nextRevisionID s ∧ accessList_ s' = accessList_ s
  ∧ params s' = params s.

Lemma live_only_refl s : live_only s s.
Proof. repeat split. Qed.

Lemma live_only_trans s1 s2 s3 : live_only s1 s2 → live_only s2 s3 → live_only s1 s3.
Proof.
  unfold live_only. intros H1 H2.
  destruct H1 as (?&?&?&?&?&?&?&?&?&?&?&?&?&?&?).
  destruct H2 as (?&?&?&?&?&?&?&?&?&?&?&?&?&?&?).
  repeat split; congruence.
Qed.

Lemma live_only_set_live l m s : live_only s (set_live l m s).
Proof. repeat split. Qed.

Lemma live_only_setError err s : live_only s (setError err s).
Proof. unfold setError. destruct (dbErr s); repeat split. Qed.

Lemma live_only_modify_at idx f s : live_only s (modify_at idx f s).
Proof. repeat split. Qed.

Lemma live_only_modify_object a f s : live_only s (modify_object a f s).
Proof.
  unfold modify_object. destruct (_ !! _); [apply live_only_modify_at | apply live_only_refl].
Qed.

Lemma live_only_setStateObject so s : live_only s (setStateObject so s).
Proof. unfold setStateObject. destruct (_ !! _); repeat split. Qed.

Lemma live_only_getStateObject a s : live_only s (snd (getStateObject a s)).
Proof.
  unfold getStateObject. destruct (slot_of s a).
  - destruct (deleted _); apply live_only_refl.
  - destruct (GetAccount _ _); simpl;
      [apply live_only_setStateObject | apply live_only_setError].
Qed.

Lemma live_only_remove_object a s : live_only s (remove_object a s).
Proof. unfold remove_object. destruct (_ !! _); repeat split. Qed.

Lemma live_only_restore_object a f s : live_only s (restore_object a f s).
Proof.
  unfold restore_object.
  pose proof (live_only_getStateObject a s) as H.
  destruct (getStateObject a s) as [o s1]. simpl in H.
  destruct o; [| exact H].
  eapply live_only_trans; [exact H | apply live_only_modify_object].
Qed.

Lemma evmDenom_live_only s s' : live_only s s' → evmDenom s' = evmDenom s.
Proof.
  intros (Hc & _ & _ & _ & _ & _ & _ & _ & _ & _ & _ & _ & _ & _ & Hp).
  unfold evmDenom. rewrite Hp, Hc. reflexivity.
Qed.

(** The journal, the stack of revisions and the revision counter are not
    written by the revert of an entry. *)
Definition same_control (s s' : CommitStateDB) : Prop :=
  entries (journal_ s') = entries (journal_ s)
  ∧ validRevisions s' = validRevisions s
  ∧ nextRevisionID s' = nextRevisionID s.

Lemma same_control_live_only s s' : live_only s s' → same_control s s'.
Proof.
  intros (_ & _ & _ & _ & _ & _ & _ & _ & _ & _ & Hj & Hv & Hn & _).
  unfold same_control. rewrite Hj. auto.
Qed.

Lemma same_control_undo e s : same_control s (undo e s).
Proof.
  destruct e; simpl;
    try (apply same_control_live_only;
         first [apply live_only_remove_object | apply live_only_setStateObject
               | apply live_only_restore_object]);
    try (repeat split; fail).
  unfold remove_preimage. destruct (_ !! _); repeat split.
Qed.

Lemma same_control_revert_entries es s : same_control s (revert_entries es s).
Proof.
  revert s. induction es as [| e t IH]; intros s; simpl; [repeat split |].
  destruct (same_control_undo e s) as (H1 & H2 & H3).
  match goal with |- same_control _ (revert_entries _ ?x) =>
    destruct (IH x) as (I1 & I2 & I3) end.
  unfold same_control. rewrite I1, I2, I3.
  destruct (dirtied e); simpl; auto.
Qed.

(** The revert of an entry does not write to the journal: the loop of
    [journal.revert] does. *)
Lemma undo_journal e s : journal_ (undo e s) = journal_ s.
Proof.
  destruct e; simpl;
    try (first [apply (live_only_remove_object account s)
               | apply (live_only_setStateObject prev s)
               | apply live_only_restore_object]);
    try reflexivity.
  unfold remove_preimage. destruct (_ !! _); reflexivity.
Qed.

(** The mark an entry put on its address, taken back. *)
Definition unmark (e : journalEntry) (ds : list dirty) : list dirty :=
  match dirtied e with Some a => subtractDirty a ds | None => ds end.

Lemma revert_entries_dirties es s :
  dirties (journal_ (revert_entries es s))
  = foldl (λ ds e, unmark e ds) (dirties (journal_ s)) es.
Proof.
  revert s. induction es as [| e t IH]; intros s; simpl; [reflexivity |].
  rewrite IH. f_equal. unfold unmark.
  destruct (dirtied e); simpl; rewrite undo_journal; reflexivity.
Qed.

(** Every mark of the journal counts at least one entry. *)
Definition marks_counted (j : journal) : Prop :=
  Forall (λ d, changes d ≠ 0%nat) (dirties j).

Lemma addDirty_counted a ds :
  Forall (λ d, changes d ≠ 0%nat) ds → Forall (λ d, changes d ≠ 0%nat) (addDirty a ds).
Proof.
  induction 1 as [| d t Hd Ht IH]; simpl.
  - constructor; [discriminate | constructor].
  - destruct (decide (dirty_address d = a)); constructor; auto.
Qed.

Lemma subtractDirty_counted a ds :
  Forall (λ d, changes d ≠ 0%nat) ds →
  Forall (λ d, changes d ≠ 0%nat) (subtractDirty a ds).
Proof.
  induction 1 as [| d t Hd Ht IH]; simpl; [constructor |].
  destruct (decide (dirty_address d = a)); [| constructor; auto].
  destruct (changes d) as [| [| n]]; [exact Ht | exact Ht |].
  constructor; [discriminate | exact Ht].
Qed.

Lemma subtractDirty_addDirty a ds :
  Forall (λ d, changes d ≠ 0%nat) ds → subtractDirty a (addDirty a ds) = ds.
Proof.
  induction 1 as [| d t Hd Ht IH]; simpl.
  - rewrite decide_True by reflexivity. reflexivity.
  - destruct (decide (dirty_address d = a)) as [Heq | Hne]; simpl.
    + rewrite decide_True by reflexivity.
      destruct d as [b [| n]]; simpl in *; [contradiction | congruence].
    + rewrite decide_False by exact Hne. f_equal. exact IH.
Qed.

Lemma journal_append_counted e j : marks_counted j → marks_counted (journal_append e j).
Proof.
  unfold marks_counted, journal_append. simpl.
  destruct (dirtied e); [apply addDirty_counted | auto].
Qed.

Lemma unmark_journal_append e j :
  marks_counted j → unmark e (dirties (journal_append e j)) = dirties j.
Proof.
  intros H. unfold unmark, journal_append. simpl.
  destruct (dirtied e); [apply subtractDirty_addDirty, H | reflexivity].
Qed.

Lemma journal_revert_spec n s :
  entries (journal_ (journal_revert n s)) = take n (entries (journal_ s))
  ∧ validRevisions (journal_revert n s) = validRevisions s
  ∧ nextRevisionID (journal_revert n s) = nextRevisionID s.
Proof.
  unfold journal_revert.
  destruct (same_control_revert_entries (rev (drop n (entries (journal_ s)))) s)
    as (H1 & H2 & H3).
  simpl. rewrite H1. auto.
Qed.

(** ** Indexed slices *)

Section Indexed.
Context {A : Type} (key : A → Z).

Lemma indexed_empty : indexed key [] ∅.
Proof.
  split.
  - intros k i H. rewrite lookup_empty in H. discriminate.
  - intros i e H. rewrite lookup_nil in H. discriminate.
Qed.

Lemma indexed_lt l m k i : indexed key l m → m !! k = Some i → (i < length l)%nat.
Proof.
  intros [H1 _] Hk. destruct (H1 k i Hk) as (e & He & _).
  eapply lookup_lt_Some, He.
Qed.

Lemma indexed_inj l m k1 k2 i :
  indexed key l m → m !! k1 = Some i → m !! k2 = Some i → k1 = k2.
Proof.
  intros [H1 _] Ha Hb.
  destruct (H1 k1 i Ha) as (e & He & Hk). destruct (H1 k2 i Hb) as (e' & He' & Hk').
  congruence.
Qed.

Lemma indexed_NoDup l m : indexed key l m → NoDup (key <$> l).
Proof.
  intros [_ H2]. apply NoDup_alt. intros i j k Hi Hj.
  rewrite list_lookup_fmap in Hi, Hj.
  destruct (l !! i) as [ei |] eqn:Ei; [| discriminate].
  destruct (l !! j) as [ej |] eqn:Ej; [| discriminate].
  simpl in Hi, Hj.
  pose proof (H2 i ei Ei) as Hmi. pose proof (H2 j ej Ej) as Hmj.
  congruence.
Qed.

Lemma indexed_append l m e :
  indexed key l m → m !! key e = None →
  indexed key (l ++ [e]) (<[key e := length l]> m).
Proof.
  intros [H1 H2] Hnone. split.
  - intros k i Hk. destruct (decide (key e = k)) as [<- | Hne].
    + rewrite lookup_insert_eq in Hk. injection Hk as <-.
      exists e. split; [| reflexivity].
      rewrite lookup_app_r by lia. rewrite Nat.sub_diag. reflexivity.
    + rewrite lookup_insert_ne in Hk by exact Hne.
      destruct (H1 k i Hk) as (e' & He' & Hk'). exists e'. split; [| exact Hk'].
      apply lookup_app_l_Some, He'.
  - intros i e' Hi. apply lookup_app_Some in Hi. destruct Hi as [Hi | [Hlen Hi]].
    + destruct (decide (key e = key e')) as [Heq | Hne].
      * pose proof (H2 i e' Hi) as Hm. rewrite <- Heq in Hm. congruence.
      * rewrite lookup_insert_ne by exact Hne. apply H2, Hi.
    + destruct (i - length l)%nat as [| n] eqn:Hd; simpl in Hi; [| destruct n; discriminate].
      injection Hi as <-. rewrite lookup_insert_eq. f_equal. lia.
Qed.

Lemma indexed_alter l m f i :
  indexed key l m → (∀ x, key (f x) = key x) → indexed key (alter f i l) m.
Proof.
  intros [H1 H2] Hf. split.
  - intros k j Hk. destruct (H1 k j Hk) as (e & He & Hke).
    destruct (decide (i = j)) as [-> | Hne].
    + exists (f e). rewrite list_lookup_alter_eq, He. split; [reflexivity |].
      rewrite Hf. exact Hke.
    + exists e. rewrite list_lookup_alter_ne by exact Hne. auto.
  - intros j e Hj. destruct (decide (i = j)) as [-> | Hne].
    + rewrite list_lookup_alter_eq in Hj.
      destruct (l !! j) as [e0 |] eqn:E0; [| discriminate].
      simpl in Hj. injection Hj as <-. rewrite Hf. apply H2, E0.
    + rewrite list_lookup_alter_ne in Hj by exact Hne. apply H2, Hj.
Qed.

Lemma reindex_from_notin i tail (m : gmap Z nat) k :
  k ∉ key <$> tail → reindex_from key i tail m !! k = m !! k.
Proof.
  revert i m. induction tail as [| e t IH]; intros i m Hk; simpl; [reflexivity |].
  rewrite fmap_cons in Hk. apply not_elem_of_cons in Hk. destruct Hk as [Hne Hk].
  rewrite IH by exact Hk. apply lookup_insert_ne. congruence.
Qed.

Lemma reindex_from_in i tail (m : gmap Z nat) p e :
  NoDup (key <$> tail) → tail !! p = Some e →
  reindex_from key i tail m !! key e = Some (i + p)%nat.
Proof.
  revert i m p. induction tail as [| e0 t IH]; intros i m p Hnd Hp; [discriminate |].
  rewrite fmap_cons in Hnd. apply NoDup_cons in Hnd. destruct Hnd as [Hnotin Hnd].
  destruct p as [| p]; simpl in *.
  - injection Hp as <-. rewrite reindex_from_notin by exact Hnotin.
    rewrite lookup_insert_eq. f_equal. lia.
  - rewrite (IH (S i) _ p Hnd Hp). f_equal. lia.
Qed.

(** Removing the entry of a key and moving its successors down keeps the
    slice indexed. *)
Lemma indexed_remove l m k idx :
  indexed key l m → m !! k = Some idx →
  indexed key (delete idx l) (reindex_from key idx (drop (S idx) l) (delete k m)).
Proof.
  intros Hix Hk. pose proof (indexed_NoDup l m Hix) as Hnd.
  pose proof (indexed_lt l m k idx Hix Hk) as Hlt.
  destruct Hix as [H1 H2].
  assert (Hndt : NoDup (key <$> drop (S idx) l)).
  { rewrite fmap_drop. apply NoDup_ListNoDup.
    apply NoDup_ListNoDup in Hnd.
    rewrite <- (take_drop (S idx) (key <$> l)) in Hnd.
    apply NoDup_ListNoDup in Hnd. apply NoDup_app in Hnd.
    apply NoDup_ListNoDup. apply Hnd. }
  assert (Htail : ∀ k', k' ∈ key <$> drop (S idx) l →
            ∃ p e, drop (S idx) l !! p = Some e ∧ key e = k').
  { intros k' Hin. apply list_elem_of_fmap in Hin. destruct Hin as (e & -> & Hin).
    apply list_elem_of_lookup_1 in Hin. destruct Hin as [p Hp]. eauto. }
  split.
  - intros k' i Hk'.
    destruct (decide (k' ∈ key <$> drop (S idx) l)) as [Hin | Hnotin].
    + destruct (Htail k' Hin) as (p & e & Hp & <-).
      rewrite (reindex_from_in idx _ _ p e Hndt Hp) in Hk'. injection Hk' as <-.
      exists e. split; [| reflexivity].
      rewrite list_lookup_delete_ge by lia. rewrite lookup_drop in Hp.
      exact Hp.
    + rewrite reindex_from_notin in Hk' by exact Hnotin.
      destruct (decide (k = k')) as [<- | Hne];
        [rewrite lookup_delete_eq in Hk'; discriminate |].
      rewrite lookup_delete_ne in Hk' by exact Hne.
      destruct (H1 k' i Hk') as (e & He & Hke).
      assert (Hi : (i < idx)%nat).
      { destruct (decide (i < idx)%nat) as [| Hge]; [assumption | exfalso].
        destruct (decide (i = idx)) as [-> | Hni].
        - apply Hne. eapply eq_trans; [symmetry |]; [| exact Hke].
          destruct (H1 k idx Hk) as (e0 & He0 & Hk0). congruence.
        - apply Hnotin. apply list_elem_of_fmap. exists e. split; [auto |].
          eapply list_elem_of_lookup_2 with (i := (i - S idx)%nat).
          rewrite lookup_drop. rewrite <- He. f_equal. lia. }
      exists e. split; [| exact Hke]. rewrite list_lookup_delete_lt by exact Hi. exact He.
  - intros i e Hi.
    destruct (decide (i < idx)%nat) as [Hlti | Hge].
    + rewrite list_lookup_delete_lt in Hi by exact Hlti.
      assert (Hnotin : key e ∉ key <$> drop (S idx) l).
      { intros Hin. destruct (Htail _ Hin) as (p & e' & Hp & Hke).
        rewrite lookup_drop in Hp. pose proof (H2 _ _ Hp) as Hm.
        pose proof (H2 _ _ Hi) as Hm'. rewrite Hke in Hm. rewrite Hm in Hm'.
        injection Hm' as Hm'. lia. }
      rewrite reindex_from_notin by exact Hnotin.
      assert (Hne : k ≠ key e).
      { intros ->. pose proof (H2 _ _ Hi) as Hm. rewrite Hk in Hm.
        injection Hm as Hm. lia. }
      rewrite lookup_delete_ne by exact Hne. apply H2, Hi.
    + rewrite list_lookup_delete_ge in Hi by lia.
      assert (Hp : drop (S idx) l !! (i - idx)%nat = Some e).
      { rewrite lookup_drop. rewrite <- Hi. f_equal. lia. }
      rewrite (reindex_from_in idx _ _ _ e Hndt Hp). f_equal. lia.
Qed.

Lemma indexed_remove_key l m k idx :
  indexed key l m → m !! k = Some idx →
  reindex_from key idx (drop (S idx) l) (delete k m) !! k = None.
Proof.
  intros Hix Hk. pose proof (indexed_remove l m k idx Hix Hk) as [H1' _].
  destruct (reindex_from key idx (drop (S idx) l) (delete k m) !! k) as [j |] eqn:E;
    [| reflexivity].
  exfalso. destruct (H1' k j E) as (e & He & Hke).
  destruct Hix as [H1 H2].
  destruct (decide (j < idx)%nat) as [Hlt | Hge].
  - rewrite list_lookup_delete_lt in He by exact Hlt.
    pose proof (H2 _ _ He) as Hm. rewrite Hke, Hk in Hm. injection Hm as Hm. lia.
  - rewrite list_lookup_delete_ge in He by lia.
    pose proof (H2 _ _ He) as Hm. rewrite Hke, Hk in Hm. injection Hm as Hm. lia.
Qed.

(** The entries of the other keys are the same after the removal. *)
Lemma indexed_remove_other l m k idx k' :
  indexed key l m → m !! k = Some idx → k' ≠ k →
  reindex_from key idx (drop (S idx) l) (delete k m) !! k'
    ≫= (λ i, delete idx l !! i)
  = m !! k' ≫= (λ i, l !! i).
Proof.
  intros Hix Hk Hne.
  pose proof (indexed_remove l m k idx Hix Hk) as [H1' H2'].
  destruct Hix as [H1 H2].
  destruct (m !! k') as [i |] eqn:Ei; simpl.
  - destruct (H1 k' i Ei) as (e & He & Hke).
    assert (Hni : i ≠ idx).
    { intros ->. destruct (H1 k idx Hk) as (e0 & He0 & Hk0). congruence. }
    destruct (decide (i < idx)%nat) as [Hlt | Hge].
    + assert (Hd : delete idx l !! i = Some e)
        by (rewrite list_lookup_delete_lt by exact Hlt; exact He).
      pose proof (H2' _ _ Hd) as Hm. rewrite Hke in Hm. rewrite Hm. simpl.
      rewrite Hd. auto.
    + assert (Hd : delete idx l !! (i - 1)%nat = Some e).
      { rewrite list_lookup_delete_ge by lia. rewrite <- He. f_equal. lia. }
      pose proof (H2' _ _ Hd) as Hm. rewrite Hke in Hm. rewrite Hm. simpl.
      rewrite Hd. auto.
  - destruct (reindex_from key idx (drop (S idx) l) (delete k m) !! k') as [j |] eqn:E;
      [| reflexivity].
    exfalso. destruct (H1' k' j E) as (e & He & Hke).
    apply list_elem_of_lookup_2, list_elem_of_delete_inv, list_elem_of_lookup_1 in He.
    destruct He as [i Hi]. pose proof (H2 _ _ Hi) as Hm. congruence.
Qed.
End Indexed.

(** ** The live objects and their index *)

Lemma wf_index_ext s s' :
  stateObjects s' = stateObjects s → addressToObjectIndex s' = addressToObjectIndex s →
  wf_index s → wf_index s'.
Proof. unfold wf_index. intros -> ->. auto. Qed.

Lemma wf_index_setError err s : wf_index s → wf_index (setError err s).
Proof.
  destruct (setError_frame err s) as (Hi & _ & Hl). apply wf_index_ext; assumption.
Qed.

Lemma wf_index_modify_at idx f s : wf_index s → wf_index (modify_at idx f s).
Proof.
  unfold wf_index, modify_at. simpl. intros H. apply indexed_alter; [exact H |].
  intros e. reflexivity.
Qed.

Lemma wf_index_modify_object a f s : wf_index s → wf_index (modify_object a f s).
Proof.
  unfold modify_object. destruct (_ !! _); [apply wf_index_modify_at | auto].
Qed.

Lemma wf_index_setStateObject so s : wf_index s → wf_index (setStateObject so s).
Proof.
  unfold wf_index, setStateObject. intros H.
  destruct (addressToObjectIndex s !! so_address so) eqn:E; simpl.
  - apply indexed_alter; [exact H |]. intros e. reflexivity.
  - apply (indexed_append se_address _ _ (mkStateEntry (so_address so) so) H E).
Qed.

Lemma wf_index_getStateObject a s o s1 :
  getStateObject a s = (o, s1) → wf_index s → wf_index s1.
Proof.
  unfold getStateObject. intros Hg Hwf.
  destruct (slot_of s a).
  - destruct (deleted _); injection Hg as <- <-; exact Hwf.
  - destruct (GetAccount _ _); injection Hg as <- <-.
    + apply wf_index_setStateObject, Hwf.
    + apply wf_index_setError, Hwf.
Qed.

Lemma wf_index_remove_object a s : wf_index s → wf_index (remove_object a s).
Proof.
  unfold wf_index, remove_object. intros H.
  destruct (addressToObjectIndex s !! a) eqn:E; simpl; [| exact H].
  apply indexed_remove; assumption.
Qed.

Lemma wf_index_restore_object a f s : wf_index s → wf_index (restore_object a f s).
Proof.
  unfold restore_object. intros H.
  destruct (getStateObject a s) as [o s1] eqn:E.
  pose proof (wf_index_getStateObject _ _ _ _ E H).
  destruct o; [apply wf_index_modify_object |]; assumption.
Qed.

Lemma wf_index_live_fields s s' :
  wf_index s → stateObjects s' = stateObjects s →
  addressToObjectIndex s' = addressToObjectIndex s → wf_index s'.
Proof. intros H H1 H2. eapply wf_index_ext; eassumption. Qed.

Lemma wf_index_undo e s : wf_index s → wf_index (undo e s).
Proof.
  intros H. destruct e; simpl;
    first [ apply wf_index_remove_object, H
          | apply wf_index_setStateObject, H
          | apply wf_index_restore_object, H
          | exact H
          | idtac ].
  unfold remove_preimage. destruct (_ !! _); exact H.
Qed.

Lemma wf_index_revert_entries es s : wf_index s → wf_index (revert_entries es s).
Proof.
  revert s. induction es as [| e t IH]; intros s H; simpl; [exact H |].
  apply IH. pose proof (wf_index_undo e s H) as H'.
  destruct (dirtied e); exact H'.
Qed.

Lemma wf_index_journal_revert n s : wf_index s → wf_index (journal_revert n s).
Proof.
  intros H. unfold journal_revert.
  exact (wf_index_revert_entries _ s H).
Qed.

(** The slot of an address after a write to the live objects. *)

Lemma slot_of_setStateObject so s b :
  wf_index s →
  slot_of (setStateObject so s) b
  = if decide (b = so_address so) then Some (mkStateEntry b so) else slot_of s b.
Proof.
  intros Hwf. unfold slot_of, setStateObject.
  destruct (addressToObjectIndex s !! so_address so) as [idx |] eqn:E; simpl.
  - destruct Hwf as [H1 H2]. destruct (H1 _ _ E) as (e & He & Hke).
    destruct (decide (b = so_address so)) as [-> | Hne].
    + rewrite E. simpl. rewrite list_lookup_alter_eq, He. simpl. rewrite Hke. reflexivity.
    + destruct (addressToObjectIndex s !! b) as [j |] eqn:Ej; [| reflexivity]. simpl.
      rewrite list_lookup_alter_ne; [reflexivity |].
      intros ->. apply Hne. destruct (H1 _ _ Ej) as (e' & He' & Hke'). congruence.
  - destruct (decide (b = so_address so)) as [-> | Hne].
    + rewrite lookup_insert_eq. simpl. rewrite lookup_app_r by lia.
      rewrite Nat.sub_diag. reflexivity.
    + rewrite lookup_insert_ne by congruence.
      destruct (addressToObjectIndex s !! b) as [j |] eqn:Ej; [| reflexivity]. simpl.
      apply lookup_app_l. eapply indexed_lt; eassumption.
Qed.

Lemma slot_of_modify_object a f s b :
  wf_index s →
  slot_of (modify_object a f s) b
  = if decide (b = a)
    then (λ e, mkStateEntry (se_address e) (f (se_stateObject e))) <$> slot_of s a
    else slot_of s b.
Proof.
  intros Hwf. unfold slot_of, modify_object.
  destruct (addressToObjectIndex s !! a) as [idx |] eqn:E; simpl.
  - destruct (decide (b = a)) as [-> | Hne].
    + rewrite E. simpl. apply list_lookup_alter_eq.
    + unfold modify_at. simpl.
      destruct (addressToObjectIndex s !! b) as [j |] eqn:Ej; [| reflexivity]. simpl.
      rewrite list_lookup_alter_ne; [reflexivity |].
      intros ->. apply Hne. eapply (indexed_inj se_address); eassumption.
  - destruct (decide (b = a)) as [-> | Hne]; [rewrite E |]; reflexivity.
Qed.

Lemma slot_of_remove_object a s b :
  wf_index s →
  slot_of (remove_object a s) b = if decide (b = a) then None else slot_of s b.
Proof.
  intros Hwf. unfold slot_of, remove_object.
  destruct (addressToObjectIndex s !! a) as [idx |] eqn:E; simpl.
  - destruct (decide (b = a)) as [-> | Hne].
    + rewrite (indexed_remove_key se_address _ _ _ _ Hwf E). reflexivity.
    + apply (indexed_remove_other se_address _ _ _ _ _ Hwf E Hne).
  - destruct (decide (b = a)) as [-> | Hne]; [rewrite E |]; reflexivity.
Qed.

Lemma slot_of_ext s s' b :
  stateObjects s' = stateObjects s → addressToObjectIndex s' = addressToObjectIndex s →
  slot_of s' b = slot_of s b.
Proof. unfold slot_of. intros -> ->. reflexivity. Qed.

Lemma slot_of_setError err s b : slot_of (setError err s) b = slot_of s b.
Proof. destruct (setError_frame err s) as (Hi & _ & Hl). apply slot_of_ext; assumption. Qed.

Lemma slot_of_address s a e : wf_index s → slot_of s a = Some e → se_address e = a.
Proof.
  intros [H1 _]. unfold slot_of.
  destruct (addressToObjectIndex s !! a) as [idx |] eqn:E; [| discriminate]. simpl.
  intros He. destruct (H1 _ _ E) as (e' & He' & Hk). congruence.
Qed.

(** ** The index invariant under the public operations *)

Lemma wf_index_append_journal e s : wf_index s → wf_index (append_journal e s).
Proof. intros H. exact H. Qed.

Lemma wf_index_createObject a s : wf_index s → wf_index (snd (createObject a s)).
Proof.
  intros H. unfold createObject.
  destruct (getStateObject a s) as [o s1] eqn:E.
  pose proof (wf_index_getStateObject _ _ _ _ E H) as H1.
  simpl. apply wf_index_setStateObject. destruct o; exact H1.
Qed.

Lemma wf_index_GetOrNewStateObject a s :
  wf_index s → wf_index (snd (GetOrNewStateObject a s)).
Proof.
  intros H. unfold GetOrNewStateObject.
  destruct (getStateObject a s) as [o s1] eqn:E.
  pose proof (wf_index_getStateObject _ _ _ _ E H) as H1.
  pose proof (wf_index_createObject a s1 H1) as H2.
  destruct (createObject a s1) as [r s2]. simpl in H2.
  destruct o as [so |]; [destruct (deleted so) |]; assumption.
Qed.

Lemma wf_index_so_SetBalance a amount s : wf_index s → wf_index (so_SetBalance a amount s).
Proof.
  intros H. unfold so_SetBalance. destruct (slot_of s a); [| exact H].
  apply wf_index_modify_object, H.
Qed.

Lemma wf_index_so_AddBalance a amount s : wf_index s → wf_index (so_AddBalance a amount s).
Proof.
  intros H. unfold so_AddBalance. destruct (slot_of s a); [| exact H].
  apply wf_index_so_SetBalance, H.
Qed.

Lemma wf_index_so_SubBalance a amount s :
  wf_index s → wf_index (res_state (so_SubBalance a amount s)).
Proof.
  intros H. unfold so_SubBalance. destruct (slot_of s a); [| exact H].
  destruct (decide _); simpl; [exact H | apply wf_index_so_SetBalance, H].
Qed.

Lemma wf_index_so_SetNonce a n s : wf_index s → wf_index (so_SetNonce a n s).
Proof.
  intros H. unfold so_SetNonce. destruct (slot_of s a); [| exact H].
  apply wf_index_modify_object, H.
Qed.

Lemma wf_index_so_SetState a k v s : wf_index s → wf_index (so_SetState a k v s).
Proof.
  intros H. unfold so_SetState. destruct (slot_of s a); [| exact H].
  destruct (GetState_so _ _ _) as [cur so].
  pose proof (wf_index_modify_object a (λ _, so) s H) as H1.
  destruct (decide _); [exact H1 |].
  apply wf_index_modify_object, H1.
Qed.

Lemma wf_index_so_SetCode a h c s : wf_index s → wf_index (so_SetCode a h c s).
Proof.
  intros H. unfold so_SetCode. destruct (slot_of s a); [| exact H].
  apply wf_index_modify_object, H.
Qed.

Lemma wf_index_GetParams s : wf_index s → wf_index (snd (GetParams s)).
Proof. intros H. unfold GetParams. destruct (params s); exact H. Qed.

Lemma wf_index_read_object a s :
  wf_index s → wf_index (snd (getStateObject a s)).
Proof.
  intros H. destruct (getStateObject a s) as [o s1] eqn:E.
  exact (wf_index_getStateObject _ _ _ _ E H).
Qed.

Lemma wf_index_updateStateObject idx s :
  wf_index s → wf_index (snd (updateStateObject idx s)).
Proof.
  intros H. unfold updateStateObject.
  destruct (stateObjects s !! idx); [| exact H].
  pose proof (wf_index_GetParams s H) as H1.
  destruct (GetParams s) as [p s1]. simpl in H1.
  destruct (negb _); [exact H1 |].
  destruct (BlacklistedAddr _ _); [exact H1 |].
  simpl. exact (wf_index_modify_at idx _ s1 H1).
Qed.

Lemma wf_index_deleteStateObject idx s : wf_index s → wf_index (deleteStateObject idx s).
Proof.
  intros H. unfold deleteStateObject. destruct (stateObjects s !! idx); [| exact H].
  exact (wf_index_modify_at idx _ s H).
Qed.

Lemma wf_index_commit_step b idx s : wf_index s → wf_index (snd (commit_step b idx s)).
Proof.
  intros H. unfold commit_step.
  destruct (stateObjects s !! idx) as [e |]; [| exact H].
  set (cond := suicided _ || _).
  destruct cond.
  - exact (wf_index_deleteStateObject idx s H).
  - destruct (bool_decide (se_address e ∈ stateObjectsDirty s)); [| exact H].
    set (s' := if _ && _ then _ else s).
    assert (H' : wf_index s').
    { unfold s'. destruct (_ && _); [| exact H].
      destruct (commitCode _ _) as [w so'].
      apply wf_index_modify_at, wf_index_modify_at. exact H. }
    pose proof (wf_index_updateStateObject idx s' H') as Hu.
    destruct (updateStateObject idx s') as [err s1]. simpl in Hu.
    destruct err; exact Hu.
Qed.

Lemma wf_index_commit_loop b idxs s :
  wf_index s → wf_index (snd (commit_loop b idxs s)).
Proof.
  revert s. induction idxs as [| idx rest IH]; intros s H; simpl; [exact H |].
  pose proof (wf_index_commit_step b idx s H) as H1.
  destruct (commit_step b idx s) as [err s1]. simpl in H1.
  destruct err; [exact H1 | apply IH, H1].
Qed.

Lemma wf_index_Commit b s : wf_index s → wf_index (snd (Commit b s)).
Proof.
  intros H. unfold Commit.
  match goal with |- context [commit_loop b ?l ?s0] =>
    pose proof (wf_index_commit_loop b l s0 H) as H1;
    destruct (commit_loop b l s0) as [err s2] end.
  exact H1.
Qed.

Lemma wf_index_finalise_step b d s : wf_index s → wf_index (snd (finalise_step b d s)).
Proof.
  intros H. unfold finalise_step.
  destruct (addressToObjectIndex s !! dirty_address d) as [idx |]; [| exact H].
  destruct (stateObjects s !! idx) as [e |]; [| exact H].
  destruct (suicided _ || _).
  - exact (wf_index_deleteStateObject idx s H).
  - destruct (commitState _ _) as [w so'].
    match goal with |- context [updateStateObject idx ?s0] =>
      assert (H' : wf_index s0) by (apply wf_index_modify_at; exact H);
      pose proof (wf_index_updateStateObject idx s0 H') as Hu;
      destruct (updateStateObject idx s0) as [err s1] end.
    simpl in Hu. destruct err; exact Hu.
Qed.

Lemma wf_index_finalise_loop b ds s :
  wf_index s → wf_index (snd (finalise_loop b ds s)).
Proof.
  revert s. induction ds as [| d rest IH]; intros s H; simpl; [exact H |].
  pose proof (wf_index_finalise_step b d s H) as H1.
  destruct (finalise_step b d s) as [err s1]. simpl in H1.
  destruct err; [exact H1 | apply IH, H1].
Qed.

Lemma wf_index_Finalise b s : wf_index s → wf_index (snd (Finalise b s)).
Proof.
  intros H. unfold Finalise.
  pose proof (wf_index_finalise_loop b (dirties (journal_ s)) s H) as H1.
  destruct (finalise_loop b _ s) as [err s1]. simpl in H1.
  destruct err; exact H1.
Qed.

Lemma wf_index_updateAccounts_step idx s : wf_index s → wf_index (updateAccounts_step idx s).
Proof.
  intros H. unfold updateAccounts_step.
  destruct (stateObjects s !! idx); [| exact H].
  destruct (GetAccount _ _); [| exact H].
  pose proof (wf_index_GetParams s H) as H1.
  destruct (GetParams s) as [p s1]. simpl in H1.
  destruct (_ || _); [apply wf_index_modify_at |]; exact H1.
Qed.

Lemma wf_index_UpdateAccounts s : wf_index s → wf_index (UpdateAccounts s).
Proof.
  unfold UpdateAccounts. generalize (seq 0 (length (stateObjects s))). intros l.
  revert s. induction l as [| idx l IH]; intros s H; simpl; [exact H |].
  apply IH, wf_index_updateAccounts_step, H.
Qed.

Lemma wf_index_RevertToSnapshot id s :
  wf_index s → wf_index (res_state (RevertToSnapshot id s)).
Proof.
  intros H. unfold RevertToSnapshot.
  destruct (validRevisions s !! _) as [r |]; [| exact H].
  destruct (decide _); [| exact H].
  simpl. exact (wf_index_journal_revert (journalIndex r) s H).
Qed.

Lemma wf_index_Suicide a s : wf_index s → wf_index (snd (Suicide a s)).
Proof.
  intros H. unfold Suicide.
  destruct (getStateObject a s) as [o s1] eqn:E.
  pose proof (wf_index_getStateObject _ _ _ _ E H) as H1.
  destruct o; [| exact H1]. simpl.
  apply wf_index_so_SetBalance, wf_index_modify_object. exact H1.
Qed.

Lemma wf_index_CreateAccount a s : wf_index s → wf_index (CreateAccount a s).
Proof.
  intros H. unfold CreateAccount.
  pose proof (wf_index_createObject a s H) as H1.
  destruct (createObject a s) as [[newobj prevobj] s1]. simpl in H1.
  destruct prevobj; [| exact H1].
  pose proof (wf_index_GetParams s1 H1) as H2.
  destruct (GetParams s1) as [p s2]. simpl in H2.
  apply wf_index_modify_object, H2.
Qed.

(** Every public operation keeps the slice and its index in step. *)
Lemma wf_index_exec o s : wf_index s → wf_index (exec o s).
Proof.
  intros H. destruct o; simpl; try exact H.
  - unfold SetBalance.
    pose proof (wf_index_GetOrNewStateObject addr s H) as H1.
    destruct (GetOrNewStateObject addr s) as [x s1]. apply wf_index_so_SetBalance, H1.
  - unfold AddBalance.
    pose proof (wf_index_GetOrNewStateObject addr s H) as H1.
    destruct (GetOrNewStateObject addr s) as [x s1]. apply wf_index_so_AddBalance, H1.
  - unfold SubBalance.
    pose proof (wf_index_GetOrNewStateObject addr s H) as H1.
    destruct (GetOrNewStateObject addr s) as [x s1]. apply wf_index_so_SubBalance, H1.
  - unfold SetNonce.
    pose proof (wf_index_GetOrNewStateObject addr s H) as H1.
    destruct (GetOrNewStateObject addr s) as [x s1]. apply wf_index_so_SetNonce, H1.
  - unfold SetState.
    pose proof (wf_index_GetOrNewStateObject addr s H) as H1.
    destruct (GetOrNewStateObject addr s) as [x s1]. apply wf_index_so_SetState, H1.
  - unfold SetCode.
    pose proof (wf_index_GetOrNewStateObject addr s H) as H1.
    destruct (GetOrNewStateObject addr s) as [x s1]. apply wf_index_so_SetCode, H1.
  - unfold AddPreimage. destruct (_ !! _); exact H.
  - unfold SubRefund. destruct (decide _); exact H.
  - unfold AddAddressToAccessList. destruct (al_AddAddress _ _) as [[] al]; exact H.
  - unfold AddSlotToAccessList. destruct (al_AddSlot _ _ _) as [[[] []] al]; exact H.
  - apply wf_index_GetParams, H.
  - unfold GetBalance.
    pose proof (wf_index_read_object addr s H) as H1.
    destruct (getStateObject addr s) as [[so |] s1]; exact H1.
  - unfold GetNonce.
    pose proof (wf_index_read_object addr s H) as H1.
    destruct (getStateObject addr s) as [[so |] s1]; exact H1.
  - unfold GetCode.
    pose proof (wf_index_read_object addr s H) as H1.
    destruct (getStateObject addr s) as [[so |] s1]; exact H1.
  - unfold GetCodeSize.
    pose proof (wf_index_read_object addr s H) as H1.
    destruct (getStateObject addr s) as [[so |] s1]; [destruct (so_code so) |]; exact H1.
  - unfold GetCodeHash.
    pose proof (wf_index_read_object addr s H) as H1.
    destruct (getStateObject addr s) as [[so |] s1]; exact H1.
  - unfold GetState.
    pose proof (wf_index_read_object addr s H) as H1.
    destruct (getStateObject addr s) as [[so |] s1]; [| exact H1].
    destruct (GetState_so _ _ _) as [v so']. simpl. apply wf_index_modify_object, H1.
  - unfold GetCommittedState.
    pose proof (wf_index_read_object addr s H) as H1.
    destruct (getStateObject addr s) as [[so |] s1]; [| exact H1].
    destruct (GetCommittedState_so _ _ _) as [v so']. simpl.
    apply wf_index_modify_object, H1.
  - unfold HasSuicided.
    pose proof (wf_index_read_object addr s H) as H1.
    destruct (getStateObject addr s) as [[so |] s1]; exact H1.
  - apply wf_index_Commit, H.
  - apply wf_index_Finalise, H.
  - unfold IntermediateRoot.
    pose proof (wf_index_Finalise deleteEmptyObjects s H) as H1.
    destruct (Finalise deleteEmptyObjects s) as [[err |] s1]; exact H1.
  - apply wf_index_RevertToSnapshot, H.
  - unfold Empty.
    pose proof (wf_index_read_object addr s H) as H1.
    destruct (getStateObject addr s) as [[so |] s1]; exact H1.
  - unfold Exist.
    pose proof (wf_index_read_object addr s H) as H1.
    destruct (getStateObject addr s) as [o s1]; exact H1.
  - apply wf_index_Suicide, H.
  - exact (indexed_empty se_address).
  - apply wf_index_UpdateAccounts, H.
  - exact (indexed_empty se_address).
  - apply wf_index_CreateAccount, H.
  - unfold ForEachStorage.
    pose proof (wf_index_read_object addr s H) as H1.
    destruct (getStateObject addr s) as [[so |] s1]; exact H1.
  - apply wf_index_GetOrNewStateObject, H.
Qed.

Lemma wf_index_run ops s : wf_index s → wf_index (run ops s).
Proof.
  revert s. induction ops as [| o ops IH]; intros s H; simpl; [exact H |].
  apply IH, wf_index_exec, H.
Qed.

Lemma wf_index_consistent s : wf_index s → index_consistent s.
Proof.
  intros H. split.
  - intros a idx Ha. split; [eapply (indexed_lt se_address); eassumption |].
    destruct H as [H1 _]. apply H1, Ha.
  - eapply (indexed_NoDup se_address), H.
Qed.

(** C10: in every overlay reached from a fresh one by public operations,
    the index map is consistent with the slice of live objects: every
    mapped index is a position of the slice whose entry carries the mapped
    address, and no address occupies two entries; so every public operation
    keeps that invariant. *)
Theorem index_consistent_invariant (w : World) (ops : list op) (o : op) :
  index_consistent (CreateEmptyCommitStateDB w)
  ∧ index_consistent (run ops (CreateEmptyCommitStateDB w))
  ∧ index_consistent (exec o (run ops (CreateEmptyCommitStateDB w))).
Proof.
  assert (H0 : wf_index (CreateEmptyCommitStateDB w)) by exact (indexed_empty se_address).
  split; [apply wf_index_consistent, H0 |].
  split; apply wf_index_consistent.
  - apply wf_index_run, H0.
  - apply wf_index_exec, wf_index_run, H0.
Qed.

(** ** Writing an object back to the account keeper *)

Lemma GetAccount_address w a acc : GetAccount w a = Some acc → acc_address acc = a.
Proof.
  unfold GetAccount. destruct (accounts w !! a); [| discriminate].
  simpl. intros H. injection H as <-. reflexivity.
Qed.

Lemma GetAccount_SetAccount acc w :
  GetAccount (SetAccount acc w) (acc_address acc) = Some acc.
Proof.
  unfold GetAccount, SetAccount. simpl. rewrite lookup_insert_eq. simpl.
  destruct acc; reflexivity.
Qed.

Lemma GetAccount_SetAccount_ne acc w a :
  a ≠ acc_address acc → GetAccount (SetAccount acc w) a = GetAccount w a.
Proof.
  intros H. unfold GetAccount, SetAccount. simpl. rewrite lookup_insert_ne by congruence.
  reflexivity.
Qed.

Lemma GetAccount_RemoveAccount acc w :
  GetAccount (RemoveAccount acc w) (acc_address acc) = None.
Proof. unfold GetAccount, RemoveAccount. simpl. rewrite lookup_delete_eq. reflexivity. Qed.

Lemma GetAccount_RemoveAccount_ne acc w a :
  a ≠ acc_address acc → GetAccount (RemoveAccount acc w) a = GetAccount w a.
Proof.
  intros H. unfold GetAccount, RemoveAccount. simpl. rewrite lookup_delete_ne by congruence.
  reflexivity.
Qed.

Lemma AmountOf_insert coins d v d' :
  AmountOf (<[d := v]> coins) d' = if decide (d = d') then v else AmountOf coins d'.
Proof.
  unfold AmountOf. destruct (decide (d = d')) as [<- | Hne].
  - rewrite lookup_insert_eq. reflexivity.
  - rewrite lookup_insert_ne by exact Hne. reflexivity.
Qed.

(** The coins [Add] returns hold, in each denomination, the sum of what the
    two sides held. *)
Lemma AmountOf_CoinsAdd coins c d :
  AmountOf (CoinsAdd coins c) d
  = if decide (Denom c = d) then AmountOf coins d + Amount c else AmountOf coins d.
Proof.
  unfold CoinsAdd. destruct (decide (AmountOf coins (Denom c) + Amount c = 0)) as [Hz | Hnz].
  - unfold AmountOf at 1. destruct (decide (Denom c = d)) as [<- | Hne].
    + rewrite lookup_delete_eq. simpl. lia.
    + rewrite lookup_delete_ne by exact Hne. reflexivity.
  - rewrite AmountOf_insert. destruct (decide (Denom c = d)) as [<- | Hne]; reflexivity.
Qed.

Lemma evmDenom_GetParams s : evmDenom (snd (GetParams s)) = evmDenom s.
Proof.
  unfold evmDenom, GetParams. destruct (params s) eqn:E; simpl; [rewrite E |]; reflexivity.
Qed.

Lemma evmDenom_ext s s' :
  params s' = params s → paramStore (ctx s') = paramStore (ctx s) →
  evmDenom s' = evmDenom s.
Proof.
  intros Hp Hc. unfold evmDenom. rewrite Hp, Hc. reflexivity.
Qed.

Lemma GetParams_evmDenom s : EvmDenom (fst (GetParams s)) = evmDenom s.
Proof. unfold evmDenom, GetParams. destruct (params s); reflexivity. Qed.

Lemma GetParams_frame s :
  ctx (snd (GetParams s)) = ctx s
  ∧ stateObjects (snd (GetParams s)) = stateObjects s
  ∧ addressToObjectIndex (snd (GetParams s)) = addressToObjectIndex s
  ∧ stateObjectsDirty (snd (GetParams s)) = stateObjectsDirty s.
Proof. unfold GetParams. destruct (params s); repeat split. Qed.

(** The account [updateStateObject] hands to the keeper. *)
Definition written_account (denom : string) (so : stateObject) : Account :=
  let acc := so_account so in
  let coins := acc_coins acc in
  mkAccount (acc_address acc)
    (if decide (AmountOf coins denom = 0 ∨ AmountOf coins denom ≠ Balance denom so)
     then CoinsAdd coins (mkCoin denom (Balance denom so)) else coins)
    (acc_sequence acc) (acc_codeHash acc).

Lemma written_account_amount denom so :
  AmountOf (acc_coins (written_account denom so)) denom = Balance denom so.
Proof.
  unfold written_account. simpl.
  destruct (decide _) as [[Hz | Hne] | Hn].
  - rewrite AmountOf_CoinsAdd. simpl. rewrite decide_True by reflexivity.
    unfold Balance in *. lia.
  - exfalso. apply Hne. reflexivity.
  - reflexivity.
Qed.

Lemma updateStateObject_ok idx s e s' :
  stateObjects s !! idx = Some e →
  updateStateObject idx s = (None, s') →
  let so := se_stateObject e in
  let acc' := written_account (evmDenom s) so in
  IsValid (mkCoin (evmDenom s) (Balance (evmDenom s) so)) = true
  ∧ BlacklistedAddr (ctx s) (acc_address (so_account so)) = false
  ∧ s' = set_ctx (SetAccount acc' (ctx s))
           (modify_at idx (set_so_account acc') (snd (GetParams s))).
Proof.
  intros He Hu so acc'. unfold updateStateObject in Hu. rewrite He in Hu.
  fold so in Hu.
  pose proof (GetParams_evmDenom s) as Hd.
  destruct (GetParams_frame s) as (Hc & _).
  destruct (GetParams s) as [p s1]. simpl in Hd, Hc. rewrite Hd in Hu.
  destruct (IsValid _) eqn:Hv; simpl in Hu; [| discriminate].
  rewrite Hc in Hu.
  destruct (BlacklistedAddr _ _) eqn:Hb; [discriminate |].
  injection Hu as <-. repeat split.
Qed.

(** C2: when [updateStateObject] succeeds for an object of balance [B], the
    balance is not negative and the account keeper then holds, for the
    address of the account, an account whose amount of the EVM denomination
    is [B], whatever the keeper held before. *)
Theorem updateStateObject_overwrites (idx : nat) (s s' : CommitStateDB) (e : stateEntry) :
  stateObjects s !! idx = Some e →
  updateStateObject idx s = (None, s') →
  let so := se_stateObject e in
  let B := Balance (evmDenom s) so in
  0 ≤ B
  ∧ evmDenom s' = evmDenom s
  ∧ (∃ acc, GetAccount (ctx s') (acc_address (so_account so)) = Some acc
            ∧ AmountOf (acc_coins acc) (evmDenom s) = B)
  ∧ (∃ e', stateObjects s' !! idx = Some e'
           ∧ Balance (evmDenom s') (se_stateObject e') = B).
Proof.
  intros He Hu so B.
  destruct (updateStateObject_ok idx s e s' He Hu) as (Hv & Hb & ->).
  fold so in Hv, Hb |- *.
  assert (Hden : evmDenom (set_ctx (SetAccount (written_account (evmDenom s) so) (ctx s))
            (modify_at idx (set_so_account (written_account (evmDenom s) so))
               (snd (GetParams s)))) = evmDenom s).
  { transitivity (evmDenom (snd (GetParams s))); [| apply evmDenom_GetParams].
    apply evmDenom_ext; [reflexivity |]. simpl.
    destruct (GetParams_frame s) as (Hc & _). rewrite Hc. reflexivity. }
  split.
  { unfold IsValid in Hv. apply andb_true_iff in Hv. destruct Hv as [_ Hv].
    apply bool_decide_eq_true in Hv. exact Hv. }
  split; [exact Hden |].
  split.
  - exists (written_account (evmDenom s) so). split.
    + simpl. apply (GetAccount_SetAccount (written_account (evmDenom s) so)).
    + apply written_account_amount.
  - rewrite Hden. simpl.
    destruct (GetParams_frame s) as (_ & Hl & _). rewrite Hl.
    rewrite list_lookup_alter_eq, He. simpl. eexists. split; [reflexivity |].
    simpl. unfold Balance at 1. simpl. apply written_account_amount.
Qed.

(** ** Suicide *)

Lemma getStateObject_Some a s so s1 :
  wf_index s → getStateObject a s = (Some so, s1) →
  slot_of s1 a = Some (mkStateEntry a so) ∧ deleted so = false.
Proof.
  intros Hwf Hg. unfold getStateObject in Hg.
  destruct (slot_of s a) as [e |] eqn:Es.
  - destruct (deleted (se_stateObject e)) eqn:Ed; [discriminate |].
    injection Hg as <- <-. split; [| exact Ed].
    rewrite Es. f_equal. pose proof (slot_of_address s a e Hwf Es) as Ha.
    destruct e; simpl in *. congruence.
  - destruct (GetAccount (ctx s) a) as [acc |] eqn:Ea; [| discriminate].
    injection Hg as <- <-. split; [| reflexivity].
    rewrite slot_of_setStateObject by exact Hwf. simpl.
    rewrite (GetAccount_address _ _ _ Ea). rewrite decide_True by reflexivity.
    reflexivity.
Qed.

Lemma slot_of_modify_object_eq a f s e :
  wf_index s → slot_of s a = Some e →
  slot_of (modify_object a f s) a = Some (mkStateEntry (se_address e) (f (se_stateObject e))).
Proof.
  intros Hwf He. rewrite slot_of_modify_object by exact Hwf.
  rewrite decide_True by reflexivity. rewrite He. reflexivity.
Qed.

Lemma slot_of_so_SetBalance a amount s e :
  wf_index s → slot_of s a = Some e →
  slot_of (so_SetBalance a amount s) a
  = Some (mkStateEntry (se_address e) (setBalance (evmDenom s) amount (se_stateObject e))).
Proof.
  intros Hwf He. unfold so_SetBalance. rewrite He.
  apply (slot_of_modify_object_eq a _ (append_journal _ s) e Hwf He).
Qed.

Lemma evmDenom_so_SetBalance a amount s : evmDenom (so_SetBalance a amount s) = evmDenom s.
Proof.
  unfold so_SetBalance. destruct (slot_of s a); [| reflexivity].
  etransitivity; [apply evmDenom_live_only, live_only_modify_object | reflexivity].
Qed.

(** An object resolves for an address when the overlay holds one that is
    not deleted, or holds none and the account keeper has the account. *)
Definition resolves (s : CommitStateDB) (a : Address) : Prop :=
  (∃ e, slot_of s a = Some e ∧ deleted (se_stateObject e) = false)
  ∨ (slot_of s a = None ∧ is_Some (GetAccount (ctx s) a)).

Lemma getStateObject_resolves a s :
  is_Some (fst (getStateObject a s)) ↔ resolves s a.
Proof.
  unfold getStateObject, resolves.
  destruct (slot_of s a) as [e |] eqn:Es.
  - destruct (deleted (se_stateObject e)) eqn:Ed; simpl; split.
    + intros [x Hx]. discriminate.
    + intros [(e' & He' & Hd) | [Hn _]]; [| discriminate].
      injection He' as <-. congruence.
    + intros _. left. eauto.
    + intros _. eauto.
  - destruct (GetAccount (ctx s) a) as [acc |] eqn:Ea; simpl; split.
    + intros _. right. split; [reflexivity | eauto].
    + intros _. eauto.
    + intros [x Hx]. discriminate.
    + intros [(e' & He' & _) | [_ [x Hx]]]; discriminate.
Qed.

(** C5, as the code has it: [Suicide a] returns true if and only if an
    object resolves for [a], that is, the overlay holds an object for [a]
    that is not deleted, or holds none and the keeper has the account; and
    when it returns true, [HasSuicided a] is true and [GetBalance a] is zero
    right after. *)
Theorem Suicide_spec (s : CommitStateDB) (a : Address) :
  wf_index s →
  (fst (Suicide a s) = true ↔ resolves s a)
  ∧ (fst (Suicide a s) = true →
     fst (HasSuicided a (snd (Suicide a s))) = true
     ∧ fst (GetBalance a (snd (Suicide a s))) = 0).
Proof.
  intros Hwf.
  pose proof (getStateObject_resolves a s) as Hres.
  unfold Suicide.
  destruct (getStateObject a s) as [[so |] s1] eqn:Eg; simpl in *.
  - split; [split; [intros _; apply Hres; eauto | reflexivity] |].
    intros _.
    pose proof (wf_index_getStateObject _ _ _ _ Eg Hwf) as Hwf1.
    destruct (getStateObject_Some _ _ _ _ Hwf Eg) as [Hslot Hdel].
    set (s2 := append_journal _ s1).
    assert (Hslot3 : slot_of (modify_object a markSuicided s2) a
                     = Some (mkStateEntry a (markSuicided so))).
    { apply (slot_of_modify_object_eq a markSuicided s2 _ Hwf1 Hslot). }
    assert (Hwf3 : wf_index (modify_object a markSuicided s2))
      by (apply wf_index_modify_object; exact Hwf1).
    pose proof (slot_of_so_SetBalance a 0 _ _ Hwf3 Hslot3) as Hslot4.
    simpl in Hslot4.
    unfold HasSuicided, GetBalance, getStateObject. rewrite Hslot4. simpl.
    rewrite Hdel. simpl. split; [reflexivity |].
    rewrite evmDenom_so_SetBalance. unfold Balance. simpl.
    rewrite AmountOf_insert. rewrite decide_True by reflexivity. reflexivity.
  - split; [| discriminate].
    split; [discriminate |].
    intros Hr. apply Hres in Hr. destruct Hr as [x Hx]. discriminate.
Qed.

(** ** Commit *)

Lemma dirties_fold (a : Address) (D : gset Z) (ds : list dirty) :
  a ∈ foldl (λ d x, {[dirty_address x]} ∪ d) D ds ↔ a ∈ D ∨ a ∈ dirty_address <$> ds.
Proof.
  revert D. induction ds as [| d ds IH]; intros D; simpl.
  - split; [auto | intros [H | H]; [exact H | inversion H]].
  - rewrite IH. rewrite elem_of_union, elem_of_singleton, elem_of_cons. tauto.
Qed.

Lemma modify_at_lookup_ne idx j f s :
  idx ≠ j → stateObjects (modify_at idx f s) !! j = stateObjects s !! j.
Proof. intros H. unfold modify_at. simpl. apply list_lookup_alter_ne, H. Qed.

Lemma modify_at_lookup idx f s e :
  stateObjects s !! idx = Some e →
  stateObjects (modify_at idx f s) !! idx
  = Some (mkStateEntry (se_address e) (f (se_stateObject e))).
Proof. intros H. unfold modify_at. simpl. rewrite list_lookup_alter_eq, H. reflexivity. Qed.

(** What one turn of the loop of [Commit] does for the object of slot
    [idx], when it does not fail. *)
Lemma commit_step_facts b idx t t1 e :
  stateObjects t !! idx = Some e →
  commit_step b idx t = (None, t1) →
  let so := se_stateObject e in
  let a := se_address e in
  let del := suicided so
             || (bool_decide (a ∈ stateObjectsDirty t) && b && empty (evmDenom t) so) in
  evmDenom t1 = evmDenom t
  ∧ (∀ j, j ≠ idx → stateObjects t1 !! j = stateObjects t !! j)
  ∧ (∃ so1, stateObjects t1 !! idx = Some (mkStateEntry a so1)
            ∧ so_address so1 = so_address so
            ∧ acc_address (so_account so1) = acc_address (so_account so))
  ∧ stateObjectsDirty t1 = stateObjectsDirty t ∖ {[a]}
  ∧ (del = true →
     accounts (ctx t1) = delete (acc_address (so_account so)) (accounts (ctx t))
     ∧ codeStore (ctx t1) = codeStore (ctx t))
  ∧ (del = false → a ∉ stateObjectsDirty t → ctx t1 = ctx t)
  ∧ (del = false → a ∈ stateObjectsDirty t →
     accounts (ctx t1)
     = <[acc_address (so_account so) := written_account (evmDenom t) so]> (accounts (ctx t))
     ∧ codeStore (ctx t1)
       = match so_code so with
         | Some c => if dirtyCode so then <[CodeHash so := c]> (codeStore (ctx t))
                     else codeStore (ctx t)
         | None => codeStore (ctx t)
         end).
Proof.
  intros He Hstep so a del. unfold commit_step in Hstep. rewrite He in Hstep.
  fold so a in Hstep. fold del in Hstep.
  destruct del eqn:Hdel.
  - (* the object is removed *)
    injection Hstep as <-. unfold deleteStateObject. rewrite He. fold so.
    split; [reflexivity |].
    split; [intros j Hj; simpl; apply list_lookup_alter_ne; congruence |].
    split.
    { exists (set_deleted true so). simpl. rewrite list_lookup_alter_eq, He.
      repeat split. }
    split; [reflexivity |].
    split; [intros _; split; reflexivity |].
    split; intros; discriminate.
  - destruct (bool_decide (a ∈ stateObjectsDirty t)) eqn:Hd.
    + (* the object is written *)
      apply bool_decide_eq_true in Hd.
      set (s' := if bool_decide (is_Some (so_code so)) && dirtyCode so then _ else t)
        in Hstep.
      destruct (updateStateObject idx s') as [err t2] eqn:Hu.
      destruct err; [discriminate |]. injection Hstep as <-.
      assert (Hs' : ∃ so', stateObjects s' !! idx = Some (mkStateEntry a so')
                ∧ so_account so' = so_account so ∧ so_address so' = so_address so
                ∧ (∀ j, j ≠ idx → stateObjects s' !! j = stateObjects t !! j)
                ∧ evmDenom s' = evmDenom t
                ∧ stateObjectsDirty s' = stateObjectsDirty t
                ∧ accounts (ctx s') = accounts (ctx t)
                ∧ codeStore (ctx s')
                  = match so_code so with
                    | Some c => if dirtyCode so then <[CodeHash so := c]> (codeStore (ctx t))
                                else codeStore (ctx t)
                    | None => codeStore (ctx t)
                    end).
      { unfold s'. destruct (so_code so) as [c |] eqn:Ec; simpl.
        - destruct (dirtyCode so) eqn:Edc; simpl.
          + exists (set_dirtyCode false (set_dirtyCode false so)).
            unfold commitCode. rewrite Ec. simpl.
            rewrite !list_lookup_alter_eq, He. simpl.
            repeat split.
            intros j Hj. rewrite !list_lookup_alter_ne by congruence. reflexivity.
          + exists so. rewrite He. destruct e; repeat split.
        - exists so. rewrite He. destruct e; repeat split. }
      destruct Hs' as (so' & Hl' & Hacc & Hadr & Hoth & Hden & Hdirty & Haccs & Hcode).
      destruct (updateStateObject_ok idx s' _ t2 Hl' Hu) as (_ & _ & ->).
      simpl se_stateObject in *.
      assert (Hw : written_account (evmDenom s') so' = written_account (evmDenom t) so).
      { rewrite Hden. unfold written_account, Balance. rewrite Hacc. reflexivity. }
      rewrite Hw.
      destruct (GetParams_frame s') as (Hc1 & Hl1 & _ & Hd1).
      split.
      { transitivity (evmDenom (snd (GetParams s')));
          [| rewrite evmDenom_GetParams; exact Hden].
        apply evmDenom_ext; [reflexivity |]. simpl. rewrite Hc1. reflexivity. }
      split.
      { intros j Hj. simpl. rewrite list_lookup_alter_ne by congruence.
        rewrite Hl1. apply Hoth, Hj. }
      split.
      { eexists. simpl. rewrite list_lookup_alter_eq, Hl1, Hl'. simpl.
        split; [reflexivity |]. split; [exact Hadr | reflexivity]. }
      split; [simpl; rewrite Hd1, Hdirty; reflexivity |].
      split; [intros; discriminate |].
      split; [intros _ Hn; contradiction |].
      intros _ _. simpl. rewrite Haccs. split; [reflexivity | exact Hcode].
    + (* the object is clean *)
      apply bool_decide_eq_false in Hd.
      injection Hstep as <-.
      split; [reflexivity |].
      split; [reflexivity |].
      split; [exists so; simpl; rewrite He; destruct e; repeat split |].
      split; [reflexivity |].
      split; [intros; discriminate |].
      split; [reflexivity | intros _ Hn; contradiction].
Qed.

(** Two live objects that would write code under the hash [h] hold the
    code [c]. *)
Definition code_agree (idxs : list nat) (t : CommitStateDB) (h : Hash) (c : list byte)
    : Prop :=
  ∀ idx e c', idx ∈ idxs → stateObjects t !! idx = Some e →
              CodeHash (se_stateObject e) = h → so_code (se_stateObject e) = Some c' →
              c' = c.

Lemma wf_index_distinct t i j ei ej :
  wf_index t → stateObjects t !! i = Some ei → stateObjects t !! j = Some ej →
  i ≠ j → se_address ei ≠ se_address ej.
Proof.
  intros [_ H2] Hi Hj Hne Heq.
  pose proof (H2 _ _ Hi) as Hmi. pose proof (H2 _ _ Hj) as Hmj.
  rewrite Heq in Hmi. congruence.
Qed.

Lemma commit_loop_facts b idxs :
  ∀ t t',
  wf_index t → wf_objects t → NoDup idxs →
  commit_loop b idxs t = (None, t') →
  (∀ a, (∀ idx e, idx ∈ idxs → stateObjects t !! idx = Some e → se_address e ≠ a) →
        accounts (ctx t') !! a = accounts (ctx t) !! a)
  ∧ (∀ idx e, idx ∈ idxs → stateObjects t !! idx = Some e →
       let so := se_stateObject e in
       let a := se_address e in
       let del := suicided so
                  || (bool_decide (a ∈ stateObjectsDirty t) && b && empty (evmDenom t) so) in
       (del = true → accounts (ctx t') !! a = None)
       ∧ (del = false → a ∈ stateObjectsDirty t →
          accounts (ctx t') !! a = Some (written_account (evmDenom t) so)
          ∧ ∀ c, so_code so = Some c → dirtyCode so = true →
                 code_agree idxs t (CodeHash so) c →
                 codeStore (ctx t') !! CodeHash so = Some c))
  ∧ (∀ h c, code_agree idxs t h c → codeStore (ctx t) !! h = Some c →
            codeStore (ctx t') !! h = Some c).
Proof.
  induction idxs as [| i0 rest IH]; intros t t' Hwf Hwo Hnd Hloop.
  - simpl in Hloop. injection Hloop as <-.
    split; [reflexivity |]. split; [| auto].
    intros idx e Hin. inversion Hin.
  - simpl in Hloop. destruct (commit_step b i0 t) as [err t1] eqn:Hs.
    destruct err; [discriminate |].
    apply NoDup_cons in Hnd. destruct Hnd as [Hni Hnd].
    destruct (stateObjects t !! i0) as [e0 |] eqn:He0.
    2: { assert (t1 = t) by (unfold commit_step in Hs; rewrite He0 in Hs; congruence).
         subst t1. destruct (IH t t' Hwf Hwo Hnd Hloop) as (I1 & I2 & I3).
         split; [| split].
         - intros a Ha. apply I1. intros idx e Hin. apply Ha. right. exact Hin.
         - intros idx e Hin He. apply elem_of_cons in Hin. destruct Hin as [-> | Hin];
             [congruence |].
           destruct (I2 idx e Hin He) as [J1 J2]. split; [exact J1 |].
           intros Hd Hdirty. destruct (J2 Hd Hdirty) as [J3 J4]. split; [exact J3 |].
           intros c Hc Hdc Hag. apply J4; try assumption.
           intros idx' e' c' Hin'. apply Hag. right. exact Hin'.
         - intros h c Hag. apply I3. intros idx' e' c' Hin'. apply Hag. right. exact Hin'. }
    destruct (commit_step_facts b i0 t t1 e0 He0 Hs)
      as (F1 & F2 & (so1 & F3 & F3a & F3b) & F4 & F5 & F6 & F7).
    destruct (Hwo _ _ He0) as [Hso0 Hacc0].
    assert (Hwf1 : wf_index t1).
    { pose proof (wf_index_commit_step b i0 t Hwf) as H. rewrite Hs in H. exact H. }
    assert (Hwo1 : wf_objects t1).
    { intros j e Hj. destruct (decide (j = i0)) as [-> | Hne].
      - rewrite F3 in Hj. injection Hj as <-. simpl. split; congruence.
      - rewrite F2 in Hj by exact Hne. apply (Hwo _ _ Hj). }
    destruct (IH t1 t' Hwf1 Hwo1 Hnd Hloop) as (I1 & I2 & I3).
    assert (Hrest : ∀ idx e, idx ∈ rest → stateObjects t !! idx = Some e →
              stateObjects t1 !! idx = Some e ∧ se_address e ≠ se_address e0).
    { intros idx e Hin He. assert (Hne : idx ≠ i0) by (intros ->; contradiction).
      split; [rewrite F2 by exact Hne; exact He |].
      exact (wf_index_distinct t idx i0 e e0 Hwf He He0 Hne). }
    assert (Hrest' : ∀ idx e, idx ∈ rest → stateObjects t1 !! idx = Some e →
              stateObjects t !! idx = Some e).
    { intros idx e Hin He. assert (Hne : idx ≠ i0) by (intros ->; contradiction).
      rewrite F2 in He by exact Hne. exact He. }
    assert (Hkeep : accounts (ctx t') !! se_address e0 = accounts (ctx t1) !! se_address e0).
    { apply I1. intros idx e Hin He.
      apply (Hrest idx e Hin (Hrest' idx e Hin He)). }
    assert (Hag1 : ∀ h c, code_agree (i0 :: rest) t h c → code_agree rest t1 h c).
    { intros h c Hag idx e c' Hin He. apply (Hag idx e c'); [right; exact Hin |].
      apply Hrest'; assumption. }
    set (del0 := suicided (se_stateObject e0)
                 || (bool_decide (se_address e0 ∈ stateObjectsDirty t) && b
                     && empty (evmDenom t) (se_stateObject e0))) in *.
    assert (Hcode1 : ∀ h c, code_agree (i0 :: rest) t h c →
              codeStore (ctx t) !! h = Some c → codeStore (ctx t1) !! h = Some c).
    { intros h c Hag Hh. destruct del0 eqn:Hd0.
      - destruct (F5 eq_refl) as [_ ->]. exact Hh.
      - destruct (decide (se_address e0 ∈ stateObjectsDirty t)) as [Hin | Hnin].
        + destruct (F7 eq_refl Hin) as [_ ->].
          destruct (so_code (se_stateObject e0)) as [c0 |] eqn:Ec0; [| exact Hh].
          destruct (dirtyCode (se_stateObject e0)); [| exact Hh].
          destruct (decide (CodeHash (se_stateObject e0) = h)) as [Heq | Hne].
          * rewrite Heq, lookup_insert_eq. f_equal.
            apply (Hag i0 e0 c0); [left | | |]; auto.
          * rewrite lookup_insert_ne by exact Hne. exact Hh.
        + rewrite (F6 eq_refl Hnin). exact Hh. }
    split; [| split].
    + intros a Ha.
      assert (Hne : se_address e0 ≠ a) by (apply (Ha i0 e0); [left | exact He0]).
      rewrite I1.
      * destruct del0 eqn:Hd0.
        -- destruct (F5 eq_refl) as [-> _]. apply lookup_delete_ne. congruence.
        -- destruct (decide (se_address e0 ∈ stateObjectsDirty t)) as [Hin | Hnin].
           ++ destruct (F7 eq_refl Hin) as [-> _]. apply lookup_insert_ne. congruence.
           ++ rewrite (F6 eq_refl Hnin). reflexivity.
      * intros idx e Hin He. apply (Ha idx e); [right; exact Hin |]. apply Hrest'; assumption.
    + intros idx e Hin He. apply elem_of_cons in Hin. destruct Hin as [-> | Hin].
      * assert (e = e0) by congruence. subst e. cbv zeta. fold del0.
        rewrite Hkeep. split.
        -- intros Hd. destruct (F5 Hd) as [-> _]. rewrite Hacc0. apply lookup_delete_eq.
        -- intros Hd Hdirty. destruct (F7 Hd Hdirty) as [Hacc Hcs]. split.
           ++ rewrite Hacc, Hacc0. apply lookup_insert_eq.
           ++ intros c Hc Hdc Hag. apply I3; [apply Hag1, Hag |].
              rewrite Hcs, Hc, Hdc. apply lookup_insert_eq.
      * destruct (Hrest idx e Hin He) as [He1 Hne].
        destruct (I2 idx e Hin He1) as [J1 J2]. cbv zeta in J1, J2 |- *.
        assert (Hdirty_eq : bool_decide (se_address e ∈ stateObjectsDirty t1)
                            = bool_decide (se_address e ∈ stateObjectsDirty t)).
        { apply bool_decide_ext. rewrite F4, elem_of_difference, elem_of_singleton. tauto. }
        rewrite Hdirty_eq, F1 in J1, J2.
        split; [exact J1 |].
        intros Hd Hdirty.
        assert (Hdirty1 : se_address e ∈ stateObjectsDirty t1)
          by (rewrite F4, elem_of_difference, elem_of_singleton; tauto).
        destruct (J2 Hd Hdirty1) as [J3 J4]. split; [exact J3 |].
        intros c Hc Hdc Hag. apply J4; try assumption. apply Hag1, Hag.
    + intros h c Hag Hh. apply I3; [apply Hag1, Hag |]. apply Hcode1; assumption.
Qed.

(** *** The first error of the loop *)

(** The error [updateStateObject] returns for an object, if any. *)
Definition update_error (s : CommitStateDB) (so : stateObject) : option error :=
  let newBalance := mkCoin (evmDenom s) (Balance (evmDenom s) so) in
  if negb (IsValid newBalance) then Some (ErrInvalidBalance newBalance)
  else if BlacklistedAddr (ctx s) (acc_address (so_account so))
       then Some (ErrBlacklisted (acc_address (so_account so)))
       else None.

Lemma updateStateObject_error idx s e :
  stateObjects s !! idx = Some e →
  fst (updateStateObject idx s) = update_error s (se_stateObject e).
Proof.
  intros He. unfold updateStateObject, update_error. rewrite He.
  pose proof (GetParams_evmDenom s) as Hd.
  destruct (GetParams_frame s) as (Hc & _).
  destruct (GetParams s) as [p s1]. simpl in Hd, Hc. rewrite Hd, Hc.
  destruct (negb _); [reflexivity |]. destruct (BlacklistedAddr _ _); reflexivity.
Qed.

Lemma updateStateObject_failed idx s err s' :
  updateStateObject idx s = (Some err, s') → s' = snd (GetParams s).
Proof.
  unfold updateStateObject. destruct (stateObjects s !! idx); [| discriminate].
  destruct (GetParams s) as [p s1]. simpl.
  destruct (negb _); [congruence |]. destruct (BlacklistedAddr _ _); congruence.
Qed.

Lemma update_error_ext s s' so so' :
  evmDenom s' = evmDenom s → blacklist (ctx s') = blacklist (ctx s) →
  so_account so' = so_account so →
  update_error s' so' = update_error s so.
Proof.
  intros Hd Hb Ha. unfold update_error, BlacklistedAddr, Balance.
  rewrite Hd, Hb, Ha. reflexivity.
Qed.

(** The error the loop of [Commit] stops with at an entry, if any: that of
    [updateStateObject] on a dirty object that is not removed. *)
Definition commit_error (b : bool) (t : CommitStateDB) (e : stateEntry) : option error :=
  let so := se_stateObject e in
  let isDirty := bool_decide (se_address e ∈ stateObjectsDirty t) in
  if suicided so || (isDirty && b && empty (evmDenom t) so) then None
  else if isDirty then update_error t so else None.

Lemma commit_error_ext b t t' e :
  evmDenom t' = evmDenom t → blacklist (ctx t') = blacklist (ctx t) →
  (se_address e ∈ stateObjectsDirty t' ↔ se_address e ∈ stateObjectsDirty t) →
  commit_error b t' e = commit_error b t e.
Proof.
  intros Hd Hb Hdirty. unfold commit_error.
  rewrite (bool_decide_ext _ _ Hdirty), Hd.
  rewrite (update_error_ext t t' _ _ Hd Hb eq_refl). reflexivity.
Qed.

(** The object a turn of the loop hands to [updateStateObject], after its
    code has been written. *)
Lemma commit_step_outcome b idx t e :
  stateObjects t !! idx = Some e →
  fst (commit_step b idx t) = commit_error b t e
  ∧ (is_Some (fst (commit_step b idx t)) →
     (∀ j, j ≠ idx → stateObjects (snd (commit_step b idx t)) !! j = stateObjects t !! j)
     ∧ accounts (ctx (snd (commit_step b idx t))) = accounts (ctx t)
     ∧ (∀ h, h ≠ CodeHash (se_stateObject e) →
             codeStore (ctx (snd (commit_step b idx t))) !! h = codeStore (ctx t) !! h)).
Proof.
  intros He. unfold commit_step, commit_error. rewrite He.
  destruct (suicided _ || _); simpl.
  { split; [reflexivity |]. intros [x Hx]. discriminate. }
  destruct (bool_decide (se_address e ∈ stateObjectsDirty t)); simpl.
  2: { split; [reflexivity |]. intros [x Hx]. discriminate. }
  set (s' := if bool_decide (is_Some (so_code (se_stateObject e)))
                && dirtyCode (se_stateObject e) then _ else t).
  assert (Hs' : ∃ so', stateObjects s' !! idx = Some (mkStateEntry (se_address e) so')
            ∧ so_account so' = so_account (se_stateObject e)
            ∧ (∀ j, j ≠ idx → stateObjects s' !! j = stateObjects t !! j)
            ∧ params s' = params t
            ∧ paramStore (ctx s') = paramStore (ctx t)
            ∧ blacklist (ctx s') = blacklist (ctx t)
            ∧ accounts (ctx s') = accounts (ctx t)
            ∧ (∀ h, h ≠ CodeHash (se_stateObject e) →
                    codeStore (ctx s') !! h = codeStore (ctx t) !! h)).
  { unfold s'. destruct (bool_decide _ && dirtyCode _).
    - exists (set_dirtyCode false (set_dirtyCode false (se_stateObject e))).
      unfold commitCode. simpl. rewrite !list_lookup_alter_eq, He. simpl.
      split; [reflexivity |]. split; [reflexivity |].
      split; [intros j Hj; rewrite !list_lookup_alter_ne by congruence; reflexivity |].
      repeat (split; [reflexivity |]).
      intros h Hh. apply lookup_insert_ne. congruence.
    - exists (se_stateObject e). rewrite He. destruct e; repeat split. }
  destruct Hs' as (so' & Hl' & Hacc & Hoth & Hp & Hps & Hbl & Haccs & Hcode).
  assert (Hden : evmDenom s' = evmDenom t) by (apply evmDenom_ext; assumption).
  pose proof (updateStateObject_error idx s' _ Hl') as Herr. simpl in Herr.
  rewrite (update_error_ext t s' _ _ Hden Hbl Hacc) in Herr.
  destruct (updateStateObject idx s') as [[err |] t1] eqn:Hu; simpl in *.
  - split; [exact Herr |]. intros _.
    pose proof (updateStateObject_failed idx s' err t1 Hu) as ->.
    destruct (GetParams_frame s') as (Hc1 & Hl1 & _).
    rewrite Hc1, Hl1. split; [exact Hoth |]. split; [exact Haccs | exact Hcode].
  - split; [exact Herr |]. intros [x Hx]. discriminate.
Qed.

Lemma blacklist_commit_step b idx t :
  blacklist (ctx (snd (commit_step b idx t))) = blacklist (ctx t).
Proof.
  unfold commit_step. destruct (stateObjects t !! idx) as [e |] eqn:He; [| reflexivity].
  match goal with |- context [let '(err, s1) := ?X in _] =>
    assert (H : blacklist (ctx (snd X)) = blacklist (ctx t));
      [| destruct X as [[err |] s1]; simpl in *; exact H] end.
  destruct (_ || _).
  { unfold deleteStateObject. rewrite He. reflexivity. }
  destruct (bool_decide _); [| reflexivity].
  match goal with |- blacklist (ctx (snd (updateStateObject _ ?t0))) = _ =>
    transitivity (blacklist (ctx t0)) end.
  - unfold updateStateObject.
    match goal with |- context [stateObjects ?t0 !! idx] =>
      destruct (stateObjects t0 !! idx); [| reflexivity];
      destruct (GetParams_frame t0) as (Hc & _);
      destruct (GetParams t0) as [p s1] end.
    simpl in Hc.
    destruct (negb _); simpl; [rewrite Hc; reflexivity |].
    destruct (BlacklistedAddr _ _); simpl; rewrite Hc; reflexivity.
  - destruct (_ && _); reflexivity.
Qed.

(** A loop whose turns meet no error runs to its end, and leaves alone
    what belongs to the objects of the other slots. *)
Lemma commit_loop_clear b idxs :
  ∀ t, wf_index t → NoDup idxs →
  (∀ i ei, i ∈ idxs → stateObjects t !! i = Some ei → commit_error b t ei = None) →
  ∃ t', commit_loop b idxs t = (None, t')
        ∧ evmDenom t' = evmDenom t ∧ blacklist (ctx t') = blacklist (ctx t)
        ∧ (∀ j, j ∉ idxs → stateObjects t' !! j = stateObjects t !! j)
        ∧ (∀ a, (∀ i ei, i ∈ idxs → stateObjects t !! i = Some ei → se_address ei ≠ a) →
                (a ∈ stateObjectsDirty t' ↔ a ∈ stateObjectsDirty t))
        ∧ (∀ h, (∀ i ei, i ∈ idxs → stateObjects t !! i = Some ei →
                         CodeHash (se_stateObject ei) ≠ h) →
                codeStore (ctx t') !! h = codeStore (ctx t) !! h).
Proof.
  induction idxs as [| i0 rest IH]; intros t Hwf Hnd Hok.
  - exists t. simpl. repeat split; auto.
  - apply NoDup_cons in Hnd. destruct Hnd as [Hni Hnd]. simpl.
    destruct (stateObjects t !! i0) as [e0 |] eqn:He0.
    2: { assert (Hs : commit_step b i0 t = (None, t))
           by (unfold commit_step; rewrite He0; reflexivity).
         rewrite Hs.
         destruct (IH t Hwf Hnd) as (t' & Hl & H1 & H2 & H3 & H4 & H5).
         { intros i ei Hi. apply Hok. right. exact Hi. }
         exists t'. split; [exact Hl |]. split; [exact H1 |]. split; [exact H2 |].
         split; [intros j Hj; apply H3; intros Hin; apply Hj; right; exact Hin |].
         split.
         - intros a Ha. apply H4. intros i ei Hi. apply Ha. right. exact Hi.
         - intros h Hh. apply H5. intros i ei Hi. apply Hh. right. exact Hi. }
    destruct (commit_step_outcome b i0 t e0 He0) as [Hfst _].
    rewrite (Hok i0 e0 (list_elem_of_here _ _) He0) in Hfst.
    pose proof (blacklist_commit_step b i0 t) as Hbl.
    pose proof (wf_index_commit_step b i0 t Hwf) as Hwf1.
    destruct (commit_step b i0 t) as [err t1] eqn:Hs. simpl in Hfst, Hbl, Hwf1. subst err.
    destruct (commit_step_facts b i0 t t1 e0 He0 Hs)
      as (F1 & F2 & _ & F4 & F5 & F6 & F7).
    assert (Hrest : ∀ i ei, i ∈ rest → stateObjects t1 !! i = Some ei →
              stateObjects t !! i = Some ei ∧ se_address ei ≠ se_address e0).
    { intros i ei Hi Hei. assert (Hne : i ≠ i0) by (intros ->; contradiction).
      rewrite F2 in Hei by exact Hne. split; [exact Hei |].
      exact (wf_index_distinct t i i0 ei e0 Hwf Hei He0 Hne). }
    destruct (IH t1 Hwf1 Hnd) as (t' & Hl & H1 & H2 & H3 & H4 & H5).
    { intros i ei Hi Hei. destruct (Hrest i ei Hi Hei) as [Hei' Hne].
      rewrite (commit_error_ext b t t1 ei F1 Hbl).
      - apply (Hok i ei); [right; exact Hi | exact Hei'].
      - rewrite F4, elem_of_difference, elem_of_singleton. tauto. }
    exists t'. split; [exact Hl |].
    split; [congruence |]. split; [congruence |].
    split.
    { intros j Hj. apply not_elem_of_cons in Hj. destruct Hj as [Hne Hj].
      rewrite (H3 j Hj). apply F2, Hne. }
    split.
    { intros a Ha. rewrite H4.
      - rewrite F4, elem_of_difference, elem_of_singleton.
        pose proof (Ha i0 e0 (list_elem_of_here _ _) He0) as Hne.
        split; [tauto |]. intros H. split; [exact H | congruence].
      - intros i ei Hi Hei. destruct (Hrest i ei Hi Hei) as [Hei' _].
        apply (Ha i ei); [right; exact Hi | exact Hei']. }
    intros h Hh. rewrite H5.
    + pose proof (Hh i0 e0 (list_elem_of_here _ _) He0) as Hne.
      destruct (suicided (se_stateObject e0)
                || (bool_decide (se_address e0 ∈ stateObjectsDirty t) && b
                    && empty (evmDenom t) (se_stateObject e0))) eqn:Hd0.
      * destruct (F5 eq_refl) as [_ ->]. reflexivity.
      * destruct (decide (se_address e0 ∈ stateObjectsDirty t)) as [Hin | Hnin].
        -- destruct (F7 eq_refl Hin) as [_ ->].
           destruct (so_code (se_stateObject e0)); [| reflexivity].
           destruct (dirtyCode (se_stateObject e0)); [| reflexivity].
           apply lookup_insert_ne. exact Hne.
        -- rewrite (F6 eq_refl Hnin). reflexivity.
    + intros i ei Hi Hei. destruct (Hrest i ei Hi Hei) as [Hei' _].
      apply (Hh i ei); [right; exact Hi | exact Hei'].
Qed.

Lemma commit_loop_app b l1 l2 t :
  commit_loop b (l1 ++ l2) t
  = match commit_loop b l1 t with
    | (Some err, t1) => (Some err, t1)
    | (None, t1) => commit_loop b l2 t1
    end.
Proof.
  revert t. induction l1 as [| i l1 IH]; intros t; simpl; [reflexivity |].
  destruct (commit_step b i t) as [[err |] t1]; [reflexivity | apply IH].
Qed.

(** The loop stops at the first entry with an error, and returns it; the
    objects of the slots it has not reached are as they were, and so are
    their accounts in the keeper. *)
Lemma commit_loop_stops b pre k post t ek err :
  wf_index t → wf_objects t → NoDup (pre ++ k :: post) →
  stateObjects t !! k = Some ek → commit_error b t ek = Some err →
  (∀ i ei, i ∈ pre → stateObjects t !! i = Some ei → commit_error b t ei = None) →
  ∃ t', commit_loop b (pre ++ k :: post) t = (Some err, t')
        ∧ (∀ j, j ∉ pre → j ≠ k → stateObjects t' !! j = stateObjects t !! j)
        ∧ (∀ a, (∀ i ei, i ∈ pre → stateObjects t !! i = Some ei → se_address ei ≠ a) →
                accounts (ctx t') !! a = accounts (ctx t) !! a)
        ∧ (∀ h, (∀ i ei, i ∈ pre ++ [k] → stateObjects t !! i = Some ei →
                         CodeHash (se_stateObject ei) ≠ h) →
                codeStore (ctx t') !! h = codeStore (ctx t) !! h).
Proof.
  intros Hwf Hwo Hnd Hk Herr Hok.
  apply NoDup_app in Hnd. destruct Hnd as (Hnd1 & Hdisj & Hnd2).
  assert (Hkpre : k ∉ pre) by (intros Hin; apply (Hdisj k Hin); left).
  destruct (commit_loop_clear b pre t Hwf Hnd1 Hok) as (t1 & Hl & H1 & H2 & H3 & H4 & H5).
  destruct (commit_loop_facts b pre t t1 Hwf Hwo Hnd1 Hl) as (I1 & _ & _).
  assert (Hk1 : stateObjects t1 !! k = Some ek) by (rewrite H3; assumption).
  assert (Herr1 : commit_error b t1 ek = Some err).
  { rewrite (commit_error_ext b t t1 ek H1 H2); [exact Herr |].
    apply H4. intros i ei Hi Hei.
    apply (wf_index_distinct t i k ei ek Hwf Hei Hk). intros ->. contradiction. }
  destruct (commit_step_outcome b k t1 ek Hk1) as [Hfst Hframe].
  rewrite Herr1 in Hfst.
  destruct Hframe as (G1 & G2 & G3); [rewrite Hfst; eauto |].
  exists (snd (commit_step b k t1)). split.
  { rewrite commit_loop_app, Hl. simpl.
    destruct (commit_step b k t1) as [e1 t2]. simpl in Hfst. subst e1. reflexivity. }
  split.
  { intros j Hj Hne. rewrite G1 by exact Hne. apply H3, Hj. }
  split.
  { intros a Ha. rewrite G2. apply I1. exact Ha. }
  intros h Hh. rewrite G3.
  - apply H5. intros i ei Hi. apply Hh. apply elem_of_app. left. exact Hi.
  - intros Heq. apply (Hh k ek); [| exact Hk | symmetry; exact Heq].
    apply elem_of_app. right. left.
Qed.

(** The objects the loop of [Commit] hands to [updateStateObject]: the
    dirty ones, in the dirty set or marked by the journal, that it does not
    remove. *)
Definition commit_writes (b : bool) (s : CommitStateDB) (e : stateEntry) : Prop :=
  suicided (se_stateObject e) = false
  ∧ (se_address e ∈ stateObjectsDirty s
     ∨ se_address e ∈ dirty_address <$> dirties (journal_ s))
  ∧ (b = true → empty (evmDenom s) (se_stateObject e) = false).

Lemma commit_error_spec b s e err :
  commit_error b
    (set_stateObjectsDirty
       (foldl (λ d x, {[dirty_address x]} ∪ d) (stateObjectsDirty s)
              (dirties (journal_ s))) s) e = Some err
  ↔ commit_writes b s e ∧ update_error s (se_stateObject e) = Some err.
Proof.
  pose proof (dirties_fold (se_address e) (stateObjectsDirty s) (dirties (journal_ s)))
    as HD.
  set (D := foldl _ _ _) in *. set (s1 := set_stateObjectsDirty D s).
  unfold commit_error, commit_writes.
  change (stateObjectsDirty s1) with D. change (evmDenom s1) with (evmDenom s).
  change (update_error s1 (se_stateObject e)) with (update_error s (se_stateObject e)).
  destruct (suicided (se_stateObject e)); simpl.
  { split; [discriminate | intros [(H & _) _]; discriminate]. }
  case_bool_decide as Hd; simpl.
  - apply HD in Hd. destruct b; simpl.
    + destruct (empty _ _); simpl.
      * split; [discriminate |].
        intros [(_ & _ & H) _]. specialize (H eq_refl). discriminate.
      * split; [intros H; split; [repeat split; auto | exact H] | intros [_ H]; exact H].
    + split; [intros H; split; [| exact H] | intros [_ H]; exact H].
      split; [reflexivity |]. split; [exact Hd | discriminate].
  - split; [discriminate |]. intros [(_ & H & _) _]. exfalso. apply Hd, HD, H.
Qed.

(** C8, as the code has it, on an overlay whose index map agrees with the
    slice of live objects and whose live objects and their accounts carry
    the address of their slot.  [Commit] returns the all-zero hash, whatever
    happens.  When [Commit(true)] returns no error, then for every live
    object: if it is suicided, or dirty and empty, the keeper has no account
    for its address afterwards; otherwise, if it is dirty, the keeper holds
    its account record (nonce, code hash, and the balance in the EVM
    denomination), and the code store holds its code under its code hash if
    the code was dirty (the live objects with that code hash agreeing on the
    code).  When [updateStateObject] fails for a dirty object that is not
    removed, and for none before it in the slice, [Commit] returns that
    error, and the objects after it in the slice are neither removed nor
    written: their entries are as they were, the keeper holds for their
    addresses, and for that of the failing object, what it held, and the
    code store is as it was under every hash that is not the code hash of
    the failing object or of one before it.  [Commit] returns no error when
    [updateStateObject] fails for no dirty object that is not removed. *)
Theorem Commit_spec (s : CommitStateDB) :
  (∀ b, fst (fst (Commit b s)) = zeroHash)
  ∧ (wf_index s → wf_objects s →
     snd (fst (Commit true s)) = None →
     ∀ idx e, stateObjects s !! idx = Some e →
       let s' := snd (Commit true s) in
       let so := se_stateObject e in
       let a := se_address e in
       let isDirty :=
         a ∈ stateObjectsDirty s ∨ a ∈ dirty_address <$> dirties (journal_ s) in
       (suicided so = true ∨ (isDirty ∧ empty (evmDenom s) so = true) →
        GetAccount (ctx s') a = None)
       ∧ (suicided so = false → isDirty → empty (evmDenom s) so = false →
          (∃ acc, GetAccount (ctx s') a = Some acc
                  ∧ acc_sequence acc = Nonce so
                  ∧ acc_codeHash acc = CodeHash so
                  ∧ AmountOf (acc_coins acc) (evmDenom s) = Balance (evmDenom s) so)
          ∧ ∀ c, so_code so = Some c → dirtyCode so = true →
                 code_agree (seq 0 (length (stateObjects s))) s (CodeHash so) c →
                 codeStore (ctx s') !! CodeHash so = Some c))
  ∧ (∀ b k ek err,
       wf_index s → wf_objects s →
       stateObjects s !! k = Some ek → commit_writes b s ek →
       fst (updateStateObject k s) = Some err →
       (∀ i ei, (i < k)%nat → stateObjects s !! i = Some ei → commit_writes b s ei →
                fst (updateStateObject i s) = None) →
       let s' := snd (Commit b s) in
       snd (fst (Commit b s)) = Some err
       ∧ (∀ j ej, (k ≤ j)%nat → stateObjects s !! j = Some ej →
                  GetAccount (ctx s') (se_address ej) = GetAccount (ctx s) (se_address ej))
       ∧ (∀ j ej, (k < j)%nat → stateObjects s !! j = Some ej →
                  stateObjects s' !! j = Some ej)
       ∧ (∀ h, (∀ i ei, (i ≤ k)%nat → stateObjects s !! i = Some ei →
                        CodeHash (se_stateObject ei) ≠ h) →
               codeStore (ctx s') !! h = codeStore (ctx s) !! h))
  ∧ (∀ b, wf_index s →
       (∀ i ei, stateObjects s !! i = Some ei → commit_writes b s ei →
                fst (updateStateObject i s) = None) →
       snd (fst (Commit b s)) = None).
Proof.
  split.
  { intros b. unfold Commit. destruct (commit_loop _ _ _). reflexivity. }
  split.
  { intros Hwf Hwo Hok idx e He s' so a isDirty.
    unfold s'. unfold Commit in Hok |- *.
    set (D := foldl _ _ _) in *.
    set (s1 := set_stateObjectsDirty D s) in *.
    destruct (commit_loop true (seq 0 (length (stateObjects s1))) s1) as [err s2] eqn:Hloop.
    simpl in Hok. subst err. simpl.
    assert (Hin : idx ∈ seq 0 (length (stateObjects s1))).
    { apply elem_of_seq. split; [lia |]. simpl. apply lookup_lt_Some in He. lia. }
    destruct (commit_loop_facts true _ s1 s2 Hwf Hwo (NoDup_seq _ _) Hloop) as (_ & L2 & _).
    destruct (L2 idx e Hin He) as [J1 J2]. cbv zeta in J1, J2. fold so a in J1, J2.
    assert (HD : a ∈ D ↔ isDirty) by apply dirties_fold.
    change (stateObjectsDirty s1) with D in J1, J2.
    change (evmDenom s1) with (evmDenom s) in J1, J2.
    split.
    - intros Hdel. unfold GetAccount. rewrite J1; [reflexivity |].
      destruct Hdel as [-> | [Hd ->]]; [reflexivity |].
      apply HD in Hd. rewrite (bool_decide_eq_true_2 _ Hd). simpl. apply orb_true_r.
    - intros Hns Hd Hne. apply HD in Hd.
      destruct J2 as [J3 J4]; [rewrite Hns, Hne; simpl; apply andb_false_r | exact Hd |].
      split.
      + unfold GetAccount. rewrite J3. simpl. eexists. split; [reflexivity |].
        simpl. split; [reflexivity |]. split; [reflexivity |].
        apply written_account_amount.
      + intros c Hc Hdc Hag. apply J4; assumption. }
  split.
  { intros b k ek err Hwf Hwo Hk Hw Hu Hfirst s'. unfold s', Commit.
    set (D := foldl _ _ _).
    set (s1 := set_stateObjectsDirty D s).
    assert (Hlen : (k < length (stateObjects s))%nat) by (eapply lookup_lt_Some; exact Hk).
    assert (Hseq : seq 0 (length (stateObjects s1))
                   = seq 0 k ++ k :: seq (S k) (length (stateObjects s) - S k)).
    { change (stateObjects s1) with (stateObjects s).
      replace (length (stateObjects s)) with (k + S (length (stateObjects s) - S k))%nat
        at 1 by lia.
      rewrite seq_app. reflexivity. }
    destruct (commit_loop_stops b (seq 0 k) k (seq (S k) (length (stateObjects s) - S k))
                s1 ek err) as (t' & Hloop & G1 & G2 & G3).
    - exact Hwf.
    - exact Hwo.
    - rewrite <- Hseq. apply NoDup_seq.
    - exact Hk.
    - apply commit_error_spec. split; [exact Hw |].
      rewrite <- (updateStateObject_error k s ek Hk). exact Hu.
    - intros i ei Hi Hei. apply elem_of_seq in Hi.
      destruct (commit_error b s1 ei) as [x |] eqn:E; [| reflexivity].
      apply commit_error_spec in E. destruct E as [Hwi Hui].
      rewrite <- (updateStateObject_error i s ei Hei) in Hui.
      rewrite (Hfirst i ei) in Hui; [discriminate | lia | exact Hei | exact Hwi].
    - rewrite Hseq, Hloop. simpl.
      split; [reflexivity |]. split; [| split].
      + intros j ej Hj Hej. unfold GetAccount. f_equal. apply G2.
        intros i ei Hi Hei. apply elem_of_seq in Hi.
        apply (wf_index_distinct s i j ei ej Hwf Hei Hej). lia.
      + intros j ej Hj Hej. rewrite G1; [exact Hej | | lia].
        intros Hin. apply elem_of_seq in Hin. lia.
      + intros h Hh. apply G3. intros i ei Hi Hei. apply (Hh i ei); [| exact Hei].
        apply elem_of_app in Hi. destruct Hi as [Hi | Hi].
        * apply elem_of_seq in Hi. lia.
        * apply list_elem_of_singleton in Hi. lia. }
  intros b Hwf Hnone. unfold Commit.
  set (D := foldl _ _ _).
  set (s1 := set_stateObjectsDirty D s).
  destruct (commit_loop_clear b (seq 0 (length (stateObjects s1))) s1 Hwf (NoDup_seq _ _))
    as (t' & Hl & _).
  { intros i ei _ Hei.
    destruct (commit_error b s1 ei) as [x |] eqn:E; [| reflexivity].
    apply commit_error_spec in E. destruct E as [Hwi Hui].
    rewrite <- (updateStateObject_error i s ei Hei) in Hui.
    rewrite (Hnone i ei Hei Hwi) in Hui. discriminate. }
  rewrite Hl. reflexivity.
Qed.

(** ** The access list as a map from addresses to slot sets *)

(** What the queries of the access list can see: the slots recorded for an
    address that is present. *)
Definition al_view (al : accessList) (a : Address) : option (gset Z) :=
  match al_addresses al !! a with
  | None => None
  | Some _ => Some (default ∅ (al_slotset al a))
  end.

(** The slot sets are positions of [al_slots], one per address. *)
Definition al_wf (al : accessList) : Prop :=
  (∀ a i, al_addresses al !! a = Some (Some i) → (i < length (al_slots al))%nat)
  ∧ (∀ a b i, al_addresses al !! a = Some (Some i) →
              al_addresses al !! b = Some (Some i) → a = b).

Definition al_equiv (al1 al2 : accessList) : Prop := ∀ a, al_view al1 a = al_view al2 a.

Lemma al_ContainsAddress_view a al :
  al_ContainsAddress a al = bool_decide (is_Some (al_view al a)).
Proof.
  unfold al_ContainsAddress, al_view. apply bool_decide_ext.
  destruct (al_addresses al !! a); split; intros [x Hx]; try discriminate; eauto.
Qed.

Lemma al_Contains_view a slot al :
  al_Contains a slot al
  = match al_view al a with
    | None => (false, false)
    | Some set => (true, bool_decide (slot ∈ set))
    end.
Proof.
  unfold al_Contains, al_view. destruct (al_addresses al !! a); [| reflexivity].
  destruct (al_slotset al a); reflexivity.
Qed.

Lemma al_wf_new : al_wf newAccessList.
Proof.
  split.
  - intros a i H. cbn in H. rewrite lookup_empty in H. discriminate.
  - intros a b i H. cbn in H. rewrite lookup_empty in H. discriminate.
Qed.

Lemma al_view_AddAddress a al b :
  al_view (snd (al_AddAddress a al)) b
  = if decide (b = a) then Some (default ∅ (al_view al a)) else al_view al b.
Proof.
  unfold al_AddAddress, al_view, al_slotset.
  destruct (al_addresses al !! a) as [oi |] eqn:Ea; simpl.
  - destruct (decide (b = a)) as [-> | Hne]; [| reflexivity]. rewrite Ea. reflexivity.
  - destruct (decide (b = a)) as [-> | Hne].
    + rewrite lookup_insert_eq. reflexivity.
    + rewrite lookup_insert_ne by congruence. reflexivity.
Qed.

Ltac flag_solve :=
  simpl;
  first [ reflexivity
        | repeat case_bool_decide;
          first [reflexivity | congruence | tauto | (exfalso; set_solver)] ].

Lemma al_AddAddress_flag a al :
  fst (al_AddAddress a al) = bool_decide (al_view al a = None).
Proof.
  unfold al_AddAddress, al_view. destruct (al_addresses al !! a); flag_solve.
Qed.

Lemma al_wf_AddAddress a al : al_wf al → al_wf (snd (al_AddAddress a al)).
Proof.
  intros [H1 H2]. unfold al_AddAddress.
  destruct (al_addresses al !! a) as [oi |] eqn:Ea; simpl; [split; assumption |].
  split; simpl.
  - intros x i Hx. destruct (decide (a = x)) as [-> | Hne].
    + rewrite lookup_insert_eq in Hx. discriminate.
    + rewrite lookup_insert_ne in Hx by exact Hne. eapply H1, Hx.
  - intros x y i Hx Hy.
    destruct (decide (a = x)) as [-> | Hnx]; [rewrite lookup_insert_eq in Hx; discriminate |].
    destruct (decide (a = y)) as [-> | Hny]; [rewrite lookup_insert_eq in Hy; discriminate |].
    rewrite lookup_insert_ne in Hx, Hy by assumption. eapply H2; eassumption.
Qed.

Lemma al_view_AddSlot a slot al b :
  al_wf al →
  al_view (snd (al_AddSlot a slot al)) b
  = if decide (b = a) then Some ({[slot]} ∪ default ∅ (al_view al a)) else al_view al b.
Proof.
  intros [H1 H2]. unfold al_AddSlot.
  assert (Happ : ∀ present,
            al_addresses al !! a = present →
            default ∅ (al_slotset al a) = ∅ →
            al_view (mkAccessList (<[a := Some (length (al_slots al))]> (al_addresses al))
                                  (al_slots al ++ [{[slot]}])) b
            = if decide (b = a) then Some ({[slot]} ∪ default ∅ (al_view al a))
              else al_view al b).
  { intros present Hp Hempty. unfold al_view at 1. unfold al_slotset. simpl.
    destruct (decide (b = a)) as [-> | Hne].
    - rewrite lookup_insert_eq. rewrite lookup_app_r by lia. rewrite Nat.sub_diag. simpl.
      f_equal. unfold al_view. destruct (al_addresses al !! a); simpl.
      + rewrite Hempty. set_solver.
      + set_solver.
    - rewrite lookup_insert_ne by congruence. unfold al_view, al_slotset.
      destruct (al_addresses al !! b) as [[j |] |] eqn:Eb; try reflexivity.
      rewrite lookup_app_l by (eapply H1; exact Eb). reflexivity. }
  destruct (al_addresses al !! a) as [[i |] |] eqn:Ea.
  - destruct (al_slotset al a) as [set |] eqn:Es.
    + assert (Hsi : al_slots al !! i = Some set)
        by (unfold al_slotset in Es; rewrite Ea in Es; exact Es).
      assert (Hva : al_view al a = Some set)
        by (unfold al_view; rewrite Ea, Es; reflexivity).
      destruct (decide (slot ∈ set)) as [Hin | Hnin]; simpl.
      * destruct (decide (b = a)) as [-> | Hne]; [| reflexivity].
        rewrite Hva. simpl. f_equal. set_solver.
      * unfold al_view at 1. unfold al_slotset. simpl.
        destruct (decide (b = a)) as [-> | Hne].
        -- rewrite Ea. rewrite list_lookup_insert_eq by (eapply H1; exact Ea).
           rewrite Hva. reflexivity.
        -- unfold al_view, al_slotset.
           destruct (al_addresses al !! b) as [[j |] |] eqn:Eb; try reflexivity.
           rewrite list_lookup_insert_ne; [reflexivity |].
           intros ->. apply Hne. eapply H2; eassumption.
    + simpl. apply (Happ _ eq_refl). reflexivity.
  - simpl. apply (Happ _ eq_refl). unfold al_slotset. try rewrite Ea. reflexivity.
  - simpl. apply (Happ _ eq_refl). unfold al_slotset. try rewrite Ea. reflexivity.
Qed.

Lemma al_AddSlot_flags a slot al :
  fst (al_AddSlot a slot al)
  = (bool_decide (al_view al a = None),
     bool_decide (slot ∉ default ∅ (al_view al a))).
Proof.
  unfold al_AddSlot, al_view.
  destruct (al_addresses al !! a) as [[i |] |] eqn:Ea.
  - destruct (al_slotset al a) as [set |] eqn:Es; simpl.
    + destruct (decide (slot ∈ set)) as [Hin | Hnin]; flag_solve.
    + flag_solve.
  - simpl. unfold al_slotset. rewrite Ea. flag_solve.
  - flag_solve.
Qed.

Lemma al_wf_AddSlot a slot al : al_wf al → al_wf (snd (al_AddSlot a slot al)).
Proof.
  intros [H1 H2]. unfold al_AddSlot.
  assert (Happ : al_wf (mkAccessList (<[a := Some (length (al_slots al))]> (al_addresses al))
                                     (al_slots al ++ [{[slot]}]))).
  { split; simpl.
    - intros x i Hx. rewrite length_app. simpl.
      destruct (decide (a = x)) as [-> | Hne].
      + rewrite lookup_insert_eq in Hx. injection Hx as <-. lia.
      + rewrite lookup_insert_ne in Hx by exact Hne. pose proof (H1 _ _ Hx). lia.
    - intros x y i Hx Hy.
      destruct (decide (a = x)) as [<- | Hnx]; destruct (decide (a = y)) as [<- | Hny];
        try reflexivity.
      + rewrite lookup_insert_eq in Hx. rewrite lookup_insert_ne in Hy by exact Hny.
        injection Hx as <-. pose proof (H1 _ _ Hy). lia.
      + rewrite lookup_insert_eq in Hy. rewrite lookup_insert_ne in Hx by exact Hnx.
        injection Hy as <-. pose proof (H1 _ _ Hx). lia.
      + rewrite lookup_insert_ne in Hx, Hy by assumption. eapply H2; eassumption. }
  destruct (al_addresses al !! a) as [[i |] |] eqn:Ea; try exact Happ.
  destruct (al_slotset al a) as [set |]; [| exact Happ].
  destruct (decide (slot ∈ set)); simpl; [split; assumption |].
  split; simpl.
  - intros x j Hx. rewrite length_insert. eapply H1, Hx.
  - exact H2.
Qed.

Lemma al_view_DeleteAddress a al b :
  al_wf al →
  al_view (al_DeleteAddress a al) b = if decide (b = a) then None else al_view al b.
Proof.
  intros [H1 H2]. unfold al_DeleteAddress, al_view, al_slotset. simpl.
  destruct (decide (b = a)) as [-> | Hne].
  - rewrite lookup_delete_eq. reflexivity.
  - rewrite lookup_delete_ne by congruence.
    destruct (al_addresses al !! b) as [[j |] |] eqn:Eb; try reflexivity.
    destruct (al_addresses al !! a) as [[i |] |] eqn:Ea; try reflexivity.
    rewrite list_lookup_alter_ne; [reflexivity |].
    intros ->. apply Hne. eapply H2; eassumption.
Qed.

Lemma al_wf_DeleteAddress a al : al_wf al → al_wf (al_DeleteAddress a al).
Proof.
  intros [H1 H2]. unfold al_DeleteAddress. split; simpl.
  - intros x i Hx.
    assert (Hx' : al_addresses al !! x = Some (Some i)).
    { destruct (decide (a = x)) as [-> | Hne];
        [rewrite lookup_delete_eq in Hx; discriminate |].
      rewrite lookup_delete_ne in Hx by exact Hne. exact Hx. }
    pose proof (H1 _ _ Hx').
    destruct (al_addresses al !! a) as [[j |] |]; try assumption.
    rewrite length_alter. assumption.
  - intros x y i Hx Hy.
    destruct (decide (a = x)) as [-> | Hnx]; [rewrite lookup_delete_eq in Hx; discriminate |].
    destruct (decide (a = y)) as [-> | Hny]; [rewrite lookup_delete_eq in Hy; discriminate |].
    rewrite lookup_delete_ne in Hx, Hy by assumption. eapply H2; eassumption.
Qed.

Lemma al_view_DeleteSlot a slot al b :
  al_wf al →
  al_view (al_DeleteSlot a slot al) b
  = if decide (b = a) then (λ set, set ∖ {[slot]}) <$> al_view al a else al_view al b.
Proof.
  intros [H1 H2]. unfold al_DeleteSlot.
  destruct (al_addresses al !! a) as [[i |] |] eqn:Ea.
  - unfold al_view, al_slotset. simpl.
    destruct (decide (b = a)) as [-> | Hne].
    + rewrite Ea. simpl. rewrite list_lookup_alter_eq.
      destruct (al_slots al !! i); simpl; f_equal. set_solver.
    + destruct (al_addresses al !! b) as [[j |] |] eqn:Eb; try reflexivity.
      rewrite list_lookup_alter_ne; [reflexivity |].
      intros ->. apply Hne. eapply H2; eassumption.
  - destruct (decide (b = a)) as [-> | Hne]; [| reflexivity].
    unfold al_view, al_slotset. rewrite Ea. simpl. f_equal. set_solver.
  - destruct (decide (b = a)) as [-> | Hne]; [| reflexivity].
    unfold al_view. rewrite Ea. reflexivity.
Qed.

Lemma al_wf_DeleteSlot a slot al : al_wf al → al_wf (al_DeleteSlot a slot al).
Proof.
  intros [H1 H2]. unfold al_DeleteSlot.
  destruct (al_addresses al !! a) as [[i |] |]; try (split; assumption).
  split; simpl; [| exact H2].
  intros x j Hx. rewrite length_alter. eapply H1, Hx.
Qed.

(** ** What the overlay shows of an object *)

(** The committed value of a key: the cached one, the stored one if none
    is cached. *)
Definition committed (w : World) (so : stateObject) (k : Hash) : Hash :=
  default (default zeroHash (storageStore w !! (so_address so, k))) (originStorage so !! k).

Lemma GetCommittedState_so_value w k so :
  fst (GetCommittedState_so w k so) = committed w so k.
Proof.
  unfold GetCommittedState_so, committed. destruct (originStorage so !! k); reflexivity.
Qed.

(** Two objects that every read tells apart in nothing: they differ at most
    in how the coins are laid out in the account and in which committed
    values are cached. *)
Record obj_equiv (w : World) (so1 so2 : stateObject) : Prop := mk_obj_equiv {
  oe_address : so_address so1 = so_address so2;
  oe_acc_address : acc_address (so_account so1) = acc_address (so_account so2);
  oe_coins : ∀ d, AmountOf (acc_coins (so_account so1)) d
                  = AmountOf (acc_coins (so_account so2)) d;
  oe_sequence : acc_sequence (so_account so1) = acc_sequence (so_account so2);
  oe_codeHash : acc_codeHash (so_account so1) = acc_codeHash (so_account so2);
  oe_code : so_code so1 = so_code so2;
  oe_dirtyCode : dirtyCode so1 = dirtyCode so2;
  oe_dirtyStorage : dirtyStorage so1 = dirtyStorage so2;
  oe_suicided : suicided so1 = suicided so2;
  oe_deleted : deleted so1 = deleted so2;
  oe_committed : ∀ k, committed w so1 k = committed w so2 k
}.

Definition opt_equiv (w : World) (o1 o2 : option stateObject) : Prop :=
  match o1, o2 with
  | Some so1, Some so2 => obj_equiv w so1 so2
  | None, None => True
  | _, _ => False
  end.

Lemma obj_equiv_refl w so : obj_equiv w so so.
Proof. split; reflexivity. Qed.

Lemma obj_equiv_sym w so1 so2 : obj_equiv w so1 so2 → obj_equiv w so2 so1.
Proof. intros []. split; intros; symmetry; auto. Qed.

Lemma obj_equiv_trans w so1 so2 so3 :
  obj_equiv w so1 so2 → obj_equiv w so2 so3 → obj_equiv w so1 so3.
Proof. intros [] []. split; intros; etransitivity; eauto. Qed.

Lemma opt_equiv_refl w o : opt_equiv w o o.
Proof. destruct o; simpl; [apply obj_equiv_refl | exact I]. Qed.

Lemma opt_equiv_sym w o1 o2 : opt_equiv w o1 o2 → opt_equiv w o2 o1.
Proof. destruct o1, o2; simpl; auto. apply obj_equiv_sym. Qed.

Lemma opt_equiv_trans w o1 o2 o3 :
  opt_equiv w o1 o2 → opt_equiv w o2 o3 → opt_equiv w o1 o3.
Proof.
  destruct o1, o2, o3; simpl; try tauto. apply obj_equiv_trans.
Qed.

Lemma opt_equiv_eq w o1 o2 : o1 = o2 → opt_equiv w o1 o2.
Proof. intros ->. apply opt_equiv_refl. Qed.

Lemma opt_equiv_fmap w f g o1 o2 :
  (∀ so1 so2, obj_equiv w so1 so2 → obj_equiv w (f so1) (g so2)) →
  opt_equiv w o1 o2 → opt_equiv w (f <$> o1) (g <$> o2).
Proof. intros H. destruct o1, o2; simpl; auto. Qed.

(** Caching a committed value changes nothing that can be read. *)
Lemma GetCommittedState_so_equiv w k so :
  obj_equiv w so (snd (GetCommittedState_so w k so)).
Proof.
  unfold GetCommittedState_so.
  destruct (originStorage so !! k) as [v |] eqn:Ek; simpl; [apply obj_equiv_refl |].
  split; try reflexivity.
  intros k'. unfold committed. simpl.
  destruct (decide (k = k')) as [<- | Hne].
  - rewrite Ek, lookup_insert_eq. reflexivity.
  - rewrite lookup_insert_ne by exact Hne. reflexivity.
Qed.

Lemma GetState_so_equiv w k so : obj_equiv w so (snd (GetState_so w k so)).
Proof.
  unfold GetState_so. destruct (storage_lookup k (dirtyStorage so)); simpl;
    [apply obj_equiv_refl | apply GetCommittedState_so_equiv].
Qed.

Lemma GetState_so_dirtyStorage w k so :
  dirtyStorage (snd (GetState_so w k so)) = dirtyStorage so
  ∧ so_address (snd (GetState_so w k so)) = so_address so
  ∧ deleted (snd (GetState_so w k so)) = deleted so.
Proof.
  destruct (GetState_so_equiv w k so) as [H1 _ _ _ _ _ _ H2 _ H3 _]. auto.
Qed.

(** What [GetState] returns is read off the dirty storage and the committed
    values. *)
Lemma GetState_so_value w k so1 so2 :
  obj_equiv w so1 so2 → fst (GetState_so w k so1) = fst (GetState_so w k so2).
Proof.
  intros H. unfold GetState_so. rewrite (oe_dirtyStorage _ _ _ H).
  destruct (storage_lookup k (dirtyStorage so2)); [reflexivity |].
  rewrite !GetCommittedState_so_value. apply (oe_committed _ _ _ H).
Qed.

Lemma Code_equiv w so1 so2 : obj_equiv w so1 so2 → Code w so1 = Code w so2.
Proof.
  intros H. unfold Code, CodeHash. rewrite (oe_code _ _ _ H), (oe_codeHash _ _ _ H).
  reflexivity.
Qed.

(** Undoing a write with the value that was journalled. *)

Lemma undo_balance_equiv w d amount so so_t :
  obj_equiv w (setBalance d amount so) so_t →
  obj_equiv w so (setBalance d (Balance d so) so_t).
Proof.
  intros [Ha Haa Hc Hs Hh Hco Hdc Hds Hsu Hde Hcm].
  split; try assumption.
  intros d'. simpl in *. rewrite AmountOf_insert. destruct (decide (d = d')) as [<- | Hne].
  - reflexivity.
  - rewrite <- Hc. rewrite AmountOf_insert. rewrite decide_False by exact Hne.
    reflexivity.
Qed.

Lemma undo_nonce_equiv w n so so_t :
  obj_equiv w (setNonce n so) so_t → obj_equiv w so (setNonce (Nonce so) so_t).
Proof.
  intros [Ha Haa Hc Hs Hh Hco Hdc Hds Hsu Hde Hcm].
  split; try assumption; reflexivity.
Qed.

Lemma undo_code_equiv w h c so so_t :
  obj_equiv w (setCode h c so) so_t →
  obj_equiv w so (restoreCode (so_code so) (CodeHash so) (dirtyCode so) so_t).
Proof.
  intros [Ha Haa Hc Hs Hh Hco Hdc Hds Hsu Hde Hcm].
  split; try assumption; reflexivity.
Qed.

Lemma storage_lookup_set k v l k' :
  storage_lookup k' (storage_set k v l)
  = if decide (k = k') then Some v else storage_lookup k' l.
Proof.
  induction l as [| [k0 v0] l IH]; simpl.
  - destruct (decide (k = k')); reflexivity.
  - destruct (decide (k0 = k)) as [-> | Hne]; simpl.
    + destruct (decide (k = k')); reflexivity.
    + destruct (decide (k0 = k')) as [-> | Hne'].
      * rewrite decide_False by congruence. reflexivity.
      * exact IH.
Qed.

Lemma storage_set_set k v p l :
  storage_lookup k l = Some p → storage_set k p (storage_set k v l) = l.
Proof.
  induction l as [| [k0 v0] l IH]; simpl; [discriminate |].
  destruct (decide (k0 = k)) as [-> | Hne]; simpl.
  - intros H. injection H as ->. rewrite decide_True by reflexivity. reflexivity.
  - intros H. rewrite decide_False by exact Hne. f_equal. apply IH, H.
Qed.

Lemma storage_remove_set k v l :
  storage_lookup k l = None → storage_remove k (storage_set k v l) = l.
Proof.
  induction l as [| [k0 v0] l IH]; simpl.
  - intros _. rewrite decide_True by reflexivity. reflexivity.
  - destruct (decide (k0 = k)) as [-> | Hne]; simpl; [discriminate |].
    intros H. rewrite decide_False by exact Hne. f_equal. apply IH, H.
Qed.

Lemma undo_state_equiv w k v so so_t :
  obj_equiv w (setState k v so) so_t →
  obj_equiv w so (restoreState k (storage_lookup k (dirtyStorage so)) so_t).
Proof.
  intros [Ha Haa Hc Hs Hh Hco Hdc Hds Hsu Hde Hcm]. unfold restoreState.
  destruct (storage_lookup k (dirtyStorage so)) as [p |] eqn:Ek;
    split; try assumption; simpl in *.
  - rewrite <- Hds. symmetry. apply storage_set_set, Ek.
  - rewrite <- Hds. symmetry. apply storage_remove_set, Ek.
Qed.

(** ** Properties of every live object *)

Definition all_objects (P : Address → stateObject → Prop) (s : CommitStateDB) : Prop :=
  ∀ idx e, stateObjects s !! idx = Some e → P (se_address e) (se_stateObject e).

(** A live object carries the address of its slot. *)
Definition wf_addr : CommitStateDB → Prop := all_objects (λ a so, so_address so = a).

(** An object marked deleted has no account in the keeper [w]. *)
Definition gone (w : World) (a : Address) (so : stateObject) : Prop :=
  deleted so = true → GetAccount w a = None.

(** The keeper has no account left for the live objects marked deleted:
    what [getStateObject] answers for their addresses, none, is what it
    would answer without them. *)
Definition deleted_gone (s : CommitStateDB) : Prop := all_objects (gone (ctx s)) s.

Lemma all_objects_ext P s s' :
  stateObjects s' = stateObjects s → all_objects P s → all_objects P s'.
Proof. unfold all_objects. intros ->. auto. Qed.

Lemma all_objects_setError P err s : all_objects P s → all_objects P (setError err s).
Proof. destruct (setError_frame err s) as (_ & _ & Hl). apply all_objects_ext, Hl. Qed.

Lemma all_objects_modify_at P idx f s :
  (∀ a so, P a so → P a (f so)) → all_objects P s → all_objects P (modify_at idx f s).
Proof.
  intros Hf H j e Hj. unfold modify_at in Hj. simpl in Hj.
  destruct (decide (idx = j)) as [-> | Hne].
  - rewrite list_lookup_alter_eq in Hj.
    destruct (stateObjects s !! j) as [e0 |] eqn:E0; [| discriminate].
    simpl in Hj. injection Hj as <-. simpl. apply Hf, (H j e0 E0).
  - rewrite list_lookup_alter_ne in Hj by exact Hne. apply (H j e Hj).
Qed.

Lemma all_objects_modify_object P a f s :
  (∀ b so, P b so → P b (f so)) → all_objects P s → all_objects P (modify_object a f s).
Proof.
  intros Hf H. unfold modify_object.
  destruct (_ !! _); [apply all_objects_modify_at; assumption | exact H].
Qed.

Lemma all_objects_setStateObject P so s :
  wf_index s → P (so_address so) so → all_objects P s → all_objects P (setStateObject so s).
Proof.
  intros Hwf Hso H j e Hj. unfold setStateObject in Hj.
  destruct (addressToObjectIndex s !! so_address so) as [idx |] eqn:E; simpl in Hj.
  - destruct (decide (idx = j)) as [-> | Hne].
    + rewrite list_lookup_alter_eq in Hj.
      destruct Hwf as [H1 _]. destruct (H1 _ _ E) as (e0 & He0 & Hk).
      rewrite He0 in Hj. simpl in Hj. injection Hj as <-. simpl. rewrite Hk. exact Hso.
    + rewrite list_lookup_alter_ne in Hj by exact Hne. apply (H j e Hj).
  - apply lookup_app_Some in Hj. destruct Hj as [Hj | [_ Hj]]; [apply (H j e Hj) |].
    destruct (j - length (stateObjects s))%nat as [| n]; simpl in Hj;
      [| destruct n; discriminate].
    injection Hj as <-. exact Hso.
Qed.

Lemma all_objects_remove_object P a s : all_objects P s → all_objects P (remove_object a s).
Proof.
  intros H j e Hj. unfold remove_object in Hj.
  destruct (addressToObjectIndex s !! a) as [idx |]; simpl in Hj; [| apply (H j e Hj)].
  apply list_elem_of_lookup_2, list_elem_of_delete_inv, list_elem_of_lookup_1 in Hj.
  destruct Hj as [j' Hj']. apply (H j' e Hj').
Qed.

Lemma all_objects_getStateObject P a s :
  wf_index s → (∀ acc, P a (newStateObject (mkAccount a (acc_coins acc) (acc_sequence acc)
                                                      (acc_codeHash acc)))) →
  all_objects P s → all_objects P (snd (getStateObject a s)).
Proof.
  intros Hwf Hnew H. unfold getStateObject.
  destruct (slot_of s a).
  - destruct (deleted _); exact H.
  - unfold GetAccount. destruct (accounts (ctx s) !! a) as [acc |]; simpl.
    + apply all_objects_setStateObject; [exact Hwf | apply Hnew | exact H].
    + apply all_objects_setError, H.
Qed.

Lemma all_objects_slot P s a e :
  wf_index s → all_objects P s → slot_of s a = Some e → P a (se_stateObject e).
Proof.
  intros Hwf H He. rewrite <- (slot_of_address s a e Hwf He).
  unfold slot_of in He. destruct (addressToObjectIndex s !! a) as [idx |]; [| discriminate].
  apply (H idx e He).
Qed.

Lemma wf_addr_getStateObject a s : wf_index s → wf_addr s → wf_addr (snd (getStateObject a s)).
Proof. intros Hwf. apply all_objects_getStateObject; [exact Hwf | reflexivity]. Qed.

Lemma gone_live w a so : deleted so = false → gone w a so.
Proof. intros H Hd. congruence. Qed.

Lemma deleted_gone_ext s s' :
  ctx s' = ctx s → all_objects (gone (ctx s)) s' → deleted_gone s'.
Proof. intros Hc H. unfold deleted_gone. rewrite Hc. exact H. Qed.

Lemma deleted_gone_getStateObject a s :
  wf_index s → deleted_gone s → deleted_gone (snd (getStateObject a s)).
Proof.
  intros Hwf H. apply (deleted_gone_ext s).
  - apply (live_only_getStateObject a s).
  - apply all_objects_getStateObject; [exact Hwf | | exact H].
    intros acc. apply gone_live. reflexivity.
Qed.

(** ** Resolving an address *)

(** The object an address resolves to: the live one unless it is deleted,
    a fresh view of the account of the keeper if none is live. *)
Definition resolve (s : CommitStateDB) (a : Address) : option stateObject :=
  match slot_of s a with
  | Some e => if deleted (se_stateObject e) then None else Some (se_stateObject e)
  | None => newStateObject <$> GetAccount (ctx s) a
  end.

Lemma getStateObject_fst a s : fst (getStateObject a s) = resolve s a.
Proof.
  unfold getStateObject, resolve. destruct (slot_of s a).
  - destruct (deleted _); reflexivity.
  - destruct (GetAccount _ _); reflexivity.
Qed.

Lemma resolve_ext s s' a :
  stateObjects s' = stateObjects s → addressToObjectIndex s' = addressToObjectIndex s →
  ctx s' = ctx s → resolve s' a = resolve s a.
Proof.
  intros Hl Hi Hc. unfold resolve. rewrite (slot_of_ext s s' a Hl Hi), Hc. reflexivity.
Qed.

Lemma resolve_address s a so :
  wf_index s → wf_addr s → resolve s a = Some so → so_address so = a.
Proof.
  intros Hwf Ha. unfold resolve.
  destruct (slot_of s a) as [e |] eqn:Es.
  - destruct (deleted _); [discriminate |]. intros H. injection H as <-.
    apply (all_objects_slot _ s a e Hwf Ha Es).
  - destruct (GetAccount (ctx s) a) as [acc |] eqn:Eacc; [| discriminate].
    simpl. intros H. injection H as <-. simpl. eapply GetAccount_address, Eacc.
Qed.

Lemma resolve_not_deleted s a so : resolve s a = Some so → deleted so = false.
Proof.
  unfold resolve. destruct (slot_of s a) as [e |].
  - destruct (deleted (se_stateObject e)) eqn:Ed; [discriminate |].
    intros H. injection H as <-. exact Ed.
  - destruct (GetAccount (ctx s) a); [| discriminate].
    simpl. intros H. injection H as <-. reflexivity.
Qed.

Lemma resolve_setStateObject so s b :
  wf_index s →
  resolve (setStateObject so s) b
  = if decide (b = so_address so) then (if deleted so then None else Some so)
    else resolve s b.
Proof.
  intros Hwf. unfold resolve. rewrite slot_of_setStateObject by exact Hwf.
  destruct (decide (b = so_address so)); [reflexivity |].
  destruct (live_only_setStateObject so s) as (-> & _). reflexivity.
Qed.

Lemma resolve_getStateObject a s b :
  wf_index s → resolve (snd (getStateObject a s)) b = resolve s b.
Proof.
  intros Hwf. unfold getStateObject.
  destruct (slot_of s a) as [e |] eqn:Es.
  - destruct (deleted _); reflexivity.
  - destruct (GetAccount (ctx s) a) as [acc |] eqn:Eacc; simpl.
    + rewrite resolve_setStateObject by exact Hwf. simpl.
      rewrite (GetAccount_address _ _ _ Eacc).
      destruct (decide (b = a)) as [-> | Hne]; [| reflexivity].
      unfold resolve. rewrite Es, Eacc. reflexivity.
    + destruct (setError_frame (ErrNoAccount a) s) as (Hi & Hc & Hl).
      apply resolve_ext; assumption.
Qed.

Lemma resolve_remove_object a s b :
  wf_index s →
  resolve (remove_object a s) b
  = if decide (b = a) then newStateObject <$> GetAccount (ctx s) a else resolve s b.
Proof.
  intros Hwf. unfold resolve. rewrite slot_of_remove_object by exact Hwf.
  destruct (live_only_remove_object a s) as (-> & _).
  destruct (decide (b = a)) as [-> | Hne]; reflexivity.
Qed.

(** Writing to a live object that is not deleted. *)
Lemma resolve_modify_object a f s so b :
  wf_index s → slot_of s a = Some (mkStateEntry a so) → deleted (f so) = false →
  resolve (modify_object a f s) b
  = if decide (b = a) then Some (f so) else resolve s b.
Proof.
  intros Hwf Hs Hd. unfold resolve. rewrite slot_of_modify_object by exact Hwf.
  destruct (live_only_modify_object a f s) as (-> & _).
  destruct (decide (b = a)) as [-> | Hne]; [| reflexivity].
  rewrite Hs. simpl. rewrite Hd. reflexivity.
Qed.

Lemma resolve_slot s a so :
  slot_of s a = Some (mkStateEntry a so) → deleted so = false → resolve s a = Some so.
Proof. intros Hs Hd. unfold resolve. rewrite Hs. simpl. rewrite Hd. reflexivity. Qed.

Lemma resolve_restore_object a f s b :
  wf_index s → (∀ so, deleted (f so) = deleted so) →
  resolve (restore_object a f s) b
  = if decide (b = a) then f <$> resolve s a else resolve s b.
Proof.
  intros Hwf Hf. unfold restore_object.
  pose proof (getStateObject_fst a s) as Hfst.
  pose proof (resolve_getStateObject a s) as Hres.
  destruct (getStateObject a s) as [o s1] eqn:Eg. simpl in Hfst, Hres.
  destruct o as [so |].
  - pose proof (wf_index_getStateObject _ _ _ _ Eg Hwf) as Hwf1.
    destruct (getStateObject_Some _ _ _ _ Hwf Eg) as [Hslot Hdel].
    rewrite (resolve_modify_object a f s1 so b Hwf1 Hslot) by (rewrite Hf; exact Hdel).
    rewrite <- Hfst. simpl. rewrite Hres by exact Hwf. reflexivity.
  - rewrite Hres by exact Hwf. rewrite <- Hfst.
    destruct (decide (b = a)) as [-> | Hne]; [| reflexivity].
    rewrite <- Hfst. reflexivity.
Qed.

(** ** Overlays that read alike *)

(** The part of the overlay that is not a state object, as the reads see
    it. *)
Record frame_equiv (s t : CommitStateDB) : Prop := mk_frame_equiv {
  fe_ctx : ctx t = ctx s;
  fe_denom : evmDenom t = evmDenom s;
  fe_refund : refund t = refund s;
  fe_logs : logs t = logs s;
  fe_preimages : preimages t = preimages s;
  fe_preimageIndex : hashToPreimageIndex t = hashToPreimageIndex s;
  fe_accessList : al_equiv (accessList_ s) (accessList_ t)
}.

(** The addresses of [P] resolve to objects that read alike. *)
Definition objects_equiv (P : Address → Prop) (s t : CommitStateDB) : Prop :=
  ∀ a, P a → opt_equiv (ctx s) (resolve s a) (resolve t a).

(** Two overlays that no read tells apart. *)
Definition view_equiv (s t : CommitStateDB) : Prop :=
  frame_equiv s t ∧ objects_equiv (λ _, True) s t.

Lemma frame_equiv_refl s : frame_equiv s s.
Proof. split; [reflexivity .. |]. intros a. reflexivity. Qed.

Lemma frame_equiv_trans s t u : frame_equiv s t → frame_equiv t u → frame_equiv s u.
Proof.
  intros [] []. split; [congruence .. |].
  intros a. etransitivity; [apply fe_accessList0 | apply fe_accessList1].
Qed.

Lemma frame_equiv_sym s t : frame_equiv s t → frame_equiv t s.
Proof. intros []. split; [congruence .. |]. intros a. symmetry. apply fe_accessList0. Qed.

Lemma frame_equiv_live_only s t : live_only s t → frame_equiv s t.
Proof.
  intros H. pose proof (evmDenom_live_only _ _ H) as Hd.
  destruct H as (?&?&?&?&?&?&?&?&?&?&?&?&?&Hal&?).
  split; try assumption. intros a. rewrite Hal. reflexivity.
Qed.

Lemma objects_equiv_refl P s : objects_equiv P s s.
Proof. intros a _. apply opt_equiv_refl. Qed.

Lemma objects_equiv_trans P s t u :
  ctx t = ctx s → objects_equiv P s t → objects_equiv P t u → objects_equiv P s u.
Proof.
  intros Hc H1 H2 a Ha. eapply opt_equiv_trans; [apply H1, Ha |].
  rewrite <- Hc. apply H2, Ha.
Qed.

Lemma objects_equiv_sym P s t : ctx t = ctx s → objects_equiv P s t → objects_equiv P t s.
Proof. intros Hc H a Ha. rewrite Hc. apply opt_equiv_sym, H, Ha. Qed.

Lemma objects_equiv_weaken (P Q : Address → Prop) s t :
  (∀ a, Q a → P a) → objects_equiv P s t → objects_equiv Q s t.
Proof. intros HPQ H a Ha. apply H, HPQ, Ha. Qed.

Lemma objects_equiv_eq P s t :
  (∀ a, P a → resolve t a = resolve s a) → objects_equiv P s t.
Proof. intros H a Ha. rewrite H by exact Ha. apply opt_equiv_refl. Qed.

Lemma view_equiv_refl s : view_equiv s s.
Proof. split; [apply frame_equiv_refl | apply objects_equiv_refl]. Qed.

Lemma view_equiv_trans s t u : view_equiv s t → view_equiv t u → view_equiv s u.
Proof.
  intros [F1 O1] [F2 O2]. split; [eapply frame_equiv_trans; eassumption |].
  eapply objects_equiv_trans; [apply (fe_ctx _ _ F1) | |]; eassumption.
Qed.

Lemma view_equiv_sym s t : view_equiv s t → view_equiv t s.
Proof.
  intros [F O]. split; [apply frame_equiv_sym, F |].
  apply objects_equiv_sym; [apply (fe_ctx _ _ F) | exact O].
Qed.

(** The fields the reads and the invariants depend on. *)
Definition same_overlay (t t' : CommitStateDB) : Prop :=
  ctx t' = ctx t ∧ params t' = params t ∧ refund t' = refund t ∧ logs t' = logs t
  ∧ preimages t' = preimages t ∧ hashToPreimageIndex t' = hashToPreimageIndex t
  ∧ accessList_ t' = accessList_ t ∧ stateObjects t' = stateObjects t
  ∧ addressToObjectIndex t' = addressToObjectIndex t.

Lemma view_equiv_same_overlay t t' : same_overlay t t' → view_equiv t t'.
Proof.
  intros (Hc & Hp & Hr & Hl & Hpi & Hh & Ha & Hso & Hi). split.
  - split; try assumption.
    + apply evmDenom_ext; [exact Hp | rewrite Hc; reflexivity].
    + intros a. rewrite Ha. reflexivity.
  - apply objects_equiv_eq. intros a _. apply resolve_ext; assumption.
Qed.

(** The invariants the revert of an entry relies on. *)
Definition good (s : CommitStateDB) : Prop :=
  wf_index s ∧ wf_addr s ∧ al_wf (accessList_ s).

Lemma good_same_overlay t t' : same_overlay t t' → good t → good t'.
Proof.
  intros (Hc & Hp & Hr & Hl & Hpi & Hh & Ha & Hso & Hi) (G1 & G2 & G3).
  split; [eapply wf_index_ext; eassumption |].
  split; [eapply all_objects_ext; eassumption | rewrite Ha; exact G3].
Qed.

Lemma deleted_gone_same_overlay t t' : same_overlay t t' → deleted_gone t → deleted_gone t'.
Proof.
  intros (Hc & _ & _ & _ & _ & _ & _ & Hso & _) H.
  apply (deleted_gone_ext t); [exact Hc |].
  eapply all_objects_ext; [exact Hso | exact H].
Qed.

Lemma good_live_only_al s t : live_only s t → al_wf (accessList_ s) → al_wf (accessList_ t).
Proof. intros (_&_&_&_&_&_&_&_&_&_&_&_&_&Hal&_). rewrite Hal. auto. Qed.

(** ** Reversible steps *)

Lemma revert_entries_app l1 l2 t :
  revert_entries (l1 ++ l2) t = revert_entries l2 (revert_entries l1 t).
Proof.
  revert t. induction l1 as [| e l1 IH]; intros t; simpl; [reflexivity | apply IH].
Qed.

(** The journal after the entries [es] have been appended to it. *)
Definition journal_extend (j : journal) (es : list journalEntry) : journal :=
  foldl (λ j' e, journal_append e j') j es.

Lemma journal_extend_app j es1 es2 :
  journal_extend j (es1 ++ es2) = journal_extend (journal_extend j es1) es2.
Proof. apply foldl_app. Qed.

Lemma entries_journal_extend j es : entries (journal_extend j es) = entries j ++ es.
Proof.
  revert j. induction es as [| e es IH]; intros j; simpl.
  - rewrite app_nil_r. reflexivity.
  - unfold journal_extend in IH. rewrite IH. simpl. rewrite <- app_assoc. reflexivity.
Qed.

Lemma journal_extend_counted j es : marks_counted j → marks_counted (journal_extend j es).
Proof.
  revert j. induction es as [| e es IH]; intros j H; simpl; [exact H |].
  apply IH, journal_append_counted, H.
Qed.

(** The marks of the appended entries, taken back last entry first, leave
    the marks the journal had. *)
Lemma unmark_journal_extend j es :
  marks_counted j →
  foldl (λ ds e, unmark e ds) (dirties (journal_extend j es)) (rev es) = dirties j.
Proof.
  intros H. induction es as [| e es IH] using rev_ind; [reflexivity |].
  rewrite journal_extend_app, rev_app_distr.
  change (journal_extend (journal_extend j es) [e])
    with (journal_append e (journal_extend j es)).
  change (rev [e] ++ rev es) with (e :: rev es). cbn [foldl].
  rewrite unmark_journal_append by (apply journal_extend_counted, H).
  exact IH.
Qed.

(** [reversible s s']: [s'] has journalled, on top of the journal of [s],
    entries whose revert leads any overlay that reads like [s'] to one that
    reads like [s]. *)
Definition reversible (s s' : CommitStateDB) : Prop :=
  ∃ es, journal_ s' = journal_extend (journal_ s) es
        ∧ validRevisions s' = validRevisions s
        ∧ nextRevisionID s' = nextRevisionID s
        ∧ ∀ t, good t → view_equiv s' t →
               good (revert_entries (rev es) t)
               ∧ view_equiv s (revert_entries (rev es) t).

Lemma reversible_silent s s' :
  journal_ s' = journal_ s →
  validRevisions s' = validRevisions s → nextRevisionID s' = nextRevisionID s →
  view_equiv s s' → reversible s s'.
Proof.
  intros He Hv Hn Hview. exists [].
  split; [exact He |]. split; [exact Hv |]. split; [exact Hn |].
  intros t Hg Hview'. simpl. split; [exact Hg |].
  eapply view_equiv_trans; eassumption.
Qed.

Lemma reversible_trans s s1 s2 : reversible s s1 → reversible s1 s2 → reversible s s2.
Proof.
  intros (es1 & He1 & Hv1 & Hn1 & H1) (es2 & He2 & Hv2 & Hn2 & H2).
  exists (es1 ++ es2). rewrite He2, He1, journal_extend_app.
  split; [reflexivity |]. split; [congruence |]. split; [congruence |].
  intros t Hg Hview. rewrite rev_app_distr, revert_entries_app.
  destruct (H2 t Hg Hview) as [Hg2 Hview2]. apply H1; assumption.
Qed.

Lemma revert_one_same_overlay e t : same_overlay (undo e t) (revert_entries [e] t).
Proof. simpl. destruct (dirtied e); repeat split. Qed.

Lemma reversible_entry e s s' :
  journal_ s' = journal_append e (journal_ s) →
  validRevisions s' = validRevisions s → nextRevisionID s' = nextRevisionID s →
  (∀ t, good t → view_equiv s' t → good (undo e t) ∧ view_equiv s (undo e t)) →
  reversible s s'.
Proof.
  intros He Hv Hn H. exists [e].
  split; [exact He |]. split; [exact Hv |]. split; [exact Hn |].
  intros t Hg Hview. destruct (H t Hg Hview) as [Hg' Hview'].
  change (rev [e]) with [e]. split.
  - apply (good_same_overlay _ _ (revert_one_same_overlay e t)), Hg'.
  - eapply view_equiv_trans; [exact Hview' |].
    apply (view_equiv_same_overlay _ _ (revert_one_same_overlay e t)).
Qed.

(** A step of an operation: the invariants hold after it and it is
    reversible. *)
Definition step_ok (s s' : CommitStateDB) : Prop :=
  good s' ∧ deleted_gone s' ∧ reversible s s'.

Lemma step_ok_trans s s1 s2 : step_ok s s1 → step_ok s1 s2 → step_ok s s2.
Proof.
  intros (_ & _ & R1) (G2 & N2 & R2). split; [exact G2 |]. split; [exact N2 |].
  eapply reversible_trans; eassumption.
Qed.

(** *** The revert of an entry on a state object *)

(** The address of the object an entry reverts. *)
Definition object_entry (e : journalEntry) : option Address :=
  match e with
  | createObjectChange a => Some a
  | resetObjectChange prev => Some (so_address prev)
  | suicideChange a _ _ => Some a
  | balanceChange a _ => Some a
  | nonceChange a _ => Some a
  | storageChange a _ _ => Some a
  | codeChange a _ _ _ => Some a
  | _ => None
  end.

Lemma frame_equiv_same_overlay t t' : same_overlay t t' → frame_equiv t t'.
Proof. intros H. apply (view_equiv_same_overlay t t' H). Qed.

Lemma restore_object_frame a f t :
  good t → (∀ so, deleted (f so) = deleted so) → (∀ so, so_address (f so) = so_address so) →
  good (restore_object a f t)
  ∧ frame_equiv t (restore_object a f t)
  ∧ objects_equiv (λ b, b ≠ a) t (restore_object a f t).
Proof.
  intros (G1 & G2 & G3) Hd Ha.
  pose proof (live_only_restore_object a f t) as Hlive.
  split; [split; [| split] |].
  - apply wf_index_restore_object, G1.
  - unfold restore_object.
    pose proof (wf_addr_getStateObject a t G1 G2) as H1.
    destruct (getStateObject a t) as [o t1]. simpl in H1.
    destruct o; [| exact H1].
    apply all_objects_modify_object; [| exact H1].
    intros b so Hb. simpl. rewrite Ha. exact Hb.
  - apply (good_live_only_al _ _ Hlive G3).
  - split; [apply frame_equiv_live_only, Hlive |].
    apply objects_equiv_eq. intros b Hb.
    rewrite resolve_restore_object by assumption.
    rewrite decide_False by exact Hb. reflexivity.
Qed.

Lemma undo_object_frame e a t :
  object_entry e = Some a → good t →
  good (undo e t) ∧ frame_equiv t (undo e t) ∧ objects_equiv (λ b, b ≠ a) t (undo e t).
Proof.
  intros He Hg. destruct e; simpl in He; try discriminate; injection He as <-; simpl.
  - (* createObjectChange *)
    destruct Hg as (G1 & G2 & G3).
    pose proof (live_only_remove_object account t) as Hlive.
    split; [split; [| split] |].
    + apply wf_index_remove_object, G1.
    + apply all_objects_remove_object, G2.
    + apply (good_live_only_al _ _ Hlive G3).
    + split; [apply frame_equiv_live_only, Hlive |].
      apply objects_equiv_eq. intros b Hb.
      rewrite resolve_remove_object by exact G1. rewrite decide_False by exact Hb.
      reflexivity.
  - (* resetObjectChange *)
    destruct Hg as (G1 & G2 & G3).
    pose proof (live_only_setStateObject prev t) as Hlive.
    split; [split; [| split] |].
    + apply wf_index_setStateObject, G1.
    + apply all_objects_setStateObject; [exact G1 | reflexivity | exact G2].
    + apply (good_live_only_al _ _ Hlive G3).
    + split; [apply frame_equiv_live_only, Hlive |].
      apply objects_equiv_eq. intros b Hb.
      rewrite resolve_setStateObject by exact G1. rewrite decide_False by exact Hb.
      reflexivity.
  - apply restore_object_frame; [exact Hg | reflexivity | reflexivity].
  - apply restore_object_frame; [exact Hg | reflexivity | reflexivity].
  - apply restore_object_frame; [exact Hg | reflexivity | reflexivity].
  - apply restore_object_frame; [exact Hg | |];
      intros so; unfold restoreState; destruct prevValue; reflexivity.
  - apply restore_object_frame; [exact Hg | reflexivity | reflexivity].
Qed.

Lemma opt_equiv_ctx w w' o1 o2 : w' = w → opt_equiv w o1 o2 → opt_equiv w' o1 o2.
Proof. intros ->. auto. Qed.

(** An entry on the object of [a] is reversible when the overlays agree off
    [a] and its revert brings the object of [a] back. *)
Lemma reversible_at a e s s' :
  object_entry e = Some a →
  journal_ s' = journal_append e (journal_ s) →
  validRevisions s' = validRevisions s → nextRevisionID s' = nextRevisionID s →
  frame_equiv s s' → objects_equiv (λ b, b ≠ a) s s' →
  (∀ t, good t → frame_equiv s' t →
        opt_equiv (ctx s) (resolve s' a) (resolve t a) →
        opt_equiv (ctx s) (resolve s a) (resolve (undo e t) a)) →
  reversible s s'.
Proof.
  intros Hoe He Hv Hn Hf Ho Hat. apply (reversible_entry e); try assumption.
  intros t Hg [Ft Ot].
  destruct (undo_object_frame e a t Hoe Hg) as (Hg' & Fu & Ou).
  split; [exact Hg' |]. split.
  - eapply frame_equiv_trans; [exact Hf |]. eapply frame_equiv_trans; eassumption.
  - intros b _. destruct (decide (b = a)) as [-> | Hne].
    + apply Hat; [exact Hg | exact Ft |].
      apply (opt_equiv_ctx _ _ _ _ (eq_sym (fe_ctx _ _ Hf))). apply Ot. exact I.
    + eapply opt_equiv_trans; [apply Ho, Hne |].
      eapply opt_equiv_trans.
      * apply (opt_equiv_ctx _ _ _ _ (eq_sym (fe_ctx _ _ Hf))). apply Ot. exact I.
      * apply (opt_equiv_ctx (ctx t)); [| apply Ou, Hne].
        rewrite (fe_ctx _ _ Ft), (fe_ctx _ _ Hf). reflexivity.
Qed.

Lemma resolve_None_keeper s a :
  wf_index s → deleted_gone s → resolve s a = None → GetAccount (ctx s) a = None.
Proof.
  intros Hwf Hnd. unfold resolve. destruct (slot_of s a) as [e |] eqn:Es.
  - destruct (deleted (se_stateObject e)) eqn:Ed; [| discriminate].
    intros _. apply (all_objects_slot _ s a e Hwf Hnd Es), Ed.
  - destruct (GetAccount (ctx s) a); [discriminate | reflexivity].
Qed.

(** *** Steps on the live objects *)

Lemma entries_live_only s t : live_only s t →
  entries (journal_ t) = entries (journal_ s)
  ∧ validRevisions t = validRevisions s ∧ nextRevisionID t = nextRevisionID s.
Proof. intros H. apply (same_control_live_only s t H). Qed.

Lemma journal_live_only s t : live_only s t →
  journal_ t = journal_ s
  ∧ validRevisions t = validRevisions s ∧ nextRevisionID t = nextRevisionID s.
Proof. intros (_ & _ & _ & _ & _ & _ & _ & _ & _ & _ & Hj & Hv & Hn & _). auto. Qed.

Lemma step_getStateObject a s :
  good s → deleted_gone s → step_ok s (snd (getStateObject a s)).
Proof.
  intros (G1 & G2 & G3) Hnd.
  pose proof (live_only_getStateObject a s) as Hlive.
  destruct (journal_live_only _ _ Hlive) as (He & Hv & Hn).
  split; [split; [| split] |].
  - apply wf_index_read_object, G1.
  - apply wf_addr_getStateObject; assumption.
  - apply (good_live_only_al _ _ Hlive G3).
  - split; [apply deleted_gone_getStateObject; assumption |].
    apply reversible_silent; try assumption.
    split; [apply frame_equiv_live_only, Hlive |].
    apply objects_equiv_eq. intros b _. apply resolve_getStateObject, G1.
Qed.

Lemma same_overlay_GetParams_but s :
  ctx (snd (GetParams s)) = ctx s ∧ evmDenom (snd (GetParams s)) = evmDenom s
  ∧ refund (snd (GetParams s)) = refund s ∧ logs (snd (GetParams s)) = logs s
  ∧ preimages (snd (GetParams s)) = preimages s
  ∧ hashToPreimageIndex (snd (GetParams s)) = hashToPreimageIndex s
  ∧ accessList_ (snd (GetParams s)) = accessList_ s
  ∧ stateObjects (snd (GetParams s)) = stateObjects s
  ∧ addressToObjectIndex (snd (GetParams s)) = addressToObjectIndex s
  ∧ journal_ (snd (GetParams s)) = journal_ s
  ∧ validRevisions (snd (GetParams s)) = validRevisions s
  ∧ nextRevisionID (snd (GetParams s)) = nextRevisionID s.
Proof.
  split; [| split; [apply evmDenom_GetParams |]];
    unfold GetParams; destruct (params s); repeat split.
Qed.

Lemma step_GetParams s : good s → deleted_gone s → step_ok s (snd (GetParams s)).
Proof.
  intros (G1 & G2 & G3) Hnd.
  destruct (same_overlay_GetParams_but s)
    as (Hc & Hd & Hr & Hl & Hp & Hh & Ha & Hso & Hi & Hj & Hv & Hn).
  split; [split; [| split] |].
  - eapply wf_index_ext; eassumption.
  - eapply all_objects_ext; eassumption.
  - rewrite Ha. exact G3.
  - split; [apply (deleted_gone_ext s); [exact Hc |];
             eapply all_objects_ext; eassumption |].
    apply reversible_silent; try assumption.
    split.
    + split; try assumption. intros a. rewrite Ha. reflexivity.
    + apply objects_equiv_eq. intros b _. apply resolve_ext; assumption.
Qed.

(** A journalled write to the live object of [a]: [f] is the write, [e] the
    entry, whose revert applies [g]. *)
Lemma step_write a so f e g s :
  good s → deleted_gone s →
  slot_of s a = Some (mkStateEntry a so) → deleted so = false →
  object_entry e = Some a →
  (∀ t, undo e t = restore_object a (g t) t) →
  (∀ x, deleted (f x) = deleted x) → (∀ x, so_address (f x) = so_address x) →
  (∀ t x, deleted (g t x) = deleted x) →
  (∀ t so_t, evmDenom t = evmDenom s →
             obj_equiv (ctx s) (f so) so_t → obj_equiv (ctx s) so (g t so_t)) →
  step_ok s (modify_object a f (append_journal e s)).
Proof.
  intros (G1 & G2 & G3) Hnd Hslot Hdel Hoe Hundo Hfd Hfa Hgd Hback.
  set (s1 := append_journal e s).
  pose proof (live_only_modify_object a f s1) as Hlive.
  destruct (journal_live_only _ _ Hlive) as (He & Hv & Hn).
  assert (Hres : ∀ b, resolve (modify_object a f s1) b
                      = if decide (b = a) then Some (f so) else resolve s b).
  { intros b. apply (resolve_modify_object a f s1 so b G1 Hslot).
    rewrite Hfd. exact Hdel. }
  assert (Hframe : frame_equiv s (modify_object a f s1)).
  { eapply frame_equiv_trans; [| apply frame_equiv_live_only, Hlive].
    apply frame_equiv_same_overlay. repeat split. }
  split; [split; [| split] |].
  - apply wf_index_modify_object, G1.
  - apply all_objects_modify_object; [| exact G2].
    intros b x Hb. simpl. rewrite Hfa. exact Hb.
  - apply (good_live_only_al _ _ Hlive G3).
  - split.
    { apply (deleted_gone_ext s); [apply Hlive |].
      apply all_objects_modify_object; [| exact Hnd].
      intros b x Hb. unfold gone. rewrite Hfd. exact Hb. }
    apply (reversible_at a e);
      [exact Hoe | rewrite He; reflexivity | exact Hv | exact Hn | exact Hframe | |].
    + apply objects_equiv_eq. intros b Hb. rewrite Hres.
      rewrite decide_False by exact Hb. reflexivity.
    + intros t Hg Ft Hat. rewrite Hres in Hat. rewrite decide_True in Hat by reflexivity.
      rewrite Hundo. destruct Hg as (T1 & _).
      rewrite resolve_restore_object by (try exact T1; apply Hgd).
      rewrite decide_True by reflexivity.
      rewrite (resolve_slot s a so Hslot Hdel).
      destruct (resolve t a) as [so_t |]; simpl in *; [| contradiction].
      apply Hback; [| exact Hat].
      rewrite (fe_denom _ _ Ft). apply (fe_denom _ _ Hframe).
Qed.

(** An unjournalled write that leaves the object reading as before. *)
Lemma step_silent_write a so so' s :
  good s → deleted_gone s →
  slot_of s a = Some (mkStateEntry a so) → deleted so = false →
  obj_equiv (ctx s) so so' →
  step_ok s (modify_object a (λ _, so') s).
Proof.
  intros (G1 & G2 & G3) Hnd Hslot Hdel Heq.
  pose proof (live_only_modify_object a (λ _, so') s) as Hlive.
  destruct (journal_live_only _ _ Hlive) as (He & Hv & Hn).
  assert (Hadr : so_address so = a) by apply (all_objects_slot _ s a _ G1 G2 Hslot).
  assert (Hdel' : deleted so' = false) by (rewrite <- (oe_deleted _ _ _ Heq); exact Hdel).
  assert (Hadr' : so_address so' = a) by (rewrite <- (oe_address _ _ _ Heq); exact Hadr).
  assert (Hkeep : ∀ P : Address → stateObject → Prop, P a so' →
            all_objects P s → all_objects P (modify_object a (λ _, so') s)).
  { intros P HP H j e Hj. unfold modify_object in Hj.
    destruct (addressToObjectIndex s !! a) as [idx |] eqn:Ei; [| apply (H j e Hj)].
    unfold modify_at in Hj. simpl in Hj.
    destruct (decide (idx = j)) as [-> | Hne].
    - rewrite list_lookup_alter_eq in Hj.
      destruct G1 as [H1 _]. destruct (H1 _ _ Ei) as (e0 & He0 & Hk).
      rewrite He0 in Hj. simpl in Hj. injection Hj as <-. simpl. rewrite Hk. exact HP.
    - rewrite list_lookup_alter_ne in Hj by exact Hne. apply (H j e Hj). }
  split; [split; [| split] |].
  - apply wf_index_modify_object, G1.
  - apply (Hkeep _ Hadr' G2).
  - apply (good_live_only_al _ _ Hlive G3).
  - split; [apply (deleted_gone_ext s); [apply Hlive |];
             apply (Hkeep _ (gone_live _ _ _ Hdel') Hnd) |].
    apply reversible_silent; try assumption.
    split; [apply frame_equiv_live_only, Hlive |].
    intros b _. rewrite (resolve_modify_object a _ s so b G1 Hslot Hdel').
    destruct (decide (b = a)) as [-> | Hne]; [| apply opt_equiv_refl].
    rewrite (resolve_slot s a so Hslot Hdel). exact Heq.
Qed.

(** A new object takes the place of whatever [a] resolved to; the entry is
    the one [createObject] journals. *)
Lemma step_replace a s s' :
  good s → deleted_gone s → good s' → deleted_gone s' →
  journal_ s'
  = journal_append
      (match resolve s a with
       | None => createObjectChange a
       | Some prev => resetObjectChange prev
       end) (journal_ s) →
  validRevisions s' = validRevisions s → nextRevisionID s' = nextRevisionID s →
  frame_equiv s s' → objects_equiv (λ b, b ≠ a) s s' →
  step_ok s s'.
Proof.
  intros Hg Hnd Hg' Hnd' He Hv Hn Hf Ho.
  split; [exact Hg' |]. split; [exact Hnd' |].
  destruct Hg as (G1 & G2 & G3).
  destruct (resolve s a) as [prev |] eqn:Er.
  - pose proof (resolve_address s a prev G1 G2 Er) as Hadr.
    pose proof (resolve_not_deleted s a prev Er) as Hdel.
    apply (reversible_at a (resetObjectChange prev)); try assumption.
    + simpl. rewrite Hadr. reflexivity.
    + intros t (T1 & _) Ft _. simpl. rewrite Er.
      rewrite resolve_setStateObject by exact T1.
      rewrite decide_True by (symmetry; exact Hadr). rewrite Hdel.
      apply opt_equiv_refl.
  - apply (reversible_at a (createObjectChange a)); try assumption; [reflexivity |].
    intros t (T1 & _) Ft _. simpl. rewrite Er.
    rewrite resolve_remove_object by exact T1. rewrite decide_True by reflexivity.
    rewrite (fe_ctx _ _ Ft), (fe_ctx _ _ Hf).
    rewrite (resolve_None_keeper s a G1 Hnd Er). exact I.
Qed.

Lemma step_ok_refl s : good s → deleted_gone s → step_ok s s.
Proof.
  intros Hg Hnd. split; [exact Hg |]. split; [exact Hnd |].
  apply reversible_silent; try reflexivity. apply view_equiv_refl.
Qed.

Lemma createObject_journal a s :
  snd (createObject a s)
  = setStateObject (setNonce 0 (newStateObject (NewAccountWithAddress a)))
      (append_journal
         (match resolve s a with
          | None => createObjectChange a
          | Some prev => resetObjectChange prev
          end)
         (snd (getStateObject a s)))
  ∧ snd (fst (createObject a s)) = resolve s a.
Proof.
  unfold createObject. rewrite <- (getStateObject_fst a s).
  destruct (getStateObject a s) as [[prev |] s1]; split; reflexivity.
Qed.

(** The object [createObject] installs. *)
Definition freshObject (a : Address) : stateObject :=
  setNonce 0 (newStateObject (NewAccountWithAddress a)).

Lemma step_createObject a s :
  good s → deleted_gone s →
  step_ok s (snd (createObject a s))
  ∧ slot_of (snd (createObject a s)) a = Some (mkStateEntry a (freshObject a)).
Proof.
  intros Hg Hnd.
  destruct (createObject_journal a s) as [Hs' _]. rewrite Hs'. fold (freshObject a).
  pose proof (step_getStateObject a s Hg Hnd) as Hstep1.
  set (s1 := snd (getStateObject a s)) in *.
  destruct Hstep1 as (Hg1 & Hnd1 & Hrev1).
  assert (Hres1 : resolve s1 a = resolve s a).
  { apply resolve_getStateObject. apply Hg. }
  rewrite <- Hres1.
  set (e := match resolve s1 a with
            | None => createObjectChange a
            | Some prev => resetObjectChange prev
            end).
  set (s2 := append_journal e s1).
  destruct Hg1 as (G1 & G2 & G3).
  pose proof (live_only_setStateObject (freshObject a) s2) as Hlive.
  destruct (journal_live_only _ _ Hlive) as (He & Hv & Hn).
  assert (Hslot : slot_of (setStateObject (freshObject a) s2) a
                  = Some (mkStateEntry a (freshObject a))).
  { rewrite (slot_of_setStateObject (freshObject a) s2 a G1). simpl.
    rewrite decide_True by reflexivity. reflexivity. }
  split; [| exact Hslot].
  assert (Hg1 : good s1) by exact (conj G1 (conj G2 G3)).
  eapply step_ok_trans; [exact (conj Hg1 (conj Hnd1 Hrev1)) |].
  apply (step_replace a s1).
  - exact Hg1.
  - exact Hnd1.
  - split; [| split].
    + apply (wf_index_setStateObject (freshObject a) s2 G1).
    + apply (all_objects_setStateObject _ (freshObject a) s2 G1); [reflexivity | exact G2].
    + apply (good_live_only_al _ _ Hlive G3).
  - apply (deleted_gone_ext s1); [apply Hlive |].
    apply (all_objects_setStateObject _ (freshObject a) s2 G1);
      [apply gone_live; reflexivity | exact Hnd1].
  - rewrite He. reflexivity.
  - exact Hv.
  - exact Hn.
  - eapply frame_equiv_trans; [| apply frame_equiv_live_only, Hlive].
    apply frame_equiv_same_overlay. repeat split.
  - apply objects_equiv_eq. intros b Hb.
    rewrite (resolve_setStateObject (freshObject a) s2 b G1). simpl.
    rewrite decide_False by exact Hb. reflexivity.
Qed.

Lemma step_GetOrNewStateObject a s :
  good s → deleted_gone s →
  step_ok s (snd (GetOrNewStateObject a s))
  ∧ ∃ so, slot_of (snd (GetOrNewStateObject a s)) a = Some (mkStateEntry a so)
          ∧ deleted so = false.
Proof.
  intros Hg Hnd. unfold GetOrNewStateObject.
  pose proof (step_getStateObject a s Hg Hnd) as Hstep1.
  destruct (getStateObject a s) as [o s1] eqn:Eg. simpl in Hstep1.
  assert (Hnew : step_ok s (snd (createObject a s1))
                 ∧ ∃ so, slot_of (snd (createObject a s1)) a = Some (mkStateEntry a so)
                         ∧ deleted so = false).
  { destruct Hstep1 as (Hg1 & Hnd1 & Hrev1).
    destruct (step_createObject a s1 Hg1 Hnd1) as [Hstep2 Hslot].
    split; [| exists (freshObject a); split; [exact Hslot | reflexivity]].
    eapply step_ok_trans; [| exact Hstep2]. exact (conj Hg1 (conj Hnd1 Hrev1)). }
  destruct (createObject a s1) as [r s2]. simpl in Hnew.
  destruct o as [so |]; [| exact Hnew].
  destruct (getStateObject_Some a s so s1 (proj1 Hg) Eg) as [Hslot Hdel].
  rewrite Hdel. simpl. split; [exact Hstep1 | eauto].
Qed.

(** *** Steps of the journalled setters *)

Lemma step_so_SetBalance a amount s so :
  good s → deleted_gone s → slot_of s a = Some (mkStateEntry a so) →
  deleted so = false →
  step_ok s (so_SetBalance a amount s).
Proof.
  intros Hg Hnd Hslot Hdel. unfold so_SetBalance. rewrite Hslot. simpl.
  assert (Hadr : so_address so = a)
    by apply (all_objects_slot _ s a _ (proj1 Hg) (proj1 (proj2 Hg)) Hslot).
  rewrite Hadr.
  apply (step_write a so _ _ (λ t, setBalance (evmDenom t) (Balance (evmDenom s) so)));
    try assumption; try reflexivity.
  intros t so_t Hd Heq. rewrite Hd. apply (undo_balance_equiv _ _ amount), Heq.
Qed.

Lemma step_so_AddBalance a amount s so :
  good s → deleted_gone s → slot_of s a = Some (mkStateEntry a so) →
  deleted so = false →
  step_ok s (so_AddBalance a amount s).
Proof.
  intros Hg Hnd Hslot Hdel. unfold so_AddBalance. rewrite Hslot.
  eapply step_so_SetBalance; eassumption.
Qed.

Lemma step_so_SubBalance a amount s so :
  good s → deleted_gone s → slot_of s a = Some (mkStateEntry a so) →
  deleted so = false →
  step_ok s (res_state (so_SubBalance a amount s)).
Proof.
  intros Hg Hnd Hslot Hdel. unfold so_SubBalance. rewrite Hslot.
  destruct (decide _); simpl; [apply step_ok_refl; assumption |].
  eapply step_so_SetBalance; eassumption.
Qed.

Lemma step_so_SetNonce a nonce s so :
  good s → deleted_gone s → slot_of s a = Some (mkStateEntry a so) →
  deleted so = false →
  step_ok s (so_SetNonce a nonce s).
Proof.
  intros Hg Hnd Hslot Hdel. unfold so_SetNonce. rewrite Hslot. simpl.
  assert (Hadr : so_address so = a)
    by apply (all_objects_slot _ s a _ (proj1 Hg) (proj1 (proj2 Hg)) Hslot).
  rewrite Hadr.
  apply (step_write a so _ _ (λ _, setNonce (Nonce so)));
    try assumption; try reflexivity.
  intros t so_t _ Heq. apply (undo_nonce_equiv _ nonce), Heq.
Qed.

Lemma step_so_SetCode a hash code s so :
  good s → deleted_gone s → slot_of s a = Some (mkStateEntry a so) →
  deleted so = false →
  step_ok s (so_SetCode a hash code s).
Proof.
  intros Hg Hnd Hslot Hdel. unfold so_SetCode. rewrite Hslot. simpl.
  assert (Hadr : so_address so = a)
    by apply (all_objects_slot _ s a _ (proj1 Hg) (proj1 (proj2 Hg)) Hslot).
  rewrite Hadr.
  apply (step_write a so _ _
           (λ _, restoreCode (so_code so) (CodeHash so) (dirtyCode so)));
    try assumption; try reflexivity.
  intros t so_t _ Heq. apply (undo_code_equiv _ hash code), Heq.
Qed.

Lemma step_so_SetState a key value s so :
  good s → deleted_gone s → slot_of s a = Some (mkStateEntry a so) →
  deleted so = false →
  step_ok s (so_SetState a key value s).
Proof.
  intros Hg Hnd Hslot Hdel. unfold so_SetState. rewrite Hslot. simpl.
  pose proof (GetState_so_equiv (ctx s) key so) as Heq.
  destruct (GetState_so_dirtyStorage (ctx s) key so) as (Hds & Hadr' & Hdel').
  destruct (GetState_so (ctx s) key so) as [cur so']. simpl in *.
  pose proof (step_silent_write a so so' s Hg Hnd Hslot Hdel Heq) as Hstep1.
  set (s1 := modify_object a (λ _, so') s) in *.
  destruct (decide (cur = value)); [exact Hstep1 |].
  eapply step_ok_trans; [exact Hstep1 |].
  destruct Hstep1 as (Hg1 & Hnd1 & _).
  assert (Hslot1 : slot_of s1 a = Some (mkStateEntry a so')).
  { apply (slot_of_modify_object_eq a (λ _, so') s _ (proj1 Hg) Hslot). }
  assert (Hadr : so_address so' = a)
    by apply (all_objects_slot _ s1 a _ (proj1 Hg1) (proj1 (proj2 Hg1)) Hslot1).
  rewrite Hadr.
  apply (step_write a so' _ _
           (λ _, restoreState key (storage_lookup key (dirtyStorage so'))));
    try assumption; try reflexivity.
  - rewrite Hdel'. exact Hdel.
  - intros t x. unfold restoreState. destruct (storage_lookup _ _); reflexivity.
  - intros t so_t _ Heq'. apply (undo_state_equiv _ key value), Heq'.
Qed.

(** *** Steps that leave the state objects alone *)

Definition same_objects (t u : CommitStateDB) : Prop :=
  ctx u = ctx t ∧ params u = params t ∧ stateObjects u = stateObjects t
  ∧ addressToObjectIndex u = addressToObjectIndex t.

Lemma same_objects_resolve t u a : same_objects t u → resolve u a = resolve t a.
Proof. intros (Hc & _ & Hl & Hi). apply resolve_ext; assumption. Qed.

Lemma same_objects_good t u :
  same_objects t u → al_wf (accessList_ u) → good t → good u.
Proof.
  intros (Hc & _ & Hl & Hi) Hal (G1 & G2 & _).
  split; [eapply wf_index_ext; eassumption |].
  split; [eapply all_objects_ext; eassumption | exact Hal].
Qed.

Lemma same_objects_deleted_gone t u : same_objects t u → deleted_gone t → deleted_gone u.
Proof.
  intros (Hc & _ & Hl & _) H. apply (deleted_gone_ext t); [exact Hc |].
  eapply all_objects_ext; [exact Hl | exact H].
Qed.

Lemma view_equiv_frame_change s s' t u :
  same_objects s s' → same_objects t u → view_equiv s' t →
  refund u = refund s → logs u = logs s → preimages u = preimages s →
  hashToPreimageIndex u = hashToPreimageIndex s →
  al_equiv (accessList_ s) (accessList_ u) →
  view_equiv s u.
Proof.
  intros Hss' Htu [Ft Ot] Hr Hl Hp Hh Hal.
  pose proof Hss' as (Hc1 & Hp1 & _). pose proof Htu as (Hc2 & Hp2 & _).
  assert (Hctx : ctx u = ctx s) by (rewrite Hc2, (fe_ctx _ _ Ft), Hc1; reflexivity).
  split.
  - split; try assumption.
    transitivity (evmDenom t); [apply evmDenom_ext; [exact Hp2 | rewrite Hc2; reflexivity] |].
    rewrite (fe_denom _ _ Ft). apply evmDenom_ext; [exact Hp1 | rewrite Hc1; reflexivity].
  - intros a _. rewrite (same_objects_resolve t u a Htu).
    rewrite <- (same_objects_resolve s s' a Hss'). rewrite <- Hc1. apply Ot. exact I.
Qed.

Lemma step_AddRefund gas s : good s → deleted_gone s → step_ok s (AddRefund gas s).
Proof.
  intros Hg Hnd. unfold AddRefund.
  split; [exact Hg |]. split; [exact Hnd |].
  apply (reversible_entry (refundChange (refund s))); try reflexivity.
  intros t Hgt Hview. simpl. split; [exact Hgt |].
  destruct Hview as [Ft Ot].
  eapply (view_equiv_frame_change s _ t); [| | exact (conj Ft Ot) | ..];
    try (repeat split; fail); try reflexivity.
  - apply (fe_logs _ _ Ft).
  - apply (fe_preimages _ _ Ft).
  - apply (fe_preimageIndex _ _ Ft).
  - apply (fe_accessList _ _ Ft).
Qed.

Lemma step_AddLog log s : good s → deleted_gone s → step_ok s (AddLog log s).
Proof.
  intros Hg Hnd. unfold AddLog.
  split; [exact Hg |]. split; [exact Hnd |].
  apply (reversible_entry (addLogChange (thash s))); try reflexivity.
  intros t Hgt Hview. simpl. split; [exact Hgt |].
  destruct Hview as [Ft Ot].
  eapply (view_equiv_frame_change s _ t); [| | exact (conj Ft Ot) | ..];
    try (repeat split; fail).
  - apply (fe_refund _ _ Ft).
  - simpl. rewrite (fe_logs _ _ Ft). simpl. apply removelast_last.
  - apply (fe_preimages _ _ Ft).
  - apply (fe_preimageIndex _ _ Ft).
  - apply (fe_accessList _ _ Ft).
Qed.

Lemma step_AddPreimage hash preimage s :
  good s → deleted_gone s → step_ok s (AddPreimage hash preimage s).
Proof.
  intros Hg Hnd. unfold AddPreimage.
  destruct (hashToPreimageIndex s !! hash) eqn:Eh; [apply step_ok_refl; assumption |].
  split; [exact Hg |]. split; [exact Hnd |].
  apply (reversible_entry (addPreimageChange hash)); try reflexivity.
  intros t Hgt Hview. destruct Hview as [Ft Ot].
  pose proof (fe_preimages _ _ Ft) as Hp. pose proof (fe_preimageIndex _ _ Ft) as Hh.
  simpl in Hp, Hh. rewrite length_app in Hh. simpl in Hh.
  replace (length (preimages s) + 1 - 1)%nat with (length (preimages s)) in Hh by lia.
  simpl. unfold remove_preimage. rewrite Hh, lookup_insert_eq.
  assert (Hdel : delete (length (preimages s)) (preimages t) = preimages s).
  { rewrite Hp.
    rewrite (delete_middle (preimages s) [] (mkPreimageEntry hash preimage)).
    apply app_nil_r. }
  assert (Hdrop : drop (S (length (preimages s))) (preimages t) = []).
  { apply drop_ge. rewrite Hp, length_app. simpl. lia. }
  rewrite Hdrop. simpl. rewrite Hp in Hdel |- *. rewrite Hdel.
  rewrite (delete_insert_id _ _ _ Eh).
  split; [exact Hgt |].
  eapply (view_equiv_frame_change s _ t); [| | exact (conj Ft Ot) | ..];
    try (repeat split; fail); try reflexivity.
  - apply (fe_refund _ _ Ft).
  - apply (fe_logs _ _ Ft).
  - apply (fe_accessList _ _ Ft).
Qed.

Lemma step_AddAddressToAccessList a s :
  good s → deleted_gone s → step_ok s (AddAddressToAccessList a s).
Proof.
  intros Hg Hnd. unfold AddAddressToAccessList.
  pose proof (al_AddAddress_flag a (accessList_ s)) as Hflag.
  pose proof (al_view_AddAddress a (accessList_ s)) as Hview.
  pose proof (al_wf_AddAddress a (accessList_ s) (proj2 (proj2 Hg))) as Hwf.
  destruct (al_AddAddress a (accessList_ s)) as [added al]. simpl in *.
  assert (Hg' : good (set_accessList al s))
    by (apply (same_objects_good s); [repeat split | exact Hwf | exact Hg]).
  destruct added.
  - symmetry in Hflag. apply bool_decide_eq_true in Hflag.
    split; [exact Hg' |]. split; [exact Hnd |].
    apply (reversible_entry (accessListAddAccountChange a)); try reflexivity.
    intros t Hgt [Ft Ot]. simpl.
    pose proof (al_wf_DeleteAddress a _ (proj2 (proj2 Hgt))) as Hwft.
    split; [apply (same_objects_good t); [repeat split | exact Hwft | exact Hgt] |].
    eapply (view_equiv_frame_change s _ t); [| | exact (conj Ft Ot) | ..];
      try (repeat split; fail).
    + apply (fe_refund _ _ Ft).
    + apply (fe_logs _ _ Ft).
    + apply (fe_preimages _ _ Ft).
    + apply (fe_preimageIndex _ _ Ft).
    + intros b. simpl. rewrite al_view_DeleteAddress by apply Hgt.
      rewrite <- (fe_accessList _ _ Ft b). simpl. rewrite Hview.
      destruct (decide (b = a)) as [-> | Hne]; [exact Hflag | reflexivity].
  - symmetry in Hflag. apply bool_decide_eq_false in Hflag.
    split; [exact Hg' |]. split; [exact Hnd |].
    apply reversible_silent; try reflexivity.
    eapply (view_equiv_frame_change s s s (set_accessList al s));
      [| | apply view_equiv_refl | ..]; try (repeat split; fail); try reflexivity.
    intros b. simpl. rewrite Hview.
    destruct (decide (b = a)) as [-> | Hne]; [| reflexivity].
    destruct (al_view (accessList_ s) a); [reflexivity | contradiction].
Qed.

Lemma AddAddressToAccessList_facts a s :
  let s' := AddAddressToAccessList a s in
  same_objects s s'
  ∧ refund s' = refund s ∧ logs s' = logs s ∧ preimages s' = preimages s
  ∧ hashToPreimageIndex s' = hashToPreimageIndex s
  ∧ validRevisions s' = validRevisions s ∧ nextRevisionID s' = nextRevisionID s
  ∧ journal_ s'
    = (if bool_decide (al_view (accessList_ s) a = None)
       then journal_append (accessListAddAccountChange a) (journal_ s)
       else journal_ s)
  ∧ ∀ b, al_view (accessList_ s') b
         = if decide (b = a) then Some (default ∅ (al_view (accessList_ s) a))
           else al_view (accessList_ s) b.
Proof.
  unfold AddAddressToAccessList.
  pose proof (al_AddAddress_flag a (accessList_ s)) as Hflag.
  pose proof (al_view_AddAddress a (accessList_ s)) as Hview.
  destruct (al_AddAddress a (accessList_ s)) as [added al]. simpl in *.
  rewrite <- Hflag. destruct added; simpl; repeat split; exact Hview.
Qed.

Lemma step_AddSlotToAccessList a slot s :
  good s → deleted_gone s → step_ok s (AddSlotToAccessList a slot s).
Proof.
  intros Hg Hnd.
  pose proof (step_AddAddressToAccessList a s Hg Hnd) as Hmid.
  destruct (AddAddressToAccessList_facts a s)
    as (Hso & Hr & Hl & Hp & Hh & Hv & Hn & Hj & Hal).
  set (s_mid := AddAddressToAccessList a s) in *.
  unfold AddSlotToAccessList.
  pose proof (al_AddSlot_flags a slot (accessList_ s)) as Hflags.
  pose proof (λ b, al_view_AddSlot a slot (accessList_ s) b (proj2 (proj2 Hg))) as Hview.
  pose proof (al_wf_AddSlot a slot (accessList_ s) (proj2 (proj2 Hg))) as Hwf.
  destruct (al_AddSlot a slot (accessList_ s)) as [[addrMod slotMod] al]. simpl in *.
  injection Hflags as HaddrMod HslotMod.
  set (X := default ∅ (al_view (accessList_ s) a)) in *.
  destruct slotMod.
  - symmetry in HslotMod. apply bool_decide_eq_true in HslotMod.
    eapply step_ok_trans; [exact Hmid |].
    set (s2 := if addrMod then _ else set_accessList al s).
    assert (Hs2 : same_objects s s2 ∧ accessList_ s2 = al
                  ∧ journal_ s2 = journal_ s_mid
                  ∧ refund s2 = refund s ∧ logs s2 = logs s ∧ preimages s2 = preimages s
                  ∧ hashToPreimageIndex s2 = hashToPreimageIndex s
                  ∧ validRevisions s2 = validRevisions s
                  ∧ nextRevisionID s2 = nextRevisionID s).
    { unfold s2. rewrite Hj, <- HaddrMod. destruct addrMod; repeat split. }
    destruct Hs2 as (Hso2 & Hal2 & Hj2 & Hr2 & Hl2 & Hp2 & Hh2 & Hv2 & Hn2).
    assert (Hmid_s2 : same_objects s_mid s2).
    { destruct Hso as (A1 & A2 & A3 & A4). destruct Hso2 as (B1 & B2 & B3 & B4).
      repeat split; congruence. }
    split; [| split].
    + apply (same_objects_good s); [| simpl; rewrite Hal2; exact Hwf | exact Hg].
      destruct Hso2 as (B1 & B2 & B3 & B4). repeat split; assumption.
    + apply (same_objects_deleted_gone s); [| exact Hnd].
      destruct Hso2 as (B1 & B2 & B3 & B4). repeat split; assumption.
    + apply (reversible_entry (accessListAddSlotChange a slot)).
      * simpl. rewrite Hj2. reflexivity.
      * simpl. congruence.
      * simpl. congruence.
      * intros t Hgt [Ft Ot]. simpl.
        pose proof (al_wf_DeleteSlot a slot _ (proj2 (proj2 Hgt))) as Hwft.
        split; [apply (same_objects_good t); [repeat split | exact Hwft | exact Hgt] |].
        eapply (view_equiv_frame_change s_mid _ t); [| | exact (conj Ft Ot) | ..].
        -- destruct Hmid_s2 as (B1 & B2 & B3 & B4). repeat split; assumption.
        -- repeat split.
        -- simpl. rewrite (fe_refund _ _ Ft). simpl. congruence.
        -- simpl. rewrite (fe_logs _ _ Ft). simpl. congruence.
        -- simpl. rewrite (fe_preimages _ _ Ft). simpl. congruence.
        -- simpl. rewrite (fe_preimageIndex _ _ Ft). simpl. congruence.
        -- intros b. simpl. rewrite al_view_DeleteSlot by apply Hgt.
           rewrite <- (fe_accessList _ _ Ft a), <- (fe_accessList _ _ Ft b). simpl.
           rewrite Hal2, !Hview, Hal.
           destruct (decide (b = a)) as [-> | Hne]; [| reflexivity].
           rewrite decide_True by reflexivity. simpl. f_equal. set_solver.
  - symmetry in HslotMod. apply bool_decide_eq_false in HslotMod.
    assert (Hin : slot ∈ X) by (destruct (decide (slot ∈ X)); tauto).
    assert (Hsome : al_view (accessList_ s) a = Some X).
    { unfold X in *. destruct (al_view (accessList_ s) a); [reflexivity |].
      simpl in Hin. set_solver. }
    assert (Hf : addrMod = false).
    { rewrite HaddrMod. apply bool_decide_eq_false. rewrite Hsome. discriminate. }
    rewrite Hf.
    split; [apply (same_objects_good s); [repeat split | exact Hwf | exact Hg] |].
    split; [exact Hnd |].
    apply reversible_silent; try reflexivity.
    eapply (view_equiv_frame_change s s s (set_accessList al s));
      [| | apply view_equiv_refl | ..]; try (repeat split; fail); try reflexivity.
    intros b. simpl. rewrite Hview.
    destruct (decide (b = a)) as [-> | Hne]; [| reflexivity].
    rewrite Hsome. f_equal. set_solver.
Qed.

Lemma resolve_modify_object_ne a f s b :
  wf_index s → b ≠ a → resolve (modify_object a f s) b = resolve s b.
Proof.
  intros Hwf Hne. unfold resolve. rewrite slot_of_modify_object by exact Hwf.
  rewrite decide_False by exact Hne.
  destruct (live_only_modify_object a f s) as (-> & _). reflexivity.
Qed.

Lemma step_CreateAccount a s : good s → deleted_gone s → step_ok s (CreateAccount a s).
Proof.
  intros Hg Hnd. unfold CreateAccount.
  destruct (createObject_journal a s) as [Hs' Hprev].
  destruct (step_createObject a s Hg Hnd) as [Hstep _].
  destruct (createObject a s) as [[newobj prevobj] s']. simpl in *.
  subst prevobj. destruct (resolve s a) as [prev |] eqn:Er; [| exact Hstep].
  pose proof (step_getStateObject a s Hg Hnd) as Hstep1.
  set (s1 := snd (getStateObject a s)) in *.
  eapply step_ok_trans; [exact Hstep1 |].
  destruct Hstep1 as (Hg1 & Hnd1 & _).
  destruct Hstep as (Hg' & Hnd' & _).
  assert (Hres1 : resolve s1 a = Some prev).
  { unfold s1. rewrite resolve_getStateObject by apply Hg. exact Er. }
  destruct (same_overlay_GetParams_but s')
    as (Hc & Hd & Hr & Hl & Hp & Hh & Ha & Hso & Hi & Hj & Hv & Hn).
  destruct (GetParams s') as [p s2]. simpl in *.
  set (f := setBalance (EvmDenom p) (Balance (EvmDenom p) prev)).
  pose proof (live_only_modify_object a f s2) as Hlive.
  destruct (journal_live_only _ _ Hlive) as (He3 & Hv3 & Hn3).
  assert (Hwf2 : wf_index s2) by (eapply wf_index_ext; [| | apply Hg']; assumption).
  assert (Hframe' : frame_equiv s1 s').
  { rewrite Hs'. eapply frame_equiv_trans; [| apply frame_equiv_live_only,
                                               live_only_setStateObject].
    apply frame_equiv_same_overlay. repeat split. }
  apply (step_replace a s1); try assumption.
  - split; [| split].
    + apply wf_index_modify_object, Hwf2.
    + apply all_objects_modify_object; [intros b x Hb; exact Hb |].
      eapply all_objects_ext; [exact Hso | apply Hg'].
    + apply (good_live_only_al _ _ Hlive). rewrite Ha. apply Hg'.
  - apply (deleted_gone_ext s');
      [transitivity (ctx s2); [apply Hlive | exact Hc] |].
    apply all_objects_modify_object; [intros b x Hb; exact Hb |].
    eapply all_objects_ext; [exact Hso | exact Hnd'].
  - rewrite Hres1, He3, Hj, Hs'.
    destruct (journal_live_only _ _ (live_only_setStateObject
              (setNonce 0 (newStateObject (NewAccountWithAddress a)))
              (append_journal (resetObjectChange prev) s1))) as (-> & _).
    reflexivity.
  - rewrite Hv3, Hv, Hs'.
    destruct (journal_live_only _ _ (live_only_setStateObject
              (setNonce 0 (newStateObject (NewAccountWithAddress a)))
              (append_journal (resetObjectChange prev) s1))) as (_ & -> & _).
    reflexivity.
  - rewrite Hn3, Hn, Hs'.
    destruct (journal_live_only _ _ (live_only_setStateObject
              (setNonce 0 (newStateObject (NewAccountWithAddress a)))
              (append_journal (resetObjectChange prev) s1))) as (_ & _ & ->).
    reflexivity.
  - eapply frame_equiv_trans; [exact Hframe' |].
    eapply frame_equiv_trans; [| apply frame_equiv_live_only, Hlive].
    split; try assumption. intros b. rewrite Ha. reflexivity.
  - apply objects_equiv_eq. intros b Hb.
    rewrite (resolve_modify_object_ne a f s2 b Hwf2 Hb).
    rewrite (resolve_ext s' s2 b Hso Hi Hc).
    rewrite Hs'. rewrite resolve_setStateObject by apply Hg1. simpl.
    rewrite decide_False by exact Hb. reflexivity.
Qed.

(** *** Every mutating operation is a reversible step *)

Lemma step_exec o s :
  mutating o = true → good s → deleted_gone s → step_ok s (exec o s).
Proof.
  intros Hm Hg Hnd. destruct o; simpl in Hm; try discriminate; simpl.
  - unfold SetBalance.
    destruct (step_GetOrNewStateObject addr s Hg Hnd) as [H1 (so & Hslot & Hdel)].
    destruct (GetOrNewStateObject addr s) as [x s1]. simpl in *.
    eapply step_ok_trans; [exact H1 |].
    eapply step_so_SetBalance; [apply H1 | apply H1 | exact Hslot | exact Hdel].
  - unfold AddBalance.
    destruct (step_GetOrNewStateObject addr s Hg Hnd) as [H1 (so & Hslot & Hdel)].
    destruct (GetOrNewStateObject addr s) as [x s1]. simpl in *.
    eapply step_ok_trans; [exact H1 |].
    eapply step_so_AddBalance; [apply H1 | apply H1 | exact Hslot | exact Hdel].
  - unfold SubBalance.
    destruct (step_GetOrNewStateObject addr s Hg Hnd) as [H1 (so & Hslot & Hdel)].
    destruct (GetOrNewStateObject addr s) as [x s1]. simpl in *.
    eapply step_ok_trans; [exact H1 |].
    eapply step_so_SubBalance; [apply H1 | apply H1 | exact Hslot | exact Hdel].
  - unfold SetNonce.
    destruct (step_GetOrNewStateObject addr s Hg Hnd) as [H1 (so & Hslot & Hdel)].
    destruct (GetOrNewStateObject addr s) as [x s1]. simpl in *.
    eapply step_ok_trans; [exact H1 |].
    eapply step_so_SetNonce; [apply H1 | apply H1 | exact Hslot | exact Hdel].
  - unfold SetState.
    destruct (step_GetOrNewStateObject addr s Hg Hnd) as [H1 (so & Hslot & Hdel)].
    destruct (GetOrNewStateObject addr s) as [x s1]. simpl in *.
    eapply step_ok_trans; [exact H1 |].
    eapply step_so_SetState; [apply H1 | apply H1 | exact Hslot | exact Hdel].
  - unfold SetCode.
    destruct (step_GetOrNewStateObject addr s Hg Hnd) as [H1 (so & Hslot & Hdel)].
    destruct (GetOrNewStateObject addr s) as [x s1]. simpl in *.
    eapply step_ok_trans; [exact H1 |].
    eapply step_so_SetCode; [apply H1 | apply H1 | exact Hslot | exact Hdel].
  - apply step_AddLog; assumption.
  - apply step_AddPreimage; assumption.
  - apply step_AddRefund; assumption.
  - apply step_AddAddressToAccessList; assumption.
  - apply step_AddSlotToAccessList; assumption.
  - apply step_CreateAccount; assumption.
Qed.

Lemma step_run ops s :
  Forall (λ o, mutating o = true) ops → good s → deleted_gone s → step_ok s (run ops s).
Proof.
  intros Hops. revert s. induction Hops as [| o ops Ho Hops IH]; intros s Hg Hnd; simpl.
  - apply step_ok_refl; assumption.
  - pose proof (step_exec o s Ho Hg Hnd) as H1.
    eapply step_ok_trans; [exact H1 |]. apply IH; apply H1.
Qed.

(** ** Binary search over the revisions *)

(** On a predicate that is false below a threshold [t] and true from it
    on, the loop of [sort.Search] ends, within [j - i] turns, on [t]. *)
Lemma search_loop_threshold (f : nat → bool) (t : nat) :
  ∀ fuel i j,
    (i ≤ t ≤ j)%nat → (j - i ≤ fuel)%nat →
    (∀ x, (i ≤ x < t)%nat → f x = false) →
    (∀ x, (t ≤ x < j)%nat → f x = true) →
    search_loop fuel i j f = t.
Proof.
  induction fuel as [| fuel IH]; intros i j Ht Hfuel Hlo Hhi; cbn [search_loop].
  - lia.
  - destruct (Nat.ltb_spec i j) as [Hlt | Hge]; [| lia].
    assert (Hh : (i ≤ (i + j) / 2 < j)%nat).
    { pose proof (Nat.div_mod_eq (i + j) 2).
      pose proof (Nat.mod_upper_bound (i + j) 2). lia. }
    set (h := ((i + j) / 2)%nat) in *.
    destruct (f h) eqn:Hf.
    + assert (t ≤ h)%nat.
      { destruct (decide (t ≤ h)%nat); [assumption |].
        rewrite Hlo in Hf by lia. discriminate. }
      apply IH; try lia.
      * intros x Hx. apply Hlo. lia.
      * intros x Hx. apply Hhi. lia.
    + assert (h < t)%nat.
      { destruct (decide (h < t)%nat); [assumption |].
        rewrite Hhi in Hf by lia. discriminate. }
      apply IH; try lia.
      * intros x Hx. apply Hlo. lia.
      * intros x Hx. apply Hhi. lia.
Qed.

Definition rev_ge (l : list revision) (revID : Z) (i : nat) : bool :=
  match l !! i with
  | Some r => bool_decide (revID ≤ rev_id r)
  | None => false
  end.

(** A sorted stack has a threshold for every identifier. *)
Lemma revisions_threshold (l : list revision) (revID : Z) :
  revisions_sorted l →
  ∃ t, (t ≤ length l)%nat
       ∧ (∀ x, (x < t)%nat → rev_ge l revID x = false)
       ∧ (∀ x, (t ≤ x < length l)%nat → rev_ge l revID x = true).
Proof.
  induction l as [| r l IH] using rev_ind; intros Hs.
  - exists 0%nat. simpl. split; [lia |]. split; intros; lia.
  - destruct IH as (t & Ht & Hlo & Hhi).
    { intros i j ri rj Hi Hj Hij. apply (Hs i j); try assumption.
      - apply lookup_app_l_Some, Hi.
      - apply lookup_app_l_Some, Hj. }
    assert (Hpre : ∀ x, (x < length l)%nat → rev_ge (l ++ [r]) revID x = rev_ge l revID x).
    { intros x Hx. unfold rev_ge. rewrite lookup_app_l by exact Hx. reflexivity. }
    assert (Hlast : rev_ge (l ++ [r]) revID (length l) = bool_decide (revID ≤ rev_id r)).
    { unfold rev_ge. rewrite lookup_app_r by lia. rewrite Nat.sub_diag. reflexivity. }
    rewrite length_app. simpl.
    destruct (decide (t < length l)%nat) as [Hin | Hout].
    + exists t. split; [lia |]. split.
      * intros x Hx. rewrite Hpre by lia. apply Hlo, Hx.
      * intros x Hx. destruct (decide (x < length l)%nat).
        -- rewrite Hpre by lia. apply Hhi. lia.
        -- assert (x = length l) by lia. subst x. rewrite Hlast.
           pose proof (Hhi t ltac:(lia)) as Htt. unfold rev_ge in Htt.
           destruct (l !! t) as [rt |] eqn:Hrt; [| discriminate].
           apply bool_decide_eq_true in Htt. apply bool_decide_eq_true.
           assert (rev_id rt < rev_id r).
           { apply (Hs t (length l)); [| | lia].
             - apply lookup_app_l_Some, Hrt.
             - rewrite lookup_app_r by lia. rewrite Nat.sub_diag. reflexivity. }
           lia.
    + assert (t = length l) by lia. subst t.
      destruct (decide (revID ≤ rev_id r)) as [Hle | Hnle].
      * exists (length l). split; [lia |]. split.
        -- intros x Hx. rewrite Hpre by lia. apply Hlo, Hx.
        -- intros x Hx. assert (x = length l) by lia. subst x. rewrite Hlast.
           apply bool_decide_eq_true, Hle.
      * exists (S (length l)). split; [lia |]. split.
        -- intros x Hx. destruct (decide (x < length l)%nat).
           ++ rewrite Hpre by lia. apply Hlo. lia.
           ++ assert (x = length l) by lia. subst x. rewrite Hlast.
              apply bool_decide_eq_false, Hnle.
        -- intros x Hx. lia.
Qed.

(** [sort.Search] over a sorted stack: the position of the identifier if
    it is there, a position that does not hold it otherwise. *)
Lemma search_revisions (l : list revision) (revID : Z) :
  revisions_sorted l →
  let idx := sort_Search (length l) (rev_ge l revID) in
  (∀ i r, l !! i = Some r → rev_id r = revID → idx = i)
  ∧ ((∀ r, r ∈ l → rev_id r ≠ revID) →
     ∀ r, l !! idx = Some r → rev_id r ≠ revID).
Proof.
  intros Hs idx.
  destruct (revisions_threshold l revID Hs) as (t & Ht & Hlo & Hhi).
  assert (Hidx : idx = t).
  { unfold idx, sort_Search. apply search_loop_threshold; try lia.
    - intros x Hx. apply Hlo. lia.
    - intros x Hx. apply Hhi. lia. }
  split.
  - intros i r Hi Hr. rewrite Hidx.
    assert (Hil : (i < length l)%nat) by (eapply lookup_lt_Some; exact Hi).
    assert (Hfi : rev_ge l revID i = true).
    { unfold rev_ge. rewrite Hi. apply bool_decide_eq_true. lia. }
    destruct (decide (i < t)%nat) as [Hlt | Hge].
    { rewrite Hlo in Hfi by exact Hlt. discriminate. }
    destruct (decide (t < i)%nat) as [Hlt | Hge']; [| lia].
    pose proof (Hhi t ltac:(lia)) as Hft. unfold rev_ge in Hft.
    destruct (l !! t) as [rt |] eqn:Hrt; [| discriminate].
    apply bool_decide_eq_true in Hft.
    pose proof (Hs t i rt r Hrt Hi Hlt). lia.
  - intros Hnone r Hr. apply Hnone. eapply list_elem_of_lookup_2. exact Hr.
Qed.

(** ** Snapshot and revert *)

(** What the public reads return on two overlays, compared. *)
Definition reads_alike (s t : CommitStateDB) : Prop :=
  GetRefund t = GetRefund s
  ∧ (∀ h, GetLogs h t = GetLogs h s)
  ∧ preimages t = preimages s
  ∧ Preimages t = Preimages s
  ∧ (∀ a, AddressInAccessList a t = AddressInAccessList a s)
  ∧ (∀ a slot, SlotInAccessList a slot t = SlotInAccessList a slot s)
  ∧ (∀ a, fst (GetBalance a t) = fst (GetBalance a s))
  ∧ (∀ a, fst (GetNonce a t) = fst (GetNonce a s))
  ∧ (∀ a, fst (GetCode a t) = fst (GetCode a s))
  ∧ (∀ a, fst (GetCodeSize a t) = fst (GetCodeSize a s))
  ∧ (∀ a, fst (GetCodeHash a t) = fst (GetCodeHash a s))
  ∧ (∀ a k, fst (GetState a k t) = fst (GetState a k s))
  ∧ (∀ a k, fst (GetCommittedState a k t) = fst (GetCommittedState a k s))
  ∧ (∀ a, fst (HasSuicided a t) = fst (HasSuicided a s))
  ∧ (∀ a, fst (Exist a t) = fst (Exist a s))
  ∧ (∀ a, fst (Empty a t) = fst (Empty a s)).

Lemma getStateObject_view s t a :
  view_equiv s t →
  opt_equiv (ctx s) (fst (getStateObject a s)) (fst (getStateObject a t))
  ∧ ctx (snd (getStateObject a s)) = ctx s
  ∧ ctx (snd (getStateObject a t)) = ctx s
  ∧ evmDenom (snd (getStateObject a s)) = evmDenom s
  ∧ evmDenom (snd (getStateObject a t)) = evmDenom s.
Proof.
  intros [F O]. rewrite !getStateObject_fst.
  pose proof (live_only_getStateObject a s) as Ls.
  pose proof (live_only_getStateObject a t) as Lt.
  rewrite (evmDenom_live_only _ _ Ls), (evmDenom_live_only _ _ Lt).
  destruct Ls as (-> & _). destruct Lt as (-> & _).
  split; [apply O; exact I |].
  split; [reflexivity |]. split; [apply (fe_ctx _ _ F) |].
  split; [reflexivity | apply (fe_denom _ _ F)].
Qed.

Ltac read_objects a s t H :=
  let E := fresh "E" in
  let Cs := fresh "Cs" in
  let Ct := fresh "Ct" in
  let Ds := fresh "Ds" in
  let Dt := fresh "Dt" in
  destruct (getStateObject_view s t a H) as (E & Cs & Ct & Ds & Dt);
  destruct (getStateObject a s) as [[so |] s1];
  destruct (getStateObject a t) as [[so' |] t1];
  simpl in *; try contradiction; try reflexivity.

Lemma view_equiv_reads s t : view_equiv s t → reads_alike s t.
Proof.
  intros H. pose proof H as [F O].
  split; [apply (fe_refund _ _ F) |].
  split; [intros h; unfold GetLogs; rewrite (fe_logs _ _ F); reflexivity |].
  split; [apply (fe_preimages _ _ F) |].
  split; [unfold Preimages; rewrite (fe_preimages _ _ F); reflexivity |].
  split.
  { intros a. unfold AddressInAccessList. rewrite !al_ContainsAddress_view.
    rewrite (fe_accessList _ _ F a). reflexivity. }
  split.
  { intros a slot. unfold SlotInAccessList. rewrite !al_Contains_view.
    rewrite (fe_accessList _ _ F a). reflexivity. }
  split.
  { intros a. unfold GetBalance. read_objects a s t H.
    rewrite Ds, Dt. unfold Balance. symmetry. apply (oe_coins _ _ _ E). }
  split.
  { intros a. unfold GetNonce. read_objects a s t H.
    unfold Nonce. symmetry. apply (oe_sequence _ _ _ E). }
  split.
  { intros a. unfold GetCode. read_objects a s t H.
    rewrite Cs, Ct. symmetry. apply Code_equiv, E. }
  split.
  { intros a. unfold GetCodeSize. read_objects a s t H.
    rewrite Cs, Ct, (Code_equiv _ _ _ E), (oe_code _ _ _ E).
    destruct (so_code so'); reflexivity. }
  split.
  { intros a. unfold GetCodeHash. read_objects a s t H.
    unfold CodeHash. symmetry. apply (oe_codeHash _ _ _ E). }
  split.
  { intros a k. unfold GetState. read_objects a s t H.
    rewrite Cs, Ct. pose proof (GetState_so_value (ctx s) k so so' E) as Hv.
    destruct (GetState_so (ctx s) k so), (GetState_so (ctx s) k so').
    simpl in *. congruence. }
  split.
  { intros a k. unfold GetCommittedState. read_objects a s t H.
    rewrite Cs, Ct.
    pose proof (GetCommittedState_so_value (ctx s) k so) as Hv.
    pose proof (GetCommittedState_so_value (ctx s) k so') as Hv'.
    pose proof (oe_committed _ _ _ E k) as Hc.
    destruct (GetCommittedState_so (ctx s) k so), (GetCommittedState_so (ctx s) k so').
    simpl in *. congruence. }
  split.
  { intros a. unfold HasSuicided. read_objects a s t H.
    symmetry. apply (oe_suicided _ _ _ E). }
  split.
  { intros a. unfold Exist. read_objects a s t H. }
  intros a. unfold Empty. read_objects a s t H.
  rewrite Ds, Dt. unfold empty, Nonce, Balance, CodeHash.
  rewrite (oe_sequence _ _ _ E), (oe_coins _ _ _ E), (oe_codeHash _ _ _ E). reflexivity.
Qed.

Lemma same_overlay_Snapshot s : same_overlay s (snd (Snapshot s)).
Proof. repeat split. Qed.

(** The stack of revisions after [Snapshot] is in order when the counter
    is above every identifier of the stack. *)
Lemma revisions_sorted_snoc (l : list revision) (r : revision) :
  revisions_sorted l → (∀ x, x ∈ l → rev_id x < rev_id r) → revisions_sorted (l ++ [r]).
Proof.
  intros Hs Hlt i j ri rj Hi Hj Hij.
  assert (Hjl : (j < length (l ++ [r]))%nat) by (eapply lookup_lt_Some; exact Hj).
  rewrite length_app in Hjl. simpl in Hjl.
  rewrite lookup_app_l in Hi by lia.
  destruct (decide (j < length l)%nat) as [Hj' | Hj'].
  - rewrite lookup_app_l in Hj by exact Hj'. eapply Hs; eassumption.
  - rewrite lookup_app_r in Hj by lia.
    replace (j - length l)%nat with 0%nat in Hj by lia. injection Hj as <-.
    apply Hlt. eapply list_elem_of_lookup_2. exact Hi.
Qed.

(** The revert to the last snapshot of an overlay whose journal has grown
    by [es] since. *)
Lemma RevertToSnapshot_last (s1 : CommitStateDB) (l : list revision) (id : Z)
    (j0 : journal) (es : list journalEntry) :
  validRevisions s1 = l ++ [mkRevision id (journal_length j0)] →
  (∀ x, x ∈ l → rev_id x < id) →
  journal_ s1 = journal_extend j0 es →
  ∃ s', RevertToSnapshot id s1 = Done tt s'
        ∧ same_overlay (revert_entries (rev es) s1) s'
        ∧ entries (journal_ s') = entries j0
        ∧ (marks_counted j0 → journal_ s' = j0)
        ∧ validRevisions s' = l
        ∧ nextRevisionID s' = nextRevisionID s1.
Proof.
  intros Hv Hbelow Hj.
  assert (He : entries (journal_ s1) = entries j0 ++ es)
    by (rewrite Hj; apply entries_journal_extend).
  assert (Hl : validRevisions s1 !! length l = Some (mkRevision id (journal_length j0))).
  { rewrite Hv, lookup_app_r by lia. rewrite Nat.sub_diag. reflexivity. }
  assert (Hidx : sort_Search (length (validRevisions s1)) (rev_ge (validRevisions s1) id)
                 = length l).
  { rewrite Hv. unfold sort_Search. rewrite length_app. simpl.
    apply search_loop_threshold; try lia.
    - intros x Hx. unfold rev_ge. rewrite lookup_app_l by lia.
      destruct (l !! x) as [rx |] eqn:Hrx; [| reflexivity].
      apply bool_decide_eq_false.
      pose proof (Hbelow rx (list_elem_of_lookup_2 _ _ _ Hrx)). lia.
    - intros x Hx. assert (x = length l) by lia. subst x.
      unfold rev_ge. rewrite lookup_app_r by lia. rewrite Nat.sub_diag. simpl.
      apply bool_decide_eq_true. lia. }
  unfold RevertToSnapshot. fold (rev_ge (validRevisions s1) id).
  rewrite Hidx, Hl. simpl.
  rewrite decide_True by reflexivity.
  eexists. split; [reflexivity |].
  unfold journal_revert, journal_length. rewrite He, drop_app_length.
  destruct (same_control_revert_entries (rev es) s1) as (H1 & H2 & H3).
  pose proof (revert_entries_dirties (rev es) s1) as Hd.
  simpl. rewrite H1, H2, H3, He, Hv, take_app_length, take_app_length.
  split; [repeat split |]. split; [reflexivity |].
  split; [| auto].
  intros Hc. rewrite Hd, Hj, (unmark_journal_extend j0 es Hc).
  destruct j0; reflexivity.
Qed.

(** C1: on an overlay that satisfies its invariants (the index map agrees
    with the slice of live objects, every live object carries the address
    of its slot, every address of the access list that has slots has its
    slot set), in which the keeper holds no account for a cached object
    marked deleted, and whose stack of revisions holds only identifiers
    below the revision counter: after [Snapshot] and any sequence of
    mutating operations, the revert to the identifier [Snapshot] returned
    succeeds, and the overlay it leaves reads as the overlay did when
    [Snapshot] was called: the same context, refund counter, logs,
    preimages and access list, every address resolves to an object with the
    same balance, nonce, code, storage and flags or to none on both; the
    entries of the journal and the stack of revisions are those of that
    moment, and so are the dirty marks of the journal, hence the whole
    journal, when each of them counted at least one entry.  The set of
    cached live objects is not restored: it may have grown by objects
    loaded from the account keeper, and lost objects marked deleted. *)
Theorem Snapshot_revert_restores (s : CommitStateDB) (ops : list op) :
  good s → deleted_gone s →
  (∀ r, r ∈ validRevisions s → rev_id r < nextRevisionID s) →
  Forall (λ o, mutating o = true) ops →
  ∃ s', RevertToSnapshot (fst (Snapshot s)) (run ops (snd (Snapshot s))) = Done tt s'
        ∧ view_equiv s s'
        ∧ reads_alike s s'
        ∧ entries (journal_ s') = entries (journal_ s)
        ∧ (marks_counted (journal_ s) → journal_ s' = journal_ s)
        ∧ validRevisions s' = validRevisions s.
Proof.
  intros Hg Hnd Hlt Hops.
  set (s0 := snd (Snapshot s)).
  assert (Hov : same_overlay s s0) by (repeat split).
  destruct (step_run ops s0 Hops (good_same_overlay _ _ Hov Hg)
              (deleted_gone_same_overlay _ _ Hov Hnd))
    as (Hg1 & _ & es & He & Hv & _ & Hrev).
  destruct (RevertToSnapshot_last (run ops s0) (validRevisions s) (nextRevisionID s)
              (journal_ s) es) as (s' & Hrun & Hov' & He' & Hj' & Hv' & _).
  - rewrite Hv. reflexivity.
  - exact Hlt.
  - rewrite He. reflexivity.
  - exists s'. split; [exact Hrun |].
    destruct (Hrev (run ops s0) Hg1 (view_equiv_refl _)) as [_ Hview].
    assert (Hfinal : view_equiv s s').
    { eapply view_equiv_trans; [apply (view_equiv_same_overlay _ _ Hov) |].
      eapply view_equiv_trans; [exact Hview |].
      apply (view_equiv_same_overlay _ _ Hov'). }
    split; [exact Hfinal |]. split; [apply view_equiv_reads, Hfinal |].
    split; [exact He' |]. split; [exact Hj' | exact Hv'].
Qed.

(** * Further properties of the overlay *)

(** ** Height hashes and parameters *)

(** X1: [GetHeightHash] after [SetHeightHash h x] returns [x] at [h] and
    what it returned before at every other height; a second write at [h]
    replaces the first; the account keeper is not touched. *)
Theorem HeightHash_round_trip (s : CommitStateDB) (h h' : Z) (x y : Hash) (a : Address) :
  GetHeightHash h' (SetHeightHash h x s)
  = (if decide (h' = h) then x else GetHeightHash h' s)
  ∧ GetHeightHash h (SetHeightHash h y (SetHeightHash h x s)) = y
  ∧ GetAccount (ctx (SetHeightHash h x s)) a = GetAccount (ctx s) a.
Proof.
  unfold GetHeightHash, SetHeightHash. simpl. split; [| split; [| reflexivity]].
  - destruct (decide (h' = h)) as [-> | Hne].
    + rewrite lookup_insert_eq. reflexivity.
    + rewrite lookup_insert_ne by congruence. reflexivity.
  - rewrite lookup_insert_eq. reflexivity.
Qed.

(** X2: [GetParams] after [SetParams p] returns [p], which is also what the
    parameter store then holds.  The parameters are cached by the first
    [GetParams]: a later switch of context does not change what
    [GetParams] returns, until [Reset] drops the cache, after which the
    parameters are read from the store of the current context. *)
Theorem GetParams_cached (s : CommitStateDB) (p : Params) (w : World) (h : Hash) :
  fst (GetParams (SetParams p s)) = p
  ∧ paramStore (ctx (SetParams p s)) = p
  ∧ fst (GetParams (WithContext w (snd (GetParams s)))) = fst (GetParams s)
  ∧ fst (GetParams (WithContext w (snd (Reset h s)))) = paramStore w.
Proof.
  split; [reflexivity |]. split; [reflexivity |]. split; [| reflexivity].
  unfold GetParams, WithContext. destruct (params s) eqn:E; simpl; rewrite ?E; reflexivity.
Qed.

(** ** Logs *)

(** The log [AddLog] stores for [log] when the overlay is [s] and the log
    counter is [index]. *)
Definition stamp_log (s : CommitStateDB) (index : Z) (log : Log) : Log :=
  mkLog (log_Address log) (Topics log) (Data log) (BlockNumber log)
        (thash s) (wrap64 (txIndex s)) (bhash s) index (Removed log).

Definition AddLogs (ls : list Log) (s : CommitStateDB) : CommitStateDB :=
  foldl (λ s' log, AddLog log s') s ls.

(** X3: a run of [AddLog] appends the logs in order, each stamped with the
    transaction hash, block hash and transaction index that [Prepare] set,
    and numbered consecutively from the log counter, which advances by the
    number of logs (as long as it stays below [2^64]). *)
Theorem AddLog_consecutive_indices (ls : list Log) (s : CommitStateDB) :
  0 ≤ logSize s → logSize s + Z.of_nat (length ls) < 2 ^ 64 →
  logs (AddLogs ls s)
  = logs s ++ imap (λ i log, stamp_log s (logSize s + Z.of_nat i) log) ls
  ∧ logSize (AddLogs ls s) = logSize s + Z.of_nat (length ls)
  ∧ thash (AddLogs ls s) = thash s ∧ bhash (AddLogs ls s) = bhash s
  ∧ txIndex (AddLogs ls s) = txIndex s.
Proof.
  revert s. induction ls as [| log ls IH]; intros s H0 Hfit.
  - simpl. rewrite app_nil_r, Z.add_0_r. auto.
  - simpl length in Hfit. rewrite Nat2Z.inj_succ in Hfit.
    assert (Hsz : logSize (AddLog log s) = logSize s + 1).
    { unfold AddLog. simpl. apply wrap64_small. lia. }
    destruct (IH (AddLog log s)) as (Hl & Hn & Ht & Hb & Hi);
      [rewrite Hsz; lia | rewrite Hsz; lia |].
    unfold AddLogs in *. simpl foldl. rewrite Hl, Hn, Ht, Hb, Hi, Hsz.
    split; [| split; [simpl length; lia | auto]].
    unfold AddLog at 1. simpl. rewrite <- app_assoc. simpl. f_equal. f_equal.
    + unfold stamp_log. f_equal. simpl. lia.
    + apply imap_ext. intros i x _. unfold stamp_log. simpl.
      f_equal. lia.
Qed.

(** ** What [Commit] and [Finalise] leave behind *)

(** The fields of the transaction in progress, which the writes to the
    stores do not touch. *)
Definition tx_frame (s s' : CommitStateDB) : Prop :=
  refund s' = refund s ∧ thash s' = thash s ∧ bhash s' = bhash s
  ∧ txIndex s' = txIndex s ∧ logSize s' = logSize s ∧ logs s' = logs s
  ∧ preimages s' = preimages s ∧ hashToPreimageIndex s' = hashToPreimageIndex s
  ∧ journal_ s' = journal_ s ∧ validRevisions s' = validRevisions s
  ∧ nextRevisionID s' = nextRevisionID s ∧ accessList_ s' = accessList_ s
  ∧ dbErr s' = dbErr s.

Lemma tx_frame_refl s : tx_frame s s.
Proof. repeat split. Qed.

Lemma tx_frame_trans s1 s2 s3 : tx_frame s1 s2 → tx_frame s2 s3 → tx_frame s1 s3.
Proof.
  unfold tx_frame. intros H1 H2.
  destruct H1 as (?&?&?&?&?&?&?&?&?&?&?&?&?).
  destruct H2 as (?&?&?&?&?&?&?&?&?&?&?&?&?).
  repeat split; congruence.
Qed.

Lemma tx_frame_GetParams s : tx_frame s (snd (GetParams s)).
Proof. unfold GetParams. destruct (params s); repeat split. Qed.

Lemma tx_frame_updateStateObject idx s : tx_frame s (snd (updateStateObject idx s)).
Proof.
  unfold updateStateObject. destruct (stateObjects s !! idx); [| apply tx_frame_refl].
  pose proof (tx_frame_GetParams s) as H.
  destruct (GetParams s) as [p s1]. simpl in H.
  destruct (negb _); [exact H |]. destruct (BlacklistedAddr _ _); [exact H |].
  eapply tx_frame_trans; [exact H |]. repeat split.
Qed.

Lemma tx_frame_deleteStateObject idx s : tx_frame s (deleteStateObject idx s).
Proof. unfold deleteStateObject. destruct (stateObjects s !! idx); repeat split. Qed.

Lemma tx_frame_commit_step b idx s : tx_frame s (snd (commit_step b idx s)).
Proof.
  unfold commit_step. destruct (stateObjects s !! idx) as [e |]; [| apply tx_frame_refl].
  match goal with |- context [let '(err, s1) := ?X in _] =>
    assert (H : tx_frame s (snd X)); [| destruct X as [[err |] s1]; simpl in *] end.
  - destruct (_ || _); [apply tx_frame_deleteStateObject |].
    destruct (bool_decide _); [| apply tx_frame_refl].
    match goal with |- tx_frame _ (snd (updateStateObject _ ?t)) =>
      apply (tx_frame_trans s t); [| apply tx_frame_updateStateObject] end.
    destruct (_ && _); repeat split.
  - exact H.
  - eapply tx_frame_trans; [exact H |]. repeat split.
Qed.

Lemma tx_frame_commit_loop b idxs s : tx_frame s (snd (commit_loop b idxs s)).
Proof.
  revert s. induction idxs as [| idx rest IH]; intros s; simpl; [apply tx_frame_refl |].
  pose proof (tx_frame_commit_step b idx s) as H.
  destruct (commit_step b idx s) as [[err |] s1]; simpl in *; [exact H |].
  eapply tx_frame_trans; [exact H | apply IH].
Qed.

Lemma tx_frame_finalise_step b d s : tx_frame s (snd (finalise_step b d s)).
Proof.
  unfold finalise_step.
  destruct (addressToObjectIndex s !! dirty_address d) as [idx |]; [| apply tx_frame_refl].
  destruct (stateObjects s !! idx) as [e |]; [| apply tx_frame_refl].
  match goal with |- context [let '(err, s1) := ?X in _] =>
    assert (H : tx_frame s (snd X)); [| destruct X as [[err |] s1]; simpl in *] end.
  - destruct (_ || _); [apply tx_frame_deleteStateObject |].
    destruct (commitState (ctx s) (se_stateObject e)) as [w so'].
    match goal with |- tx_frame _ (snd (updateStateObject _ ?t)) =>
      apply (tx_frame_trans s t); [| apply tx_frame_updateStateObject] end.
    repeat split.
  - exact H.
  - eapply tx_frame_trans; [exact H |]. repeat split.
Qed.

Lemma tx_frame_finalise_loop b ds s : tx_frame s (snd (finalise_loop b ds s)).
Proof.
  revert s. induction ds as [| d rest IH]; intros s; simpl; [apply tx_frame_refl |].
  pose proof (tx_frame_finalise_step b d s) as H.
  destruct (finalise_step b d s) as [[err |] s1]; simpl in *; [exact H |].
  eapply tx_frame_trans; [exact H | apply IH].
Qed.

(** X4: whatever [Commit] returns, error or not, it leaves an empty
    journal, an empty stack of revisions and a refund counter of zero (the
    clearing is deferred), and it leaves the logs, the log counter, the
    preimages, the access list, the metadata of the transaction and the
    revision counter as they were. *)
Theorem Commit_clears_journal (b : bool) (s : CommitStateDB) :
  let s' := snd (Commit b s) in
  journal_ s' = newJournal ∧ validRevisions s' = [] ∧ refund s' = 0
  ∧ logs s' = logs s ∧ logSize s' = logSize s
  ∧ preimages s' = preimages s ∧ accessList_ s' = accessList_ s
  ∧ thash s' = thash s ∧ bhash s' = bhash s ∧ txIndex s' = txIndex s
  ∧ nextRevisionID s' = nextRevisionID s.
Proof.
  unfold Commit.
  match goal with |- context [commit_loop b ?l ?t] =>
    pose proof (tx_frame_commit_loop b l t) as H;
    destruct (commit_loop b l t) as [err s2] end.
  destruct H as (?&?&?&?&?&?&?&?&?&?&?&?&?). simpl in *.
  repeat split; assumption.
Qed.

(** X5: a [Finalise] that returns no error leaves an empty journal, an
    empty stack of revisions, a refund counter of zero and no logs, and
    keeps the log counter; a [Finalise] that returns an error has stopped
    before the clearing: journal, revisions, refund counter and logs are as
    they were. *)
Theorem Finalise_clears_or_stops (b : bool) (s : CommitStateDB) :
  let s' := snd (Finalise b s) in
  logSize s' = logSize s ∧ nextRevisionID s' = nextRevisionID s
  ∧ preimages s' = preimages s ∧ accessList_ s' = accessList_ s
  ∧ match fst (Finalise b s) with
    | None =>
        journal_ s' = newJournal ∧ validRevisions s' = [] ∧ refund s' = 0 ∧ logs s' = []
    | Some _ =>
        journal_ s' = journal_ s ∧ validRevisions s' = validRevisions s
        ∧ refund s' = refund s ∧ logs s' = logs s
    end.
Proof.
  unfold Finalise.
  pose proof (tx_frame_finalise_loop b (dirties (journal_ s)) s) as H.
  destruct (finalise_loop b (dirties (journal_ s)) s) as [[err |] s1];
    destruct H as (?&?&?&?&?&?&?&?&?&?&?&?&?); simpl in *; repeat split; assumption.
Qed.

(** No revision, no revert. *)
Lemma RevertToSnapshot_empty (id : Z) (s : CommitStateDB) :
  validRevisions s = [] → panicked (RevertToSnapshot id s) = true.
Proof. intros H. unfold RevertToSnapshot. rewrite H. reflexivity. Qed.

(** X6: no snapshot survives the end of a transaction: after [Commit],
    after [Reset], and after a [Finalise] that returns no error,
    [RevertToSnapshot] panics for every identifier. *)
Theorem no_revert_across_transactions (b : bool) (h : Hash) (id : Z) (s : CommitStateDB) :
  panicked (RevertToSnapshot id (snd (Commit b s))) = true
  ∧ panicked (RevertToSnapshot id (snd (Reset h s))) = true
  ∧ match fst (Finalise b s) with
    | None => panicked (RevertToSnapshot id (snd (Finalise b s))) = true
    | Some _ => validRevisions (snd (Finalise b s)) = validRevisions s
    end.
Proof.
  split; [| split].
  - apply RevertToSnapshot_empty. unfold Commit.
    destruct (commit_loop _ _ _). reflexivity.
  - apply RevertToSnapshot_empty. reflexivity.
  - unfold Finalise.
    pose proof (tx_frame_finalise_loop b (dirties (journal_ s)) s) as H.
    destruct (finalise_loop b (dirties (journal_ s)) s) as [[err |] s1]; simpl in *.
    + apply H.
    + reflexivity.
Qed.

(** ** The stack of revisions *)

(** The stack of revisions is in the order of creation, below the revision
    counter. *)
Definition rev_inv (s : CommitStateDB) : Prop :=
  revisions_sorted (validRevisions s)
  ∧ ∀ r, r ∈ validRevisions s → rev_id r < nextRevisionID s.

Lemma wrapInt_small z : - 2 ^ 63 ≤ z < 2 ^ 63 → wrapInt z = z.
Proof. intros H. unfold wrapInt. rewrite Z.mod_small by lia. lia. Qed.

Lemma set_journal_id s :
  set_journal (mkJournal (entries (journal_ s)) (dirties (journal_ s))) s = s.
Proof. destruct s as [? ? ? ? ? ? ? ? ? ? ? ? ? [] ? ? ? ?]. reflexivity. Qed.

(** X7: while the revision counter has not reached the largest [int],
    [Snapshot] returns the counter, which no revision of the stack carries,
    advances it by one and keeps the stack in order below it; a revert to
    the identifier just returned gives back the overlay as it was before
    [Snapshot], the advanced counter apart. *)
Theorem Snapshot_fresh_revision (s : CommitStateDB) :
  rev_inv s → - 2 ^ 63 ≤ nextRevisionID s < 2 ^ 63 - 1 →
  fst (Snapshot s) = nextRevisionID s
  ∧ (∀ r, r ∈ validRevisions s → rev_id r ≠ fst (Snapshot s))
  ∧ nextRevisionID (snd (Snapshot s)) = nextRevisionID s + 1
  ∧ rev_inv (snd (Snapshot s))
  ∧ RevertToSnapshot (fst (Snapshot s)) (snd (Snapshot s))
    = Done tt (set_revisions (validRevisions s) (nextRevisionID s + 1) s).
Proof.
  intros [Hs Hlt] Hfit.
  assert (Hnext : wrapInt (nextRevisionID s + 1) = nextRevisionID s + 1)
    by (apply wrapInt_small; lia).
  assert (Hsorted : revisions_sorted
            (validRevisions s
             ++ [mkRevision (nextRevisionID s) (journal_length (journal_ s))]))
    by (apply revisions_sorted_snoc; [exact Hs | exact Hlt]).
  split; [reflexivity |].
  split; [intros r Hr; specialize (Hlt r Hr); simpl; lia |].
  split; [exact Hnext |].
  split.
  { split; [exact Hsorted |]. simpl. intros r Hr. rewrite Hnext.
    apply elem_of_app in Hr. destruct Hr as [Hr | Hr].
    - specialize (Hlt r Hr). lia.
    - apply list_elem_of_singleton in Hr. subst r. simpl. lia. }
  destruct (search_revisions _ (nextRevisionID s) Hsorted) as [Hfound _].
  unfold RevertToSnapshot, Snapshot. simpl.
  fold (rev_ge (validRevisions s
                ++ [mkRevision (nextRevisionID s) (journal_length (journal_ s))])
               (nextRevisionID s)).
  assert (Hl : (validRevisions s
                ++ [mkRevision (nextRevisionID s) (journal_length (journal_ s))])
               !! length (validRevisions s)
               = Some (mkRevision (nextRevisionID s) (journal_length (journal_ s)))).
  { rewrite lookup_app_r by lia. rewrite Nat.sub_diag. reflexivity. }
  rewrite (Hfound _ _ Hl eq_refl), Hl. simpl.
  rewrite decide_True by reflexivity. f_equal.
  unfold journal_revert, journal_length. simpl.
  rewrite drop_all. simpl. rewrite take_app_length, firstn_all, Hnext.
  destruct s as [? ? ? ? ? ? ? ? ? ? ? ? ? [] ? ? ? ?]. reflexivity.
Qed.

Lemma revisions_sorted_take (l : list revision) (n : nat) :
  revisions_sorted l → revisions_sorted (take n l).
Proof.
  intros Hs i j ri rj Hi Hj Hij.
  apply lookup_take_Some in Hi. apply lookup_take_Some in Hj.
  eapply Hs; [apply Hi | apply Hj | exact Hij].
Qed.

(** X8: a revert consumes the revision it reverts to and the revisions
    taken after it: when [RevertToSnapshot id] returns, the stack holds only
    revisions with smaller identifiers, still in order, the revision
    counter is unchanged, and a revert to [id] or to any larger identifier
    panics. *)
Theorem RevertToSnapshot_consumes (s s' : CommitStateDB) (id : Z) :
  revisions_sorted (validRevisions s) →
  RevertToSnapshot id s = Done tt s' →
  revisions_sorted (validRevisions s')
  ∧ (∀ r, r ∈ validRevisions s' → rev_id r < id ∧ r ∈ validRevisions s)
  ∧ nextRevisionID s' = nextRevisionID s
  ∧ ∀ id', id ≤ id' → panicked (RevertToSnapshot id' s') = true.
Proof.
  intros Hs Hrun. unfold RevertToSnapshot in Hrun.
  fold (rev_ge (validRevisions s) id) in Hrun.
  set (idx := sort_Search _ _) in Hrun.
  destruct (validRevisions s !! idx) as [r |] eqn:Hl; [| discriminate].
  destruct (decide (rev_id r = id)) as [Hid | Hne]; [| discriminate].
  destruct (journal_revert_spec (journalIndex r) s) as (_ & Hv & Hn).
  rewrite Hv, Hn in Hrun. injection Hrun as <-.
  set (sr := set_revisions _ _ _).
  assert (Hvr : validRevisions sr = take idx (validRevisions s)) by reflexivity.
  assert (Hnr : nextRevisionID sr = nextRevisionID s) by reflexivity.
  rewrite Hvr, Hnr.
  assert (Hbelow : ∀ x, x ∈ take idx (validRevisions s) →
                        rev_id x < id ∧ x ∈ validRevisions s).
  { intros x Hx. apply list_elem_of_lookup_1 in Hx. destruct Hx as [i Hi].
    apply lookup_take_Some in Hi. destruct Hi as [Hi Hlt]. split.
    - rewrite <- Hid. eapply Hs; [exact Hi | exact Hl | exact Hlt].
    - eapply list_elem_of_lookup_2. exact Hi. }
  pose proof (revisions_sorted_take _ idx Hs) as Hs'.
  split; [exact Hs' |]. split; [exact Hbelow |]. split; [reflexivity |].
  intros id' Hge. unfold RevertToSnapshot. rewrite Hvr.
  fold (rev_ge (take idx (validRevisions s)) id').
  destruct (search_revisions _ id' Hs') as [_ Hmiss].
  destruct (take idx (validRevisions s) !! _) as [r' |] eqn:Hl'; [| reflexivity].
  destruct (decide (rev_id r' = id')) as [Heq | Hneq]; [| reflexivity].
  exfalso. eapply Hmiss; [| reflexivity | exact Heq].
  intros x Hx. specialize (Hbelow x Hx). lia.
Qed.

(** ** The blacklist *)

(** What the writes of the overlay may do to the keeper's entry of a
    blacklisted address: nothing, or remove it. *)
Definition keeper_kept (a : Address) (w w' : World) : Prop :=
  blacklist w' = blacklist w
  ∧ (accounts w' !! a = accounts w !! a ∨ accounts w' !! a = None).

Lemma keeper_kept_refl a w : keeper_kept a w w.
Proof. split; [reflexivity | left; reflexivity]. Qed.

Lemma keeper_kept_trans a w1 w2 w3 :
  keeper_kept a w1 w2 → keeper_kept a w2 w3 → keeper_kept a w1 w3.
Proof.
  intros [B1 [H1 | H1]] [B2 [H2 | H2]]; split; try congruence.
  - left. congruence.
  - right. exact H2.
  - right. congruence.
  - right. exact H2.
Qed.

Lemma keeper_kept_updateStateObject a idx s :
  a ∈ blacklist (ctx s) → keeper_kept a (ctx s) (ctx (snd (updateStateObject idx s))).
Proof.
  intros Ha. unfold updateStateObject.
  destruct (stateObjects s !! idx) as [e |]; [| apply keeper_kept_refl].
  destruct (GetParams_frame s) as (Hc & _).
  destruct (GetParams s) as [p s1]. simpl in Hc.
  destruct (negb _); simpl; [rewrite Hc; apply keeper_kept_refl |].
  destruct (BlacklistedAddr _ _) eqn:Hb; simpl; [rewrite Hc; apply keeper_kept_refl |].
  rewrite Hc in *. apply bool_decide_eq_false in Hb.
  split; [reflexivity |]. left. simpl.
  apply lookup_insert_ne. intros Heq. apply Hb. rewrite Heq. exact Ha.
Qed.

Lemma keeper_kept_deleteStateObject a idx s :
  keeper_kept a (ctx s) (ctx (deleteStateObject idx s)).
Proof.
  unfold deleteStateObject.
  destruct (stateObjects s !! idx) as [e |]; [| apply keeper_kept_refl].
  split; [reflexivity |]. simpl.
  destruct (decide (acc_address (so_account (se_stateObject e)) = a)) as [-> | Hne].
  - right. apply lookup_delete_eq.
  - left. apply lookup_delete_ne. exact Hne.
Qed.

Lemma keeper_kept_commit_step a b idx s :
  a ∈ blacklist (ctx s) → keeper_kept a (ctx s) (ctx (snd (commit_step b idx s))).
Proof.
  intros Ha. unfold commit_step.
  destruct (stateObjects s !! idx) as [e |]; [| apply keeper_kept_refl].
  match goal with |- context [let '(err, s1) := ?X in _] =>
    assert (H : keeper_kept a (ctx s) (ctx (snd X)));
      [| destruct X as [[err |] s1]; simpl in *; exact H] end.
  destruct (_ || _); [apply keeper_kept_deleteStateObject |].
  destruct (bool_decide _); [| apply keeper_kept_refl].
  match goal with |- keeper_kept _ _ (ctx (snd (updateStateObject _ ?t))) =>
    apply (keeper_kept_trans a (ctx s) (ctx t));
      [| apply keeper_kept_updateStateObject] end.
  - destruct (_ && _); simpl; (split; [reflexivity | left; reflexivity]).
  - destruct (_ && _); simpl; exact Ha.
Qed.

Lemma keeper_kept_commit_loop a b idxs s :
  a ∈ blacklist (ctx s) → keeper_kept a (ctx s) (ctx (snd (commit_loop b idxs s))).
Proof.
  revert s. induction idxs as [| idx rest IH]; intros s Ha; simpl;
    [apply keeper_kept_refl |].
  pose proof (keeper_kept_commit_step a b idx s Ha) as H.
  destruct (commit_step b idx s) as [[err |] s1]; simpl in *; [exact H |].
  eapply keeper_kept_trans; [exact H |]. apply IH.
  destruct H as [-> _]. exact Ha.
Qed.

Lemma keeper_kept_finalise_step a b d s :
  a ∈ blacklist (ctx s) → keeper_kept a (ctx s) (ctx (snd (finalise_step b d s))).
Proof.
  intros Ha. unfold finalise_step.
  destruct (addressToObjectIndex s !! dirty_address d) as [idx |];
    [| apply keeper_kept_refl].
  destruct (stateObjects s !! idx) as [e |]; [| apply keeper_kept_refl].
  match goal with |- context [let '(err, s1) := ?X in _] =>
    assert (H : keeper_kept a (ctx s) (ctx (snd X)));
      [| destruct X as [[err |] s1]; simpl in *; exact H] end.
  destruct (_ || _); [apply keeper_kept_deleteStateObject |].
  unfold commitState.
  destruct (flushStorage _ _ _ _) as [store origin].
  match goal with |- keeper_kept _ _ (ctx (snd (updateStateObject _ ?t))) =>
    apply (keeper_kept_trans a (ctx s) (ctx t));
      [split; [reflexivity | left; reflexivity]
      | apply keeper_kept_updateStateObject; exact Ha] end.
Qed.

Lemma keeper_kept_finalise_loop a b ds s :
  a ∈ blacklist (ctx s) → keeper_kept a (ctx s) (ctx (snd (finalise_loop b ds s))).
Proof.
  revert s. induction ds as [| d rest IH]; intros s Ha; simpl;
    [apply keeper_kept_refl |].
  pose proof (keeper_kept_finalise_step a b d s Ha) as H.
  destruct (finalise_step b d s) as [[err |] s1]; simpl in *; [exact H |].
  eapply keeper_kept_trans; [exact H |]. apply IH.
  destruct H as [-> _]. exact Ha.
Qed.

Lemma keeper_kept_GetAccount a w w' :
  keeper_kept a w w' →
  GetAccount w' a = GetAccount w a ∨ GetAccount w' a = None.
Proof.
  intros [_ [H | H]]; unfold GetAccount; rewrite H; [left | right]; reflexivity.
Qed.

(** X9: [Commit] and [Finalise] never write the account of a blacklisted
    address to the keeper: afterwards the keeper holds for such an address
    the account it held before, or none (a suicided or empty object is
    removed without a look at the blacklist), and the address is still
    blacklisted. *)
Theorem blacklisted_never_written (b : bool) (s : CommitStateDB) (a : Address) :
  BlacklistedAddr (ctx s) a = true →
  (let w' := ctx (snd (Commit b s)) in
   BlacklistedAddr w' a = true
   ∧ (GetAccount w' a = GetAccount (ctx s) a ∨ GetAccount w' a = None))
  ∧ (let w' := ctx (snd (Finalise b s)) in
     BlacklistedAddr w' a = true
     ∧ (GetAccount w' a = GetAccount (ctx s) a ∨ GetAccount w' a = None)).
Proof.
  intros Hb. pose proof Hb as Ha. apply bool_decide_eq_true in Ha.
  split.
  - unfold Commit.
    match goal with |- context [commit_loop b ?l ?t] =>
      pose proof (keeper_kept_commit_loop a b l t Ha) as H;
      destruct (commit_loop b l t) as [err s2] end.
    simpl in *. split; [| apply keeper_kept_GetAccount, H].
    unfold BlacklistedAddr. destruct H as [-> _]. exact Hb.
  - unfold Finalise.
    pose proof (keeper_kept_finalise_loop a b (dirties (journal_ s)) s Ha) as H.
    destruct (finalise_loop b (dirties (journal_ s)) s) as [[err |] s1];
      simpl in *; (split; [| apply keeper_kept_GetAccount, H]);
      unfold BlacklistedAddr; destruct H as [-> _]; exact Hb.
Qed.

(** ** Writes and the reads that follow *)

(** What the reads return, in terms of the object that resolves. *)
Lemma getStateObject_read a s :
  fst (getStateObject a s) = resolve s a
  ∧ ctx (snd (getStateObject a s)) = ctx s
  ∧ evmDenom (snd (getStateObject a s)) = evmDenom s.
Proof.
  pose proof (live_only_getStateObject a s) as L.
  split; [apply getStateObject_fst |].
  split; [apply L | apply (evmDenom_live_only _ _ L)].
Qed.

Ltac read_resolve a s :=
  let Hf := fresh "Hf" in
  let Hc := fresh "Hc" in
  let Hd := fresh "Hd" in
  destruct (getStateObject_read a s) as (Hf & Hc & Hd);
  destruct (getStateObject a s) as [o s1]; simpl in Hf, Hc, Hd;
  subst o; destruct (resolve s a); simpl; rewrite ?Hc, ?Hd; try reflexivity.

Lemma GetBalance_resolve a s :
  fst (GetBalance a s)
  = match resolve s a with Some so => Balance (evmDenom s) so | None => 0 end.
Proof. unfold GetBalance. read_resolve a s. Qed.

Lemma GetNonce_resolve a s :
  fst (GetNonce a s) = match resolve s a with Some so => Nonce so | None => 0 end.
Proof. unfold GetNonce. read_resolve a s. Qed.

Lemma GetCode_resolve a s :
  fst (GetCode a s) = match resolve s a with Some so => Code (ctx s) so | None => [] end.
Proof. unfold GetCode. read_resolve a s. Qed.

Lemma GetCodeSize_resolve a s :
  fst (GetCodeSize a s)
  = match resolve s a with Some so => length (Code (ctx s) so) | None => 0%nat end.
Proof.
  unfold GetCodeSize. read_resolve a s.
  unfold Code. destruct (so_code s0); reflexivity.
Qed.

Lemma GetCodeHash_resolve a s :
  fst (GetCodeHash a s)
  = match resolve s a with Some so => CodeHash so | None => zeroHash end.
Proof. unfold GetCodeHash. read_resolve a s. Qed.

Lemma GetState_resolve a k s :
  fst (GetState a k s)
  = match resolve s a with
    | Some so => fst (GetState_so (ctx s) k so)
    | None => zeroHash
    end.
Proof.
  unfold GetState. read_resolve a s.
  destruct (GetState_so (ctx s) k s0). reflexivity.
Qed.

Lemma GetCommittedState_resolve a k s :
  fst (GetCommittedState a k s)
  = match resolve s a with Some so => committed (ctx s) so k | None => zeroHash end.
Proof.
  unfold GetCommittedState. read_resolve a s.
  rewrite <- GetCommittedState_so_value.
  destruct (GetCommittedState_so (ctx s) k s0). reflexivity.
Qed.

Lemma HasSuicided_resolve a s :
  fst (HasSuicided a s) = match resolve s a with Some so => suicided so | None => false end.
Proof. unfold HasSuicided. read_resolve a s. Qed.

Lemma Exist_resolve a s : fst (Exist a s) = bool_decide (is_Some (resolve s a)).
Proof.
  unfold Exist. destruct (getStateObject_read a s) as (Hf & _).
  destruct (getStateObject a s) as [o s1]. simpl in *. subst o. reflexivity.
Qed.

Lemma Empty_resolve a s :
  fst (Empty a s)
  = match resolve s a with Some so => empty (evmDenom s) so | None => true end.
Proof. unfold Empty. read_resolve a s. Qed.

(** The object [createObject] installs for [a], whatever was there. *)
Lemma createObject_object a s :
  wf_index s →
  let s2 := snd (createObject a s) in
  wf_index s2 ∧ ctx s2 = ctx s ∧ evmDenom s2 = evmDenom s
  ∧ slot_of s2 a = Some (mkStateEntry a (freshObject a))
  ∧ (∀ b, b ≠ a → resolve s2 b = resolve s b)
  ∧ snd (fst (createObject a s)) = resolve s a.
Proof.
  intros Hwf. simpl.
  destruct (createObject_journal a s) as [-> Hprev]. fold (freshObject a).
  set (e := match resolve s a with
            | None => createObjectChange a
            | Some prev => resetObjectChange prev
            end).
  pose proof (live_only_getStateObject a s) as L1.
  pose proof (resolve_getStateObject a s) as Hres.
  set (s1 := snd (getStateObject a s)) in *.
  assert (Hwf1 : wf_index s1).
  { unfold s1. destruct (getStateObject a s) as [o' t] eqn:Eg'.
    apply (wf_index_getStateObject _ _ _ _ Eg' Hwf). }
  pose proof (live_only_setStateObject (freshObject a) (append_journal e s1)) as L2.
  split; [apply wf_index_setStateObject; exact Hwf1 |].
  split; [destruct L2 as (-> & _); apply L1 |].
  split.
  { rewrite (evmDenom_live_only _ _ L2).
    transitivity (evmDenom s1); [reflexivity |].
    apply (evmDenom_live_only _ _ L1). }
  split.
  { rewrite (slot_of_setStateObject (freshObject a) (append_journal e s1) a Hwf1).
    simpl. rewrite decide_True by reflexivity. reflexivity. }
  split; [| exact Hprev].
  intros b Hb.
  rewrite (resolve_setStateObject (freshObject a) (append_journal e s1) b Hwf1).
  simpl. rewrite decide_False by exact Hb.
  transitivity (resolve s1 b); [reflexivity | apply Hres, Hwf].
Qed.

(** The object the setters write to. *)
Lemma GetOrNewStateObject_object a s :
  wf_index s →
  let s1 := snd (GetOrNewStateObject a s) in
  let so := default (freshObject a) (resolve s a) in
  wf_index s1 ∧ ctx s1 = ctx s ∧ evmDenom s1 = evmDenom s
  ∧ slot_of s1 a = Some (mkStateEntry a so) ∧ deleted so = false
  ∧ ∀ b, b ≠ a → resolve s1 b = resolve s b.
Proof.
  intros Hwf. simpl. unfold GetOrNewStateObject.
  destruct (getStateObject_read a s) as (Hf & Hc & Hd).
  pose proof (resolve_getStateObject a s) as Hres.
  destruct (getStateObject a s) as [o s1] eqn:Eg. simpl in Hf, Hc, Hd, Hres.
  pose proof (wf_index_getStateObject _ _ _ _ Eg Hwf) as Hwf1.
  assert (Hnew :
    let s2 := snd (createObject a s1) in
    wf_index s2 ∧ ctx s2 = ctx s ∧ evmDenom s2 = evmDenom s
    ∧ slot_of s2 a = Some (mkStateEntry a (freshObject a))
    ∧ deleted (freshObject a) = false
    ∧ ∀ b, b ≠ a → resolve s2 b = resolve s b).
  { destruct (createObject_object a s1 Hwf1) as (H1 & H2 & H3 & H4 & H5 & _).
    simpl. split; [exact H1 |]. split; [congruence |]. split; [congruence |].
    split; [exact H4 |]. split; [reflexivity |].
    intros b Hb. rewrite (H5 b Hb). apply Hres, Hwf. }
  simpl in Hnew. subst o.
  destruct (createObject a s1) as [r s2]. simpl in Hnew.
  destruct (resolve s a) as [so |] eqn:Er; simpl.
  - destruct (getStateObject_Some a s so s1 Hwf Eg) as [Hslot Hdel].
    rewrite Hdel. simpl.
    split; [exact Hwf1 |]. split; [exact Hc |]. split; [exact Hd |].
    split; [exact Hslot |]. split; [reflexivity |].
    intros b _. apply Hres, Hwf.
  - exact Hnew.
Qed.

(** A journalled write to the live object of [a]. *)
Lemma write_object a f e s so :
  wf_index s → slot_of s a = Some (mkStateEntry a so) → deleted (f so) = false →
  let s' := modify_object a f (append_journal e s) in
  wf_index s' ∧ ctx s' = ctx s ∧ evmDenom s' = evmDenom s
  ∧ ∀ b, resolve s' b = if decide (b = a) then Some (f so) else resolve s b.
Proof.
  intros Hwf Hs Hd. simpl.
  pose proof (live_only_modify_object a f (append_journal e s)) as L.
  split; [apply wf_index_modify_object; exact Hwf |].
  split; [apply L |].
  split; [rewrite (evmDenom_live_only _ _ L); reflexivity |].
  intros b. apply (resolve_modify_object a f (append_journal e s) so b Hwf Hs Hd).
Qed.

(** X10: after [SetNonce a n], [GetNonce a] is [n], whether or not an
    account existed for [a], the account exists, and the nonce of every other
    address reads as before. *)
Theorem SetNonce_round_trip (s : CommitStateDB) (a b : Address) (n : Z) :
  wf_index s →
  fst (GetNonce b (SetNonce a n s))
  = (if decide (b = a) then n else fst (GetNonce b s))
  ∧ fst (Exist a (SetNonce a n s)) = true.
Proof.
  intros Hwf. unfold SetNonce.
  destruct (GetOrNewStateObject_object a s Hwf) as (Hwf1 & Hc & Hd & Hslot & Hdel & Hother).
  destruct (GetOrNewStateObject a s) as [x s1]. simpl in *.
  unfold so_SetNonce. rewrite Hslot. simpl.
  destruct (write_object a (setNonce n) (nonceChange (so_address (default (freshObject a)
              (resolve s a))) (Nonce (default (freshObject a) (resolve s a)))) s1 _
              Hwf1 Hslot Hdel) as (_ & _ & _ & Hres).
  rewrite GetNonce_resolve, Exist_resolve, !Hres.
  rewrite (decide_True (P := a = a)) by reflexivity.
  split; [| apply bool_decide_eq_true; eauto].
  destruct (decide (b = a)) as [-> | Hne]; [reflexivity |].
  rewrite GetNonce_resolve, (Hother b Hne). reflexivity.
Qed.

(** X11: after [SetBalance a x], [GetBalance a] is [x] and the balance of
    every other address reads as before; after [AddBalance a x],
    [GetBalance a] has grown by [x]. *)
Theorem SetBalance_round_trip (s : CommitStateDB) (a b : Address) (x : Z) :
  wf_index s →
  fst (GetBalance b (SetBalance a x s))
  = (if decide (b = a) then x else fst (GetBalance b s))
  ∧ fst (GetBalance a (AddBalance a x s)) = fst (GetBalance a s) + x.
Proof.
  intros Hwf. unfold SetBalance, AddBalance.
  destruct (GetOrNewStateObject_object a s Hwf) as (Hwf1 & Hc & Hd & Hslot & Hdel & Hother).
  destruct (GetOrNewStateObject a s) as [x0 s1]. simpl in *.
  set (so := default (freshObject a) (resolve s a)) in *.
  assert (Hset : ∀ y c, fst (GetBalance c (so_SetBalance a y s1))
                        = if decide (c = a) then y else fst (GetBalance c s)).
  { intros y c. unfold so_SetBalance. rewrite Hslot. simpl.
    destruct (write_object a (setBalance (evmDenom s1) y)
                (balanceChange (so_address so) (Balance (evmDenom s1) so)) s1 so
                Hwf1 Hslot Hdel) as (_ & _ & Hd' & Hres).
    rewrite GetBalance_resolve, Hres, Hd', Hd.
    destruct (decide (c = a)) as [-> | Hne].
    - unfold Balance. simpl. rewrite AmountOf_insert.
      rewrite decide_True by reflexivity. reflexivity.
    - rewrite GetBalance_resolve, (Hother c Hne). reflexivity. }
  split; [apply Hset |].
  unfold so_AddBalance. rewrite Hslot. simpl. rewrite Hset.
  rewrite decide_True by reflexivity. rewrite Hd, GetBalance_resolve.
  unfold so. destruct (resolve s a) as [so0 |]; simpl; [reflexivity |].
  unfold Balance, AmountOf. simpl. rewrite lookup_empty. reflexivity.
Qed.

(** X12: after [SetCode a c], [GetCode a] is [c], [GetCodeSize a] its
    length and [GetCodeHash a] its Keccak-256 hash; the code of every other
    address reads as before. *)
Theorem SetCode_round_trip (s : CommitStateDB) (a b : Address) (c : list byte) :
  wf_index s →
  fst (GetCode b (SetCode a c s)) = (if decide (b = a) then c else fst (GetCode b s))
  ∧ fst (GetCodeSize a (SetCode a c s)) = length c
  ∧ fst (GetCodeHash a (SetCode a c s)) = Keccak256Hash c.
Proof.
  intros Hwf. unfold SetCode.
  destruct (GetOrNewStateObject_object a s Hwf) as (Hwf1 & Hc & Hd & Hslot & Hdel & Hother).
  destruct (GetOrNewStateObject a s) as [x0 s1]. simpl in *.
  set (so := default (freshObject a) (resolve s a)) in *.
  unfold so_SetCode. rewrite Hslot. simpl.
  destruct (write_object a (setCode (Keccak256Hash c) c)
              (codeChange (so_address so) (so_code so) (CodeHash so) (dirtyCode so)) s1 so
              Hwf1 Hslot Hdel) as (_ & Hc' & _ & Hres).
  rewrite GetCode_resolve, GetCodeSize_resolve, GetCodeHash_resolve, !Hres, Hc', Hc.
  rewrite (decide_True (P := a = a)) by reflexivity.
  split; [| split; [reflexivity |]].
  - destruct (decide (b = a)) as [-> | Hne]; [reflexivity |].
    rewrite GetCode_resolve, (Hother b Hne). reflexivity.
  - unfold CodeHash, emptyCodeHash. simpl. destruct c; reflexivity.
Qed.

(** The storage reads of an object after a write of [v] under [k]. *)
Lemma GetState_so_setState w k v so k' :
  fst (GetState_so w k' (setState k v so))
  = if decide (k = k') then v else fst (GetState_so w k' so).
Proof.
  unfold GetState_so. simpl. rewrite storage_lookup_set.
  destruct (decide (k = k')); [reflexivity |].
  destruct (storage_lookup k' (dirtyStorage so)); [reflexivity |].
  rewrite !GetCommittedState_so_value. reflexivity.
Qed.

(** The object of [a] after [SetState a k v] on an overlay whose object of
    [a] is [so]. *)
Lemma so_SetState_resolve a k v s so :
  wf_index s → slot_of s a = Some (mkStateEntry a so) → deleted so = false →
  ctx (so_SetState a k v s) = ctx s
  ∧ (∀ b, b ≠ a → resolve (so_SetState a k v s) b = resolve s b)
  ∧ ∃ so', resolve (so_SetState a k v s) a = Some so'
           ∧ (∀ k', fst (GetState_so (ctx s) k' so')
                    = if decide (k = k') then v else fst (GetState_so (ctx s) k' so))
           ∧ ∀ k', committed (ctx s) so' k' = committed (ctx s) so k'.
Proof.
  intros Hwf Hslot Hdel. unfold so_SetState. rewrite Hslot. simpl.
  pose proof (GetState_so_equiv (ctx s) k so) as Heq.
  destruct (GetState_so_dirtyStorage (ctx s) k so) as (_ & _ & Hdel2).
  assert (Hcur : ∀ x, obj_equiv (ctx s) so x →
            ∀ k', fst (GetState_so (ctx s) k' x) = fst (GetState_so (ctx s) k' so)).
  { intros x Hx k'. symmetry. apply GetState_so_value, Hx. }
  destruct (GetState_so (ctx s) k so) as [cur so2] eqn:Eg. simpl in Heq, Hdel2.
  assert (Hcurv : fst (GetState_so (ctx s) k so) = cur) by (rewrite Eg; reflexivity).
  rewrite Hdel in Hdel2.
  pose proof (live_only_modify_object a (λ _, so2) s) as L1.
  set (s1 := modify_object a (λ _, so2) s) in *.
  assert (Hwf1 : wf_index s1) by (apply wf_index_modify_object; exact Hwf).
  assert (Hres1 : ∀ b, resolve s1 b = if decide (b = a) then Some so2 else resolve s b).
  { intros b. apply (resolve_modify_object a (λ _, so2) s so b Hwf Hslot Hdel2). }
  assert (Hslot1 : slot_of s1 a = Some (mkStateEntry a so2)).
  { unfold s1. rewrite (slot_of_modify_object_eq a _ s _ Hwf Hslot). reflexivity. }
  destruct (decide (cur = v)) as [Hcv | Hcv].
  - split; [apply L1 |].
    split; [intros b Hb; rewrite Hres1, decide_False by exact Hb; reflexivity |].
    exists so2. rewrite Hres1, decide_True by reflexivity.
    split; [reflexivity |]. split.
    + intros k'. rewrite (Hcur so2 Heq).
      destruct (decide (k = k')) as [<- | Hne]; [congruence | reflexivity].
    + intros k'. symmetry. apply (oe_committed _ _ _ Heq).
  - destruct (write_object a (setState k v)
                (storageChange (so_address so2) k (storage_lookup k (dirtyStorage so2)))
                s1 so2 Hwf1 Hslot1 Hdel2) as (_ & Hc2 & _ & Hres2).
    split; [rewrite Hc2; apply L1 |].
    split.
    { intros b Hb. rewrite Hres2, decide_False by exact Hb.
      rewrite Hres1, decide_False by exact Hb. reflexivity. }
    exists (setState k v so2). rewrite Hres2, decide_True by reflexivity.
    split; [reflexivity |]. split.
    + intros k'. rewrite GetState_so_setState, (Hcur so2 Heq). reflexivity.
    + intros k'. transitivity (committed (ctx s) so2 k'); [reflexivity |].
      symmetry. apply (oe_committed _ _ _ Heq).
Qed.

(** X13: after [SetState a k v], [GetState a k] is [v], whether or not an
    account existed for [a], and the storage of every other address reads
    as before. *)
Theorem SetState_round_trip (s : CommitStateDB) (a b : Address) (k k' v : Hash) :
  wf_index s →
  fst (GetState a k (SetState a k v s)) = v
  ∧ (b ≠ a → fst (GetState b k' (SetState a k v s)) = fst (GetState b k' s)).
Proof.
  intros Hwf. unfold SetState.
  destruct (GetOrNewStateObject_object a s Hwf) as (Hwf1 & Hc & Hd & Hslot & Hdel & Hother).
  destruct (GetOrNewStateObject a s) as [x0 s1]. simpl in *.
  destruct (so_SetState_resolve a k v s1 _ Hwf1 Hslot Hdel)
    as (Hc2 & Hres & so' & Hso' & Hread & _).
  split.
  - rewrite GetState_resolve, Hso', Hc2, Hread, decide_True by reflexivity. reflexivity.
  - intros Hne.
    rewrite !GetState_resolve, (Hres b Hne), (Hother b Hne), Hc2, Hc. reflexivity.
Qed.

(** X14: on an account that exists, [SetState a k v] changes what
    [GetState a] returns under [k] only, and does not change what
    [GetCommittedState a] returns under any key: the write stays in the
    dirty storage. *)
Theorem SetState_keeps_committed (s : CommitStateDB) (a : Address) (k k' v : Hash) :
  wf_index s → fst (Exist a s) = true →
  fst (GetState a k' (SetState a k v s))
  = (if decide (k = k') then v else fst (GetState a k' s))
  ∧ fst (GetCommittedState a k' (SetState a k v s)) = fst (GetCommittedState a k' s).
Proof.
  intros Hwf Hex. rewrite Exist_resolve in Hex. apply bool_decide_eq_true in Hex.
  destruct Hex as [so Hso]. unfold SetState.
  destruct (GetOrNewStateObject_object a s Hwf) as (Hwf1 & Hc & Hd & Hslot & Hdel & Hother).
  destruct (GetOrNewStateObject a s) as [x0 s1]. simpl in *.
  rewrite Hso in Hslot, Hdel. simpl in Hslot, Hdel.
  destruct (so_SetState_resolve a k v s1 so Hwf1 Hslot Hdel)
    as (Hc2 & Hres & so' & Hso' & Hread & Hcomm).
  rewrite !GetState_resolve, !GetCommittedState_resolve, Hso', Hso, Hc2, Hc in *.
  split; [apply Hread | apply Hcomm].
Qed.

(** ** Creation, suicide and the cache of live objects *)

(** X15: [CreateAccount a] installs a fresh object for [a] that carries
    the balance [a] had over: [GetBalance a] reads as before (zero if there
    was no account), the nonce is zero, the code hash is that of the empty
    code, the object is not suicided, the account exists, and every storage
    key reads what the store holds for it, the writes not yet committed
    being dropped; the other addresses read as before. *)
Theorem CreateAccount_carries_balance (s : CommitStateDB) (a b : Address) (k : Hash) :
  wf_index s →
  let s' := CreateAccount a s in
  fst (GetBalance a s') = fst (GetBalance a s)
  ∧ fst (GetNonce a s') = 0
  ∧ fst (GetCodeHash a s') = emptyCodeHash
  ∧ fst (HasSuicided a s') = false
  ∧ fst (Exist a s') = true
  ∧ fst (GetState a k s') = default zeroHash (storageStore (ctx s) !! (a, k))
  ∧ (b ≠ a → fst (GetBalance b s') = fst (GetBalance b s)
             ∧ fst (GetNonce b s') = fst (GetNonce b s)).
Proof.
  intros Hwf. simpl.
  assert (H : ∃ so', ctx (CreateAccount a s) = ctx s
                     ∧ evmDenom (CreateAccount a s) = evmDenom s
                     ∧ (∀ c, resolve (CreateAccount a s) c
                             = if decide (c = a) then Some so' else resolve s c)
                     ∧ Balance (evmDenom s) so'
                       = match resolve s a with
                         | Some so => Balance (evmDenom s) so
                         | None => 0
                         end
                     ∧ Nonce so' = 0 ∧ CodeHash so' = emptyCodeHash
                     ∧ suicided so' = false ∧ dirtyStorage so' = []
                     ∧ originStorage so' = ∅ ∧ so_address so' = a).
  { unfold CreateAccount.
    destruct (createObject_object a s Hwf) as (Hwf2 & Hc2 & Hd2 & Hslot2 & Hoth2 & Hprev).
    destruct (createObject a s) as [[newobj prevobj] s1]. simpl in *. subst prevobj.
    assert (Hres1 : ∀ c, resolve s1 c
                         = if decide (c = a) then Some (freshObject a) else resolve s c).
    { intros c. destruct (decide (c = a)) as [-> | Hne]; [| apply Hoth2, Hne].
      apply resolve_slot; [exact Hslot2 | reflexivity]. }
    destruct (resolve s a) as [prev |] eqn:Er.
    - pose proof (GetParams_evmDenom s1) as Hp.
      pose proof (evmDenom_GetParams s1) as Hd3.
      destruct (GetParams_frame s1) as (Hc3 & Hl3 & Hi3 & _).
      destruct (GetParams s1) as [p s2]. simpl in *.
      assert (Hwf3 : wf_index s2) by (eapply wf_index_ext; [| | exact Hwf2]; assumption).
      assert (Hslot3 : slot_of s2 a = Some (mkStateEntry a (freshObject a))).
      { rewrite (slot_of_ext s1 s2 a Hl3 Hi3). exact Hslot2. }
      pose proof (live_only_modify_object a
                    (setBalance (EvmDenom p) (Balance (EvmDenom p) prev)) s2) as L.
      exists (setBalance (EvmDenom p) (Balance (EvmDenom p) prev) (freshObject a)).
      split; [destruct L as (-> & _); congruence |].
      split; [rewrite (evmDenom_live_only _ _ L); congruence |].
      split.
      { intros c.
        rewrite (resolve_modify_object a
                   (setBalance (EvmDenom p) (Balance (EvmDenom p) prev)) s2
                   (freshObject a) c Hwf3 Hslot3 eq_refl).
        destruct (decide (c = a)) as [-> | Hne]; [reflexivity |].
        rewrite (resolve_ext s1 s2 c Hl3 Hi3 Hc3). rewrite Hres1.
        rewrite decide_False by exact Hne. reflexivity. }
      rewrite Hp, Hd2. unfold Balance at 1. simpl. rewrite AmountOf_insert.
      rewrite decide_True by reflexivity. repeat split.
    - exists (freshObject a).
      split; [exact Hc2 |]. split; [exact Hd2 |]. split; [exact Hres1 |].
      repeat split. }
  destruct H as (so' & Hc & Hd & Hres & Hbal & Hnonce & Hhash & Hsui & Hds & Hos & Had).
  rewrite !GetBalance_resolve, !GetNonce_resolve, GetCodeHash_resolve,
    HasSuicided_resolve, Exist_resolve, GetState_resolve, !Hres, Hd, Hc.
  rewrite (decide_True (P := a = a)) by reflexivity.
  split; [exact Hbal |]. split; [exact Hnonce |]. split; [exact Hhash |].
  split; [exact Hsui |]. split; [apply bool_decide_eq_true; eauto |].
  split.
  - unfold GetState_so, GetCommittedState_so. rewrite Hds, Hos, Had. simpl.
    rewrite lookup_empty. reflexivity.
  - intros Hne. rewrite decide_False by exact Hne. split; reflexivity.
Qed.

Lemma Suicide_resolve a s :
  wf_index s →
  fst (Suicide a s) = bool_decide (is_Some (resolve s a))
  ∧ ctx (snd (Suicide a s)) = ctx s
  ∧ evmDenom (snd (Suicide a s)) = evmDenom s
  ∧ ∀ b, resolve (snd (Suicide a s)) b
         = if decide (b = a)
           then (λ so, setBalance (evmDenom s) 0 (markSuicided so)) <$> resolve s a
           else resolve s b.
Proof.
  intros Hwf. unfold Suicide.
  destruct (getStateObject_read a s) as (Hf & Hc & Hd).
  pose proof (resolve_getStateObject a s) as Hres.
  destruct (getStateObject a s) as [o s1] eqn:Eg. simpl in Hf, Hc, Hd, Hres. subst o.
  pose proof (wf_index_getStateObject _ _ _ _ Eg Hwf) as Hwf1.
  destruct (resolve s a) as [so |] eqn:Er; simpl.
  - destruct (getStateObject_Some _ _ _ _ Hwf Eg) as [Hslot Hdel].
    destruct (write_object a markSuicided
                (suicideChange a (suicided so) (Balance (evmDenom s1) so)) s1 so
                Hwf1 Hslot Hdel) as (Hwf3 & Hc3 & Hd3 & Hres3).
    set (s3 := modify_object a markSuicided _) in *.
    assert (Hslot3 : slot_of s3 a = Some (mkStateEntry a (markSuicided so))).
    { apply (slot_of_modify_object_eq a markSuicided (append_journal _ s1) _ Hwf1 Hslot). }
    unfold so_SetBalance. rewrite Hslot3. simpl.
    destruct (write_object a (setBalance (evmDenom s3) 0)
                (balanceChange (so_address so) (Balance (evmDenom s3) (markSuicided so)))
                s3 (markSuicided so) Hwf3 Hslot3 Hdel) as (_ & Hc4 & Hd4 & Hres4).
    split; [first [reflexivity | symmetry; apply bool_decide_eq_true; eauto] |].
    split; [congruence |]. split; [congruence |].
    intros b. rewrite Hres4, Hres3, Hd3, Hd.
    destruct (decide (b = a)); [reflexivity | apply Hres, Hwf].
  - split; [first [reflexivity
                  | symmetry; apply bool_decide_eq_false; intros [x Hx]; discriminate] |].
    split; [exact Hc |]. split; [exact Hd |].
    intros b. rewrite (Hres b Hwf).
    destruct (decide (b = a)) as [-> | Hne]; [exact Er | reflexivity].
Qed.

(** X16: a suicided account stays readable until the commit: when
    [Suicide a] returns true, afterwards [Exist a] is true, the nonce and
    the code hash of [a] read as before, a second [Suicide a] returns true
    again, and the other addresses read as before. *)
Theorem Suicide_keeps_object (s : CommitStateDB) (a b : Address) :
  wf_index s → fst (Suicide a s) = true →
  let s' := snd (Suicide a s) in
  fst (Exist a s') = true
  ∧ fst (GetNonce a s') = fst (GetNonce a s)
  ∧ fst (GetCodeHash a s') = fst (GetCodeHash a s)
  ∧ fst (Suicide a s') = true
  ∧ (b ≠ a → fst (GetBalance b s') = fst (GetBalance b s)
             ∧ fst (HasSuicided b s') = fst (HasSuicided b s)).
Proof.
  intros Hwf Ht. simpl.
  destruct (Suicide_resolve a s Hwf) as (Hfst & Hc & Hd & Hres).
  rewrite Ht in Hfst. symmetry in Hfst. apply bool_decide_eq_true in Hfst.
  destruct Hfst as [so Hso].
  assert (Hwf' : wf_index (snd (Suicide a s))) by (apply wf_index_Suicide; exact Hwf).
  destruct (Suicide_resolve a (snd (Suicide a s)) Hwf') as (Hfst2 & _).
  rewrite Hfst2, Exist_resolve, !GetNonce_resolve, !GetCodeHash_resolve, !Hres.
  rewrite (decide_True (P := a = a)) by reflexivity. rewrite Hso. simpl.
  split; [reflexivity |].
  split; [reflexivity |]. split; [reflexivity |].
  split; [reflexivity |].
  intros Hne. rewrite !GetBalance_resolve, !HasSuicided_resolve, Hres, Hd.
  rewrite decide_False by exact Hne. split; reflexivity.
Qed.

(** X17: after [ClearStateObjects] every read comes from the account
    keeper: an address exists exactly when the keeper has its account, and
    its nonce and balance are those of that account, whatever had been
    written to the overlay; the journal and the stack of revisions are left
    as they were. *)
Theorem ClearStateObjects_reads_keeper (s : CommitStateDB) (a : Address) :
  let s' := ClearStateObjects s in
  fst (Exist a s') = bool_decide (is_Some (GetAccount (ctx s) a))
  ∧ fst (GetNonce a s')
    = match GetAccount (ctx s) a with Some acc => acc_sequence acc | None => 0 end
  ∧ fst (GetBalance a s')
    = match GetAccount (ctx s) a with
      | Some acc => AmountOf (acc_coins acc) (evmDenom s)
      | None => 0
      end
  ∧ journal_ s' = journal_ s ∧ validRevisions s' = validRevisions s.
Proof.
  simpl.
  assert (Hres : resolve (ClearStateObjects s) a = newStateObject <$> GetAccount (ctx s) a).
  { unfold resolve, slot_of. simpl. rewrite lookup_empty. reflexivity. }
  rewrite Exist_resolve, GetNonce_resolve, GetBalance_resolve, Hres.
  destruct (GetAccount (ctx s) a) as [acc |]; simpl; repeat split.
Qed.

(** ** [UpdateAccounts] *)

(** What a turn of the loop of [UpdateAccounts] makes of a live entry. *)
Definition refreshed (w : World) (d : string) (e : stateEntry) : stateEntry :=
  match GetAccount w (se_address e) with
  | None => e
  | Some acc =>
      if (true && IsValid (mkCoin d (AmountOf (acc_coins acc) d)))
         || negb (bool_decide (Nonce (se_stateObject e) = acc_sequence acc))
      then mkStateEntry (se_address e) (set_so_account acc (se_stateObject e))
      else e
  end.

Lemma alter_at_id {A} (f : A → A) (l : list A) (i : nat) :
  (∀ x, l !! i = Some x → f x = x) → alter f i l = l.
Proof.
  intros H. apply list_eq. intros j. rewrite list_lookup_alter.
  destruct (decide (i = j)) as [<- | Hne]; [| reflexivity].
  destruct (l !! i) as [x |] eqn:E; simpl; [| reflexivity].
  rewrite (H x eq_refl). reflexivity.
Qed.

Lemma updateAccounts_step_alter idx s :
  ctx (updateAccounts_step idx s) = ctx s
  ∧ evmDenom (updateAccounts_step idx s) = evmDenom s
  ∧ stateObjects (updateAccounts_step idx s)
    = alter (refreshed (ctx s) (evmDenom s)) idx (stateObjects s).
Proof.
  unfold updateAccounts_step.
  destruct (stateObjects s !! idx) as [e |] eqn:He.
  2: { split; [reflexivity |]. split; [reflexivity |].
       symmetry. apply alter_at_id. intros x Hx. congruence. }
  destruct (GetAccount (ctx s) (se_address e)) as [acc |] eqn:Ea.
  2: { split; [reflexivity |]. split; [reflexivity |].
       symmetry. apply alter_at_id. intros x Hx.
       assert (x = e) by congruence. subst x. unfold refreshed. rewrite Ea. reflexivity. }
  pose proof (GetParams_evmDenom s) as Hp.
  pose proof (evmDenom_GetParams s) as Hd.
  destruct (GetParams_frame s) as (Hc & Hl & _ & _).
  destruct (GetParams s) as [p s1]. simpl in Hp, Hd, Hc, Hl.
  assert (Hsame : alter (refreshed (ctx s) (evmDenom s)) idx (stateObjects s)
                  = alter (λ _, refreshed (ctx s) (evmDenom s) e) idx (stateObjects s)).
  { apply list_eq. intros j. rewrite !list_lookup_alter.
    destruct (decide (idx = j)); [| reflexivity]. rewrite He. reflexivity. }
  rewrite Hsame. unfold refreshed. rewrite Ea, Hp.
  destruct (_ || _).
  - pose proof (live_only_modify_at idx (set_so_account acc) s1) as L.
    split; [destruct L as (-> & _); exact Hc |].
    split; [rewrite (evmDenom_live_only _ _ L); exact Hd |].
    simpl. rewrite Hl. apply list_eq. intros j. rewrite !list_lookup_alter.
    destruct (decide (idx = j)); [| reflexivity]. rewrite He. reflexivity.
  - split; [exact Hc |]. split; [exact Hd |]. rewrite Hl.
    symmetry. apply alter_at_id. intros x Hx. congruence.
Qed.

Lemma updateAccounts_fold idxs s :
  let s' := foldl (λ t idx, updateAccounts_step idx t) s idxs in
  ctx s' = ctx s ∧ evmDenom s' = evmDenom s
  ∧ stateObjects s'
    = foldl (λ l idx, alter (refreshed (ctx s) (evmDenom s)) idx l) (stateObjects s) idxs.
Proof.
  revert s. induction idxs as [| idx rest IH]; intros s; simpl; [repeat split |].
  destruct (updateAccounts_step_alter idx s) as (Hc & Hd & Hl).
  destruct (IH (updateAccounts_step idx s)) as (Ic & Id & Il). simpl in Ic, Id, Il.
  rewrite Ic, Id, Il, Hc, Hd, Hl. repeat split.
Qed.

Lemma foldl_alter_seq {A} (f : A → A) (pre l : list A) :
  foldl (λ l' idx, alter f idx l') (pre ++ l) (seq (length pre) (length l))
  = pre ++ (f <$> l).
Proof.
  revert pre. induction l as [| x l IH]; intros pre; simpl; [reflexivity |].
  rewrite alter_app_r_alt by lia. rewrite Nat.sub_diag. simpl.
  replace (pre ++ f x :: l) with ((pre ++ [f x]) ++ l) by (rewrite <- app_assoc; reflexivity).
  replace (S (length pre)) with (length (pre ++ [f x])) by (rewrite length_app; simpl; lia).
  rewrite IH. rewrite <- app_assoc. reflexivity.
Qed.

(** X18: [UpdateAccounts] does not write to the keeper and keeps every
    live entry at its place and under its address, with its code, storage
    and flags; an entry whose account the keeper does not have is left as
    it is, and the nonce of every other entry is afterwards the sequence of
    the account the keeper has, its account being either the keeper's or
    unchanged. *)
Theorem UpdateAccounts_refreshes (s : CommitStateDB) (idx : nat) (e : stateEntry) :
  stateObjects s !! idx = Some e →
  ctx (UpdateAccounts s) = ctx s
  ∧ length (stateObjects (UpdateAccounts s)) = length (stateObjects s)
  ∧ ∃ e', stateObjects (UpdateAccounts s) !! idx = Some e'
          ∧ se_address e' = se_address e
          ∧ so_code (se_stateObject e') = so_code (se_stateObject e)
          ∧ dirtyStorage (se_stateObject e') = dirtyStorage (se_stateObject e)
          ∧ suicided (se_stateObject e') = suicided (se_stateObject e)
          ∧ deleted (se_stateObject e') = deleted (se_stateObject e)
          ∧ match GetAccount (ctx s) (se_address e) with
            | None => e' = e
            | Some acc =>
                Nonce (se_stateObject e') = acc_sequence acc
                ∧ (so_account (se_stateObject e') = acc ∨ e' = e)
            end.
Proof.
  intros He. unfold UpdateAccounts.
  destruct (updateAccounts_fold (seq 0 (length (stateObjects s))) s) as (Hc & _ & Hl).
  simpl in Hc, Hl. rewrite Hc, Hl.
  pose proof (foldl_alter_seq (refreshed (ctx s) (evmDenom s)) [] (stateObjects s)) as Hf.
  simpl in Hf. rewrite Hf.
  split; [reflexivity |]. split; [apply length_fmap |].
  exists (refreshed (ctx s) (evmDenom s) e).
  split; [rewrite list_lookup_fmap, He; reflexivity |].
  unfold refreshed. destruct (GetAccount (ctx s) (se_address e)) as [acc |];
    [| repeat split].
  destruct (true && _) eqn:Hv; simpl.
  - repeat split. left. reflexivity.
  - destruct (bool_decide (Nonce (se_stateObject e) = acc_sequence acc)) eqn:Hn; simpl.
    + apply bool_decide_eq_true in Hn. repeat split; [exact Hn | right; reflexivity].
    + repeat split. left. reflexivity.
Qed.

(** ** Suicided objects at the commit *)

Lemma commit_step_other b idx t t1 j :
  commit_step b idx t = (None, t1) → j ≠ idx →
  stateObjects t1 !! j = stateObjects t !! j.
Proof.
  intros Hstep Hj. destruct (stateObjects t !! idx) as [e |] eqn:He.
  - destruct (commit_step_facts b idx t t1 e He Hstep) as (_ & H & _). apply H, Hj.
  - unfold commit_step in Hstep. rewrite He in Hstep. congruence.
Qed.

Lemma commit_loop_other b idxs :
  ∀ t t' j, commit_loop b idxs t = (None, t') → j ∉ idxs →
            stateObjects t' !! j = stateObjects t !! j.
Proof.
  induction idxs as [| i0 rest IH]; intros t t' j Hloop Hj; simpl in Hloop.
  - congruence.
  - destruct (commit_step b i0 t) as [[err |] t1] eqn:Hs; [discriminate |].
    apply not_elem_of_cons in Hj. destruct Hj as [Hne Hj].
    rewrite (IH t1 t' j Hloop Hj). apply (commit_step_other b i0 t t1 j Hs Hne).
Qed.

Lemma commit_step_suicided b idx t t1 e :
  stateObjects t !! idx = Some e → suicided (se_stateObject e) = true →
  commit_step b idx t = (None, t1) →
  stateObjects t1 !! idx
  = Some (mkStateEntry (se_address e) (set_deleted true (se_stateObject e))).
Proof.
  intros He Hsu Hstep. unfold commit_step in Hstep. rewrite He, Hsu in Hstep.
  simpl in Hstep. injection Hstep as <-.
  unfold deleteStateObject. rewrite He. simpl.
  rewrite list_lookup_alter_eq, He. reflexivity.
Qed.

Lemma commit_loop_suicided b idxs :
  ∀ t t' idx e, NoDup idxs → commit_loop b idxs t = (None, t') → idx ∈ idxs →
    stateObjects t !! idx = Some e → suicided (se_stateObject e) = true →
    stateObjects t' !! idx
    = Some (mkStateEntry (se_address e) (set_deleted true (se_stateObject e))).
Proof.
  induction idxs as [| i0 rest IH]; intros t t' idx e Hnd Hloop Hin He Hsu.
  - inversion Hin.
  - simpl in Hloop.
    destruct (commit_step b i0 t) as [[err |] t1] eqn:Hs; [discriminate |].
    apply NoDup_cons in Hnd. destruct Hnd as [Hni Hnd].
    apply elem_of_cons in Hin. destruct Hin as [-> | Hin].
    + rewrite (commit_loop_other b rest t1 t' i0 Hloop Hni).
      apply (commit_step_suicided b i0 t t1 e He Hsu Hs).
    + assert (Hne : idx ≠ i0) by (intros ->; contradiction).
      apply (IH t1 t' idx e Hnd Hloop Hin); [| exact Hsu].
      rewrite (commit_step_other b i0 t t1 idx Hs Hne). exact He.
Qed.

(** X19: a suicided account is gone after the commit: when
    [HasSuicided a] is true and [Commit] returns no error, afterwards the
    object cached for [a] is marked deleted, so that [Exist a] is false and
    [GetNonce a] is zero, whatever the keeper holds. *)
Theorem Commit_deletes_suicided (b : bool) (s : CommitStateDB) (a : Address) :
  wf_index s → fst (HasSuicided a s) = true →
  snd (fst (Commit b s)) = None →
  let s' := snd (Commit b s) in
  fst (Exist a s') = false ∧ fst (GetNonce a s') = 0
  ∧ fst (HasSuicided a s') = false.
Proof.
  intros Hwf Hsu Hok. simpl.
  rewrite HasSuicided_resolve in Hsu. unfold resolve in Hsu.
  destruct (slot_of s a) as [e |] eqn:Hslot.
  2: { destruct (GetAccount (ctx s) a); simpl in Hsu; discriminate. }
  destruct (deleted (se_stateObject e)) eqn:Hdel; [discriminate |].
  pose proof (slot_of_address s a e Hwf Hslot) as Haddr.
  unfold slot_of in Hslot.
  destruct (addressToObjectIndex s !! a) as [idx |] eqn:Hidx; [| discriminate].
  simpl in Hslot.
  assert (Hres : resolve (snd (Commit b s)) a = None).
  { pose proof (wf_index_Commit b s Hwf) as Hwf'.
    unfold Commit in Hok, Hwf' |- *.
    set (s1 := set_stateObjectsDirty _ s) in *.
    destruct (commit_loop b (seq 0 (length (stateObjects s1))) s1) as [err s2] eqn:Hloop.
    simpl in Hok, Hwf'. subst err.
    assert (Hin : idx ∈ seq 0 (length (stateObjects s1))).
    { apply elem_of_seq. split; [lia |]. simpl. apply lookup_lt_Some in Hslot. lia. }
    pose proof (commit_loop_suicided b _ s1 s2 idx e (NoDup_seq _ _) Hloop Hin Hslot Hsu)
      as Hafter.
    destruct Hwf' as [_ W2]. simpl in W2. specialize (W2 _ _ Hafter). simpl in W2.
    unfold resolve, slot_of. simpl. rewrite <- Haddr, W2. simpl.
    rewrite Hafter. reflexivity. }
  rewrite Exist_resolve, GetNonce_resolve, HasSuicided_resolve, Hres.
  repeat split.
Qed.

(** ** [ForEachStorage] *)

(** The value the callback sees for a stored pair: the dirty value of the
    key if it has one. *)
Definition visible (so : stateObject) (kv : Z * Z) : Z * Z :=
  (fst kv, default (snd kv) (storage_lookup (fst kv) (dirtyStorage so))).

Lemma forEach_loop_prefix cb so kvs :
  ∃ rest, visible so <$> kvs = forEach_loop cb so kvs ++ rest.
Proof.
  induction kvs as [| [k v] t IH]; simpl; [exists []; reflexivity |].
  destruct (cb k _).
  - exists (visible so <$> t). reflexivity.
  - destruct IH as [rest Hrest]. exists rest. rewrite <- Hrest. reflexivity.
Qed.

Lemma forEach_loop_stop cb so kvs i k v :
  forEach_loop cb so kvs !! i = Some (k, v) → cb k v = true →
  S i = length (forEach_loop cb so kvs).
Proof.
  revert i. induction kvs as [| [k0 v0] t IH]; intros i Hi Hcb; simpl in *;
    [discriminate |].
  destruct i as [| i]; simpl in Hi.
  - injection Hi as <- <-. rewrite Hcb. reflexivity.
  - destruct (cb k0 _); [discriminate |]. simpl. f_equal. apply IH; assumption.
Qed.

Lemma forEach_loop_all cb so kvs :
  (∀ k v, (k, v) ∈ forEach_loop cb so kvs → cb k v = false) →
  forEach_loop cb so kvs = visible so <$> kvs.
Proof.
  induction kvs as [| [k0 v0] t IH]; intros H; simpl in *; [reflexivity |].
  assert (Hcb : cb k0 (default v0 (storage_lookup k0 (dirtyStorage so))) = false)
    by (apply H; left).
  rewrite Hcb in H |- *. unfold visible at 1. simpl. f_equal.
  apply IH. intros k v Hin. apply H. right. exact Hin.
Qed.

#[local] Instance key_le_total : Total key_le.
Proof. intros x y. unfold key_le. lia. Qed.

Lemma stored_pairs_elem w a k v :
  (k, v) ∈ stored_pairs w a ↔ storageStore w !! (a, k) = Some v.
Proof.
  unfold stored_pairs. rewrite merge_sort_Permutation, list_elem_of_omap. split.
  - intros ([[a' k'] v'] & Hin & Hf). simpl in Hf.
    destruct (decide (a' = a)) as [-> | Hne]; [| discriminate].
    injection Hf as <- <-. apply elem_of_map_to_list in Hin. exact Hin.
  - intros H. exists ((a, k), v). split; [apply elem_of_map_to_list, H |].
    simpl. rewrite decide_True by reflexivity. reflexivity.
Qed.

(** X20: [ForEachStorage] invokes the callback on nothing when no object
    resolves for the address.  Otherwise it walks the pairs the store holds
    for the address of the object, in increasing order of the key: the keys
    it visits are an initial segment of the stored keys, each with its
    dirty value if it has one and its stored value otherwise (a key that
    was written but not committed is not visited); the walk ends with the
    first pair on which the callback returns true, and visits every stored
    key if there is none. *)
Theorem ForEachStorage_visits (s : CommitStateDB) (a : Address) (cb : Hash → Hash → bool) :
  let visited := fst (ForEachStorage a cb s) in
  match resolve s a with
  | None => visited = []
  | Some so =>
      let stored := stored_pairs (ctx s) (so_address so) in
      (∀ k v0, (k, v0) ∈ stored ↔ storageStore (ctx s) !! (so_address so, k) = Some v0)
      ∧ Sorted Z.le (fst <$> stored)
      ∧ (fst <$> visited) `prefix_of` (fst <$> stored)
      ∧ (∀ k v, (k, v) ∈ visited →
           ∃ v0, storageStore (ctx s) !! (so_address so, k) = Some v0
                 ∧ v = default v0 (storage_lookup k (dirtyStorage so)))
      ∧ (∀ i k v, visited !! i = Some (k, v) → cb k v = true → S i = length visited)
      ∧ ((∀ k v, (k, v) ∈ visited → cb k v = false) → length visited = length stored)
  end.
Proof.
  simpl. unfold ForEachStorage.
  destruct (getStateObject_read a s) as (Hf & Hc & _).
  destruct (getStateObject a s) as [o s1]. simpl in Hf, Hc. subst o.
  destruct (resolve s a) as [so |]; simpl; [| reflexivity].
  rewrite Hc.
  set (stored := stored_pairs (ctx s) (so_address so)).
  destruct (forEach_loop_prefix cb so stored) as [rest Hrest].
  split; [intros k v0; apply stored_pairs_elem |].
  split.
  { apply (Sorted_fmap fst key_le Z.le); [intros x y H; exact H |].
    apply Sorted_merge_sort. apply _. }
  split.
  { exists (fst <$> rest).
    transitivity (fst <$> (visible so <$> stored)).
    - rewrite <- list_fmap_compose. reflexivity.
    - rewrite Hrest, fmap_app. reflexivity. }
  split.
  { intros k v Hin.
    assert (Hin' : (k, v) ∈ visible so <$> stored).
    { rewrite Hrest. apply elem_of_app. left. exact Hin. }
    apply list_elem_of_fmap in Hin'. destruct Hin' as ([k0 v0] & Heq & Hst).
    unfold visible in Heq. simpl in Heq. injection Heq as -> ->.
    exists v0. split; [apply stored_pairs_elem, Hst | reflexivity]. }
  split; [intros i k v; apply forEach_loop_stop |].
  intros Hall. rewrite (forEach_loop_all cb so stored Hall). apply length_fmap.
Qed.

(** ** Preimages *)

Definition wf_preimages (s : CommitStateDB) : Prop :=
  indexed pe_hash (preimages s) (hashToPreimageIndex s).

Lemma Preimages_None (s : CommitStateDB) (h : Hash) :
  wf_preimages s → (Preimages s !! h = None ↔ hashToPreimageIndex s !! h = None).
Proof.
  intros [H1 H2]. unfold Preimages.
  assert (Hdom : ∀ l (m : gmap Z (list byte)),
            foldl (λ m pe, <[pe_hash pe := pe_preimage pe]> m) m l !! h = None
            ↔ m !! h = None ∧ ∀ pe, pe ∈ l → pe_hash pe ≠ h).
  { induction l as [| pe l IH]; intros m; simpl.
    - split; [intros H; split; [exact H | intros pe Hpe; inversion Hpe] | intros [H _]; exact H].
    - rewrite IH. split.
      + intros [Hm Hl]. destruct (decide (pe_hash pe = h)) as [Heq | Hne].
        * rewrite Heq, lookup_insert_eq in Hm. discriminate.
        * rewrite lookup_insert_ne in Hm by exact Hne. split; [exact Hm |].
          intros pe' Hin. apply elem_of_cons in Hin. destruct Hin as [-> | Hin]; auto.
      + intros [Hm Hl]. split.
        * rewrite lookup_insert_ne; [exact Hm | apply Hl; left].
        * intros pe' Hin. apply Hl. right. exact Hin. }
  rewrite Hdom. split.
  - intros [_ Hl]. destruct (hashToPreimageIndex s !! h) as [i |] eqn:E; [| reflexivity].
    destruct (H1 h i E) as (pe & Hpe & Hk). exfalso. apply (Hl pe); [| exact Hk].
    eapply list_elem_of_lookup_2. exact Hpe.
  - intros Hn. split; [apply lookup_empty |].
    intros pe Hin Hk. apply list_elem_of_lookup_1 in Hin. destruct Hin as [i Hi].
    pose proof (H2 i pe Hi) as Hm. rewrite Hk in Hm. congruence.
Qed.

(** X21: the first preimage recorded under a hash is kept: on an overlay
    whose preimage index agrees with its preimages, [AddPreimage h p] adds
    [h] with [p] to what [Preimages] returns when [h] was not there, and
    changes nothing at all, journal included, when it was; the index
    still agrees with the preimages afterwards. *)
Theorem AddPreimage_first_wins (s : CommitStateDB) (h : Hash) (p : list byte) :
  wf_preimages s →
  wf_preimages (AddPreimage h p s)
  ∧ Preimages (AddPreimage h p s)
    = match Preimages s !! h with
      | Some _ => Preimages s
      | None => <[h := p]> (Preimages s)
      end
  ∧ match Preimages s !! h with
    | Some _ => AddPreimage h p s = s
    | None => entries (journal_ (AddPreimage h p s))
              = entries (journal_ s) ++ [addPreimageChange h]
    end.
Proof.
  intros Hwf. unfold AddPreimage.
  destruct (hashToPreimageIndex s !! h) as [i |] eqn:E.
  - destruct (Preimages s !! h) as [x |] eqn:Ep.
    + split; [exact Hwf |]. split; reflexivity.
    + apply (Preimages_None s h Hwf) in Ep. congruence.
  - assert (Ep : Preimages s !! h = None) by (apply (Preimages_None s h Hwf); exact E).
    rewrite Ep. split; [| split; [| reflexivity]].
    + unfold wf_preimages. simpl. rewrite length_app. simpl.
      replace (length (preimages s) + 1 - 1)%nat with (length (preimages s)) by lia.
      apply (indexed_append pe_hash _ _ (mkPreimageEntry h p) Hwf E).
    + unfold Preimages. simpl. rewrite foldl_snoc. reflexivity.
Qed.

(** ** The access list *)

Lemma al_AddSlot_unchanged a slot al :
  snd (fst (al_AddSlot a slot al)) = false → snd (al_AddSlot a slot al) = al.
Proof.
  unfold al_AddSlot.
  destruct (al_addresses al !! a) as [[i |] |]; simpl; try discriminate.
  destruct (al_slotset al a) as [set |]; simpl; try discriminate.
  destruct (decide (slot ∈ set)); simpl; [reflexivity | discriminate].
Qed.

Lemma al_AddAddress_unchanged a al :
  fst (al_AddAddress a al) = false → snd (al_AddAddress a al) = al.
Proof.
  unfold al_AddAddress. destruct (al_addresses al !! a); simpl;
    [reflexivity | discriminate].
Qed.

Lemma set_accessList_id s : set_accessList (accessList_ s) s = s.
Proof. destruct s. reflexivity. Qed.

(** X22: on a well-formed access list, [AddSlotToAccessList a slot] makes
    [SlotInAccessList a slot] answer that both the address and the slot are
    present, and adds [a] and nothing else to the addresses that
    [AddressInAccessList] reports; so does [AddAddressToAccessList a] for the
    addresses.  A repeated call changes nothing: no entry is journalled
    for what is already present. *)
Theorem AccessList_add (s : CommitStateDB) (a b : Address) (slot : Hash) :
  al_wf (accessList_ s) →
  SlotInAccessList a slot (AddSlotToAccessList a slot s) = (true, true)
  ∧ AddressInAccessList b (AddSlotToAccessList a slot s)
    = bool_decide (b = a) || AddressInAccessList b s
  ∧ AddressInAccessList b (AddAddressToAccessList a s)
    = bool_decide (b = a) || AddressInAccessList b s
  ∧ AddSlotToAccessList a slot (AddSlotToAccessList a slot s)
    = AddSlotToAccessList a slot s
  ∧ AddAddressToAccessList a (AddAddressToAccessList a s)
    = AddAddressToAccessList a s.
Proof.
  intros Hwf.
  assert (Hal1 : accessList_ (AddSlotToAccessList a slot s)
                 = snd (al_AddSlot a slot (accessList_ s))).
  { unfold AddSlotToAccessList.
    destruct (al_AddSlot a slot (accessList_ s)) as [[[] []] al]; reflexivity. }
  assert (Hal2 : accessList_ (AddAddressToAccessList a s)
                 = snd (al_AddAddress a (accessList_ s))).
  { unfold AddAddressToAccessList.
    destruct (al_AddAddress a (accessList_ s)) as [[] al]; reflexivity. }
  assert (Hin : ∀ (v : option (gset Z)) (x : gset Z),
            bool_decide (is_Some (if decide (b = a) then Some x else v))
            = bool_decide (b = a) || bool_decide (is_Some v)).
  { intros v x. destruct (decide (b = a)) as [-> | Hne].
    - rewrite (bool_decide_eq_true_2 (a = a)) by reflexivity.
      apply bool_decide_eq_true. eauto.
    - rewrite (bool_decide_eq_false_2 (b = a)) by exact Hne. reflexivity. }
  split; [| split; [| split; [| split]]].
  - unfold SlotInAccessList. rewrite Hal1, al_Contains_view, al_view_AddSlot by exact Hwf.
    rewrite decide_True by reflexivity. f_equal. apply bool_decide_eq_true. set_solver.
  - unfold AddressInAccessList.
    rewrite Hal1, !al_ContainsAddress_view, al_view_AddSlot by exact Hwf. apply Hin.
  - unfold AddressInAccessList.
    rewrite Hal2, !al_ContainsAddress_view, al_view_AddAddress. apply Hin.
  - set (s1 := AddSlotToAccessList a slot s) in *.
    unfold AddSlotToAccessList at 1.
    pose proof (al_AddSlot_flags a slot (accessList_ s1)) as Hfl.
    pose proof (al_AddSlot_unchanged a slot (accessList_ s1)) as Hun.
    rewrite Hal1, al_view_AddSlot in Hfl by exact Hwf.
    rewrite decide_True in Hfl by reflexivity. rewrite <- Hal1 in Hfl.
    destruct (al_AddSlot a slot (accessList_ s1)) as [[addrMod slotMod] al].
    simpl in Hfl, Hun.
    assert (Hs : slotMod = false).
    { apply (f_equal snd) in Hfl. simpl in Hfl. rewrite Hfl.
      apply bool_decide_eq_false_2. set_solver. }
    assert (Ha : addrMod = false) by (apply (f_equal fst) in Hfl; exact Hfl).
    rewrite Hs, Ha, (Hun Hs). apply set_accessList_id.
  - set (s1 := AddAddressToAccessList a s) in *.
    unfold AddAddressToAccessList at 1.
    pose proof (al_AddAddress_flag a (accessList_ s1)) as Hfl.
    pose proof (al_AddAddress_unchanged a (accessList_ s1)) as Hun.
    rewrite Hal2, al_view_AddAddress in Hfl.
    rewrite decide_True in Hfl by reflexivity. rewrite <- Hal2 in Hfl.
    destruct (al_AddAddress a (accessList_ s1)) as [added al].
    simpl in Hfl, Hun.
    assert (Ha : added = false)
      by first [exact Hfl | rewrite Hfl; apply bool_decide_eq_false_2; discriminate].
    rewrite Ha, (Hun Ha). apply set_accessList_id.
Qed.

(** ** Reads *)

(** The operations that only read. *)
Definition reading (o : op) : bool :=
  match o with
  | OpGetParams | OpGetBalance _ | OpGetNonce _ | OpGetCode _ | OpGetCodeSize _
  | OpGetCodeHash _ | OpGetState _ _ | OpGetCommittedState _ _ | OpHasSuicided _
  | OpEmpty _ | OpExist _ | OpForEachStorage _ _ => true
  | _ => false
  end.

(** What a read may change: the cache of live objects, the memoised error
    and the cached parameters. *)
Definition read_only (s s' : CommitStateDB) : Prop :=
  wf_index s' ∧ view_equiv s s' ∧ ctx s' = ctx s ∧ journal_ s' = journal_ s
  ∧ validRevisions s' = validRevisions s ∧ stateObjectsDirty s' = stateObjectsDirty s.

Lemma read_only_live_only s s' :
  wf_index s' → live_only s s' → (∀ b, resolve s' b = resolve s b) → read_only s s'.
Proof.
  intros Hwf L Hres. split; [exact Hwf |]. split.
  - split; [apply frame_equiv_live_only, L |].
    apply objects_equiv_eq. intros b _. apply Hres.
  - destruct L as (Hc & Hsd & _ & _ & _ & _ & _ & _ & _ & _ & Hj & Hv & _). auto.
Qed.

Lemma read_only_getStateObject a s : wf_index s → read_only s (snd (getStateObject a s)).
Proof.
  intros Hwf. apply read_only_live_only.
  - destruct (getStateObject a s) as [o s1] eqn:Eg.
    apply (wf_index_getStateObject _ _ _ _ Eg Hwf).
  - apply live_only_getStateObject.
  - intros b. apply resolve_getStateObject, Hwf.
Qed.

Lemma read_only_trans s1 s2 s3 : read_only s1 s2 → read_only s2 s3 → read_only s1 s3.
Proof.
  intros (_ & V1 & C1 & J1 & R1 & D1) (W2 & V2 & C2 & J2 & R2 & D2).
  split; [exact W2 |]. split; [eapply view_equiv_trans; eassumption |].
  repeat split; congruence.
Qed.

(** Caching a committed value in the live object of [a]. *)
Lemma read_only_cache a s so so' :
  wf_index s → slot_of s a = Some (mkStateEntry a so) → deleted so = false →
  obj_equiv (ctx s) so so' → read_only s (modify_object a (λ _, so') s).
Proof.
  intros Hwf Hslot Hdel Heq.
  pose proof (live_only_modify_object a (λ _, so') s) as L.
  assert (Hdel' : deleted so' = false) by (rewrite <- (oe_deleted _ _ _ Heq); exact Hdel).
  split; [apply wf_index_modify_object, Hwf |]. split.
  - split; [apply frame_equiv_live_only, L |].
    intros b _. rewrite (resolve_modify_object a (λ _, so') s so b Hwf Hslot Hdel').
    destruct (decide (b = a)) as [-> | Hne]; [| apply opt_equiv_refl].
    rewrite (resolve_slot s a so Hslot Hdel). exact Heq.
  - destruct L as (Hc & Hsd & _ & _ & _ & _ & _ & _ & _ & _ & Hj & Hv & _). auto.
Qed.

Lemma read_only_GetParams s : wf_index s → read_only s (snd (GetParams s)).
Proof.
  intros Hwf.
  destruct (same_overlay_GetParams_but s)
    as (Hc & Hd & Hr & Hl & Hp & Hh & Ha & Hso & Hi & Hj & Hv & Hn).
  pose proof (GetParams_frame s) as (_ & _ & _ & Hsd).
  split; [eapply wf_index_ext; eassumption |]. split.
  - split.
    + split; try assumption. intros a. rewrite Ha. reflexivity.
    + apply objects_equiv_eq. intros b _. apply resolve_ext; assumption.
  - auto.
Qed.

(** X23: a read does not change what the reads return: after any of the
    getters, [Exist], [Empty], [ForEachStorage] or [GetParams], every getter
    returns what it returned before, and the stores, the journal, the stack
    of revisions and the dirty set are as they were (a read may cache an
    object or a committed value, and memoise an error). *)
Theorem reads_do_not_interfere (o : op) (s : CommitStateDB) :
  wf_index s → reading o = true →
  reads_alike s (exec o s)
  ∧ ctx (exec o s) = ctx s ∧ journal_ (exec o s) = journal_ s
  ∧ validRevisions (exec o s) = validRevisions s
  ∧ stateObjectsDirty (exec o s) = stateObjectsDirty s
  ∧ wf_index (exec o s).
Proof.
  intros Hwf Hr.
  assert (H : read_only s (exec o s)).
  { pose proof (read_only_getStateObject) as Hget.
    assert (Hcache : ∀ a (g : World → stateObject → Hash * stateObject),
              (∀ w so, obj_equiv w so (snd (g w so))) →
              read_only s
                (snd (let '(so, s1) := getStateObject a s in
                      match so with
                      | Some so' =>
                          let '(v, so'') := g (ctx s1) so' in
                          (v, modify_object a (λ _, so'') s1)
                      | None => (zeroHash, s1)
                      end))).
    { intros a g Hg. specialize (Hget a s Hwf).
      destruct (getStateObject a s) as [[so |] s1] eqn:Eg; [| exact Hget].
      destruct (getStateObject_Some a s so s1 Hwf Eg) as [Hslot Hdel].
      specialize (Hg (ctx s1) so). destruct (g (ctx s1) so) as [v so'']. simpl in *.
      eapply read_only_trans; [exact Hget |].
      apply (read_only_cache a s1 so so''); try assumption. apply Hget. }
    destruct o; simpl in Hr; try discriminate; simpl.
    - apply read_only_GetParams, Hwf.
    - unfold GetBalance. specialize (Hget addr s Hwf).
      destruct (getStateObject addr s) as [[so |] s1]; exact Hget.
    - unfold GetNonce. specialize (Hget addr s Hwf).
      destruct (getStateObject addr s) as [[so |] s1]; exact Hget.
    - unfold GetCode. specialize (Hget addr s Hwf).
      destruct (getStateObject addr s) as [[so |] s1]; exact Hget.
    - unfold GetCodeSize. specialize (Hget addr s Hwf).
      destruct (getStateObject addr s) as [[so |] s1]; [| exact Hget].
      destruct (so_code so); exact Hget.
    - unfold GetCodeHash. specialize (Hget addr s Hwf).
      destruct (getStateObject addr s) as [[so |] s1]; exact Hget.
    - apply (Hcache addr (λ w so, GetState_so w hash so)).
      intros w so. apply GetState_so_equiv.
    - apply (Hcache addr (λ w so, GetCommittedState_so w hash so)).
      intros w so. apply GetCommittedState_so_equiv.
    - unfold HasSuicided. specialize (Hget addr s Hwf).
      destruct (getStateObject addr s) as [[so |] s1]; exact Hget.
    - unfold Empty. specialize (Hget addr s Hwf).
      destruct (getStateObject addr s) as [[so |] s1]; exact Hget.
    - unfold Exist. specialize (Hget addr s Hwf).
      destruct (getStateObject addr s) as [so s1]; exact Hget.
    - unfold ForEachStorage. specialize (Hget addr s Hwf).
      destruct (getStateObject addr s) as [[so |] s1]; exact Hget. }
  destruct H as (W & V & C & J & R & D).
  split; [apply view_equiv_reads, V |]. auto.
Qed.

(** ** What the setters journal *)

(** X24: [GetOrNewStateObject a] journals nothing when an account exists
    for [a] and one [createObjectChange] when none does (a cached object
    marked deleted counts as none); [CreateAccount a] always journals one
    entry, a [createObjectChange] when no account existed and a
    [resetObjectChange] that keeps the previous object otherwise. *)
Theorem creation_journal (s : CommitStateDB) (a : Address) :
  wf_index s →
  entries (journal_ (snd (GetOrNewStateObject a s)))
  = entries (journal_ s) ++ (if fst (Exist a s) then [] else [createObjectChange a])
  ∧ if fst (Exist a s)
    then ∃ prev, entries (journal_ (CreateAccount a s))
                 = entries (journal_ s) ++ [resetObjectChange prev]
                 ∧ Balance (evmDenom s) prev = fst (GetBalance a s)
                 ∧ Nonce prev = fst (GetNonce a s)
    else entries (journal_ (CreateAccount a s))
         = entries (journal_ s) ++ [createObjectChange a].
Proof.
  intros Hwf. rewrite Exist_resolve, GetBalance_resolve, GetNonce_resolve.
  assert (Hj : ∀ t, journal_ (snd (getStateObject a t)) = journal_ t).
  { intros t. destruct (live_only_getStateObject a t)
      as (_ & _ & _ & _ & _ & _ & _ & _ & _ & _ & Hj & _). exact Hj. }
  assert (Hcreate : ∀ t, entries (journal_ (snd (createObject a t)))
            = entries (journal_ t)
              ++ [match resolve t a with
                  | None => createObjectChange a
                  | Some prev => resetObjectChange prev
                  end]).
  { intros t. destruct (createObject_journal a t) as [-> _].
    destruct (entries_live_only _ _
                (live_only_setStateObject
                   (setNonce 0 (newStateObject (NewAccountWithAddress a)))
                   (append_journal
                      (match resolve t a with
                       | None => createObjectChange a
                       | Some prev => resetObjectChange prev
                       end) (snd (getStateObject a t))))) as (-> & _).
    simpl. rewrite Hj. reflexivity. }
  split.
  - unfold GetOrNewStateObject.
    pose proof (getStateObject_fst a s) as Hf. pose proof (Hj s) as Hj1.
    pose proof (resolve_not_deleted s a) as Hnd.
    pose proof (Hcreate (snd (getStateObject a s))) as Hc.
    pose proof (resolve_getStateObject a s a Hwf) as Hr1.
    destruct (getStateObject a s) as [o s1]. simpl in Hf, Hj1, Hc, Hr1. subst o.
    destruct (resolve s a) as [so |] eqn:Er.
    + rewrite (Hnd so eq_refl). simpl. rewrite Hj1, app_nil_r. reflexivity.
    + destruct (createObject a s1) as [r s2]. simpl in *.
      rewrite Hc, Hj1, Hr1. reflexivity.
  - unfold CreateAccount.
    pose proof (Hcreate s) as Hc.
    destruct (createObject_journal a s) as [_ Hprev].
    destruct (createObject a s) as [[newobj prevobj] s1]. simpl in Hc, Hprev.
    subst prevobj. destruct (resolve s a) as [prev |] eqn:Er; simpl.
    + destruct (same_overlay_GetParams_but s1)
        as (_ & _ & _ & _ & _ & _ & _ & _ & _ & Hj2 & _).
      destruct (GetParams s1) as [p s2]. simpl in Hj2.
      exists prev.
      destruct (entries_live_only _ _
                  (live_only_modify_object a
                     (setBalance (EvmDenom p) (Balance (EvmDenom p) prev)) s2))
        as (-> & _).
      rewrite Hj2, Hc. repeat split.
    + exact Hc.
Qed.

(** X25: [Empty a] is true exactly when no account exists for [a], or its
    nonce is zero, its balance is zero and its code hash is that of the
    empty code. *)
Theorem Empty_spec (s : CommitStateDB) (a : Address) :
  fst (Empty a s)
  = negb (fst (Exist a s))
    || (bool_decide (fst (GetNonce a s) = 0)
        && bool_decide (fst (GetBalance a s) = 0)
        && bool_decide (fst (GetCodeHash a s) = emptyCodeHash)).
Proof.
  rewrite Empty_resolve, Exist_resolve, GetNonce_resolve, GetBalance_resolve,
    GetCodeHash_resolve.
  destruct (resolve s a) as [so |]; reflexivity.
Qed.

(** ** The dirty set between [Finalise] and [Commit] *)

(** The writes to the stores leave the index map and the dirty set alone. *)
Definition marks_kept (s s' : CommitStateDB) : Prop :=
  addressToObjectIndex s' = addressToObjectIndex s
  ∧ stateObjectsDirty s' = stateObjectsDirty s.

Lemma marks_kept_updateStateObject idx s : marks_kept s (snd (updateStateObject idx s)).
Proof.
  unfold updateStateObject. destruct (stateObjects s !! idx); [| split; reflexivity].
  destruct (GetParams_frame s) as (_ & _ & Hi & Hd).
  destruct (GetParams s) as [p s1]. simpl in Hi, Hd.
  destruct (negb _); [split; assumption |].
  destruct (BlacklistedAddr _ _); split; assumption.
Qed.

Lemma marks_kept_deleteStateObject idx s : marks_kept s (deleteStateObject idx s).
Proof. unfold deleteStateObject. destruct (stateObjects s !! idx); split; reflexivity. Qed.

Lemma finalise_step_dirty b d s s1 :
  wf_index s → finalise_step b d s = (None, s1) →
  addressToObjectIndex s1 = addressToObjectIndex s
  ∧ stateObjectsDirty s1
    = (if bool_decide (is_Some (addressToObjectIndex s !! dirty_address d))
       then {[dirty_address d]} ∪ stateObjectsDirty s
       else stateObjectsDirty s).
Proof.
  intros [W1 _] Hstep. unfold finalise_step in Hstep.
  destruct (addressToObjectIndex s !! dirty_address d) as [idx |] eqn:Hi.
  2: { injection Hstep as <-. split; reflexivity. }
  destruct (W1 _ _ Hi) as (e & He & _). rewrite He in Hstep.
  rewrite bool_decide_eq_true_2 by eauto.
  match type of Hstep with context [let '(err, s1) := ?X in _] =>
    assert (H : marks_kept s (snd X)); [| destruct X as [[err |] s2]; simpl in * ] end.
  - destruct (_ || _); [apply marks_kept_deleteStateObject |].
    destruct (commitState (ctx s) (se_stateObject e)) as [w so'].
    match goal with |- marks_kept _ (snd (updateStateObject _ ?t)) =>
      destruct (marks_kept_updateStateObject idx t) as [H1 H2] end.
    split; [rewrite H1 | rewrite H2]; reflexivity.
  - discriminate.
  - injection Hstep as <-. destruct H as [H1 H2]. simpl. rewrite H1, H2.
    split; reflexivity.
Qed.

Lemma finalise_loop_dirty b ds :
  ∀ s s', wf_index s → finalise_loop b ds s = (None, s') →
    addressToObjectIndex s' = addressToObjectIndex s
    ∧ ∀ a, a ∈ stateObjectsDirty s'
           ↔ a ∈ stateObjectsDirty s
             ∨ (a ∈ dirty_address <$> ds ∧ is_Some (addressToObjectIndex s !! a)).
Proof.
  induction ds as [| d rest IH]; intros s s' Hwf Hloop; simpl in Hloop.
  - injection Hloop as <-. split; [reflexivity |].
    intros a. split; [auto |]. intros [H | [H _]]; [exact H | inversion H].
  - pose proof (wf_index_finalise_step b d s Hwf) as Hwf1.
    destruct (finalise_step b d s) as [[err |] s1] eqn:Hs; [discriminate |].
    simpl in Hwf1.
    destruct (finalise_step_dirty b d s s1 Hwf Hs) as [Hi Hd].
    destruct (IH s1 s' Hwf1 Hloop) as [Hi' Hd'].
    split; [congruence |].
    intros a. rewrite Hd', Hd, Hi, fmap_cons, elem_of_cons.
    case_bool_decide as Hsome.
    + rewrite elem_of_union, elem_of_singleton. split.
      * intros [[-> | H] | [H1 H2]]; auto.
      * intros [H | [[-> | H1] H2]]; auto.
    + split.
      * intros [H | [H1 H2]]; auto.
      * intros [H | [[-> | H1] H2]]; auto. contradiction.
Qed.

(** X26: a [Finalise] that returns no error marks as dirty, for the next
    [Commit], exactly the addresses the journal had dirtied that have a live
    object, on top of those that were marked already; the index map is
    unchanged. *)
Theorem Finalise_marks_dirty (b : bool) (s : CommitStateDB) (a : Address) :
  wf_index s → fst (Finalise b s) = None →
  addressToObjectIndex (snd (Finalise b s)) = addressToObjectIndex s
  ∧ (a ∈ stateObjectsDirty (snd (Finalise b s))
     ↔ a ∈ stateObjectsDirty s
       ∨ (a ∈ dirty_address <$> dirties (journal_ s)
          ∧ is_Some (addressToObjectIndex s !! a))).
Proof.
  intros Hwf Hok. unfold Finalise in *.
  pose proof (finalise_loop_dirty b (dirties (journal_ s)) s) as H.
  destruct (finalise_loop b (dirties (journal_ s)) s) as [[err |] s1];
    [discriminate |].
  destruct (H s1 Hwf eq_refl) as [Hi Hd]. simpl. split; [exact Hi | apply Hd].
Qed.

(** ** A second [Commit] *)

Definition suicided_at (s : CommitStateDB) (j : nat) : option bool :=
  (λ e, suicided (se_stateObject e)) <$> stateObjects s !! j.

Lemma suicided_at_modify_at idx f s j :
  (∀ e, stateObjects s !! idx = Some e →
        suicided (f (se_stateObject e)) = suicided (se_stateObject e)) →
  suicided_at (modify_at idx f s) j = suicided_at s j.
Proof.
  intros Hf. unfold suicided_at, modify_at. simpl. rewrite list_lookup_alter.
  destruct (decide (idx = j)) as [<- | Hne]; [| reflexivity].
  destruct (stateObjects s !! idx) as [e |] eqn:He; [| reflexivity].
  simpl. rewrite (Hf e eq_refl). reflexivity.
Qed.

Lemma suicided_at_updateStateObject idx s j :
  suicided_at (snd (updateStateObject idx s)) j = suicided_at s j.
Proof.
  unfold updateStateObject. destruct (stateObjects s !! idx); [| reflexivity].
  destruct (GetParams_frame s) as (_ & Hl & _ & _).
  destruct (GetParams s) as [p s1]. simpl in Hl.
  assert (H1 : suicided_at s1 j = suicided_at s j)
    by (unfold suicided_at; rewrite Hl; reflexivity).
  destruct (negb _); [exact H1 |]. destruct (BlacklistedAddr _ _); [exact H1 |].
  simpl. rewrite <- H1.
  match goal with |- suicided_at (set_ctx _ (modify_at idx ?f s1)) j = _ =>
    transitivity (suicided_at (modify_at idx f s1) j); [reflexivity |] end.
  apply suicided_at_modify_at. reflexivity.
Qed.

Lemma suicided_at_commit_step b idx t j :
  suicided_at (snd (commit_step b idx t)) j = suicided_at t j.
Proof.
  unfold commit_step. destruct (stateObjects t !! idx) as [e |] eqn:He; [| reflexivity].
  match goal with |- context [let '(err, s1) := ?X in _] =>
    assert (H : suicided_at (snd X) j = suicided_at t j);
      [| destruct X as [[err |] s1]; simpl in *; exact H] end.
  destruct (_ || _).
  - unfold deleteStateObject. rewrite He. simpl.
    transitivity (suicided_at (modify_at idx (set_deleted true) t) j); [reflexivity |].
    apply suicided_at_modify_at. reflexivity.
  - destruct (bool_decide _); [| reflexivity].
    rewrite suicided_at_updateStateObject.
    destruct (_ && _); [| reflexivity].
    unfold commitCode. simpl.
    rewrite suicided_at_modify_at by reflexivity.
    match goal with |- suicided_at (modify_at idx ?f ?u) j = _ =>
      transitivity (suicided_at u j); [| reflexivity] end.
    apply suicided_at_modify_at. simpl. intros e' He'.
    assert (e' = e) by congruence. subst e'. reflexivity.
Qed.

Lemma suicided_at_commit_loop b idxs t j :
  suicided_at (snd (commit_loop b idxs t)) j = suicided_at t j.
Proof.
  revert t. induction idxs as [| idx rest IH]; intros t; simpl; [reflexivity |].
  pose proof (suicided_at_commit_step b idx t j) as H.
  destruct (commit_step b idx t) as [[err |] t1]; simpl in *; [exact H |].
  rewrite IH. exact H.
Qed.

(** After the loop of [Commit] none of the objects it went through is
    marked dirty. *)
Lemma commit_loop_clean b idxs :
  ∀ t t', commit_loop b idxs t = (None, t') →
    stateObjectsDirty t' ⊆ stateObjectsDirty t
    ∧ (∀ j, se_address <$> stateObjects t' !! j = se_address <$> stateObjects t !! j)
    ∧ ∀ idx e, idx ∈ idxs → stateObjects t !! idx = Some e →
               se_address e ∉ stateObjectsDirty t'.
Proof.
  induction idxs as [| i0 rest IH]; intros t t' Hloop; simpl in Hloop.
  - injection Hloop as <-. split; [reflexivity |]. split; [reflexivity |].
    intros idx e Hin. inversion Hin.
  - destruct (commit_step b i0 t) as [[err |] t1] eqn:Hs; [discriminate |].
    destruct (IH t1 t' Hloop) as (I1 & I2 & I3).
    assert (Hstep : stateObjectsDirty t1 ⊆ stateObjectsDirty t
              ∧ (∀ j, se_address <$> stateObjects t1 !! j
                      = se_address <$> stateObjects t !! j)
              ∧ ∀ e, stateObjects t !! i0 = Some e → se_address e ∉ stateObjectsDirty t1).
    { destruct (stateObjects t !! i0) as [e0 |] eqn:He0.
      - destruct (commit_step_facts b i0 t t1 e0 He0 Hs)
          as (_ & Hoth & (so1 & Hso1 & _) & Hd & _).
        split; [rewrite Hd; set_solver |]. split.
        + intros j. destruct (decide (j = i0)) as [-> | Hne].
          * rewrite Hso1, He0. reflexivity.
          * rewrite (Hoth j Hne). reflexivity.
        + intros e He. injection He as <-. rewrite Hd. set_solver.
      - unfold commit_step in Hs. rewrite He0 in Hs. injection Hs as <-.
        split; [reflexivity |]. split; [reflexivity |]. intros e He. discriminate. }
    destruct Hstep as (S1 & S2 & S3).
    split; [set_solver |]. split; [intros j; rewrite I2; apply S2 |].
    intros idx e Hin He. apply elem_of_cons in Hin. destruct Hin as [-> | Hin].
    + intros Hd. apply (S3 e He). apply I1, Hd.
    + pose proof (S2 idx) as Ha. rewrite He in Ha. simpl in Ha.
      destruct (stateObjects t1 !! idx) as [e1 |] eqn:He1; [| discriminate].
      assert (Hae : se_address e1 = se_address e) by (simpl in Ha; congruence).
      rewrite <- Hae. apply (I3 idx e1 Hin He1).
Qed.

(** The loop of [Commit] on an overlay that is committed already. *)
Lemma commit_loop_fixed b idxs s :
  (∀ idx e, idx ∈ idxs → stateObjects s !! idx = Some e →
     (se_address e ∉ stateObjectsDirty s)
     ∧ (suicided (se_stateObject e) = true →
        deleted (se_stateObject e) = true
        ∧ accounts (ctx s) !! acc_address (so_account (se_stateObject e)) = None)) →
  commit_loop b idxs s = (None, s).
Proof.
  induction idxs as [| idx rest IH]; intros H; simpl; [reflexivity |].
  assert (Hstep : commit_step b idx s = (None, s)).
  { unfold commit_step. destruct (stateObjects s !! idx) as [e |] eqn:He; [| reflexivity].
    destruct (H idx e (list_elem_of_here _ _) He) as [Hnd Hsu].
    rewrite (bool_decide_eq_false_2 _ Hnd). simpl. rewrite orb_false_r.
    assert (Hdirty : stateObjectsDirty s ∖ {[se_address e]} = stateObjectsDirty s)
      by set_solver.
    destruct (suicided (se_stateObject e)) eqn:Es.
    - destruct (Hsu eq_refl) as [Hdel Hacc].
      unfold deleteStateObject. rewrite He. simpl. f_equal.
      assert (Hl : alter (λ e0, mkStateEntry (se_address e0)
                                  (set_deleted true (se_stateObject e0))) idx
                     (stateObjects s) = stateObjects s).
      { apply alter_at_id. intros x Hx. assert (x = e) by congruence. subst x.
        destruct e as [a0 [? ? ? ? ? ? ? ?]]. simpl in *. subst. reflexivity. }
      assert (Hw : RemoveAccount (so_account (se_stateObject e)) (ctx s) = ctx s).
      { unfold RemoveAccount. rewrite (delete_id _ _ Hacc).
        destruct (ctx s). reflexivity. }
      unfold modify_at. simpl. rewrite Hl, Hw, Hdirty. destruct s. reflexivity.
    - simpl. f_equal. rewrite Hdirty. destruct s. reflexivity. }
  rewrite Hstep. apply IH. intros idx' e Hin. apply H. right. exact Hin.
Qed.

(** X27: [Commit] is idempotent: on an overlay whose index map is
    consistent with its live objects and whose objects carry the address of
    their slot, a [Commit] that follows a [Commit] that returned no error
    returns no error either and changes nothing, in the overlay or in the
    stores. *)
Theorem Commit_idempotent (b : bool) (s : CommitStateDB) :
  wf_index s → wf_objects s → snd (fst (Commit b s)) = None →
  Commit b (snd (Commit b s)) = ((zeroHash, None), snd (Commit b s)).
Proof.
  intros Hwf Hwo Hok. unfold Commit in Hok.
  set (s1 := set_stateObjectsDirty _ s) in *.
  assert (Hfirst : snd (Commit b s)
                   = clearJournalAndRefund
                       (snd (commit_loop b (seq 0 (length (stateObjects s1))) s1))).
  { unfold Commit. fold s1. destruct (commit_loop _ _ _). reflexivity. }
  destruct (commit_loop b (seq 0 (length (stateObjects s1))) s1) as [err s2] eqn:Hloop.
  simpl in Hok, Hfirst. subst err. rewrite Hfirst.
  destruct (commit_loop_clean b _ s1 s2 Hloop) as (_ & Haddr & Hclean).
  destruct (commit_loop_facts b _ s1 s2 Hwf Hwo (NoDup_seq _ _) Hloop) as (_ & Hfacts & _).
  assert (Hlen : ∀ j e2, stateObjects s2 !! j = Some e2 →
                 ∃ e, stateObjects s1 !! j = Some e ∧ se_address e = se_address e2
                      ∧ j ∈ seq 0 (length (stateObjects s1))).
  { intros j e2 He2. pose proof (Haddr j) as Ha. rewrite He2 in Ha.
    destruct (stateObjects s1 !! j) as [e |] eqn:He; [| discriminate Ha].
    assert (Hae : se_address e = se_address e2) by (simpl in Ha; congruence).
    exists e. split; [reflexivity |].
    split; [exact Hae |]. apply elem_of_seq. split; [lia |].
    apply lookup_lt_Some in He. lia. }
  set (s' := clearJournalAndRefund s2).
  assert (Hfix : commit_loop b (seq 0 (length (stateObjects s'))) s' = (None, s')).
  { apply commit_loop_fixed. intros j e2 _ He2.
    change (stateObjects s2 !! j = Some e2) in He2.
    change (stateObjectsDirty s') with (stateObjectsDirty s2).
    change (ctx s') with (ctx s2).
    destruct (Hlen j e2 He2) as (e & He & Hae & Hin). split.
    - rewrite <- Hae. apply (Hclean j e Hin He).
    - intros Hsu2.
      assert (Hsu : suicided (se_stateObject e) = true).
      { pose proof (suicided_at_commit_loop b (seq 0 (length (stateObjects s1))) s1 j) as Hf.
        rewrite Hloop in Hf. unfold suicided_at in Hf. cbn [snd] in Hf.
        rewrite He2, He in Hf. simpl in Hf. congruence. }
      pose proof (commit_loop_suicided b _ s1 s2 j e (NoDup_seq _ _) Hloop Hin He Hsu)
        as Hafter.
      rewrite He2 in Hafter. injection Hafter as ->. simpl.
      split; [reflexivity |].
      destruct (Hfacts j e Hin He) as [Hdel _]. cbv zeta in Hdel.
      rewrite Hsu in Hdel. simpl in Hdel.
      destruct (Hwo j e He) as [_ Hacc]. rewrite Hacc. apply Hdel. reflexivity. }
  unfold Commit. cbv zeta.
  assert (Hs1 : set_stateObjectsDirty
                  (foldl (λ d x, {[dirty_address x]} ∪ d) (stateObjectsDirty s')
                         (dirties (journal_ s'))) s' = s')
    by (unfold s'; destruct s2; reflexivity).
  rewrite Hs1, Hfix. unfold s'. destruct s2; reflexivity.
Qed.

(** ** The stack of revisions on the overlays reached by public operations *)

(** The stack of revisions and the revision counter are as they were. *)
Definition rev_kept (s s' : CommitStateDB) : Prop :=
  validRevisions s' = validRevisions s ∧ nextRevisionID s' = nextRevisionID s.

Lemma rev_kept_refl s : rev_kept s s.
Proof. split; reflexivity. Qed.

Lemma rev_kept_trans s1 s2 s3 : rev_kept s1 s2 → rev_kept s2 s3 → rev_kept s1 s3.
Proof. intros [] []. split; congruence. Qed.

Lemma rev_kept_live_only s s' : live_only s s' → rev_kept s s'.
Proof. intros H. destruct (entries_live_only _ _ H) as (_ & H1 & H2). split; assumption. Qed.

Lemma rev_kept_tx_frame s s' : tx_frame s s' → rev_kept s s'.
Proof. intros (_&_&_&_&_&_&_&_&_&H1&H2&_). split; assumption. Qed.

Lemma rev_kept_GetParams s : rev_kept s (snd (GetParams s)).
Proof. unfold GetParams. destruct (params s); split; reflexivity. Qed.

Lemma rev_kept_getStateObject a s : rev_kept s (snd (getStateObject a s)).
Proof. apply rev_kept_live_only, live_only_getStateObject. Qed.

Lemma rev_kept_createObject a s : rev_kept s (snd (createObject a s)).
Proof.
  unfold createObject. pose proof (rev_kept_getStateObject a s) as H.
  destruct (getStateObject a s) as [prev s1]. simpl in *.
  eapply rev_kept_trans; [exact H |].
  eapply rev_kept_trans; [| apply rev_kept_live_only, live_only_setStateObject].
  destruct prev; split; reflexivity.
Qed.

Lemma rev_kept_GetOrNewStateObject a s : rev_kept s (snd (GetOrNewStateObject a s)).
Proof.
  unfold GetOrNewStateObject. pose proof (rev_kept_getStateObject a s) as H.
  destruct (getStateObject a s) as [so s1]. simpl in H.
  pose proof (rev_kept_createObject a s1) as H2.
  destruct (createObject a s1) as [r s2]. simpl in H2.
  destruct so as [so |]; [destruct (deleted so) |]; simpl;
    first [exact H | eapply rev_kept_trans; eassumption].
Qed.

Lemma rev_kept_write a f e s : rev_kept s (modify_object a f (append_journal e s)).
Proof.
  eapply rev_kept_trans; [| apply rev_kept_live_only, live_only_modify_object].
  split; reflexivity.
Qed.

Lemma rev_kept_so_SetBalance a amount s : rev_kept s (so_SetBalance a amount s).
Proof.
  unfold so_SetBalance. destruct (slot_of s a); [apply rev_kept_write | apply rev_kept_refl].
Qed.

Lemma rev_kept_so_AddBalance a amount s : rev_kept s (so_AddBalance a amount s).
Proof.
  unfold so_AddBalance.
  destruct (slot_of s a); [apply rev_kept_so_SetBalance | apply rev_kept_refl].
Qed.

Lemma rev_kept_so_SubBalance a amount s : rev_kept s (res_state (so_SubBalance a amount s)).
Proof.
  unfold so_SubBalance. destruct (slot_of s a); [| apply rev_kept_refl].
  destruct (decide _); simpl; [apply rev_kept_refl | apply rev_kept_so_SetBalance].
Qed.

Lemma rev_kept_so_SetNonce a n s : rev_kept s (so_SetNonce a n s).
Proof.
  unfold so_SetNonce. destruct (slot_of s a); [apply rev_kept_write | apply rev_kept_refl].
Qed.

Lemma rev_kept_so_SetCode a h c s : rev_kept s (so_SetCode a h c s).
Proof.
  unfold so_SetCode. destruct (slot_of s a); [apply rev_kept_write | apply rev_kept_refl].
Qed.

Lemma rev_kept_so_SetState a k v s : rev_kept s (so_SetState a k v s).
Proof.
  unfold so_SetState. destruct (slot_of s a); [| apply rev_kept_refl].
  destruct (GetState_so _ _ _) as [cur so].
  pose proof (rev_kept_live_only _ _ (live_only_modify_object a (λ _, so) s)) as H.
  destruct (decide _); [exact H |].
  eapply rev_kept_trans; [exact H | apply rev_kept_write].
Qed.

Lemma rev_kept_updateAccounts_step idx s : rev_kept s (updateAccounts_step idx s).
Proof.
  unfold updateAccounts_step. destruct (stateObjects s !! idx); [| apply rev_kept_refl].
  destruct (GetAccount _ _); [| apply rev_kept_refl].
  pose proof (rev_kept_GetParams s) as H. destruct (GetParams s) as [p s1]. simpl in H.
  destruct (_ || _); [| exact H].
  eapply rev_kept_trans; [exact H | split; reflexivity].
Qed.

Lemma rev_kept_UpdateAccounts s : rev_kept s (UpdateAccounts s).
Proof.
  unfold UpdateAccounts. generalize (seq 0 (length (stateObjects s))). intros l.
  revert s. induction l as [| idx l IH]; intros s; simpl; [apply rev_kept_refl |].
  eapply rev_kept_trans; [apply rev_kept_updateAccounts_step | apply IH].
Qed.

(** The operations that neither take nor drop a snapshot. *)
Definition keeps_revisions (o : op) : bool :=
  match o with
  | OpSnapshot | OpRevertToSnapshot _ | OpCommit _ | OpFinalise _
  | OpIntermediateRoot _ | OpReset _ => false
  | _ => true
  end.

Lemma rev_kept_exec o s : keeps_revisions o = true → rev_kept s (exec o s).
Proof.
  intros Hk. destruct o; simpl in Hk; try discriminate; simpl;
    try (split; reflexivity).
  - unfold SetBalance. pose proof (rev_kept_GetOrNewStateObject addr s) as H.
    destruct (GetOrNewStateObject addr s) as [x s1].
    eapply rev_kept_trans; [exact H | apply rev_kept_so_SetBalance].
  - unfold AddBalance. pose proof (rev_kept_GetOrNewStateObject addr s) as H.
    destruct (GetOrNewStateObject addr s) as [x s1].
    eapply rev_kept_trans; [exact H | apply rev_kept_so_AddBalance].
  - unfold SubBalance. pose proof (rev_kept_GetOrNewStateObject addr s) as H.
    destruct (GetOrNewStateObject addr s) as [x s1].
    eapply rev_kept_trans; [exact H | apply rev_kept_so_SubBalance].
  - unfold SetNonce. pose proof (rev_kept_GetOrNewStateObject addr s) as H.
    destruct (GetOrNewStateObject addr s) as [x s1].
    eapply rev_kept_trans; [exact H | apply rev_kept_so_SetNonce].
  - unfold SetState. pose proof (rev_kept_GetOrNewStateObject addr s) as H.
    destruct (GetOrNewStateObject addr s) as [x s1].
    eapply rev_kept_trans; [exact H | apply rev_kept_so_SetState].
  - unfold SetCode. pose proof (rev_kept_GetOrNewStateObject addr s) as H.
    destruct (GetOrNewStateObject addr s) as [x s1].
    eapply rev_kept_trans; [exact H | apply rev_kept_so_SetCode].
  - unfold AddPreimage. destruct (_ !! _); split; reflexivity.
  - unfold SubRefund. destruct (decide _); split; reflexivity.
  - unfold AddAddressToAccessList. destruct (al_AddAddress _ _) as [[] al]; split; reflexivity.
  - unfold AddSlotToAccessList.
    destruct (al_AddSlot _ _ _) as [[[] []] al]; split; reflexivity.
  - apply rev_kept_GetParams.
  - unfold GetBalance. pose proof (rev_kept_getStateObject addr s) as H.
    destruct (getStateObject addr s) as [[so |] s1]; exact H.
  - unfold GetNonce. pose proof (rev_kept_getStateObject addr s) as H.
    destruct (getStateObject addr s) as [[so |] s1]; exact H.
  - unfold GetCode. pose proof (rev_kept_getStateObject addr s) as H.
    destruct (getStateObject addr s) as [[so |] s1]; exact H.
  - unfold GetCodeSize. pose proof (rev_kept_getStateObject addr s) as H.
    destruct (getStateObject addr s) as [[so |] s1]; [destruct (so_code so) |]; exact H.
  - unfold GetCodeHash. pose proof (rev_kept_getStateObject addr s) as H.
    destruct (getStateObject addr s) as [[so |] s1]; exact H.
  - unfold GetState. pose proof (rev_kept_getStateObject addr s) as H.
    destruct (getStateObject addr s) as [[so |] s1]; [| exact H].
    destruct (GetState_so _ _ _) as [v so']. simpl.
    eapply rev_kept_trans; [exact H | apply rev_kept_live_only, live_only_modify_object].
  - unfold GetCommittedState. pose proof (rev_kept_getStateObject addr s) as H.
    destruct (getStateObject addr s) as [[so |] s1]; [| exact H].
    destruct (GetCommittedState_so _ _ _) as [v so']. simpl.
    eapply rev_kept_trans; [exact H | apply rev_kept_live_only, live_only_modify_object].
  - unfold HasSuicided. pose proof (rev_kept_getStateObject addr s) as H.
    destruct (getStateObject addr s) as [[so |] s1]; exact H.
  - unfold Empty. pose proof (rev_kept_getStateObject addr s) as H.
    destruct (getStateObject addr s) as [[so |] s1]; exact H.
  - unfold Exist. pose proof (rev_kept_getStateObject addr s) as H.
    destruct (getStateObject addr s) as [o s1]; exact H.
  - unfold Suicide. pose proof (rev_kept_getStateObject addr s) as H.
    destruct (getStateObject addr s) as [[so |] s1]; [| exact H]. simpl.
    eapply rev_kept_trans; [exact H |].
    eapply rev_kept_trans; [| apply rev_kept_so_SetBalance].
    apply rev_kept_write.
  - apply rev_kept_UpdateAccounts.
  - unfold CreateAccount. pose proof (rev_kept_createObject addr s) as H.
    destruct (createObject addr s) as [[newobj prevobj] s1]. simpl in H.
    destruct prevobj; [| exact H].
    pose proof (rev_kept_GetParams s1) as H2. destruct (GetParams s1) as [p s2]. simpl in H2.
    eapply rev_kept_trans; [exact H |]. eapply rev_kept_trans; [exact H2 |].
    apply rev_kept_live_only, live_only_modify_object.
  - unfold ForEachStorage. pose proof (rev_kept_getStateObject addr s) as H.
    destruct (getStateObject addr s) as [[so |] s1]; exact H.
  - apply rev_kept_GetOrNewStateObject.
Qed.

Lemma rev_inv_kept s s' : rev_kept s s' → rev_inv s → rev_inv s'.
Proof. intros [Hv Hn] Hi. unfold rev_inv. rewrite Hv, Hn. exact Hi. Qed.

Lemma rev_inv_nil s : validRevisions s = [] → rev_inv s.
Proof.
  intros H. unfold rev_inv. rewrite H. split.
  - intros i j ri rj Hi. rewrite lookup_nil in Hi. discriminate.
  - intros r Hr. inversion Hr.
Qed.

Lemma rev_inv_Finalise b s :
  rev_inv s →
  rev_inv (snd (Finalise b s)) ∧ nextRevisionID (snd (Finalise b s)) = nextRevisionID s.
Proof.
  intros Hi. unfold Finalise.
  pose proof (rev_kept_tx_frame _ _ (tx_frame_finalise_loop b (dirties (journal_ s)) s)) as H.
  destruct (finalise_loop b (dirties (journal_ s)) s) as [[err |] s1]; simpl in *.
  - split; [apply (rev_inv_kept s); assumption | apply H].
  - split; [apply rev_inv_nil; reflexivity | apply H].
Qed.

(** The calls of [Snapshot] among a sequence of operations. *)
Fixpoint snapshots (ops : list op) : nat :=
  match ops with
  | [] => 0
  | OpSnapshot :: t => S (snapshots t)
  | _ :: t => snapshots t
  end.

Lemma snapshots_cons o ops : snapshots (o :: ops) = (snapshots [o] + snapshots ops)%nat.
Proof. destruct o; reflexivity. Qed.

(** A public operation keeps the stack of revisions in order below the
    counter, which only [Snapshot] advances, as long as the counter has not
    reached the largest [int]. *)
Lemma rev_inv_exec o s :
  rev_inv s → - 2 ^ 63 ≤ nextRevisionID s →
  nextRevisionID s + Z.of_nat (snapshots [o]) < 2 ^ 63 →
  rev_inv (exec o s)
  ∧ nextRevisionID (exec o s) = nextRevisionID s + Z.of_nat (snapshots [o]).
Proof.
  intros Hi Hlo Hhi.
  destruct (keeps_revisions o) eqn:Hk.
  { pose proof (rev_kept_exec o s Hk) as H.
    split; [apply (rev_inv_kept s); assumption |].
    destruct H as [_ ->]. destruct o; simpl in *; try discriminate; lia. }
  destruct o; simpl in Hk; try discriminate; simpl in *.
  - (* Commit *)
    unfold Commit.
    match goal with |- context [commit_loop ?b ?l ?t] =>
      pose proof (rev_kept_tx_frame _ _ (tx_frame_commit_loop b l t)) as H;
      destruct (commit_loop b l t) as [err s2] end.
    simpl in *. split; [apply rev_inv_nil; reflexivity |].
    destruct H as [_ H]. simpl in H. lia.
  - (* Finalise *)
    destruct (rev_inv_Finalise deleteEmptyObjects s Hi) as [H1 H2]. split; [exact H1 | lia].
  - (* IntermediateRoot *)
    destruct (rev_inv_Finalise deleteEmptyObjects s Hi) as [H1 H2].
    unfold IntermediateRoot.
    destruct (Finalise deleteEmptyObjects s) as [[err |] s1]; simpl in *;
      (split; [exact H1 | lia]).
  - (* Snapshot *)
    destruct Hi as [Hs Hlt].
    assert (Hnext : wrapInt (nextRevisionID s + 1) = nextRevisionID s + 1)
      by (apply wrapInt_small; lia).
    rewrite Hnext. split; [| lia]. split.
    + apply revisions_sorted_snoc; [exact Hs | exact Hlt].
    + intros r Hr. apply elem_of_app in Hr. destruct Hr as [Hr | Hr].
      * specialize (Hlt r Hr). simpl. lia.
      * apply list_elem_of_singleton in Hr. subst r. simpl. lia.
  - (* RevertToSnapshot *)
    unfold RevertToSnapshot.
    destruct (validRevisions s !! _) as [r |]; [| split; [exact Hi | simpl; lia]].
    destruct (decide _); [| split; [exact Hi | simpl; lia]].
    cbn [res_state].
    destruct (journal_revert_spec (journalIndex r) s) as (_ & Hv & Hn).
    rewrite Hv, Hn.
    match goal with |- context [set_revisions (take ?n _) _ _] => set (idx := n) end.
    set (sr := set_revisions _ _ _).
    assert (Hvr : validRevisions sr = take idx (validRevisions s)) by reflexivity.
    assert (Hnr : nextRevisionID sr = nextRevisionID s) by reflexivity.
    unfold rev_inv. rewrite Hvr, Hnr. split; [| lia].
    destruct Hi as [Hs Hlt]. split; [apply revisions_sorted_take, Hs |].
    intros x Hx. apply Hlt.
    apply list_elem_of_lookup_1 in Hx. destruct Hx as [i Hx].
    apply lookup_take_Some in Hx. eapply list_elem_of_lookup_2. apply Hx.
  - (* Reset *)
    split; [apply rev_inv_nil; reflexivity | lia].
Qed.

Lemma rev_inv_run ops :
  ∀ s, rev_inv s → - 2 ^ 63 ≤ nextRevisionID s →
       nextRevisionID s + Z.of_nat (snapshots ops) < 2 ^ 63 →
       rev_inv (run ops s)
       ∧ nextRevisionID (run ops s) = nextRevisionID s + Z.of_nat (snapshots ops).
Proof.
  induction ops as [| o ops IH]; intros s Hi Hlo Hhi.
  - simpl. split; [exact Hi | lia].
  - rewrite snapshots_cons in Hhi |- *.
    destruct (rev_inv_exec o s Hi Hlo) as [H1 H2]; [lia |].
    destruct (IH (exec o s) H1) as [H3 H4]; [lia | lia |].
    split; [exact H3 |]. simpl in *. lia.
Qed.

(** The stack of revisions is in order in every overlay reached from a
    fresh one by public operations of which fewer than [2^63] are calls of
    [Snapshot]. *)
Lemma revisions_sorted_run (w : World) (ops : list op) :
  Z.of_nat (snapshots ops) < 2 ^ 63 →
  revisions_sorted (validRevisions (run ops (CreateEmptyCommitStateDB w))).
Proof.
  intros H. apply (rev_inv_run ops (CreateEmptyCommitStateDB w)).
  - apply rev_inv_nil. reflexivity.
  - simpl. lia.
  - simpl. lia.
Qed.

(** C7.  On every overlay, [RevertToSnapshot id] either returns or panics
    with the revision error, leaving the overlay as it was; when it
    returns, it has found a revision of the stack with identifier [id],
    reverted the journal to the length recorded with it and cut the stack
    just before it; so it panics whenever [id] is not the identifier of a
    revision of the stack.  On a stack of revisions in the order of their
    creation, it panics if and only if [id] is not the identifier of a
    revision of the stack, and when revision number [i] of the stack has
    identifier [id], the journal is reverted to the length recorded with it
    and the stack is cut just before it.  The stack is in that order in
    every overlay reached from a fresh one by public operations of which
    fewer than [2^63] are calls of [Snapshot]. *)
Theorem RevertToSnapshot_spec (s : CommitStateDB) (revID : Z) :
  let reverted i r s' :=
    s' = set_revisions (take i (validRevisions s)) (nextRevisionID s)
           (journal_revert (journalIndex r) s)
    ∧ entries (journal_ s') = take (journalIndex r) (entries (journal_ s))
    ∧ validRevisions s' = take i (validRevisions s) in
  let present := ∃ r, r ∈ validRevisions s ∧ rev_id r = revID in
  let panics := RevertToSnapshot revID s = Panic "revision ID cannot be reverted" s in
  ((∃ s', RevertToSnapshot revID s = Done tt s') ∨ panics)
  ∧ (∀ s', RevertToSnapshot revID s = Done tt s' →
       ∃ i r, validRevisions s !! i = Some r ∧ rev_id r = revID ∧ reverted i r s')
  ∧ (¬ present → panics)
  ∧ (revisions_sorted (validRevisions s) →
     (panics ↔ ¬ present)
     ∧ (∀ i r, validRevisions s !! i = Some r → rev_id r = revID →
          ∃ s', RevertToSnapshot revID s = Done tt s' ∧ reverted i r s'))
  ∧ (∀ w ops, s = run ops (CreateEmptyCommitStateDB w) →
       Z.of_nat (snapshots ops) < 2 ^ 63 →
       revisions_sorted (validRevisions s)).
Proof.
  intros reverted present panics.
  assert (Hcases : (∃ s', RevertToSnapshot revID s = Done tt s') ∨ panics).
  { unfold panics, RevertToSnapshot.
    destruct (validRevisions s !! _) as [r |]; [| right; reflexivity].
    destruct (decide _); [left; eexists; reflexivity | right; reflexivity]. }
  assert (Hgen : ∀ s', RevertToSnapshot revID s = Done tt s' →
            ∃ i r, validRevisions s !! i = Some r ∧ rev_id r = revID ∧ reverted i r s').
  { intros s' Hrun. unfold RevertToSnapshot in Hrun.
    set (idx := sort_Search _ _) in Hrun.
    destruct (validRevisions s !! idx) as [r |] eqn:Hl; [| discriminate].
    destruct (decide (rev_id r = revID)) as [Hid | Hne]; [| discriminate].
    destruct (journal_revert_spec (journalIndex r) s) as (H1 & H2 & H3).
    rewrite H2, H3 in Hrun. injection Hrun as <-.
    exists idx, r. split; [exact Hl |]. split; [exact Hid |]. split; [reflexivity |].
    split; [exact H1 | reflexivity]. }
  assert (Hmiss : ¬ present → panics).
  { intros Hno. destruct Hcases as [[s' H] | H]; [| exact H].
    exfalso. destruct (Hgen s' H) as (i & r & Hl & Hid & _).
    apply Hno. exists r. split; [eapply list_elem_of_lookup_2; exact Hl | exact Hid]. }
  split; [exact Hcases |]. split; [exact Hgen |]. split; [exact Hmiss |].
  split.
  - intros Hs.
    destruct (search_revisions (validRevisions s) revID Hs) as [Hfound _].
    assert (Hpos : ∀ i r, validRevisions s !! i = Some r → rev_id r = revID →
              ∃ s', RevertToSnapshot revID s = Done tt s' ∧ reverted i r s').
    { intros i r Hi Hr. unfold RevertToSnapshot.
      fold (rev_ge (validRevisions s) revID).
      rewrite (Hfound i r Hi Hr), Hi.
      destruct (decide (rev_id r = revID)) as [_ | Hne]; [| contradiction].
      destruct (journal_revert_spec (journalIndex r) s) as (H1 & H2 & H3).
      eexists. split; [reflexivity |]. rewrite H2, H3.
      split; [reflexivity |]. split; [exact H1 | reflexivity]. }
    split; [| exact Hpos].
    split; [| exact Hmiss].
    intros Hp [r [Hin Hr]].
    apply list_elem_of_lookup_1 in Hin. destruct Hin as [i Hi].
    destruct (Hpos i r Hi Hr) as (s' & Hrun & _).
    unfold panics in Hp. rewrite Hrun in Hp. discriminate.
  - intros w ops -> Hb. apply revisions_sorted_run, Hb.
Qed.

End Overlay.

(** * Concrete overlays *)

Module Examples.

(** A stand-in for Keccak-256, and a validity check that accepts every
    denomination that is not empty. *)
Definition keccak (bs : list byte) : Hash :=
  foldl (λ h b, (h * 257 + Z.of_N (Byte.to_N b) + 1) mod 2 ^ 256) 7 bs.

Definition validDenom (d : string) : bool := negb (String.eqb d "").

Definition okt : string := "okt".

Definition alice : Address := 10.
Definition bob : Address := 20.
Definition carol : Address := 30.

(** A store that holds an account for [alice] and one for [bob], and
    blacklists [bob]. *)
Definition w0 : World :=
  mkWorld
    (<[alice := mkAccount alice ∅ 0 (keccak [])]>
       (<[bob := mkAccount bob (<[okt := 7]> ∅) 1 (keccak [])]> ∅))
    ∅ ∅ ∅ (mkParams okt true true) {[bob]}.

Definition db0 : CommitStateDB := CreateEmptyCommitStateDB w0.

Definition log0 : Log := mkLog alice [] [] 1 0 1 0 1 false.

(** C6: on a full counter [AddRefund 1] wraps to zero, which is not
    [r + g]. *)
Lemma AddRefund_wraps :
  let s := set_refund (2 ^ 64 - 1) db0 in
  refund (AddRefund 1 s) = 0 ∧ refund (AddRefund 1 s) ≠ refund s + 1.
Proof. split; [reflexivity | discriminate]. Qed.

Lemma refund_arithmetic_witness :
  let s := AddRefund 100 db0 in
  (0 ≤ refund s < 2 ^ 64 ∧ 0 ≤ 200 < 2 ^ 64)
  ∧ refund (AddRefund 200 s) = (refund s + 200) mod 2 ^ 64
  ∧ (refund s + 200 < 2 ^ 64 → refund (AddRefund 200 s) = refund s + 200)
  ∧ (panicked (SubRefund 200 s) = true ↔ 200 > refund s)
  ∧ (200 ≤ refund s →
     ∃ s', SubRefund 200 s = Done tt s' ∧ refund s' = refund s - 200).
Proof.
  assert (H : 0 ≤ refund (AddRefund 100 db0) < 2 ^ 64 ∧ 0 ≤ 200 < 2 ^ 64)
    by (repeat split; vm_compute; first [reflexivity | discriminate]).
  split; [exact H |].
  apply (refund_arithmetic (AddRefund 100 db0) 200); apply H.
Defined.

(** C3: the logs of the overlay survive [Reset]. *)
Lemma Reset_keeps_logs :
  logs (snd (Reset 0 (AddLog log0 db0))) ≠ [].
Proof. discriminate. Qed.

Lemma absent_account_reads_witness :
  (addressToObjectIndex db0 !! carol = None ∧ GetAccount (ctx db0) carol = None)
  ∧ fst (getStateObject carol db0) = None
  ∧ Error (snd (getStateObject carol db0)) = Some (ErrNoAccount carol)
  ∧ fst (GetBalance carol (snd (getStateObject carol db0))) = 0.
Proof.
  assert (H : addressToObjectIndex db0 !! carol = None ∧ GetAccount (ctx db0) carol = None)
    by (split; reflexivity).
  split; [exact H |].
  destruct (absent_account_reads db0 carol 0 (proj1 H) (proj2 H)) as (H1 & H2 & H3 & _).
  split; [exact H1 | split; [exact H2 | exact H3]].
Defined.

(** C7 on an overlay reached by public operations, which holds two
    snapshots and a journal: the revert to the first one, and the panic on
    an identifier that no revision carries. *)
Definition ops_rev : list op :=
  [OpSetBalance alice 5; OpSnapshot; OpSetNonce carol 3; OpSnapshot; OpSetState alice 1 2].

Definition db_rev : CommitStateDB := run keccak validDenom ops_rev db0.

Lemma RevertToSnapshot_spec_witness :
  (revisions_sorted (validRevisions db_rev) ∧ Z.of_nat (snapshots ops_rev) < 2 ^ 63)
  ∧ map rev_id (validRevisions db_rev) = [0; 1]
  ∧ length (entries (journal_ db_rev)) = 4%nat
  ∧ (∃ s', RevertToSnapshot 0 db_rev = Done tt s'
           ∧ entries (journal_ s') = take 1 (entries (journal_ db_rev))
           ∧ validRevisions s' = [])
  ∧ RevertToSnapshot 7 db_rev = Panic "revision ID cannot be reverted" db_rev.
Proof.
  assert (Hb : Z.of_nat (snapshots ops_rev) < 2 ^ 63) by (simpl; lia).
  destruct (RevertToSnapshot_spec keccak validDenom db_rev 0) as (_ & _ & _ & Hpos & Hreach).
  pose proof (Hreach w0 ops_rev eq_refl Hb) as Hs.
  destruct (RevertToSnapshot_spec keccak validDenom db_rev 7) as (_ & _ & _ & Hmiss & _).
  split; [split; [exact Hs | exact Hb] |].
  split; [vm_compute; reflexivity |].
  split; [vm_compute; reflexivity |].
  split.
  - destruct (Hpos Hs) as [_ Hat].
    destruct (Hat 0%nat (mkRevision 0 1)) as (s' & Hrun & _ & He & Hv);
      [vm_compute; reflexivity | reflexivity |].
    exists s'. split; [exact Hrun |]. split; [exact He | exact Hv].
  - apply (Hmiss Hs). intros (r & Hin & Hr).
    assert (Hv : validRevisions db_rev = [mkRevision 0 1; mkRevision 1 3])
      by (vm_compute; reflexivity).
    rewrite Hv in Hin.
    apply elem_of_cons in Hin. destruct Hin as [-> | Hin]; [discriminate |].
    apply list_elem_of_singleton in Hin. subst r. discriminate.
Defined.

(** C7: past the largest [int] the revision counter wraps.  On the overlay
    whose counter stands at [2^63 - 1], two calls of [Snapshot] leave a
    stack that is not in order, and the revert to either identifier of the
    stack panics. *)
Definition db_wrapped : CommitStateDB :=
  snd (Snapshot (snd (Snapshot (set_revisions [] (2 ^ 63 - 1) db0)))).

Lemma RevertToSnapshot_wrapped :
  map rev_id (validRevisions db_wrapped) = [2 ^ 63 - 1; - 2 ^ 63]
  ∧ panicked (RevertToSnapshot (2 ^ 63 - 1) db_wrapped) = true
  ∧ panicked (RevertToSnapshot (- 2 ^ 63) db_wrapped) = true.
Proof. repeat split; vm_compute; reflexivity. Qed.

(** C2 on the overlay that has set the balance of [alice] to 5. *)
Definition db_balance : CommitStateDB := SetBalance keccak alice 5 db0.

Lemma updateStateObject_overwrites_witness :
  let s' := snd (updateStateObject validDenom 0 db_balance) in
  ∃ e, (stateObjects db_balance !! 0%nat = Some e
        ∧ updateStateObject validDenom 0 db_balance = (None, s'))
       ∧ ∃ acc, GetAccount (ctx s') (acc_address (so_account (se_stateObject e))) = Some acc
                ∧ AmountOf (acc_coins acc) (evmDenom db_balance) = 5.
Proof.
  destruct (stateObjects db_balance !! 0%nat) as [e |] eqn:He; [| discriminate].
  assert (Hu : updateStateObject validDenom 0 db_balance
               = (None, snd (updateStateObject validDenom 0 db_balance))).
  { vm_compute. reflexivity. }
  exists e. split; [split; [reflexivity | exact Hu] |].
  destruct (updateStateObject_overwrites validDenom 0 db_balance _ e He Hu)
    as (_ & _ & (acc & Hacc & Ham) & _).
  exists acc. split; [exact Hacc |]. rewrite Ham.
  vm_compute in He. injection He as <-. vm_compute. reflexivity.
Defined.

(** C5: an overlay, reached by public operations, that holds a deleted
    object for [alice] while the keeper has her account: [Suicide] returns
    false although the account is loadable from the keeper. *)
Definition db_deleted : CommitStateDB :=
  run keccak validDenom
    [OpSetBalance alice 0; OpFinalise true; OpCommit false] db0.

Lemma Suicide_deleted_object :
  fst (Suicide alice db_deleted) = false
  ∧ is_Some (GetAccount (ctx db_deleted) alice)
  ∧ ∃ e, slot_of db_deleted alice = Some e ∧ deleted (se_stateObject e) = true.
Proof.
  split; [vm_compute; reflexivity |].
  split; [vm_compute; eauto |].
  destruct (slot_of db_deleted alice) as [e |] eqn:He; [| discriminate].
  exists e. split; [reflexivity |].
  vm_compute in He. injection He as <-. reflexivity.
Qed.

Lemma Suicide_spec_witness :
  wf_index db0
  ∧ fst (Suicide alice db0) = true
  ∧ fst (HasSuicided alice (snd (Suicide alice db0))) = true
  ∧ fst (GetBalance alice (snd (Suicide alice db0))) = 0.
Proof.
  assert (H : wf_index db0) by exact (indexed_empty se_address).
  split; [exact H |].
  destruct (Suicide_spec db0 alice H) as [Hiff Hafter].
  assert (Ht : fst (Suicide alice db0) = true).
  { apply Hiff. right. split; [reflexivity | vm_compute; eauto]. }
  split; [exact Ht | exact (Hafter Ht)].
Defined.

(** C8: [bob] is dirty and blacklisted, [alice] is suicided; [Commit(true)]
    stops at [bob] with an error and the keeper still has the account of
    [alice]. *)
Definition db_blocked : CommitStateDB :=
  run keccak validDenom [OpSetNonce bob 5; OpSuicide alice] db0.

Lemma Commit_stops_at_error :
  (∃ e, stateObjects db_blocked !! 1%nat = Some e
        ∧ se_address e = alice ∧ suicided (se_stateObject e) = true)
  ∧ snd (fst (Commit keccak validDenom true db_blocked)) = Some (ErrBlacklisted bob)
  ∧ is_Some (GetAccount (ctx (snd (Commit keccak validDenom true db_blocked))) alice).
Proof.
  split.
  { destruct (stateObjects db_blocked !! 1%nat) as [e |] eqn:He; [| discriminate].
    exists e. split; [reflexivity |].
    vm_compute in He. injection He as <-. split; reflexivity. }
  split; [vm_compute; reflexivity | vm_compute; eauto].
Qed.

(** C8 on an overlay whose commit succeeds: [alice] is suicided and
    leaves the keeper. *)
Definition db_suicided : CommitStateDB :=
  run keccak validDenom [OpSetNonce carol 3; OpSuicide alice] db0.

Lemma wf_objects_db_suicided : wf_objects db_suicided.
Proof.
  intros idx e He.
  destruct idx as [| [| idx]]; vm_compute in He; [| | discriminate];
    injection He as <-; split; reflexivity.
Qed.

Lemma wf_objects_db_blocked : wf_objects db_blocked.
Proof.
  intros idx e He.
  destruct idx as [| [| idx]]; vm_compute in He; [| | discriminate];
    injection He as <-; split; reflexivity.
Qed.

(** C8 on [db_suicided], whose commit succeeds and removes the suicided
    [alice], and on [db_blocked], whose commit stops at the blacklisted
    [bob] and leaves [alice], who comes after him, as she was. *)
Lemma Commit_spec_witness :
  ((wf_index db_suicided ∧ wf_objects db_suicided
    ∧ snd (fst (Commit keccak validDenom true db_suicided)) = None)
   ∧ fst (fst (Commit keccak validDenom true db_suicided)) = zeroHash
   ∧ GetAccount (ctx (snd (Commit keccak validDenom true db_suicided))) alice = None)
  ∧ ∃ eb ea,
      (wf_index db_blocked ∧ wf_objects db_blocked
       ∧ stateObjects db_blocked !! 0%nat = Some eb
       ∧ stateObjects db_blocked !! 1%nat = Some ea
       ∧ se_address ea = alice
       ∧ commit_writes keccak true db_blocked eb
       ∧ fst (updateStateObject validDenom 0 db_blocked) = Some (ErrBlacklisted bob))
      ∧ snd (fst (Commit keccak validDenom true db_blocked)) = Some (ErrBlacklisted bob)
      ∧ GetAccount (ctx (snd (Commit keccak validDenom true db_blocked))) alice
        = GetAccount (ctx db_blocked) alice
      ∧ stateObjects (snd (Commit keccak validDenom true db_blocked)) !! 1%nat = Some ea.
Proof.
  split.
  { assert (H1 : wf_index db_suicided).
    { apply wf_index_run. exact (indexed_empty se_address). }
    assert (H2 : snd (fst (Commit keccak validDenom true db_suicided)) = None)
      by (vm_compute; reflexivity).
    split; [split; [exact H1 | split; [exact wf_objects_db_suicided | exact H2]] |].
    destruct (Commit_spec keccak validDenom db_suicided) as (Hzero & Hobj & _).
    split; [apply Hzero |].
    destruct (stateObjects db_suicided !! 1%nat) as [e |] eqn:He; [| discriminate].
    destruct (Hobj H1 wf_objects_db_suicided H2 1%nat e He) as [Hdel _].
    vm_compute in He. injection He as <-.
    apply Hdel. left. reflexivity. }
  destruct (stateObjects db_blocked !! 0%nat) as [eb |] eqn:Heb; [| discriminate].
  destruct (stateObjects db_blocked !! 1%nat) as [ea |] eqn:Hea; [| discriminate].
  exists eb, ea.
  assert (W1 : wf_index db_blocked).
  { apply wf_index_run. exact (indexed_empty se_address). }
  assert (Ha : se_address ea = alice).
  { pose proof Hea as H. vm_compute in H. injection H as <-. reflexivity. }
  assert (W3 : commit_writes keccak true db_blocked eb).
  { pose proof Heb as H. vm_compute in H. injection H as <-.
    split; [reflexivity |]. split; [| intros _; vm_compute; reflexivity].
    right. apply (bool_decide_unpack _). vm_compute. exact I. }
  assert (W4 : fst (updateStateObject validDenom 0 db_blocked) = Some (ErrBlacklisted bob))
    by (vm_compute; reflexivity).
  split.
  { split; [exact W1 |]. split; [exact wf_objects_db_blocked |].
    split; [reflexivity |]. split; [reflexivity |]. split; [exact Ha |].
    split; [exact W3 | exact W4]. }
  destruct (Commit_spec keccak validDenom db_blocked) as (_ & _ & Hstop & _).
  destruct (Hstop true 0%nat eb (ErrBlacklisted bob) W1 wf_objects_db_blocked Heb W3 W4)
    as (R1 & R2 & R3 & _).
  { intros i ei Hi. lia. }
  split; [exact R1 |]. split.
  - rewrite <- Ha. apply (R2 1%nat ea); [lia | exact Hea].
  - apply (R3 1%nat ea); [lia | exact Hea].
Defined.

(** C1: the live object set is not restored.  On the empty overlay,
    [SetNonce] loads the account of [alice] from the keeper into the live
    set, where it stays after the revert; on [db_deleted], which caches an
    object of [alice] marked deleted while the keeper holds her account,
    [CreateAccount] journals a creation, the revert drops the cached
    object, and [alice], absent before, resolves from the keeper
    afterwards. *)
Lemma Snapshot_revert_live_set :
  (∃ s', RevertToSnapshot (fst (Snapshot db0))
           (run keccak validDenom [OpSetNonce alice 5] (snd (Snapshot db0)))
         = Done tt s'
         ∧ stateObjects db0 = []
         ∧ map se_address (stateObjects s') = [alice])
  ∧ (∃ s', RevertToSnapshot (fst (Snapshot db_deleted))
             (run keccak validDenom [OpCreateAccount alice] (snd (Snapshot db_deleted)))
           = Done tt s'
           ∧ map se_address (stateObjects db_deleted) = [alice]
           ∧ is_Some (GetAccount (ctx db_deleted) alice)
           ∧ stateObjects s' = []
           ∧ fst (Exist alice db_deleted) = false
           ∧ fst (Exist alice s') = true).
Proof.
  split.
  - destruct (RevertToSnapshot (fst (Snapshot db0))
                (run keccak validDenom [OpSetNonce alice 5] (snd (Snapshot db0))))
      as [[] s' | msg s'] eqn:E; [| vm_compute in E; discriminate].
    exists s'. split; [reflexivity |].
    vm_compute in E. injection E as <-.
    split; vm_compute; reflexivity.
  - destruct (RevertToSnapshot (fst (Snapshot db_deleted))
                (run keccak validDenom [OpCreateAccount alice] (snd (Snapshot db_deleted))))
      as [[] s' | msg s'] eqn:E; [| vm_compute in E; discriminate].
    exists s'. split; [reflexivity |].
    vm_compute in E. injection E as <-.
    split; [vm_compute; reflexivity |].
    split; [vm_compute; eauto |].
    repeat split; vm_compute; reflexivity.
Qed.

(** An overlay that holds a written object of [alice], a journal and a
    snapshot of its own. *)
Definition db_c1 : CommitStateDB :=
  snd (Snapshot (run keccak validDenom [OpSetBalance alice 5; OpSetState alice 1 2] db0)).

(** Writes to cached accounts, to one the keeper does not have, and to the
    logs, the preimages, the refund counter and the access list. *)
Definition ops_c1 : list op :=
  [OpSetBalance alice 6; OpSetNonce carol 3; OpSetState alice 1 3;
   OpAddBalance bob 4; OpSubBalance bob 1;
   OpSetCode alice [Byte.x01]; OpAddLog log0; OpAddPreimage 9 [Byte.x02];
   OpAddRefund 7; OpAddAddressToAccessList alice;
   OpAddSlotToAccessList bob 1; OpCreateAccount bob].

(** An overlay that caches an object of [alice] marked deleted, whose
    account has left the keeper. *)
Definition db_gone : CommitStateDB :=
  run keccak validDenom [OpSetBalance alice 0; OpFinalise true] db0.

Lemma good_db_gone : good db_gone ∧ deleted_gone db_gone.
Proof.
  split; [split; [| split] |].
  - apply wf_index_run. exact (indexed_empty se_address).
  - intros idx e H. destruct idx as [| idx]; vm_compute in H; [| discriminate].
    injection H as <-. reflexivity.
  - assert (Hal : accessList_ db_gone = newAccessList) by (vm_compute; reflexivity).
    rewrite Hal. exact al_wf_new.
  - intros idx e H. destruct idx as [| idx]; vm_compute in H; [| discriminate].
    injection H as <-. intros _. vm_compute. reflexivity.
Qed.

(** [db_gone] after writes to [bob], with a journal and a snapshot of its
    own. *)
Definition db_snap : CommitStateDB :=
  snd (Snapshot (run keccak validDenom [OpSetBalance bob 5; OpSetState bob 1 2] db_gone)).

Lemma good_db_snap : good db_snap ∧ deleted_gone db_snap.
Proof.
  destruct good_db_gone as [Hg Hnd].
  destruct (step_run keccak validDenom [OpSetBalance bob 5; OpSetState bob 1 2] db_gone)
    as (Hg1 & Hnd1 & _); [repeat constructor | exact Hg | exact Hnd |].
  split.
  - eapply good_same_overlay; [apply same_overlay_Snapshot | exact Hg1].
  - eapply deleted_gone_same_overlay; [apply same_overlay_Snapshot | exact Hnd1].
Qed.

(** C1 on [db_snap], which caches the deleted object of [alice], for a
    sequence that writes to [alice], to a cached account, to one the keeper
    does not have, and to the logs, the preimages, the refund counter and
    the access list; the revert drops the deleted object of [alice] from
    the live objects. *)
Lemma Snapshot_revert_restores_witness :
  (good db_snap ∧ deleted_gone db_snap
   ∧ (∀ r, r ∈ validRevisions db_snap → rev_id r < nextRevisionID db_snap)
   ∧ Forall (λ o, mutating o = true) ops_c1
   ∧ marks_counted (journal_ db_snap))
  ∧ (∃ e, slot_of db_snap alice = Some e ∧ deleted (se_stateObject e) = true)
  ∧ ∃ s', RevertToSnapshot (fst (Snapshot db_snap))
            (run keccak validDenom ops_c1 (snd (Snapshot db_snap))) = Done tt s'
          ∧ view_equiv db_snap s'
          ∧ reads_alike keccak db_snap s'
          ∧ journal_ s' = journal_ db_snap
          ∧ validRevisions s' = validRevisions db_snap
          ∧ map se_address (stateObjects db_snap) = [alice; bob]
          ∧ map se_address (stateObjects s') = [bob].
Proof.
  destruct good_db_snap as [Hg Hnd].
  assert (Hv : validRevisions db_snap = [mkRevision 0 2]) by (vm_compute; reflexivity).
  assert (Hn : nextRevisionID db_snap = 1) by (vm_compute; reflexivity).
  assert (Hlt : ∀ r, r ∈ validRevisions db_snap → rev_id r < nextRevisionID db_snap).
  { rewrite Hv, Hn. intros r Hr. apply list_elem_of_singleton in Hr. subst r.
    simpl. lia. }
  assert (Hops : Forall (λ o, mutating o = true) ops_c1)
    by (repeat constructor).
  assert (Hc : marks_counted (journal_ db_snap)).
  { apply (bool_decide_unpack _). vm_compute. exact I. }
  split.
  { split; [exact Hg |]. split; [exact Hnd |].
    split; [exact Hlt |]. split; [exact Hops | exact Hc]. }
  split.
  { destruct (slot_of db_snap alice) as [e |] eqn:He; [| discriminate].
    exists e. split; [reflexivity |]. vm_compute in He. injection He as <-. reflexivity. }
  destruct (Snapshot_revert_restores keccak validDenom db_snap ops_c1 Hg Hnd Hlt Hops)
    as (s' & H1 & H2 & H3 & _ & H5 & H6).
  exists s'. split; [exact H1 |]. split; [exact H2 |]. split; [exact H3 |].
  split; [exact (H5 Hc) |]. split; [exact H6 |].
  split; [vm_compute; reflexivity |].
  assert (Hl : stateObjects s'
               = stateObjects (res_state (RevertToSnapshot (fst (Snapshot db_snap))
                   (run keccak validDenom ops_c1 (snd (Snapshot db_snap))))))
    by (rewrite H1; reflexivity).
  rewrite Hl. vm_compute. reflexivity.
Defined.

(** ** Further properties on concrete overlays *)

(** An overlay that has written to [alice], whose account the keeper has,
    and to [carol], whose account it does not have. *)
Definition db_w : CommitStateDB :=
  run keccak validDenom
    [OpSetBalance alice 5; OpSetNonce carol 3; OpSetState alice 1 2] db0.

Lemma wf_index_db_w : wf_index db_w.
Proof. apply wf_index_run. exact (indexed_empty se_address). Qed.

(** X3 for two logs after [Prepare]. *)
Lemma AddLog_consecutive_indices_witness :
  let s := Prepare 11 22 3 db0 in
  (0 ≤ logSize s ∧ logSize s + Z.of_nat (length [log0; log0]) < 2 ^ 64)
  ∧ logs (AddLogs [log0; log0] s)
    = logs s ++ imap (λ i log, stamp_log s (logSize s + Z.of_nat i) log) [log0; log0]
  ∧ logSize (AddLogs [log0; log0] s) = logSize s + Z.of_nat (length [log0; log0])
  ∧ thash (AddLogs [log0; log0] s) = thash s
  ∧ bhash (AddLogs [log0; log0] s) = bhash s
  ∧ txIndex (AddLogs [log0; log0] s) = txIndex s.
Proof.
  intros s.
  assert (H1 : 0 ≤ logSize s) by (vm_compute; discriminate).
  assert (H2 : logSize s + Z.of_nat (length [log0; log0]) < 2 ^ 64)
    by (vm_compute; reflexivity).
  split; [split; [exact H1 | exact H2] |].
  exact (AddLog_consecutive_indices [log0; log0] s H1 H2).
Defined.

(** X7 on an overlay that holds a revision already. *)
Lemma Snapshot_fresh_revision_witness :
  (rev_inv db_c1 ∧ - 2 ^ 63 ≤ nextRevisionID db_c1 < 2 ^ 63 - 1)
  ∧ fst (Snapshot db_c1) = nextRevisionID db_c1
  ∧ (∀ r, r ∈ validRevisions db_c1 → rev_id r ≠ fst (Snapshot db_c1))
  ∧ nextRevisionID (snd (Snapshot db_c1)) = nextRevisionID db_c1 + 1
  ∧ rev_inv (snd (Snapshot db_c1))
  ∧ RevertToSnapshot (fst (Snapshot db_c1)) (snd (Snapshot db_c1))
    = Done tt (set_revisions (validRevisions db_c1) (nextRevisionID db_c1 + 1) db_c1).
Proof.
  assert (Hv : validRevisions db_c1 = [mkRevision 0 2]) by (vm_compute; reflexivity).
  assert (Hn : nextRevisionID db_c1 = 1) by (vm_compute; reflexivity).
  assert (H1 : rev_inv db_c1).
  { unfold rev_inv. rewrite Hv, Hn. split.
    - intros i j ri rj Hi Hj Hij. destruct j as [| j]; [lia |]. discriminate Hj.
    - intros r Hr. apply list_elem_of_singleton in Hr. subst r. simpl. lia. }
  assert (H2 : - 2 ^ 63 ≤ nextRevisionID db_c1 < 2 ^ 63 - 1)
    by (rewrite Hn; split; vm_compute; first [reflexivity | discriminate]).
  split; [split; [exact H1 | exact H2] |].
  exact (Snapshot_fresh_revision db_c1 H1 H2).
Defined.

(** X8 for two nested snapshots: the revert to the outer one consumes
    both. *)
Definition db_nested : CommitStateDB := snd (Snapshot (snd (Snapshot db0))).

Lemma RevertToSnapshot_consumes_witness :
  let s' := res_state (RevertToSnapshot 0 db_nested) in
  (revisions_sorted (validRevisions db_nested)
   ∧ RevertToSnapshot 0 db_nested = Done tt s')
  ∧ revisions_sorted (validRevisions s')
  ∧ (∀ r, r ∈ validRevisions s' → rev_id r < 0 ∧ r ∈ validRevisions db_nested)
  ∧ nextRevisionID s' = nextRevisionID db_nested
  ∧ ∀ id', 0 ≤ id' → panicked (RevertToSnapshot id' s') = true.
Proof.
  intros s'.
  assert (H1 : revisions_sorted (validRevisions db_nested)).
  { intros i j ri rj Hi Hj Hij.
    destruct i as [| [| i]]; destruct j as [| [| j]]; try lia;
      vm_compute in Hi, Hj; try discriminate.
    injection Hi as <-. injection Hj as <-. simpl. lia. }
  assert (H2 : RevertToSnapshot 0 db_nested = Done tt s')
    by (vm_compute; reflexivity).
  split; [split; [exact H1 | exact H2] |].
  exact (RevertToSnapshot_consumes db_nested s' 0 H1 H2).
Defined.

(** X9 for [bob], who is blacklisted and whose nonce [db_blocked] has
    written. *)
Lemma blacklisted_never_written_witness :
  BlacklistedAddr (ctx db_blocked) bob = true
  ∧ (let w' := ctx (snd (Commit keccak validDenom true db_blocked)) in
     BlacklistedAddr w' bob = true
     ∧ (GetAccount w' bob = GetAccount (ctx db_blocked) bob ∨ GetAccount w' bob = None))
  ∧ (let w' := ctx (snd (Finalise keccak validDenom true db_blocked)) in
     BlacklistedAddr w' bob = true
     ∧ (GetAccount w' bob = GetAccount (ctx db_blocked) bob ∨ GetAccount w' bob = None)).
Proof.
  assert (H : BlacklistedAddr (ctx db_blocked) bob = true) by (vm_compute; reflexivity).
  split; [exact H |].
  exact (blacklisted_never_written keccak validDenom true db_blocked bob H).
Defined.

(** X10 for [carol], on an overlay that holds her object, read at
    [alice]. *)
Lemma SetNonce_round_trip_witness :
  wf_index db_w
  ∧ fst (GetNonce alice (SetNonce keccak carol 9 db_w))
    = (if decide (alice = carol) then 9 else fst (GetNonce alice db_w))
  ∧ fst (Exist carol (SetNonce keccak carol 9 db_w)) = true.
Proof.
  split; [exact wf_index_db_w |].
  exact (SetNonce_round_trip keccak db_w carol alice 9 wf_index_db_w).
Defined.

(** X11 for [alice], whose balance [db_w] has written. *)
Lemma SetBalance_round_trip_witness :
  wf_index db_w
  ∧ fst (GetBalance alice (SetBalance keccak alice 8 db_w))
    = (if decide (alice = alice) then 8 else fst (GetBalance alice db_w))
  ∧ fst (GetBalance alice (AddBalance keccak alice 8 db_w))
    = fst (GetBalance alice db_w) + 8.
Proof.
  split; [exact wf_index_db_w |].
  exact (SetBalance_round_trip keccak db_w alice alice 8 wf_index_db_w).
Defined.

(** X12 for [bob], whom [db_w] has not loaded. *)
Lemma SetCode_round_trip_witness :
  wf_index db_w
  ∧ fst (GetCode bob (SetCode keccak bob [Byte.x01; Byte.x02] db_w))
    = (if decide (bob = bob) then [Byte.x01; Byte.x02] else fst (GetCode bob db_w))
  ∧ fst (GetCodeSize bob (SetCode keccak bob [Byte.x01; Byte.x02] db_w))
    = length [Byte.x01; Byte.x02]
  ∧ fst (GetCodeHash bob (SetCode keccak bob [Byte.x01; Byte.x02] db_w))
    = keccak [Byte.x01; Byte.x02].
Proof.
  split; [exact wf_index_db_w |].
  exact (SetCode_round_trip keccak db_w bob bob [Byte.x01; Byte.x02] wf_index_db_w).
Defined.

(** X13 for a key of [carol], read again at [alice]. *)
Lemma SetState_round_trip_witness :
  (wf_index db_w ∧ alice ≠ carol)
  ∧ fst (GetState carol 4 (SetState keccak carol 4 6 db_w)) = 6
  ∧ fst (GetState alice 1 (SetState keccak carol 4 6 db_w)) = fst (GetState alice 1 db_w).
Proof.
  assert (Hne : alice ≠ carol) by discriminate.
  split; [split; [exact wf_index_db_w | exact Hne] |].
  destruct (SetState_round_trip keccak db_w carol alice 4 1 6 wf_index_db_w) as [H1 H2].
  split; [exact H1 | exact (H2 Hne)].
Defined.

(** X14 for [alice], whose key 1 [db_w] has written: a write to key 7 is
    read back, key 1 still reads its value, the committed values do not
    move. *)
Lemma SetState_keeps_committed_witness :
  (wf_index db_w ∧ fst (Exist alice db_w) = true)
  ∧ fst (GetState alice 1 (SetState keccak alice 7 9 db_w))
    = (if decide (7 = 1) then 9 else fst (GetState alice 1 db_w))
  ∧ fst (GetCommittedState alice 1 (SetState keccak alice 7 9 db_w))
    = fst (GetCommittedState alice 1 db_w).
Proof.
  assert (H : fst (Exist alice db_w) = true) by (vm_compute; reflexivity).
  split; [split; [exact wf_index_db_w | exact H] |].
  exact (SetState_keeps_committed keccak db_w alice 7 1 9 wf_index_db_w H).
Defined.

(** X15 for [alice], who holds a balance of 5 and a written key in
    [db_w]. *)
Lemma CreateAccount_carries_balance_witness :
  (wf_index db_w ∧ bob ≠ alice)
  ∧ fst (GetBalance alice (CreateAccount keccak alice db_w)) = fst (GetBalance alice db_w)
  ∧ fst (GetNonce alice (CreateAccount keccak alice db_w)) = 0
  ∧ fst (Exist alice (CreateAccount keccak alice db_w)) = true
  ∧ fst (GetState alice 1 (CreateAccount keccak alice db_w))
    = default zeroHash (storageStore (ctx db_w) !! (alice, 1))
  ∧ fst (GetBalance bob (CreateAccount keccak alice db_w)) = fst (GetBalance bob db_w).
Proof.
  assert (Hne : bob ≠ alice) by discriminate.
  split; [split; [exact wf_index_db_w | exact Hne] |].
  destruct (CreateAccount_carries_balance keccak db_w alice bob 1 wf_index_db_w)
    as (H1 & H2 & _ & _ & H5 & H6 & H7).
  split; [exact H1 |]. split; [exact H2 |]. split; [exact H5 |]. split; [exact H6 |].
  exact (proj1 (H7 Hne)).
Defined.

(** X16 for [alice] in [db_w]. *)
Lemma Suicide_keeps_object_witness :
  (wf_index db_w ∧ fst (Suicide alice db_w) = true ∧ carol ≠ alice)
  ∧ fst (Exist alice (snd (Suicide alice db_w))) = true
  ∧ fst (GetNonce alice (snd (Suicide alice db_w))) = fst (GetNonce alice db_w)
  ∧ fst (Suicide alice (snd (Suicide alice db_w))) = true
  ∧ fst (GetBalance carol (snd (Suicide alice db_w))) = fst (GetBalance carol db_w).
Proof.
  assert (H : fst (Suicide alice db_w) = true) by (vm_compute; reflexivity).
  assert (Hne : carol ≠ alice) by discriminate.
  split; [split; [exact wf_index_db_w | split; [exact H | exact Hne]] |].
  destruct (Suicide_keeps_object db_w alice carol wf_index_db_w H)
    as (H1 & H2 & _ & H4 & H5).
  split; [exact H1 |]. split; [exact H2 |]. split; [exact H4 |].
  exact (proj1 (H5 Hne)).
Defined.

(** X18 for the entry of [alice] in [db_w]: the keeper has her account,
    with sequence zero. *)
Lemma UpdateAccounts_refreshes_witness :
  ∃ e, stateObjects db_w !! 0%nat = Some e
       ∧ se_address e = alice
       ∧ ctx (UpdateAccounts validDenom db_w) = ctx db_w
       ∧ ∃ e', stateObjects (UpdateAccounts validDenom db_w) !! 0%nat = Some e'
               ∧ se_address e' = alice
               ∧ dirtyStorage (se_stateObject e') = dirtyStorage (se_stateObject e)
               ∧ Nonce (se_stateObject e') = 0.
Proof.
  destruct (stateObjects db_w !! 0%nat) as [e |] eqn:He; [| vm_compute in He; discriminate].
  assert (Ha : se_address e = alice) by (vm_compute in He; injection He as <-; reflexivity).
  exists e. split; [reflexivity |]. split; [exact Ha |].
  destruct (UpdateAccounts_refreshes validDenom db_w 0%nat e He)
    as (Hc & _ & e' & He' & Ha' & _ & Hds & _ & _ & Hacc).
  split; [exact Hc |]. exists e'.
  split; [exact He' |]. split; [congruence |]. split; [exact Hds |].
  rewrite Ha in Hacc.
  assert (Hk : GetAccount (ctx db_w) alice = Some (mkAccount alice ∅ 0 (keccak [])))
    by (vm_compute; reflexivity).
  rewrite Hk in Hacc. exact (proj1 Hacc).
Defined.

(** X19 for [alice], suicided in [db_suicided]. *)
Lemma Commit_deletes_suicided_witness :
  (wf_index db_suicided ∧ fst (HasSuicided alice db_suicided) = true
   ∧ snd (fst (Commit keccak validDenom true db_suicided)) = None)
  ∧ fst (Exist alice (snd (Commit keccak validDenom true db_suicided))) = false
  ∧ fst (GetNonce alice (snd (Commit keccak validDenom true db_suicided))) = 0
  ∧ fst (HasSuicided alice (snd (Commit keccak validDenom true db_suicided))) = false.
Proof.
  assert (H1 : wf_index db_suicided).
  { apply wf_index_run. exact (indexed_empty se_address). }
  assert (H2 : fst (HasSuicided alice db_suicided) = true) by (vm_compute; reflexivity).
  assert (H3 : snd (fst (Commit keccak validDenom true db_suicided)) = None)
    by (vm_compute; reflexivity).
  split; [split; [exact H1 | split; [exact H2 | exact H3]] |].
  exact (Commit_deletes_suicided keccak validDenom true db_suicided alice H1 H2 H3).
Defined.

(** X21: a second preimage under the hash 9 is not recorded. *)
Lemma AddPreimage_first_wins_witness :
  wf_preimages db0
  ∧ Preimages (AddPreimage 9 [Byte.x02] db0) !! 9 = Some [Byte.x02]
  ∧ AddPreimage 9 [Byte.x03] (AddPreimage 9 [Byte.x02] db0) = AddPreimage 9 [Byte.x02] db0.
Proof.
  assert (H0 : wf_preimages db0) by exact (indexed_empty pe_hash).
  split; [exact H0 |].
  destruct (AddPreimage_first_wins db0 9 [Byte.x02] H0) as (H1 & H2 & _).
  assert (Hl : Preimages (AddPreimage 9 [Byte.x02] db0) !! 9 = Some [Byte.x02]).
  { rewrite H2. change (Preimages db0) with (∅ : gmap Z (list byte)).
    rewrite lookup_empty. apply lookup_insert_eq. }
  split; [exact Hl |].
  destruct (AddPreimage_first_wins (AddPreimage 9 [Byte.x02] db0) 9 [Byte.x03] H1)
    as (_ & _ & H3).
  rewrite Hl in H3. exact H3.
Defined.

(** X22 on the empty access list. *)
Lemma AccessList_add_witness :
  al_wf (accessList_ db0)
  ∧ SlotInAccessList alice 4 (AddSlotToAccessList alice 4 db0) = (true, true)
  ∧ AddressInAccessList bob (AddSlotToAccessList alice 4 db0)
    = bool_decide (bob = alice) || AddressInAccessList bob db0
  ∧ AddressInAccessList bob (AddAddressToAccessList alice db0)
    = bool_decide (bob = alice) || AddressInAccessList bob db0
  ∧ AddSlotToAccessList alice 4 (AddSlotToAccessList alice 4 db0)
    = AddSlotToAccessList alice 4 db0
  ∧ AddAddressToAccessList alice (AddAddressToAccessList alice db0)
    = AddAddressToAccessList alice db0.
Proof.
  split; [exact al_wf_new |].
  exact (AccessList_add db0 alice bob 4 al_wf_new).
Defined.

(** X23 for a read of the storage of [alice], which caches the committed
    value. *)
Lemma reads_do_not_interfere_witness :
  (wf_index db_w ∧ reading (OpGetState alice 3) = true)
  ∧ reads_alike keccak db_w (exec keccak validDenom (OpGetState alice 3) db_w)
  ∧ ctx (exec keccak validDenom (OpGetState alice 3) db_w) = ctx db_w
  ∧ journal_ (exec keccak validDenom (OpGetState alice 3) db_w) = journal_ db_w
  ∧ validRevisions (exec keccak validDenom (OpGetState alice 3) db_w) = validRevisions db_w
  ∧ stateObjectsDirty (exec keccak validDenom (OpGetState alice 3) db_w)
    = stateObjectsDirty db_w
  ∧ wf_index (exec keccak validDenom (OpGetState alice 3) db_w).
Proof.
  split; [split; [exact wf_index_db_w | reflexivity] |].
  exact (reads_do_not_interfere keccak validDenom (OpGetState alice 3) db_w
           wf_index_db_w eq_refl).
Defined.

(** X24 for an address that has no account. *)
Lemma creation_journal_witness :
  wf_index db_w
  ∧ entries (journal_ (snd (GetOrNewStateObject keccak 40 db_w)))
    = entries (journal_ db_w) ++ [createObjectChange 40]
  ∧ entries (journal_ (CreateAccount keccak 40 db_w))
    = entries (journal_ db_w) ++ [createObjectChange 40].
Proof.
  split; [exact wf_index_db_w |].
  pose proof (creation_journal keccak db_w 40 wf_index_db_w) as H.
  assert (He : fst (Exist 40 db_w) = false) by (vm_compute; reflexivity).
  rewrite He in H. exact H.
Defined.

(** X26 for [alice], dirtied by the journal of [db_w]. *)
Lemma Finalise_marks_dirty_witness :
  (wf_index db_w ∧ fst (Finalise keccak validDenom true db_w) = None)
  ∧ addressToObjectIndex (snd (Finalise keccak validDenom true db_w))
    = addressToObjectIndex db_w
  ∧ (alice ∈ stateObjectsDirty (snd (Finalise keccak validDenom true db_w))
     ↔ alice ∈ stateObjectsDirty db_w
       ∨ (alice ∈ dirty_address <$> dirties (journal_ db_w)
          ∧ is_Some (addressToObjectIndex db_w !! alice))).
Proof.
  assert (H : fst (Finalise keccak validDenom true db_w) = None)
    by (vm_compute; reflexivity).
  split; [split; [exact wf_index_db_w | exact H] |].
  exact (Finalise_marks_dirty keccak validDenom true db_w alice wf_index_db_w H).
Defined.

(** X27 on [db_suicided]. *)
Lemma Commit_idempotent_witness :
  (wf_index db_suicided ∧ wf_objects db_suicided
   ∧ snd (fst (Commit keccak validDenom true db_suicided)) = None)
  ∧ Commit keccak validDenom true (snd (Commit keccak validDenom true db_suicided))
    = ((zeroHash, None), snd (Commit keccak validDenom true db_suicided)).
Proof.
  assert (H1 : wf_index db_suicided).
  { apply wf_index_run. exact (indexed_empty se_address). }
  assert (H2 : snd (fst (Commit keccak validDenom true db_suicided)) = None)
    by (vm_compute; reflexivity).
  split; [split; [exact H1 | split; [exact wf_objects_db_suicided | exact H2]] |].
  exact (Commit_idempotent keccak validDenom true db_suicided H1
           wf_objects_db_suicided H2).
Defined.

End Examples.
